(** * Thermal control of the Prusa firmware: [Firmware/temperature.cpp]

    A shallow embedding of the thermal-control code and the properties
    it is expected to have.  The embedding follows the configuration of
    the stock MK3 build: [PIDTEMP] without [PID_OPENLOOP] or [PonM],
    standard (not [SLOW_PWM_HEATERS]) soft PWM with [SOFT_PWM_SCALE = 0],
    [TEMP_MODEL] and [AMBIENT_THERMISTOR] enabled, no [HEATER_0_USES_MAX6675].

    - The C integer types of the AVR target are written out: [int] and
      [short] are 16 bits, [long] is 32 bits, [uint8_t] is 8 bits.
    - [float] (and [double], which avr-gcc also makes 32 bits wide) is
      IEEE-754 binary32, taken from the Standard Library's executable
      specification [SpecFloat] with [prec = 24] and [emax = 128].

    Part I holds the embedding, Part II the properties. *)

From Stdlib Require Import ZArith QArith Lia Lqa Bool List.
From Stdlib Require Import Floats.SpecFloat.
From stdpp Require Import base list.
Import ListNotations.

Local Open Scope Z_scope.

(** * Part I: the embedding *)

(** ** Machine integers *)

Module Machine.

Definition wrap_unsigned (bits : Z) (x : Z) : Z := x mod 2 ^ bits.

Definition wrap_signed (bits : Z) (x : Z) : Z :=
  (x + 2 ^ (bits - 1)) mod 2 ^ bits - 2 ^ (bits - 1).

Definition uint8 := wrap_unsigned 8.
Definition int16 := wrap_signed 16.
Definition uint32 := wrap_unsigned 32.
Definition int32 := wrap_signed 32.

(** Arduino's [constrain(amt,low,high)] on integers. *)
Definition constrain (amt low high : Z) : Z :=
  if amt <? low then low else if amt >? high then high else amt.

End Machine.

(** ** The C type [float]: IEEE-754 binary32 *)

Module F32.

Definition prec : Z := 24.
Definition emax : Z := 128.

Definition float : Type := spec_float.

(** Conversion of an integer, rounding to nearest even. *)
Definition of_Z (n : Z) : float := binary_normalize prec emax n 0 false.

Definition add : float -> float -> float := SFadd prec emax.
Definition sub : float -> float -> float := SFsub prec emax.
Definition mul : float -> float -> float := SFmul prec emax.
Definition div : float -> float -> float := SFdiv prec emax.
Definition abs : float -> float := SFabs.

(** The C comparisons; each is false when an operand is NaN, except [!=]. *)
Definition lt (x y : float) : bool := SFltb x y.
Definition gt (x y : float) : bool := SFltb y x.
Definition le (x y : float) : bool := SFleb x y.
Definition ge (x y : float) : bool := SFleb y x.
Definition ne (x y : float) : bool := negb (SFeqb x y).

Definition zero : float := S754_zero false.
Definition nan : float := S754_nan.

Definition is_nan (x : float) : bool :=
  match x with S754_nan => true | _ => false end.

(** A decimal constant [num/den] of the source text, rounded to nearest. *)
Definition literal (num den : Z) : float := div (of_Z num) (of_Z den).

(** The C conversion to an integer type truncates toward zero; the
    conversion of a NaN or an infinity is undefined in C and yields 0 here. *)
Definition to_Z (x : float) : Z :=
  match x with
  | S754_finite s m e =>
      let a := Z.shiftl (Zpos m) e in if s then - a else a
  | _ => 0
  end.

(** Arduino's [constrain], [max] and [min] macros at type [float]. *)
Definition constrain (amt low high : float) : float :=
  if lt amt low then low else if gt amt high then high else amt.
Definition fmax (a b : float) : float := if gt a b then a else b.
Definition fmin (a b : float) : float := if lt a b then a else b.

End F32.

(** ** The values of binary32 numbers, and rounding to nearest even

    Specification-side definitions for the arithmetic of [F32]: the
    value of a float as an integer at a fixed scale, and the rounding
    that each operation of [F32] applies to the exact result. *)

Module Rounding.

(** The position of [V] on the grid of step [W], as the shift
    register of [SpecFloat] records it: the mantissa [m], the round
    bit and the sticky bit say in which quarter of the cell from
    [m * W] to [(m + 1) * W] the value [V] lies. *)
Definition located (mrs : shr_record) (W V : Z) : Prop :=
  let m := shr_m mrs in
  match shr_r mrs, shr_s mrs with
  | false, false => V = m * W
  | false, true => m * W < V /\ 2 * V < (2 * m + 1) * W
  | true, false => 2 * V = (2 * m + 1) * W
  | true, true => (2 * m + 1) * W < 2 * V /\ V < (m + 1) * W
  end.

(** [V / W] rounded to the nearest integer, ties to even. *)
Definition rne (V W : Z) : Z :=
  let q := V / W in
  let r := V mod W in
  if 2 * r <? W then q
  else if W <? 2 * r then q + 1
  else if Z.even q then q else q + 1.

(** Values are counted in units of [2 ^ (- K)]. *)
Definition K : Z := 100.

Definition sgn (s : bool) : Z := if s then -1 else 1.

(** The value of a float, times [2 ^ K]. *)
Definition valK (f : spec_float) : Z :=
  match f with
  | S754_finite s m e => sgn s * (Zpos m * 2 ^ (e + K))
  | _ => 0
  end.

(** A zero, or a finite number with a full mantissa of 24 bits whose
    value is an integer at the scale [K]: neither a NaN, nor an
    infinity, nor a subnormal number. *)
Definition normal (f : spec_float) : Prop :=
  match f with
  | S754_zero _ => True
  | S754_finite _ m e => Zpos (digits2_pos m) = 24 /\ - K <= e <= 104
  | _ => False
  end.

(** The exponent of the 24-bit rounding of [V / D]. *)
Definition expo (D V : Z) : Z := Z.log2 (V / D) - 23.

(** [V / D] rounded to 24 significant bits, for [V] at least [2 ^ 23 * D]. *)
Definition RK (D V : Z) : Z :=
  let j := expo D V in rne V (D * 2 ^ j) * 2 ^ j.

(** Rounding to 24 significant bits of a value of either sign. *)
Definition RZ (v : Z) : Z :=
  match v with
  | 0 => 0
  | Zpos _ => RK 1 v
  | Zneg _ => - RK 1 (- v)
  end.

(** Floats whose exponent leaves 23 bits above the scale, so that
    the alignment of a sum stays on it. *)
Definition low (f : spec_float) : Prop :=
  match f with S754_finite _ _ e => 23 - K <= e | _ => True end.

(** The rounded quotient of a value by the positive float of mantissa
    [my] and exponent [ey]. *)
Definition RD (my : positive) (ey : Z) (v : Z) : Z :=
  match v with
  | 0 => 0
  | Zpos _ => RK (Zpos my) (v * 2 ^ (- ey))
  | Zneg _ => - RK (Zpos my) (- v * 2 ^ (- ey))
  end.

(** The interpolation [t0 + x * dt / dr] of [Conversion.interpolate]
    with the three roundings of binary32, [dr] being the float of
    mantissa [my] and exponent [ey]. *)
Definition IV (t0 x dt : Z) (my : positive) (ey : Z) : Z :=
  RZ (t0 * 2 ^ K + RD my ey (RZ (x * dt * 2 ^ K))).

End Rounding.

(** ** The latched error state (set_temp_error) *)

Module TempErrorSource.
Inductive t := hotend | bed | ambient.
Definition to_uint8 (s : t) : Z :=
  match s with hotend => 0 | bed => 1 | ambient => 2 end.
End TempErrorSource.

(** thermal error type (in order of decreasing priority!) *)
Module TempErrorType.
Inductive t := max | min | preheat | runaway | model.
Definition to_uint8 (ty : t) : Z :=
  match ty with max => 0 | min => 1 | preheat => 2 | runaway => 3 | model => 4 end.
End TempErrorType.

Module ErrorState.

(** The bit-field view of the [temp_error_state] union; a field
    assignment keeps only the low bits that fit the field. *)
Record temp_error_state_t := {
  error : bool;     (* uint8_t error: 1 *)
  assert : bool;    (* uint8_t assert: 1 *)
  source : Z;       (* uint8_t source: 2 *)
  index : Z;        (* uint8_t index: 1 *)
  type : Z          (* uint8_t type: 3 *)
}.

(** The byte view [temp_error_state.v] (avr-gcc allocates bit-fields
    from the least significant bit). *)
Definition v (s : temp_error_state_t) : Z :=
  Z.b2z (error s) + 2 * Z.b2z (assert s) + 4 * source s + 16 * index s + 32 * type s.

(** [temp_error_state.v = 0], also the value of the static at power-on. *)
Definition cleared : temp_error_state_t :=
  {| error := false; assert := false; source := 0; index := 0; type := 0 |}.

(** Every field holds a value of its width. *)
Definition well_formed (s : temp_error_state_t) : Prop :=
  0 <= source s < 4 /\ 0 <= index s < 2 /\ 0 <= type s < 8.

Section SetTempError.

(** Everything outside the error word: target temperatures, saved
    recovery values, fan speed, heater outputs.  [temp_error_state]
    is a file-local static which none of the three collaborators
    below writes. *)
Variable world : Type.
(** [saved_bed_temperature = target_temperature_bed;
     saved_extruder_temperature = target_temperature[index];
     saved_fan_speed = fanSpeed;] *)
Variable save_recovery_values : Z -> world -> world.
Variable disable_heater : world -> world.
Variable hotendFanSetFullSpeed : world -> world.

Record state := { err : temp_error_state_t; rest : world }.

Definition set_temp_error
    (src : TempErrorSource.t) (idx : Z) (ty : TempErrorType.t) (st : state) : state :=
  let e := err st in
  (* save the original target temperatures for recovery before disabling heaters *)
  let w1 := if negb (error e) then save_recovery_values idx (rest st) else rest st in
  (* keep disabling heaters and keep fans on as long as the condition is asserted *)
  let w2 := hotendFanSetFullSpeed (disable_heater w1) in
  (* set the initial error source to the highest priority error *)
  let e1 :=
    if negb (error e) || (TempErrorType.to_uint8 ty <? type e)
    then {| error := error e; assert := assert e;
            source := Z.land (TempErrorSource.to_uint8 src) 3;
            index := Z.land (Machine.uint8 idx) 1;
            type := Z.land (TempErrorType.to_uint8 ty) 7 |}
    else e in
  (* always set the error state *)
  {| err := {| error := true; assert := true;
               source := source e1; index := index e1; type := type e1 |};
     rest := w2 |}.

(** One call of [set_temp_error] as data, and a run of calls in order. *)
Definition call : Type := TempErrorSource.t * Z * TempErrorType.t.

Definition raise (st : state) (c : call) : state :=
  let '(src, idx, ty) := c in set_temp_error src idx ty st.

Definition raise_all (cs : list call) (st : state) : state := fold_left raise cs st.

End SetTempError.

Arguments err {world} _.
Arguments rest {world} _.
Arguments Build_state {world} _ _.

Definition call_type (c : call) : Z := TempErrorType.to_uint8 (snd c).

(** The lowest ordinal (the highest priority) among the types raised. *)
Definition highest_priority (cs : list call) : option Z :=
  match cs with
  | [] => None
  | c :: cs' => Some (fold_left Z.min (map call_type cs') (call_type c))
  end.

(** The triple a call asks to record, as the fields will hold it. *)
Definition written (c : call) : Z * Z * Z :=
  let '(src, idx, ty) := c in
  (TempErrorSource.to_uint8 src, Z.land (Machine.uint8 idx) 1, TempErrorType.to_uint8 ty).

Definition recorded (s : temp_error_state_t) : Z * Z * Z := (source s, index s, type s).

(** The guard of the overwrite in [set_temp_error]. *)
Definition outranks (c : call) (s : temp_error_state_t) : bool :=
  negb (error s) || (call_type c <? type s).

End ErrorState.

(** ** Raw ADC counts to degrees (analog2temp) *)

Module Conversion.

(** One row [{raw, celsius}] of a temperature table in program
    memory; [PGM_RD_W] reads both columns as [short]. *)
Definition entry : Type := Z * Z.
Definition table : Type := list entry.

Record config := {
  EXTRUDERS : Z;
  (** [heater_ttbl_map]: a table per hotend, [None] for a [NULL] entry;
      [heater_ttbllen_map] is the length of the list. *)
  heater_ttbl_map : list (option table);
  OVERSAMPLENR : Z;
  (** [TEMP_SENSOR_AD595_GAIN] and [TEMP_SENSOR_AD595_OFFSET] as the
      decimal constants [num/den] of the configuration. *)
  TEMP_SENSOR_AD595_GAIN : Z * Z;
  TEMP_SENSOR_AD595_OFFSET : Z * Z
}.

Section Arithmetic.

(** The conversion is written once over the arithmetic of [float]:
    it is the firmware's code at binary32 ([analog2temp] below) and
    an idealisation without rounding at the rationals
    ([analog2temp_exact]). *)
Variable F : Type.
Variable of_int : Z -> F.
Variables fadd fmul fdiv : F -> F -> F.

Definition constant (c : Z * Z) : F := fdiv (of_int (fst c)) (of_int (snd c)).

(** [tt[i-1][1] + (raw - tt[i-1][0]) * (float)(tt[i][1] - tt[i-1][1])
                                       / (float)(tt[i][0] - tt[i-1][0])]
    with the subtractions done at type [int]. *)
Definition interpolate (lo hi : entry) (raw : Z) : F :=
  fadd (of_int (snd lo))
       (fdiv (fmul (of_int (Machine.int16 (raw - fst lo)))
                   (of_int (Machine.int16 (snd hi - snd lo))))
             (of_int (Machine.int16 (fst hi - fst lo)))).

(** The loop [for (i=1; i<len; i++)] entered with [prev = tt[i-1]]
    and [rest = tt[i..len-1]]; running off the end is the case
    [i == len] ("Overflow: Set to last value in the table"). *)
Fixpoint lookup_from (prev : entry) (rest : table) (raw : Z) : F :=
  match rest with
  | [] => of_int (snd prev)
  | cur :: rest' =>
      if fst cur >? raw then interpolate prev cur raw
      else lookup_from cur rest' raw
  end.

Definition table_lookup (tbl : table) (raw : Z) : F :=
  match tbl with
  | [] => of_int 0            (* neither branch assigns: [celsius = 0] *)
  | first :: rest => lookup_from first rest raw
  end.

(** [None] stands for the call of [kill] on an invalid extruder number. *)
Definition analog2temp_with (cfg : config) (raw e : Z) : option F :=
  if e >=? EXTRUDERS cfg then None
  else
    match heater_ttbl_map cfg !! Z.to_nat e with
    | Some (Some tbl) => Some (table_lookup tbl raw)
    | _ =>
        Some (fadd (fmul (fdiv (fmul (of_int raw)
                                     (fdiv (fmul (of_int 5) (of_int 100)) (of_int 1024)))
                               (of_int (OVERSAMPLENR cfg)))
                         (constant (TEMP_SENSOR_AD595_GAIN cfg)))
                   (constant (TEMP_SENSOR_AD595_OFFSET cfg)))
    end.

End Arithmetic.

Definition analog2temp : config -> Z -> Z -> option F32.float :=
  analog2temp_with F32.float F32.of_Z F32.add F32.mul F32.div.

Definition analog2temp_exact : config -> Z -> Z -> option Q :=
  analog2temp_with Q inject_Z Qplus Qmult Qdiv.

(** Consecutive rows of a table are related by [R]. *)
Fixpoint chained (R : entry -> entry -> Prop) (prev : entry) (rest : table) : Prop :=
  match rest with
  | [] => True
  | cur :: rest' => R prev cur /\ chained R cur rest'
  end.

Definition consecutive (R : entry -> entry -> Prop) (tbl : table) : Prop :=
  match tbl with [] => True | first :: rest => chained R first rest end.

Definition keys_increasing : table -> Prop := consecutive (fun a b => fst a < fst b).

(** The order along a table whose temperatures rise ([up = true]) or
    fall ([up = false], an NTC thermistor) with the raw count. *)
Definition dir_leZ (up : bool) (a b : Z) : Prop := if up then a <= b else b <= a.
Definition dir_le (up : bool) (a b : Q) : Prop := if up then (a <= b)%Q else (b <= a)%Q.
Definition dir_lt (up : bool) (a b : Q) : Prop := if up then (a < b)%Q else (b < a)%Q.

Definition temps_monotone (up : bool) : table -> Prop :=
  consecutive (fun a b => dir_leZ up (snd a) (snd b)).

(** The same order on the firmware's floats, by the comparison [<=] of C. *)
Definition dir_le32 (up : bool) (a b : F32.float) : bool :=
  if up then F32.le a b else F32.le b a.

(** The straight line through [(0, t0)] with slope [dt/dr]. *)
Definition line (t0 x dt dr : Z) : Q :=
  (inject_Z t0 + inject_Z x * inject_Z dt / inject_Z dr)%Q.

(** Raw counts are sums of [OVERSAMPLENR = 16] ten-bit samples, and a
    table covers them: all the [int] subtractions stay within 16 bits. *)
Definition small (x : Z) : Prop := -16384 <= x <= 16383.
Definition table_small (tbl : table) : Prop :=
  Forall (fun en => small (fst en) /\ small (snd en)) tbl.

(** The last row [tt[len-1]] of the table [prev :: rest]. *)
Fixpoint last_from (prev : entry) (rest : table) : entry :=
  match rest with
  | [] => prev
  | cur :: rest' => last_from cur rest'
  end.


Definition rows_ok (up : bool) (prev : entry) (rest : table) : Prop :=
  chained (fun a b => fst a < fst b) prev rest /\
  chained (fun a b => dir_leZ up (snd a) (snd b)) prev rest /\
  table_small (prev :: rest).

(** A table in the style of the firmware's thermistor tables (a 100k
    NTC thermistor with a 4.7k pull-up, keys scaled by the
    oversampling of 16), and a single-hotend configuration using it. *)
Definition example_table : table :=
  map (fun en => (fst en * 16, snd en))
    [(23, 300); (25, 295); (27, 290); (28, 285); (31, 280); (33, 275); (35, 270);
     (38, 265); (41, 260); (44, 255); (48, 250); (52, 245); (56, 240); (61, 235);
     (66, 230); (71, 225); (78, 220); (84, 215); (92, 210); (100, 205); (109, 200);
     (120, 195); (131, 190); (143, 185); (156, 180); (171, 175); (187, 170);
     (205, 165); (224, 160); (245, 155); (268, 150); (293, 145); (320, 140);
     (348, 135); (379, 130); (411, 125); (445, 120); (480, 115); (516, 110);
     (553, 105); (591, 100); (628, 95); (665, 90); (702, 85); (737, 80); (770, 75);
     (801, 70); (830, 65); (857, 60); (881, 55); (903, 50); (922, 45); (939, 40);
     (954, 35); (966, 30); (977, 25); (985, 20); (993, 15); (999, 10); (1004, 5);
     (1008, 0)].

Definition example_config : config :=
  {| EXTRUDERS := 1;
     heater_ttbl_map := [Some example_table];
     OVERSAMPLENR := 16;
     TEMP_SENSOR_AD595_GAIN := (1, 1);
     TEMP_SENSOR_AD595_OFFSET := (0, 1) |}.

(** All raw counts from [lo] up, [n] of them. *)
Definition raws_from (lo : Z) (n : nat) : list Z := map (fun k => lo + Z.of_nat k) (seq 0 n).

(** The binary32 conversion does not rise from [raw] to [raw + 1]. *)
Definition falls_at (cfg : config) (e raw : Z) : bool :=
  match analog2temp cfg raw e, analog2temp cfg (raw + 1) e with
  | Some a, Some b => F32.le b a
  | _, _ => false
  end.

End Conversion.

(** ** The soft-PWM generator (soft_pwm_core) *)

Module SoftPwm.

(** Per heater: the duty latched at the start of the cycle (the
    statics [soft_pwm_0], [soft_pwm_1], [soft_pwm_2]) and the level
    last written to the heater pin. *)
Record channel := { latched : Z; pin : bool }.

(** [pwm_count] is a static initialised to [1 << SOFT_PWM_SCALE]. *)
Record state := { pwm_count : Z; heaters : list channel }.

Definition initial (chs : list channel) : state := {| pwm_count := 1; heaters := chs |}.

(** One heater in one tick: at [pwm_count == 0] latch the duty
    register and write the pin high if the duty is positive, low
    otherwise; then write the pin low if the latched duty is below the
    counter. *)
Definition heater_tick (count duty : Z) (ch : channel) : channel :=
  let ch1 :=
    if count =? 0 then {| latched := duty; pin := 0 <? duty |} else ch in
  if latched ch1 <? count then {| latched := latched ch1; pin := false |} else ch1.

(** One call of [soft_pwm_core] with the duty registers [soft_pwm];
    [pwm_count += (1 << SOFT_PWM_SCALE); pwm_count &= 0x7f;]. *)
Definition soft_pwm_core (soft_pwm : list Z) (st : state) : state :=
  {| pwm_count := Z.land (Machine.uint8 (pwm_count st + 1)) 127;
     heaters := zip_with (heater_tick (pwm_count st)) soft_pwm (heaters st) |}.

(** [n] ticks with the duty registers held at [soft_pwm]: the final
    state and, tick by tick, the pin levels of heater [e]. *)
Fixpoint run (n : nat) (soft_pwm : list Z) (e : nat) (st : state) : state * list bool :=
  match n with
  | O => (st, [])
  | S n' =>
      let st1 := soft_pwm_core soft_pwm st in
      let level := match heaters st1 !! e with Some ch => pin ch | None => false end in
      let '(st2, levels) := run n' soft_pwm e st1 in
      (st2, level :: levels)
  end.

Definition on_ticks (levels : list bool) : Z := Z.of_nat (count_occ bool_dec levels true).

(** The same for one heater alone, given the counter. *)
Fixpoint run_channel (n : nat) (count duty : Z) (ch : channel) : list bool :=
  match n with
  | O => []
  | S n' =>
      let ch1 := heater_tick count duty ch in
      pin ch1 :: run_channel n' (Z.land (Machine.uint8 (count + 1)) 127) duty ch1
  end.

(** The level of a heater pin after the tick that finds the counter
    at [count], the duty [d] being latched. *)
Definition level (d count : Z) : bool := (0 <? d) && (count <=? d).

(** The channel is as the ticks since the last latch have left it,
    with the duty register at [d] all the while: nothing is asked of
    it at [pwm_count == 0], where the next tick latches anew. *)
Definition settled (d count : Z) (ch : channel) : Prop :=
  count = 0 \/ (latched ch = d /\ pin ch = level d (count - 1)).

(** One hotend as the reset leaves it, and the same after 191 ticks
    at full duty: in the middle of its second window. *)
Definition power_on : state := initial [{| latched := 0; pin := false |}].
Definition mid_window : state := fst (run 191 [127] 0 power_on).

End SoftPwm.

(** ** The hotend PID regulator (pid_heater) *)

Module Pid.
Import F32.

Record config := {
  PID_MAX : Z;
  PID_K1 : float;
  (** [cs.Kp], [cs.Ki], [cs.Kd] *)
  Kp : float;
  Ki : float;
  Kd : float
}.

(** The components at index [e] of the per-extruder statics. *)
Record channel := {
  iState_sum : float;
  dState_last : float;
  pTerm : float;
  iTerm : float;
  dTerm : float;
  pid_error : float;
  iState_sum_min : float;
  iState_sum_max : float;
  pid_reset : bool;
  maxttemp : Z;
  soft_pwm : Z
}.

(** [target - pid_input] *)
Definition error_of (current : float) (target : Z) : float := sub (of_Z target) current.

(** [if(pid_reset[e]) { iState_sum[e] = 0.0; dTerm[e] = 0.0; pid_reset[e] = false; }] *)
Definition apply_reset (ch : channel) : channel :=
  if pid_reset ch then
    {| iState_sum := zero; dState_last := dState_last ch;
       pTerm := pTerm ch; iTerm := iTerm ch; dTerm := zero; pid_error := pid_error ch;
       iState_sum_min := iState_sum_min ch; iState_sum_max := iState_sum_max ch;
       pid_reset := false; maxttemp := maxttemp ch; soft_pwm := soft_pwm ch |}
  else ch.

(** [iState_sum[e] += pid_error[e];
     iState_sum[e] = constrain(iState_sum[e], iState_sum_min[e], iState_sum_max[e]);] *)
Definition integrate (ch : channel) (err : float) : float :=
  constrain (add (iState_sum ch) err) (iState_sum_min ch) (iState_sum_max ch).

(** [(cs.Kd * (pid_input - dState_last[e]))*K2 + (PID_K1 * dTerm[e])]
    with [K2 = (1.0-PID_K1)] *)
Definition filtered_derivative (cfg : config) (current : float) (ch : channel) : float :=
  add (mul (mul (Kd cfg) (sub current (dState_last ch))) (sub (of_Z 1) (PID_K1 cfg)))
      (mul (PID_K1 cfg) (dTerm ch)).

(** [pTerm[e] + iTerm[e] - dTerm[e]], before the output is limited;
    for a non-zero target. *)
Definition unlimited_output (cfg : config) (current : float) (target : Z) (ch : channel)
    : float :=
  let ch0 := apply_reset ch in
  let err := error_of current target in
  sub (add (mul (Kp cfg) err) (mul (Ki cfg) (integrate ch0 err)))
      (filtered_derivative cfg current ch0).

Definition saturates_high cfg current target ch : bool :=
  gt (unlimited_output cfg current target ch) (of_Z (PID_MAX cfg)).

Definition saturates_low cfg current target ch : bool :=
  negb (saturates_high cfg current target ch) &&
  lt (unlimited_output cfg current target ch) (of_Z 0).

(** The regulation proper: the new statics and [pid_output]. *)
Definition regulate (cfg : config) (current : float) (target : Z) (ch : channel)
    : channel * float :=
  if target =? 0 then
    ({| iState_sum := iState_sum ch; dState_last := current;
        pTerm := pTerm ch; iTerm := iTerm ch; dTerm := dTerm ch; pid_error := pid_error ch;
        iState_sum_min := iState_sum_min ch; iState_sum_max := iState_sum_max ch;
        pid_reset := true; maxttemp := maxttemp ch; soft_pwm := soft_pwm ch |},
     of_Z 0)
  else
    let ch0 := apply_reset ch in
    let err := error_of current target in
    let sum := integrate ch0 err in
    let out := unlimited_output cfg current target ch in
    let high := gt out (of_Z (PID_MAX cfg)) in
    let low := lt out (of_Z 0) in
    ({| iState_sum :=
          if high then (if gt err (of_Z 0) then sub sum err else sum)  (* conditional un-integration *)
          else if low then (if lt err (of_Z 0) then sub sum err else sum)
          else sum;
        dState_last := current;
        pTerm := mul (Kp cfg) err;
        iTerm := mul (Ki cfg) sum;
        dTerm := filtered_derivative cfg current ch0;
        pid_error := err;
        iState_sum_min := iState_sum_min ch; iState_sum_max := iState_sum_max ch;
        pid_reset := false; maxttemp := maxttemp ch; soft_pwm := soft_pwm ch |},
     if high then of_Z (PID_MAX cfg) else if low then of_Z 0 else out).

(** [(int)pid_output >> 1] stored in an [unsigned char]. *)
Definition duty_of (pid_output : float) : Z :=
  Machine.uint8 (Z.shiftr (Machine.int16 (to_Z pid_output)) 1).

Definition pid_heater_channel (cfg : config) (current : float) (target : Z) (ch : channel)
    : channel :=
  let '(ch1, pid_output) := regulate cfg current target ch in
  (* Check if temperature is within the correct range *)
  let duty :=
    if lt current (of_Z (maxttemp ch1)) && negb (target =? 0)
    then duty_of pid_output else 0 in
  {| iState_sum := iState_sum ch1; dState_last := dState_last ch1;
     pTerm := pTerm ch1; iTerm := iTerm ch1; dTerm := dTerm ch1; pid_error := pid_error ch1;
     iState_sum_min := iState_sum_min ch1; iState_sum_max := iState_sum_max ch1;
     pid_reset := pid_reset ch1; maxttemp := maxttemp ch1; soft_pwm := duty |}.

(** [pid_heater(e, current, target)] on the arrays. *)
Definition pid_heater (cfg : config) (e : nat) (current : float) (target : Z)
    (chs : list channel) : list channel :=
  alter (pid_heater_channel cfg current target) e chs.

(** [lo <= x <= hi] as the C comparisons have it. *)
Definition within (x lo hi : float) : bool := le lo x && le x hi.

(** A hotend at rest with the integral limits of [soft_pwm_init]:
    [iState_sum_min = 0.0], [iState_sum_max = PID_INTEGRAL_DRIVE_MAX / cs.Ki]. *)
Definition at_rest (cfg : config) (drive_max : Z) (room : float) (maxtemp : Z) : channel :=
  {| iState_sum := zero; dState_last := room;
     pTerm := zero; iTerm := zero; dTerm := zero; pid_error := zero;
     iState_sum_min := of_Z 0; iState_sum_max := div (of_Z drive_max) (Ki cfg);
     pid_reset := false; maxttemp := maxtemp; soft_pwm := 0 |}.

(** The step ends in one of the two conditional un-integrations. *)
Definition unintegrates (cfg : config) (current : float) (target : Z) (ch : channel) : bool :=
  (saturates_high cfg current target ch && gt (error_of current target) (of_Z 0)) ||
  (saturates_low cfg current target ch && lt (error_of current target) (of_Z 0)).

(** Two sets of gains (as [M301] may set them), without a D term. *)
Definition stiff_gains : config :=
  {| PID_MAX := 255; PID_K1 := literal 95 100; Kp := of_Z 20; Ki := of_Z 51; Kd := of_Z 0 |}.
Definition plain_gains : config :=
  {| PID_MAX := 255; PID_K1 := literal 95 100; Kp := of_Z 16; Ki := of_Z 1; Kd := of_Z 0 |}.

End Pid.

(** ** Synchronisation with the temperature ISR (updateTemperatures) *)

Module Manager.
Import F32.

(** The foreground values and their ISR-side mirrors. *)
Record temperatures := {
  current_temperature : list float;
  current_temperature_bed : float;
  current_temperature_pinda : float;
  current_temperature_ambient : float;
  current_temperature_isr : list float;
  current_temperature_bed_isr : float;
  current_temperature_pinda_isr : float;
  current_temperature_ambient_isr : float;
  target_temperature : list Z;
  target_temperature_bed : Z;
  target_temperature_isr : list Z;
  target_temperature_bed_isr : Z;
  temp_error_state : ErrorState.temp_error_state_t;
  temp_meas_ready : bool
}.

(** [for(uint8_t e=0;e<EXTRUDERS;e++) dst[e] = src[e];] *)
Definition copy_array {A : Type} (extruders : nat) (src dst : list A) : list A :=
  fold_left (fun acc e => match src !! e with Some x => <[e:=x]> acc | None => acc end)
            (seq 0 extruders) dst.

Definition setCurrentTemperaturesFromIsr (extruders : nat) (t : temperatures) : temperatures :=
  {| current_temperature :=
       copy_array extruders (current_temperature_isr t) (current_temperature t);
     current_temperature_bed := current_temperature_bed_isr t;
     current_temperature_pinda := current_temperature_pinda_isr t;
     current_temperature_ambient := current_temperature_ambient_isr t;
     current_temperature_isr := current_temperature_isr t;
     current_temperature_bed_isr := current_temperature_bed_isr t;
     current_temperature_pinda_isr := current_temperature_pinda_isr t;
     current_temperature_ambient_isr := current_temperature_ambient_isr t;
     target_temperature := target_temperature t;
     target_temperature_bed := target_temperature_bed t;
     target_temperature_isr := target_temperature_isr t;
     target_temperature_bed_isr := target_temperature_bed_isr t;
     temp_error_state := temp_error_state t;
     temp_meas_ready := temp_meas_ready t |}.

Definition setIsrTargetTemperatures (extruders : nat) (t : temperatures) : temperatures :=
  {| current_temperature := current_temperature t;
     current_temperature_bed := current_temperature_bed t;
     current_temperature_pinda := current_temperature_pinda t;
     current_temperature_ambient := current_temperature_ambient t;
     current_temperature_isr := current_temperature_isr t;
     current_temperature_bed_isr := current_temperature_bed_isr t;
     current_temperature_pinda_isr := current_temperature_pinda_isr t;
     current_temperature_ambient_isr := current_temperature_ambient_isr t;
     target_temperature := target_temperature t;
     target_temperature_bed := target_temperature_bed t;
     target_temperature_isr :=
       copy_array extruders (target_temperature t) (target_temperature_isr t);
     target_temperature_bed_isr := target_temperature_bed t;
     temp_error_state := temp_error_state t;
     temp_meas_ready := temp_meas_ready t |}.

(** The body runs under a [TempMgrGuard], that is with the
    temperature ISR held off: it is one step for the ISR. *)
Definition updateTemperatures (extruders : nat) (t : temperatures) : temperatures :=
  let t1 := setCurrentTemperaturesFromIsr extruders t in
  let t2 :=
    if ErrorState.v (temp_error_state t1) =? 0
    then setIsrTargetTemperatures extruders t1   (* refuse to update target temperatures in any error condition! *)
    else t1 in
  {| current_temperature := current_temperature t2;
     current_temperature_bed := current_temperature_bed t2;
     current_temperature_pinda := current_temperature_pinda t2;
     current_temperature_ambient := current_temperature_ambient t2;
     current_temperature_isr := current_temperature_isr t2;
     current_temperature_bed_isr := current_temperature_bed_isr t2;
     current_temperature_pinda_isr := current_temperature_pinda_isr t2;
     current_temperature_ambient_isr := current_temperature_ambient_isr t2;
     target_temperature := target_temperature t2;
     target_temperature_bed := target_temperature_bed t2;
     target_temperature_isr := target_temperature_isr t2;
     target_temperature_bed_isr := target_temperature_bed_isr t2;
     temp_error_state := temp_error_state t2;
     temp_meas_ready := false |}.

(** A printer heating to 215/60 degrees, the ISR mirrors still at 0,
    with the given error word. *)
Definition heating_up (e : ErrorState.temp_error_state_t) : temperatures :=
  {| current_temperature := [of_Z 20];
     current_temperature_bed := of_Z 20;
     current_temperature_pinda := of_Z 20;
     current_temperature_ambient := of_Z 20;
     current_temperature_isr := [of_Z 24];
     current_temperature_bed_isr := of_Z 22;
     current_temperature_pinda_isr := of_Z 21;
     current_temperature_ambient_isr := of_Z 23;
     target_temperature := [215];
     target_temperature_bed := 60;
     target_temperature_isr := [0];
     target_temperature_bed_isr := 0;
     temp_error_state := e;
     temp_meas_ready := true |}.

End Manager.

(** ** The temperature model's parameters (temp_model::calibrated, load) *)

Module TempModel.
Import F32.

Definition TEMP_MODEL_R_SIZE : nat := 16.

(** The parameters of [temp_model::data] and its [uninitialized] flag. *)
Record model_data := {
  P : float;
  C : float;
  R : list float;             (* float R[TEMP_MODEL_R_SIZE] *)
  Ta_corr : float;
  warn : float;
  err : float;
  uninitialized : bool        (* flag_bits.uninitialized *)
}.

Record model := {
  data : model_data;
  enabled : bool;
  warn_beep : bool
}.

(** [!(temp_model::data.R[i] >= 0)] does not hold for any [i]. *)
Definition resistances_ok (r : list float) : bool :=
  forallb (fun i => match r !! i with Some x => ge x (of_Z 0) | None => false end)
          (seq 0 TEMP_MODEL_R_SIZE).

Definition calibrated (d : model_data) : bool :=
  if negb (ge (P d) (of_Z 0)) then false
  else if negb (ge (C d) (of_Z 0)) then false
  else if negb (ne (Ta_corr d) nan) then false
  else if negb (resistances_ok (R d)) then false
  else if negb (ne (warn d) nan) then false
  else if negb (ne (err d) nan) then false
  else true.

(** verify calibration status and trigger a model reset if valid *)
Definition setup (m : model) : model :=
  {| data := {| P := P (data m); C := C (data m); R := R (data m);
                Ta_corr := Ta_corr (data m); warn := warn (data m); err := err (data m);
                uninitialized := true |};
     enabled := if negb (calibrated (data m)) then false else enabled m;
     warn_beep := warn_beep m |}.

(** The defaults of the configuration. *)
Record defaults := {
  TEMP_MODEL_P : float;
  TEMP_MODEL_Ta_corr : float;
  TEMP_MODEL_W : float;
  TEMP_MODEL_E : float
}.

Definition default_data (dflt : defaults) (uninit : bool) : model_data :=
  {| P := TEMP_MODEL_P dflt; C := nan; R := repeat nan TEMP_MODEL_R_SIZE;
     Ta_corr := TEMP_MODEL_Ta_corr dflt; warn := TEMP_MODEL_W dflt; err := TEMP_MODEL_E dflt;
     uninitialized := uninit |}.

Definition temp_model_reset_settings (dflt : defaults) (m : model) : model :=
  {| data := default_data dflt (uninitialized (data m));
     enabled := false;
     warn_beep := true |}.

(** What the EEPROM holds at the [EEPROM_TEMP_MODEL_*] addresses. *)
Record eeprom := {
  ee_ENABLE : Z;              (* a byte *)
  ee_P : float;
  ee_C : float;
  ee_R : list float;
  ee_Ta_corr : float;
  ee_W : float;
  ee_E : float
}.

(** The parameters as read back from the EEPROM. *)
Definition stored_data (ee : eeprom) (uninit : bool) : model_data :=
  {| P := ee_P ee; C := ee_C ee;
     R := map (fun i => match ee_R ee !! i with Some x => x | None => nan end)
              (seq 0 TEMP_MODEL_R_SIZE);
     Ta_corr := ee_Ta_corr ee; warn := ee_W ee; err := ee_E ee;
     uninitialized := uninit |}.

Definition temp_model_load_settings (dflt : defaults) (ee : eeprom) (m : model) : model :=
  let loaded :=
    {| data := stored_data ee (uninitialized (data m));
       enabled := negb (ee_ENABLE ee =? 0);
       warn_beep := warn_beep m |} in
  let m1 :=
    if negb (calibrated (data loaded))
    then temp_model_reset_settings dflt loaded   (* "TM: stored calibration invalid, resetting" *)
    else loaded in
  setup m1.

(** The validity the specification asks for: [P > 0], [C > 0],
    every [R[i] >= 0], and [Ta_corr], [warn], [err] not NaN. *)
Definition valid_as_specified (d : model_data) : bool :=
  gt (P d) (of_Z 0) && gt (C d) (of_Z 0) && resistances_ok (R d) &&
  negb (is_nan (Ta_corr d)) && negb (is_nan (warn d)) && negb (is_nan (err d)).

(** Example parameters: a heater of zero power... *)
Definition powerless : model_data :=
  {| P := of_Z 0; C := of_Z 12; R := repeat (of_Z 20) TEMP_MODEL_R_SIZE;
     Ta_corr := of_Z (-7); warn := literal 12 10; err := literal 174 100;
     uninitialized := false |}.

(** ... a plausible calibration ... *)
Definition plausible : model_data :=
  {| P := of_Z 38; C := of_Z 12; R := repeat (of_Z 20) TEMP_MODEL_R_SIZE;
     Ta_corr := of_Z (-7); warn := literal 12 10; err := literal 174 100;
     uninitialized := false |}.

(** ... the same with [Ta_corr] not a number ... *)
Definition drifting : model_data :=
  {| P := of_Z 38; C := of_Z 12; R := repeat (of_Z 20) TEMP_MODEL_R_SIZE;
     Ta_corr := nan; warn := literal 12 10; err := literal 174 100;
     uninitialized := false |}.

Definition example_defaults : defaults :=
  {| TEMP_MODEL_P := of_Z 38; TEMP_MODEL_Ta_corr := of_Z (-7);
     TEMP_MODEL_W := literal 12 10; TEMP_MODEL_E := literal 174 100 |}.

(** ... and an erased EEPROM: every byte [0xFF], every float a NaN. *)
Definition erased : eeprom :=
  {| ee_ENABLE := 255; ee_P := nan; ee_C := nan; ee_R := repeat nan TEMP_MODEL_R_SIZE;
     ee_Ta_corr := nan; ee_W := nan; ee_E := nan |}.

End TempModel.

(** ** The relay autotuner (PID_autotune) *)

Module Autotune.
Import F32.

Record config := {
  EXTRUDERS : Z;
  PID_MAX : Z;
  MAX_BED_POWER : Z;
  (** [TEMP_BED_PIN > -1] *)
  has_bed : bool
}.

(** The lines written to the serial port. *)
Inductive message :=
| MsgBadExtruder                                   (* "PID Autotune failed. Bad extruder number." *)
| MsgStart                                         (* "PID Autotune start" *)
| MsgCycle (bias d : Z) (min max : float)          (* " bias: " " d: " " min: " " max: " *)
| MsgUltimate (Ku Tu : float)                      (* " Ku: " " Tu: " *)
| MsgClassic (Kp Ki Kd : float)                    (* " Classic PID " " Kp: " " Ki: " " Kd: " *)
| MsgTooHigh                                       (* "PID Autotune failed! Temperature too high" *)
| MsgReport (bed : bool) (input : float) (p : Z)   (* "B:" or "T:", the input, " @:", the duty *)
| MsgRunawayStop (bed : bool)                      (* temp_runaway_stop(false, extruder<0) *)
| MsgTimeout                                       (* "PID Autotune failed! timeout" *)
| MsgFinished.                                     (* "PID Autotune finished! ..." *)

(** How a call of [PID_autotune] returns. *)
Inductive outcome :=
| BadExtruder
| TooHigh
| NotHeating
| TimedOut
| Finished.

Definition failure (o : outcome) : bool :=
  match o with Finished => false | _ => true end.

(** The locals of [PID_autotune] and the globals it writes.  The
    locals [max] and [min] are [max_seen] and [min_seen] here. *)
Record state := {
  input : float;
  pid_cycle : Z;
  heating : bool;
  temp_millis : Z;
  t1 : Z;
  t2 : Z;
  t_high : Z;
  t_low : Z;
  bias : Z;
  d : Z;
  max_seen : float;
  min_seen : float;
  safety_check_cycles : Z;
  temp_ambient : float;
  (** [soft_pwm_bed] or [soft_pwm[extruder]] *)
  soft_pwm : Z;
  _Kp : float;
  _Ki : float;
  _Kd : float;
  pid_tuning_finished : bool;
  (** the serial output, oldest line first *)
  serial : list message
}.

(** What one turn of the [for(;;)] loop reads from outside: the
    millisecond clock, [temp_meas_ready], and the temperature of the
    tuned heater as [updateTemperatures] delivers it. *)
Record sample := {
  now : Z;
  temp_meas_ready : bool;
  reading : float
}.

Section Tuner.

Variable cfg : config.
(** The arguments [temp], [extruder] and [ncycles]. *)
Variable temp : float.
Variable extruder : Z.
Variable ncycles : Z.

Definition is_bed : bool := extruder <? 0.

(** [extruder<0?(MAX_BED_POWER):(PID_MAX)] *)
Definition max_power : Z := if is_bed then MAX_BED_POWER cfg else PID_MAX cfg.

(** [const uint8_t safety_check_cycles_count = (extruder < 0) ? 45 : 10;] *)
Definition safety_check_cycles_count : Z := if is_bed then 45 else 10.

Definition bad_extruder : bool :=
  (extruder >=? EXTRUDERS cfg) || (negb (has_bed cfg) && (extruder <? 0)).

(** The code up to the loop; [gains] are the values of [_Kp], [_Ki], [_Kd] so far. *)
Definition start (t0 : Z) (gains : float * float * float) : state + list message :=
  if bad_extruder then inr [MsgBadExtruder]
  else
    inl {| input := of_Z 0; pid_cycle := 0; heating := true;
           temp_millis := t0; t1 := t0; t2 := t0; t_high := 0; t_low := 0;
           bias := Z.quot max_power 2; d := Z.quot max_power 2;
           max_seen := of_Z 0; min_seen := of_Z 10000;
           safety_check_cycles := 0; temp_ambient := of_Z 0;
           soft_pwm := Machine.uint8 (Z.quot max_power 2);
           _Kp := fst (fst gains); _Ki := snd (fst gains); _Kd := snd gains;
           pid_tuning_finished := false;
           serial := [MsgStart] |}.

(** [input = ...; max=max(max,input); min=min(min,input);] *)
Definition observe (x : float) (st : state) : state :=
  {| input := x; pid_cycle := pid_cycle st; heating := heating st;
     temp_millis := temp_millis st; t1 := t1 st; t2 := t2 st;
     t_high := t_high st; t_low := t_low st; bias := bias st; d := d st;
     max_seen := fmax (max_seen st) x; min_seen := fmin (min_seen st) x;
     safety_check_cycles := safety_check_cycles st; temp_ambient := temp_ambient st;
     soft_pwm := soft_pwm st; _Kp := _Kp st; _Ki := _Ki st; _Kd := _Kd st;
     pid_tuning_finished := pid_tuning_finished st; serial := serial st |}.

(** [if(heating == true && input > temp) if(_millis() - t2 > 5000)] *)
Definition switches_off (clock : Z) (st : state) : bool :=
  heating st && gt (input st) temp && (Machine.uint32 (clock - t2 st) >? 5000).

Definition switch_off (clock : Z) (st : state) : state :=
  if switches_off clock st then
    {| input := input st; pid_cycle := pid_cycle st; heating := false;
       temp_millis := temp_millis st; t1 := clock; t2 := t2 st;
       t_high := Machine.int32 (Machine.uint32 (clock - t2 st)); t_low := t_low st;
       bias := bias st; d := d st;
       max_seen := temp; min_seen := min_seen st;
       safety_check_cycles := safety_check_cycles st; temp_ambient := temp_ambient st;
       soft_pwm := Machine.uint8 (Z.shiftr (Machine.int32 (bias st - d st)) 1);
       _Kp := _Kp st; _Ki := _Ki st; _Kd := _Kd st;
       pid_tuning_finished := pid_tuning_finished st; serial := serial st |}
  else st.

(** [if(heating == false && input < temp) if(_millis() - t1 > 5000)] *)
Definition switches_on (clock : Z) (st : state) : bool :=
  negb (heating st) && lt (input st) temp && (Machine.uint32 (clock - t1 st) >? 5000).

(** [bias += (d*(t_high - t_low))/(t_low + t_high);
     bias = constrain(bias, 20, max_power - 20);] at type [long] *)
Definition next_bias (st : state) (tl : Z) : Z :=
  Machine.constrain
    (Machine.int32
       (bias st + Z.quot (Machine.int32 (d st * Machine.int32 (t_high st - tl)))
                         (Machine.int32 (tl + t_high st))))
    20 (max_power - 20).

(** [if(bias > max_power/2) d = max_power - 1 - bias; else d = bias;] *)
Definition next_d (b : Z) : Z :=
  if b >? Z.quot max_power 2 then max_power - 1 - b else b.

(** [Ku = (4.0*d)/(3.14159*(max-min)/2.0);] *)
Definition ultimate_gain (dd : Z) (mx mn : float) : float :=
  div (mul (of_Z 4) (of_Z dd))
      (div (mul (literal 314159 100000) (sub mx mn)) (of_Z 2)).

(** [Tu = ((float)(t_low + t_high)/1000.0);] *)
Definition ultimate_period (tl th : Z) : float :=
  div (of_Z (Machine.int32 (tl + th))) (of_Z 1000).

(** [_Kp = 0.6*Ku; _Ki = 2*_Kp/Tu; _Kd = _Kp*Tu/8;] *)
Definition classic_Kp (Ku : float) : float := mul (literal 6 10) Ku.
Definition classic_Ki (Kp Tu : float) : float := div (mul (of_Z 2) Kp) Tu.
Definition classic_Kd (Kp Tu : float) : float := div (mul Kp Tu) (of_Z 8).

Definition switch_on (clock : Z) (st : state) : state :=
  if switches_on clock st then
    let tl := Machine.int32 (Machine.uint32 (clock - t1 st)) in
    let tune := 0 <? pid_cycle st in
    let b := if tune then next_bias st tl else bias st in
    let dd := if tune then next_d b else d st in
    let report := tune && (2 <? pid_cycle st) in
    let Ku := ultimate_gain dd (max_seen st) (min_seen st) in
    let Tu := ultimate_period tl (t_high st) in
    let Kp := classic_Kp Ku in
    {| input := input st;
       pid_cycle := Machine.int16 (pid_cycle st + 1);
       heating := true;
       temp_millis := temp_millis st; t1 := t1 st; t2 := clock;
       t_high := t_high st; t_low := tl;
       bias := b; d := dd;
       max_seen := max_seen st; min_seen := temp;
       safety_check_cycles := safety_check_cycles st; temp_ambient := temp_ambient st;
       soft_pwm := Machine.uint8 (Z.shiftr (Machine.int32 (b + dd)) 1);
       _Kp := if report then Kp else _Kp st;
       _Ki := if report then classic_Ki Kp Tu else _Ki st;
       _Kd := if report then classic_Kd Kp Tu else _Kd st;
       pid_tuning_finished := pid_tuning_finished st;
       serial :=
         serial st ++
         (if tune then [MsgCycle b dd (min_seen st) (max_seen st)] else []) ++
         (if report
          then [MsgUltimate Ku Tu; MsgClassic Kp (classic_Ki Kp Tu) (classic_Kd Kp Tu)]
          else []) |}
  else st.

(** [if(temp_meas_ready == true) { ... }] *)
Definition measure (s : sample) (st : state) : state :=
  if temp_meas_ready s
  then switch_on (now s) (switch_off (now s) (observe (reading s) st))
  else st.

(** [if(input > (temp + 20))] *)
Definition too_high (st : state) : bool := gt (input st) (add temp (of_Z 20)).

(** [if(_millis() - temp_millis > 2000)] *)
Definition report_due (clock : Z) (st : state) : bool :=
  Machine.uint32 (clock - temp_millis st) >? 2000.

(** The check that the temperature is rising, made once, in the
    report that finds [safety_check_cycles == safety_check_cycles_count]:
    [if (fabs(input - temp_ambient) < 5.0)]. *)
Definition not_heating (clock : Z) (st : state) : bool :=
  report_due clock st &&
  (safety_check_cycles st =? safety_check_cycles_count) &&
  lt (abs (sub (input st) (temp_ambient st))) (of_Z 5).

(** [if(((_millis() - t1) + (_millis() - t2)) > (10L*60L*1000L*2L))] *)
Definition timed_out (clock : Z) (st : state) : bool :=
  Machine.uint32 (Machine.uint32 (clock - t1 st) + Machine.uint32 (clock - t2 st))
  >? 10 * 60 * 1000 * 2.

(** Leaving the loop: [pid_tuning_finished = true], a last line, and
    [pid_cycle = 0] on every exit but the one through [temp_runaway_stop]. *)
Definition leave (line : message) (reset_cycle : bool) (st : state) : state :=
  {| input := input st;
     pid_cycle := if reset_cycle then 0 else pid_cycle st;
     heating := heating st;
     temp_millis := temp_millis st; t1 := t1 st; t2 := t2 st;
     t_high := t_high st; t_low := t_low st; bias := bias st; d := d st;
     max_seen := max_seen st; min_seen := min_seen st;
     safety_check_cycles := safety_check_cycles st; temp_ambient := temp_ambient st;
     soft_pwm := soft_pwm st; _Kp := _Kp st; _Ki := _Ki st; _Kd := _Kd st;
     pid_tuning_finished := true;
     serial := serial st ++ [line] |}.

(** The periodic report, and the bookkeeping of the safety check that
    continues the loop. *)
Definition report (clock : Z) (st : state) : state :=
  let first := safety_check_cycles st =? 0 in
  let counts := first || (safety_check_cycles st <=? safety_check_cycles_count) in
  {| input := input st; pid_cycle := pid_cycle st; heating := heating st;
     temp_millis := clock; t1 := t1 st; t2 := t2 st;
     t_high := t_high st; t_low := t_low st; bias := bias st; d := d st;
     max_seen := max_seen st; min_seen := min_seen st;
     safety_check_cycles :=
       if counts then Machine.uint8 (safety_check_cycles st + 1) else safety_check_cycles st;
     temp_ambient := if first then input st else temp_ambient st;   (* save ambient temp *)
     soft_pwm := soft_pwm st; _Kp := _Kp st; _Ki := _Ki st; _Kd := _Kd st;
     pid_tuning_finished := pid_tuning_finished st;
     serial := serial st ++ [MsgReport is_bed (input st) (soft_pwm st)] |}.

(** The line that announces each way of returning. *)
Definition final_line (o : outcome) : message :=
  match o with
  | BadExtruder => MsgBadExtruder
  | TooHigh => MsgTooHigh
  | NotHeating => MsgRunawayStop is_bed
  | TimedOut => MsgTimeout
  | Finished => MsgFinished
  end.

(** One turn of the loop: the state, and how the function returned if it did. *)
Definition iteration (s : sample) (st : state) : state * option outcome :=
  let st1 := measure s st in
  if too_high st1 then (leave MsgTooHigh true st1, Some TooHigh)
  else
    let due := report_due (now s) st1 in
    let st2 := if due then report (now s) st1 else st1 in
    if not_heating (now s) st1 then (leave (MsgRunawayStop is_bed) false
                                       {| input := input st2; pid_cycle := pid_cycle st2;
                                          heating := heating st2;
                                          temp_millis := temp_millis st1;
                                          t1 := t1 st2; t2 := t2 st2;
                                          t_high := t_high st2; t_low := t_low st2;
                                          bias := bias st2; d := d st2;
                                          max_seen := max_seen st2; min_seen := min_seen st2;
                                          safety_check_cycles := safety_check_cycles st2;
                                          temp_ambient := temp_ambient st2;
                                          soft_pwm := soft_pwm st2;
                                          _Kp := _Kp st2; _Ki := _Ki st2; _Kd := _Kd st2;
                                          pid_tuning_finished := pid_tuning_finished st2;
                                          serial := serial st2 |},
                                     Some NotHeating)
    else if timed_out (now s) st2 then (leave MsgTimeout true st2, Some TimedOut)
    else if pid_cycle st2 >? ncycles then (leave MsgFinished true st2, Some Finished)
    else (st2, None).

(** The loop over the samples the environment supplies; [None] when
    they run out before the function returns. *)
Fixpoint loop (samples : list sample) (st : state) : state * option outcome :=
  match samples with
  | [] => (st, None)
  | s :: rest =>
      match iteration s st with
      | (st', Some o) => (st', Some o)
      | (st', None) => loop rest st'
      end
  end.

Definition PID_autotune (t0 : Z) (gains : float * float * float) (samples : list sample)
    : list message * option outcome :=
  match start t0 gains with
  | inr lines => (lines, Some BadExtruder)
  | inl st => let '(st', o) := loop samples st in (serial st', o)
  end.

End Tuner.

(** A hotend tuned at 210 degrees for 3 cycles. *)
Definition example_config : config :=
  {| EXTRUDERS := 1; PID_MAX := 255; MAX_BED_POWER := 255; has_bed := true |}.

Definition no_gains : float * float * float := (of_Z 0, of_Z 0, of_Z 0).

(** A heater that follows the relay: 10 degrees per second up to 215
    degrees, then a 12 second oscillation between 209 and 215 degrees;
    one sample per second. *)
Definition oscillation (t : Z) : Z :=
  if t <=? 19 then 25 + 10 * t
  else let k := (t - 19) mod 12 in if k <=? 6 then 215 - k else 209 + (k - 6).

Definition oscillating (seconds : nat) : list sample :=
  map (fun k => {| now := 1000 * (Z.of_nat k + 1); temp_meas_ready := true;
                   reading := of_Z (oscillation (Z.of_nat k + 1)) |})
      (seq 0 seconds).

(** A heater too weak for the target: from 25 degrees it gains 7
    degrees per sample up to 110 degrees and stays there; a sample every
    2001 ms for a little under ten minutes, and one more at 600001 ms. *)
Definition weak_heater : list sample :=
  map (fun k => {| now := 2001 * (Z.of_nat k + 1); temp_meas_ready := true;
                   reading := of_Z (Z.min (25 + 7 * Z.of_nat k) 110) |})
      (seq 0 299)
  ++ [{| now := 600001; temp_meas_ready := true; reading := of_Z 110 |}].

(** The lines that report gains. *)
Definition reports_gains (m : message) : bool :=
  match m with MsgUltimate _ _ | MsgClassic _ _ _ => true | _ => false end.

Definition is_cycle_line (m : message) : bool :=
  match m with MsgCycle _ _ _ _ => true | _ => false end.

End Autotune.

(** ** Floats as the operations deliver them *)

Module Mantissa.

(** The mantissa of a finite number has at most 24 bits. *)
Definition fits (f : spec_float) : Prop :=
  match f with
  | S754_finite _ m _ => Zpos (digits2_pos m) <= 24
  | _ => True
  end.

End Mantissa.

(** ** The bed PID regulator (pid_bed), with [PIDTEMPBED] *)

Module PidBed.
Import F32.

Record config := {
  MAX_BED_POWER : Z;
  BED_MAXTEMP : Z;
  PID_K1 : float;
  (** [cs.bedKp], [cs.bedKi], [cs.bedKd] *)
  bedKp : float;
  bedKi : float;
  bedKd : float
}.

(** The statics of the bed regulator, the duty register and the value
    last handed to [timer02_set_pwm0]. *)
Record state := {
  temp_iState_bed : float;
  temp_dState_bed : float;
  pTerm_bed : float;
  iTerm_bed : float;
  dTerm_bed : float;
  pid_error_bed : float;
  temp_iState_min_bed : float;
  temp_iState_max_bed : float;
  soft_pwm_bed : Z;
  pwm0 : Z
}.

(** [temp_iState_bed += pid_error_bed;
     temp_iState_bed = constrain(temp_iState_bed, temp_iState_min_bed, temp_iState_max_bed);] *)
Definition integrate (st : state) (err : float) : float :=
  constrain (add (temp_iState_bed st) err) (temp_iState_min_bed st) (temp_iState_max_bed st).

(** [(cs.bedKd * (pid_input - temp_dState_bed))*K2 + (PID_K1 * dTerm_bed)] *)
Definition filtered_derivative (cfg : config) (current : float) (st : state) : float :=
  add (mul (mul (bedKd cfg) (sub current (temp_dState_bed st))) (sub (of_Z 1) (PID_K1 cfg)))
      (mul (PID_K1 cfg) (dTerm_bed st)).

(** [pTerm_bed + iTerm_bed - dTerm_bed], before the output is limited. *)
Definition unlimited_output (cfg : config) (current : float) (target : Z) (st : state)
    : float :=
  let err := Pid.error_of current target in
  sub (add (mul (bedKp cfg) err) (mul (bedKi cfg) (integrate st err)))
      (filtered_derivative cfg current st).

(** The regulation proper: the new statics and [pid_output]. *)
Definition regulate (cfg : config) (current : float) (target : Z) (st : state)
    : state * float :=
  let err := Pid.error_of current target in
  let sum := integrate st err in
  let out := unlimited_output cfg current target st in
  let high := gt out (of_Z (MAX_BED_POWER cfg)) in
  let low := lt out (of_Z 0) in
  ({| temp_iState_bed :=
        if high then (if gt err (of_Z 0) then sub sum err else sum)  (* conditional un-integration *)
        else if low then (if lt err (of_Z 0) then sub sum err else sum)
        else sum;
      temp_dState_bed := current;
      pTerm_bed := mul (bedKp cfg) err;
      iTerm_bed := mul (bedKi cfg) sum;
      dTerm_bed := filtered_derivative cfg current st;
      pid_error_bed := err;
      temp_iState_min_bed := temp_iState_min_bed st;
      temp_iState_max_bed := temp_iState_max_bed st;
      soft_pwm_bed := soft_pwm_bed st;
      pwm0 := pwm0 st |},
   if high then of_Z (MAX_BED_POWER cfg) else if low then of_Z 0 else out).

(** [soft_pwm_bed = d; timer02_set_pwm0(soft_pwm_bed << 1);] *)
Definition set_duty (d : Z) (st : state) : state :=
  {| temp_iState_bed := temp_iState_bed st; temp_dState_bed := temp_dState_bed st;
     pTerm_bed := pTerm_bed st; iTerm_bed := iTerm_bed st; dTerm_bed := dTerm_bed st;
     pid_error_bed := pid_error_bed st;
     temp_iState_min_bed := temp_iState_min_bed st;
     temp_iState_max_bed := temp_iState_max_bed st;
     soft_pwm_bed := d;
     pwm0 := Z.shiftl d 1 |}.

Definition pid_bed (cfg : config) (current : float) (target : Z) (st : state) : state :=
  let '(st1, pid_output) := regulate cfg current target st in
  let st2 :=
    if lt current (of_Z (BED_MAXTEMP cfg))
    then set_duty (Pid.duty_of pid_output) st1
    else set_duty 0 st1 in
  if target =? 0 then set_duty 0 st2 else st2.

(** A bed at rest with the integral limits of [soft_pwm_init]. *)
Definition at_rest (cfg : config) (drive_max : Z) (room : float) : state :=
  {| temp_iState_bed := zero; temp_dState_bed := room;
     pTerm_bed := zero; iTerm_bed := zero; dTerm_bed := zero; pid_error_bed := zero;
     temp_iState_min_bed := of_Z 0;
     temp_iState_max_bed := div (of_Z drive_max) (bedKi cfg);
     soft_pwm_bed := 0; pwm0 := 0 |}.

Definition example_gains : config :=
  {| MAX_BED_POWER := 255; BED_MAXTEMP := 125; PID_K1 := literal 95 100;
     bedKp := of_Z 126; bedKi := of_Z 4; bedKd := of_Z 1 |}.

End PidBed.

(** ** Regulation of all heaters (temp_mgr_pid) and switching them
    off (disable_heater) *)

Module Heaters.
Import F32.

(** What the regulation and [disable_heater] work on: the temperatures
    and targets, the statics of the regulators, the state of the soft
    PWM generator and [bedPWMDisabled]. *)
Record plant := {
  temps : Manager.temperatures;
  hotends : list Pid.channel;
  bed : PidBed.state;
  pwm : SoftPwm.state;
  bedPWMDisabled : Z
}.

Record config := {
  EXTRUDERS : nat;
  hotend_pid : Pid.config;
  bed_pid : PidBed.config
}.

(** [for(uint8_t e = 0; e < EXTRUDERS; e++)
       pid_heater(e, current_temperature_isr[e], target_temperature_isr[e]);] *)
Definition regulate_hotends (cfg : config) (t : Manager.temperatures)
    (chs : list Pid.channel) : list Pid.channel :=
  fold_left
    (fun acc e =>
       match Manager.current_temperature_isr t !! e, Manager.target_temperature_isr t !! e with
       | Some current, Some target => Pid.pid_heater (hotend_pid cfg) e current target acc
       | _, _ => acc
       end)
    (seq 0 (EXTRUDERS cfg)) chs.

Definition temp_mgr_pid (cfg : config) (p : plant) : plant :=
  {| temps := temps p;
     hotends := regulate_hotends cfg (temps p) (hotends p);
     bed := PidBed.pid_bed (bed_pid cfg)
              (Manager.current_temperature_bed_isr (temps p))
              (Manager.target_temperature_bed_isr (temps p)) (bed p);
     pwm := pwm p;
     bedPWMDisabled := bedPWMDisabled p |}.

(** [WRITE(HEATER_e_PIN,LOW)] for every hotend. *)
Definition pins_low (st : SoftPwm.state) : SoftPwm.state :=
  {| SoftPwm.pwm_count := SoftPwm.pwm_count st;
     SoftPwm.heaters :=
       map (fun ch => {| SoftPwm.latched := SoftPwm.latched ch; SoftPwm.pin := false |})
           (SoftPwm.heaters st) |}.

Section DisableHeater.

(** [setAllTargetHotends] and [setTargetBed] come from temperature.h. *)
Variable setAllTargetHotends : Z -> Manager.temperatures -> Manager.temperatures.
Variable setTargetBed : Z -> Manager.temperatures -> Manager.temperatures.

(** The temperatures as the two setters leave them. *)
Definition targets_cleared (t : Manager.temperatures) : Manager.temperatures :=
  setTargetBed 0 (setAllTargetHotends 0 t).

Definition disable_heater (cfg : config) (p : plant) : plant :=
  let t1 := targets_cleared (temps p) in
  (* propagate all values down the chain *)
  let t2 := Manager.setIsrTargetTemperatures (EXTRUDERS cfg) t1 in
  let p1 := temp_mgr_pid cfg {| temps := t2; hotends := hotends p; bed := bed p;
                                pwm := pwm p; bedPWMDisabled := bedPWMDisabled p |} in
  {| temps := temps p1;
     hotends := hotends p1;
     bed := {| PidBed.temp_iState_bed := PidBed.temp_iState_bed (bed p1);
               PidBed.temp_dState_bed := PidBed.temp_dState_bed (bed p1);
               PidBed.pTerm_bed := PidBed.pTerm_bed (bed p1);
               PidBed.iTerm_bed := PidBed.iTerm_bed (bed p1);
               PidBed.dTerm_bed := PidBed.dTerm_bed (bed p1);
               PidBed.pid_error_bed := PidBed.pid_error_bed (bed p1);
               PidBed.temp_iState_min_bed := PidBed.temp_iState_min_bed (bed p1);
               PidBed.temp_iState_max_bed := PidBed.temp_iState_max_bed (bed p1);
               PidBed.soft_pwm_bed := PidBed.soft_pwm_bed (bed p1);
               PidBed.pwm0 := 0 |};                     (* timer02_set_pwm0(0) *)
     pwm := pins_low (pwm p1);
     bedPWMDisabled := 0 |}.

End DisableHeater.

(** Setters that store the value in every hotend target, and in the
    bed target. *)
Definition store_hotend_targets (celsius : Z) (t : Manager.temperatures)
    : Manager.temperatures :=
  {| Manager.current_temperature := Manager.current_temperature t;
     Manager.current_temperature_bed := Manager.current_temperature_bed t;
     Manager.current_temperature_pinda := Manager.current_temperature_pinda t;
     Manager.current_temperature_ambient := Manager.current_temperature_ambient t;
     Manager.current_temperature_isr := Manager.current_temperature_isr t;
     Manager.current_temperature_bed_isr := Manager.current_temperature_bed_isr t;
     Manager.current_temperature_pinda_isr := Manager.current_temperature_pinda_isr t;
     Manager.current_temperature_ambient_isr := Manager.current_temperature_ambient_isr t;
     Manager.target_temperature := map (fun _ => celsius) (Manager.target_temperature t);
     Manager.target_temperature_bed := Manager.target_temperature_bed t;
     Manager.target_temperature_isr := Manager.target_temperature_isr t;
     Manager.target_temperature_bed_isr := Manager.target_temperature_bed_isr t;
     Manager.temp_error_state := Manager.temp_error_state t;
     Manager.temp_meas_ready := Manager.temp_meas_ready t |}.

Definition store_bed_target (celsius : Z) (t : Manager.temperatures)
    : Manager.temperatures :=
  {| Manager.current_temperature := Manager.current_temperature t;
     Manager.current_temperature_bed := Manager.current_temperature_bed t;
     Manager.current_temperature_pinda := Manager.current_temperature_pinda t;
     Manager.current_temperature_ambient := Manager.current_temperature_ambient t;
     Manager.current_temperature_isr := Manager.current_temperature_isr t;
     Manager.current_temperature_bed_isr := Manager.current_temperature_bed_isr t;
     Manager.current_temperature_pinda_isr := Manager.current_temperature_pinda_isr t;
     Manager.current_temperature_ambient_isr := Manager.current_temperature_ambient_isr t;
     Manager.target_temperature := Manager.target_temperature t;
     Manager.target_temperature_bed := celsius;
     Manager.target_temperature_isr := Manager.target_temperature_isr t;
     Manager.target_temperature_bed_isr := Manager.target_temperature_bed_isr t;
     Manager.temp_error_state := Manager.temp_error_state t;
     Manager.temp_meas_ready := Manager.temp_meas_ready t |}.

Definition example_config : config :=
  {| EXTRUDERS := 1; hotend_pid := Pid.plain_gains; bed_pid := PidBed.example_gains |}.

(** A printer at work: hotend at 215 degrees on full duty with the
    pin high, bed at 60 degrees. *)
Definition at_work : plant :=
  {| temps :=
       {| Manager.current_temperature := [of_Z 214];
          Manager.current_temperature_bed := of_Z 59;
          Manager.current_temperature_pinda := of_Z 35;
          Manager.current_temperature_ambient := of_Z 30;
          Manager.current_temperature_isr := [of_Z 214];
          Manager.current_temperature_bed_isr := of_Z 59;
          Manager.current_temperature_pinda_isr := of_Z 35;
          Manager.current_temperature_ambient_isr := of_Z 30;
          Manager.target_temperature := [215];
          Manager.target_temperature_bed := 60;
          Manager.target_temperature_isr := [215];
          Manager.target_temperature_bed_isr := 60;
          Manager.temp_error_state := ErrorState.cleared;
          Manager.temp_meas_ready := false |};
     hotends :=
       [{| Pid.iState_sum := of_Z 40; Pid.dState_last := of_Z 214;
           Pid.pTerm := of_Z 16; Pid.iTerm := of_Z 40; Pid.dTerm := of_Z 0;
           Pid.pid_error := of_Z 1;
           Pid.iState_sum_min := of_Z 0; Pid.iState_sum_max := of_Z 255;
           Pid.pid_reset := false; Pid.maxttemp := 305; Pid.soft_pwm := 28 |}];
     bed := {| PidBed.temp_iState_bed := of_Z 10; PidBed.temp_dState_bed := of_Z 59;
               PidBed.pTerm_bed := of_Z 126; PidBed.iTerm_bed := of_Z 40;
               PidBed.dTerm_bed := of_Z 0; PidBed.pid_error_bed := of_Z 1;
               PidBed.temp_iState_min_bed := of_Z 0;
               PidBed.temp_iState_max_bed := literal 255 4;
               PidBed.soft_pwm_bed := 83; PidBed.pwm0 := 166 |};
     pwm := {| SoftPwm.pwm_count := 17;
               SoftPwm.heaters := [{| SoftPwm.latched := 28; SoftPwm.pin := true |}] |};
     bedPWMDisabled := 1 |}.

End Heaters.

(** ** The thermal runaway watch (temp_runaway_check) *)

Module Runaway.
Import F32.

Inductive TempRunawayStates := TempRunaway_INACTIVE | TempRunaway_PREHEAT | TempRunaway_ACTIVE.

Definition to_uint8 (s : TempRunawayStates) : Z :=
  match s with TempRunaway_INACTIVE => 0 | TempRunaway_PREHEAT => 1 | TempRunaway_ACTIVE => 2 end.

Definition is_preheat (s : TempRunawayStates) : bool :=
  match s with TempRunaway_PREHEAT => true | _ => false end.

Record config := {
  TEMP_RUNAWAY_BED_HYSTERESIS : Z;
  TEMP_RUNAWAY_BED_TIMEOUT : Z;
  TEMP_RUNAWAY_EXTRUDER_HYSTERESIS : Z;
  TEMP_RUNAWAY_EXTRUDER_TIMEOUT : Z
}.

(** The elements at index [_heater_id] of the statics
    [temp_runaway_status], [temp_runaway_target], [temp_runaway_timer],
    [temp_runaway_error_counter], and of the function's own statics
    [__preheat_start], [__preheat_counter], [__preheat_errors]. *)
Record slot := {
  status : TempRunawayStates;
  target : float;
  timer : Z;                  (* uint32_t *)
  error_counter : Z;          (* uint16_t *)
  preheat_start : float;
  preheat_counter : Z;        (* uint8_t *)
  preheat_errors : Z          (* uint8_t *)
}.

(** The statics at power-on. *)
Definition initial : slot :=
  {| status := TempRunaway_INACTIVE; target := zero; timer := 0; error_counter := 0;
     preheat_start := zero; preheat_counter := 0; preheat_errors := 0 |}.

Definition uint16 : Z -> Z := Machine.wrap_unsigned 16.

Section Check.

Variable cfg : config.
(** The arguments [_target_temperature], [_current_temperature],
    [_output], [_isbed] and [_heater_id]. *)
Variable _target_temperature _current_temperature _output : float.
Variable _isbed : bool.
Variable _heater_id : Z.

Definition hysteresis : float :=
  of_Z (if _isbed then TEMP_RUNAWAY_BED_HYSTERESIS cfg
        else TEMP_RUNAWAY_EXTRUDER_HYSTERESIS cfg).

Definition timeout : Z :=
  uint16 (if _isbed then TEMP_RUNAWAY_BED_TIMEOUT cfg else TEMP_RUNAWAY_EXTRUDER_TIMEOUT cfg).

Definition source : TempErrorSource.t :=
  if _isbed then TempErrorSource.bed else TempErrorSource.hotend.

(** [if (_millis() - temp_runaway_timer[_heater_id] > 2000)] *)
Definition due (now : Z) (s : slot) : bool := Machine.uint32 (now - timer s) >? 2000.

(** [temp_runaway_timer[_heater_id] = _millis();
     if (_output == 0) { ...; temp_runaway_error_counter[_heater_id] = 0; }] *)
Definition restart (now : Z) (s : slot) : slot :=
  {| status := status s; target := target s; timer := Machine.uint32 now;
     error_counter := if SFeqb _output (of_Z 0) then 0 else error_counter s;
     preheat_start := preheat_start s; preheat_counter := preheat_counter s;
     preheat_errors := preheat_errors s |}.

(** [if (temp_runaway_target[_heater_id] != _target_temperature) { ... }] *)
Definition retarget (s : slot) : slot :=
  if ne (target s) _target_temperature then
    if gt _target_temperature (of_Z 0) then
      {| status := TempRunaway_PREHEAT; target := _target_temperature; timer := timer s;
         error_counter := error_counter s;
         preheat_start := _current_temperature; preheat_counter := 0;
         preheat_errors := preheat_errors s |}
    else
      {| status := TempRunaway_INACTIVE; target := _target_temperature; timer := timer s;
         error_counter := error_counter s;
         preheat_start := preheat_start s; preheat_counter := preheat_counter s;
         preheat_errors := preheat_errors s |}
  else s.

(** [__delta=2.0; if(_isbed) { __delta=3.0;
       if(_current_temperature>90.0) __delta=2.0;
       if(_current_temperature>105.0) __delta=0.6; }] *)
Definition delta : float :=
  if _isbed then
    if gt _current_temperature (of_Z 105) then literal 6 10
    else if gt _current_temperature (of_Z 90) then of_Z 2
    else of_Z 3
  else of_Z 2.

(** The window of the preheat check is over: [__preheat_counter] has
    passed 8 (16 for the bed). *)
Definition window_over (counter : Z) : bool := counter >? (if _isbed then 16 else 8).

(** [if ((_current_temperature < _target_temperature) &&
         (temp_runaway_status[_heater_id] == TempRunaway_PREHEAT)) { ... }] *)
Definition preheat (s : slot) : slot * list ErrorState.call :=
  if lt _current_temperature _target_temperature && is_preheat (status s) then
    let counter := Machine.uint8 (preheat_counter s + 1) in
    if window_over counter then
      let errors :=
        if lt (sub _current_temperature (preheat_start s)) delta
        then Machine.uint8 (preheat_errors s + 1) else 0 in
      ({| status := status s; target := target s; timer := timer s;
          error_counter := error_counter s;
          preheat_start := _current_temperature; preheat_counter := 0;
          preheat_errors := errors |},
       if errors >? (if _isbed then 3 else 5)
       then [(source, _heater_id, TempErrorType.preheat)] else [])
    else
      ({| status := status s; target := target s; timer := timer s;
          error_counter := error_counter s;
          preheat_start := preheat_start s; preheat_counter := counter;
          preheat_errors := preheat_errors s |}, [])
  else (s, []).

(** [_current_temperature > (_target_temperature - __hysteresis)] *)
Definition above_lower : bool := gt _current_temperature (sub _target_temperature hysteresis).

(** "we are in range" *)
Definition in_range : bool :=
  above_lower && lt _current_temperature (add _target_temperature hysteresis).

(** [if ((_current_temperature > (_target_temperature - __hysteresis)) &&
         temp_runaway_status[_heater_id] == TempRunaway_PREHEAT) { ... }] *)
Definition activate (s : slot) : slot :=
  if above_lower && is_preheat (status s) then
    {| status := TempRunaway_ACTIVE; target := target s; timer := timer s;
       error_counter := 0;
       preheat_start := preheat_start s; preheat_counter := preheat_counter s;
       preheat_errors := preheat_errors s |}
  else s.

(** [if (_output > 0) temp_runaway_check_active = true;
     if (temp_runaway_check_active) { ... }]: the local flag is [false]
    on every path that reaches the first of them. *)
Definition watch (s : slot) : slot * list ErrorState.call :=
  if gt _output (of_Z 0) then
    if in_range then
      ({| status := status s; target := target s; timer := timer s;
          error_counter := 0;
          preheat_start := preheat_start s; preheat_counter := preheat_counter s;
          preheat_errors := preheat_errors s |}, [])
    else if to_uint8 (status s) >? to_uint8 TempRunaway_PREHEAT then
      let counter := uint16 (error_counter s + 1) in
      ({| status := status s; target := target s; timer := timer s;
          error_counter := counter;
          preheat_start := preheat_start s; preheat_counter := preheat_counter s;
          preheat_errors := preheat_errors s |},
       if uint16 (counter * 2) >? timeout
       then [(source, _heater_id, TempErrorType.runaway)] else [])
    else (s, [])
  else (s, []).

(** One call; [now] and [now'] are the two readings of [_millis()].
    The result is the slot and the calls of [set_temp_error], in order. *)
Definition temp_runaway_check (now now' : Z) (s : slot) : slot * list ErrorState.call :=
  if due now s then
    let s1 := retarget (restart now' s) in
    let '(s2, calls1) := preheat s1 in
    let '(s3, calls2) := watch (activate s2) in
    (s3, calls1 ++ calls2)
  else (s, []).

End Check.

(** What one call reads from outside. *)
Record reading := {
  now : Z;
  now' : Z;
  target_temperature : float;
  current_temperature : float;
  output : float
}.

(** A run of calls for one heater: the final slot and all the errors raised. *)
Fixpoint checks (cfg : config) (isbed : bool) (id : Z) (rs : list reading) (s : slot)
    : slot * list ErrorState.call :=
  match rs with
  | [] => (s, [])
  | r :: rs' =>
      let '(s1, calls1) :=
        temp_runaway_check cfg (target_temperature r) (current_temperature r) (output r)
                           isbed id (now r) (now' r) s in
      let '(s2, calls2) := checks cfg isbed id rs' s1 in
      (s2, calls1 ++ calls2)
  end.

(** Every reading of a run is let through by the throttle, the slot's
    timer being [timer] at its start. *)
Fixpoint all_due (rs : list reading) (timer : Z) : bool :=
  match rs with
  | [] => true
  | r :: rs' =>
      (Machine.uint32 (now r - timer) >? 2000) && all_due rs' (Machine.uint32 (now' r))
  end.

(** A status other than [TempRunaway_INACTIVE] goes with a target above 0. *)
Definition consistent (s : slot) : Prop :=
  status s <> TempRunaway_INACTIVE -> gt (target s) (of_Z 0) = true.

(** The checks of a preheat window, the stalled windows that are
    tolerated, and the checks after which a heater that does not heat
    is reported: 54 for the hotend, 68 for the bed. *)
Definition preheat_window (isbed : bool) : Z := if isbed then 16 else 8.
Definition preheat_limit (isbed : bool) : Z := if isbed then 3 else 5.
Definition preheat_checks (isbed : bool) : Z :=
  (preheat_window isbed + 1) * (preheat_limit isbed + 1).

(** The progress of the preheat check towards an error. *)
Definition preheat_progress (isbed : bool) (s : slot) : Z :=
  (preheat_window isbed + 1) * preheat_errors s + preheat_counter s.

(** The counters of the preheat check within their windows. *)
Definition in_window (isbed : bool) (s : slot) : Prop :=
  0 <= preheat_counter s <= preheat_window isbed /\
  0 <= preheat_errors s <= preheat_limit isbed.

(** A reading that is a number: neither NaN nor an infinity. *)
Definition finite (x : float) : bool :=
  match x with S754_zero _ | S754_finite _ _ _ => true | _ => false end.

(** The reading of a heater that does not heat: the target the slot
    already has, the temperature [celsius] below the target and not
    above its lower limit. *)
Definition not_heating (cfg : config) (isbed : bool) (s : slot) (celsius : float)
    (r : reading) : Prop :=
  ne (target s) (target_temperature r) = false /\
  current_temperature r = celsius /\
  lt celsius (target_temperature r) = true /\
  above_lower cfg (target_temperature r) celsius isbed = false.

Definition is_runaway (c : ErrorState.call) : bool :=
  match snd c with TempErrorType.runaway => true | _ => false end.

Definition is_preheat_error (c : ErrorState.call) : bool :=
  match snd c with TempErrorType.preheat => true | _ => false end.

(** The reading is accepted by the slot it meets; the heater is driven;
    the temperature is outside the band around the target. *)
Definition outside_band (cfg : config) (isbed : bool) (r : reading) : bool :=
  negb (in_range cfg (target_temperature r) (current_temperature r) isbed).

(** A hotend that has just been given the target 215 at 25 degrees. *)
Definition warming : slot :=
  {| status := TempRunaway_PREHEAT; target := of_Z 215; timer := 0; error_counter := 0;
     preheat_start := of_Z 25; preheat_counter := 0; preheat_errors := 0 |}.

(** The stock values: 15 degrees and 45 s for the hotend, 5 degrees
    and 360 s for the bed. *)
Definition example_config : config :=
  {| TEMP_RUNAWAY_BED_HYSTERESIS := 5; TEMP_RUNAWAY_BED_TIMEOUT := 360;
     TEMP_RUNAWAY_EXTRUDER_HYSTERESIS := 15; TEMP_RUNAWAY_EXTRUDER_TIMEOUT := 45 |}.

(** A hotend regulated at 215 degrees. *)
Definition holding : slot :=
  {| status := TempRunaway_ACTIVE; target := of_Z 215; timer := 0; error_counter := 0;
     preheat_start := of_Z 200; preheat_counter := 0; preheat_errors := 0 |}.

(** Readings every 2001 ms of a hotend driven at full duty that stays
    at [celsius] degrees, for the target 215. *)
Definition stuck_at (celsius : Z) (n : nat) : list reading :=
  map (fun k => {| now := 2001 * (Z.of_nat k + 1); now' := 2001 * (Z.of_nat k + 1);
                   target_temperature := of_Z 215; current_temperature := of_Z celsius;
                   output := of_Z 127 |})
      (seq 0 n).

End Runaway.

(** ** The raw limits of hotend 0 (soft_pwm_init, check_min_temp_heater0,
       check_max_temp_raw) *)

Module Limits.
Import F32.

Record config := {
  conversion : Conversion.config;
  HEATER_0_RAW_LO_TEMP : Z;
  HEATER_0_RAW_HI_TEMP : Z;
  HEATER_0_MINTEMP : Z;
  HEATER_0_MAXTEMP : Z
}.

Section Limits.

Variable cfg : config.

(** [#if HEATER_0_RAW_LO_TEMP < HEATER_0_RAW_HI_TEMP
       minttemp_raw[0] += OVERSAMPLENR;
     #else
       minttemp_raw[0] -= OVERSAMPLENR;
     #endif], at type [int]. *)
Definition min_step (raw : Z) : Z :=
  if HEATER_0_RAW_LO_TEMP cfg <? HEATER_0_RAW_HI_TEMP cfg
  then Machine.int16 (raw + Conversion.OVERSAMPLENR (conversion cfg))
  else Machine.int16 (raw - Conversion.OVERSAMPLENR (conversion cfg)).

(** The same for [maxttemp_raw[0]], with [-=] and [+=]. *)
Definition max_step (raw : Z) : Z :=
  if HEATER_0_RAW_LO_TEMP cfg <? HEATER_0_RAW_HI_TEMP cfg
  then Machine.int16 (raw - Conversion.OVERSAMPLENR (conversion cfg))
  else Machine.int16 (raw + Conversion.OVERSAMPLENR (conversion cfg)).

(** [while (analog2temp(raw, 0) <past the limit>) raw = step(raw);]
    run for at most [fuel] tests of the condition.  [None]: the loop
    is still running, or [analog2temp] has called [kill]. *)
Fixpoint calibrate (past : float -> bool) (step : Z -> Z) (fuel : nat) (raw : Z) : option Z :=
  match fuel with
  | O => None
  | S fuel' =>
      match Conversion.analog2temp (conversion cfg) raw 0 with
      | None => None
      | Some celsius =>
          if past celsius then calibrate past step fuel' (step raw) else Some raw
      end
  end.

(** [while(analog2temp(minttemp_raw[0], 0) < HEATER_0_MINTEMP)], from
    the initial value [HEATER_0_RAW_LO_TEMP] of [minttemp_raw[0]]. *)
Definition minttemp_raw_0 (fuel : nat) : option Z :=
  calibrate (fun celsius => lt celsius (of_Z (HEATER_0_MINTEMP cfg))) min_step
            fuel (HEATER_0_RAW_LO_TEMP cfg).

(** [while(analog2temp(maxttemp_raw[0], 0) > HEATER_0_MAXTEMP)], from
    the initial value [HEATER_0_RAW_HI_TEMP] of [maxttemp_raw[0]]. *)
Definition maxttemp_raw_0 (fuel : nat) : option Z :=
  calibrate (fun celsius => gt celsius (of_Z (HEATER_0_MAXTEMP cfg))) max_step
            fuel (HEATER_0_RAW_HI_TEMP cfg).

(** [check_min_temp_heater0], given [minttemp_raw[0]] and
    [current_temperature_raw[0]]: the calls of [set_temp_error]. *)
Definition check_min_temp_heater0 (minttemp_raw current_temperature_raw : Z)
    : list ErrorState.call :=
  if (if HEATER_0_RAW_LO_TEMP cfg >? HEATER_0_RAW_HI_TEMP cfg
      then current_temperature_raw >=? minttemp_raw
      else current_temperature_raw <=? minttemp_raw)
  then [(TempErrorSource.hotend, 0, TempErrorType.min)] else [].

(** The part "heater" of [check_max_temp_raw], given [maxttemp_raw[0]]
    and [current_temperature_raw[0]]. *)
Definition check_max_temp_raw_heater (maxttemp_raw current_temperature_raw : Z)
    : list ErrorState.call :=
  if (if HEATER_0_RAW_LO_TEMP cfg >? HEATER_0_RAW_HI_TEMP cfg
      then current_temperature_raw <=? maxttemp_raw
      else current_temperature_raw >=? maxttemp_raw)
  then [(TempErrorSource.hotend, 0, TempErrorType.max)] else [].

End Limits.

(** The example table with the limits of a stock printer: raw counts
    fall from 16383 (cold) to 0 (hot), 10 and 305 degrees. *)
Definition example_config : config :=
  {| conversion := Conversion.example_config;
     HEATER_0_RAW_LO_TEMP := 16383; HEATER_0_RAW_HI_TEMP := 0;
     HEATER_0_MINTEMP := 10; HEATER_0_MAXTEMP := 305 |}.

End Limits.

(** ** The handling of a latched error (handle_temp_error, manage_heater,
       temp_mgr_isr) *)

Module ErrorHandling.
Import ErrorState.

(** What [handle_temp_error] relays to.  None of these writes
    [temp_error_state], a file-local static. *)
Inductive relay :=
| min_temp_error (e : Z)              (* after menu_set_serious_error *)
| alert_automaton_hotend_step
| bed_min_temp_error
| alert_automaton_bed_step
| ambient_min_temp_error
| max_temp_error (e : Z)
| bed_max_temp_error
| ambient_max_temp_error
| temp_runaway_stop (isPreheat isBed : bool)
| model_error_triggered               (* ThermalStop(true); WRITE(BEEPER, HIGH) *)
| model_error_cleared                 (* WRITE(BEEPER, LOW) *)
| no_handler.

(** [handle_temp_error]: the error word it leaves and the handler it
    relays to.  The two [switch]es have no [default]: a value of the
    bit-field that is no enumerator selects nothing. *)
Definition handle_temp_error (s : temp_error_state_t) : temp_error_state_t * relay :=
  match type s with
  | 1 (* TempErrorType::min *) =>
      match source s with
      | 0 => (s, if assert s then min_temp_error (index s) else alert_automaton_hotend_step)
      | 1 => (s, if assert s then bed_min_temp_error else alert_automaton_bed_step)
      | 2 => (s, ambient_min_temp_error)
      | _ => (s, no_handler)
      end
  | 0 (* TempErrorType::max *) =>
      match source s with
      | 0 => (s, max_temp_error (index s))
      | 1 => (s, bed_max_temp_error)
      | 2 => (s, ambient_max_temp_error)
      | _ => (s, no_handler)
      end
  | 2 | 3 (* TempErrorType::preheat, TempErrorType::runaway *) =>
      match source s with
      | 0 | 1 => (s, temp_runaway_stop (type s =? 2) (source s =? 1))
      | _ => (s, no_handler)
      end
  | 4 (* TempErrorType::model *) =>
      if assert s then (s, model_error_triggered)
      else (cleared, model_error_cleared)       (* temp_error_state.v = 0 *)
  | _ => (s, no_handler)
  end.

Section Cycle.

(** Everything outside the error word, as for [set_temp_error], and
    what a handler does to it. *)
Variable world : Type.
Variable save_recovery_values : Z -> world -> world.
Variable disable_heater : world -> world.
Variable hotendFanSetFullSpeed : world -> world.
Variable relay_to : relay -> world -> world.

(** The three places that write [temp_error_state], and everything
    else the firmware does in between.  [handled] is a pass of
    [manage_heater] that the ISR does not cut into; the passes it
    does cut into are followed access by access further down. *)
Inductive step :=
| raised (c : call)          (* set_temp_error(source, index, type) *)
| assertion_cleared          (* temp_mgr_isr: temp_error_state.assert = false *)
| handled                    (* manage_heater: if(temp_error_state.v) handle_temp_error() *)
| elsewhere (f : world -> world).

Definition apply (st : state world) (o : step) : state world :=
  match o with
  | raised c => raise world save_recovery_values disable_heater hotendFanSetFullSpeed st c
  | assertion_cleared =>
      {| err := {| error := error (err st); assert := false; source := source (err st);
                   index := index (err st); type := type (err st) |};
         rest := rest st |}
  | handled =>
      if v (err st) =? 0 then st
      else let '(e, r) := handle_temp_error (err st) in
           {| err := e; rest := relay_to r (rest st) |}
  | elsewhere f => {| err := err st; rest := f (rest st) |}
  end.

Definition run (steps : list step) (st : state world) : state world :=
  fold_left apply steps st.

(** One pass of [temp_mgr_isr] in which the checks make the calls
    [cs], followed by one pass of [manage_heater]. *)
Definition cycle (cs : list call) : list step :=
  assertion_cleared :: map raised cs ++ [handled].

End Cycle.

Arguments raised {world} _.
Arguments assertion_cleared {world}.
Arguments handled {world}.
Arguments elsewhere {world} _.
Arguments cycle {world} _.

(** *** The foreground interrupted by the ISR

    [temp_error_state] is volatile and [handle_temp_error] runs in
    the foreground with interrupts enabled: [temp_mgr_isr] can run
    between any two of its accesses to the word.  The foreground is
    therefore followed from one access to the next.  The ISR itself
    is not cut into by the foreground: the sequences below allow that
    too, which only adds to what a statement about all of them
    covers. *)

(** Where the foreground stands in [manage_heater] and
    [handle_temp_error]. *)
Inductive place :=
| outside      (* before the test [if(temp_error_state.v)] of manage_heater *)
| entered      (* the word was not zero: before [switch(temp_error_state.type)] *)
| relaying     (* in a case that reads the word and relays, writing nothing to
                  it: min, max, preheat, runaway, and a model error asserted *)
| in_model     (* [case TempErrorType::model]: before [if(temp_error_state.assert)] *)
| clearing.    (* [assert] was 0: before the store [temp_error_state.v = 0] *)

Section Interleaving.

Variable world : Type.
Variable save_recovery_values : Z -> world -> world.
Variable disable_heater : world -> world.
Variable hotendFanSetFullSpeed : world -> world.

Record machine := { memory : state world; standing : place }.

(** What happens next: the ISR calls [set_temp_error], the ISR
    clears [assert], the foreground makes its next access, or
    something else changes everything but the word (the handlers
    relayed to are among this). *)
Inductive access :=
| isr_raises (c : call)
| isr_clears_assertion
| foreground
| something_else (f : world -> world).

(** The next access of the foreground. *)
Definition foreground_access (m : machine) : machine :=
  let e := err (memory m) in
  match standing m with
  | outside =>
      {| memory := memory m; standing := if v e =? 0 then outside else entered |}
  | entered =>
      {| memory := memory m;
         standing := match type e with
                     | 4 => in_model
                     | 0 | 1 | 2 | 3 => relaying
                     | _ => outside        (* no [case], no [default] *)
                     end |}
  | relaying => {| memory := memory m; standing := outside |}
  | in_model =>
      {| memory := memory m; standing := if assert e then relaying else clearing |}
  | clearing =>
      {| memory := {| err := cleared; rest := rest (memory m) |}; standing := outside |}
  end.

Definition access_step (m : machine) (a : access) : machine :=
  match a with
  | isr_raises c =>
      {| memory := raise world save_recovery_values disable_heater hotendFanSetFullSpeed
                         (memory m) c;
         standing := standing m |}
  | isr_clears_assertion =>
      {| memory := {| err := {| error := error (err (memory m)); assert := false;
                                source := source (err (memory m));
                                index := index (err (memory m));
                                type := type (err (memory m)) |};
                      rest := rest (memory m) |};
         standing := standing m |}
  | foreground => foreground_access m
  | something_else f =>
      {| memory := {| err := err (memory m); rest := f (rest (memory m)) |};
         standing := standing m |}
  end.

Definition interleaved (accesses : list access) (m : machine) : machine :=
  fold_left access_step accesses m.

(** One pass of [temp_mgr_isr] in which the checks make the calls [cs]. *)
Definition isr_pass (cs : list call) : list access :=
  isr_clears_assertion :: map isr_raises cs.

(** The foreground is not in the case of a model error. *)
Definition clear_of_model (p : place) : Prop := p <> in_model /\ p <> clearing.

End Interleaving.

Arguments memory {world} _.
Arguments standing {world} _.
Arguments Build_machine {world} _ _.
Arguments isr_raises {world} _.
Arguments isr_clears_assertion {world}.
Arguments foreground {world}.
Arguments something_else {world} _.
Arguments isr_pass {world} _.

(** A model error that the ISR has found no longer asserted. *)
Definition model_unasserted : temp_error_state_t :=
  {| error := true; assert := false; source := 0; index := 0; type := 4 |}.

(** An error of the thermal model latched and asserted, and a
    min-temp error of the hotend that is no longer asserted. *)
Definition model_latched : temp_error_state_t :=
  {| error := true; assert := true; source := 0; index := 0; type := 4 |}.
Definition mintemp_latched : temp_error_state_t :=
  {| error := true; assert := false; source := 0; index := 0; type := 1 |}.

End ErrorHandling.

(** ** Babystepping from the soft-PWM interrupt (applyBabysteps) *)

Module Babystep.

(** One call of [babystep(axis, fwd)]. *)
Definition move : Type := nat * bool.

(** The body of the loop for one [axis]: [babystepsTodo] afterwards
    and the moves made, the array being [volatile int babystepsTodo[3]]. *)
Definition apply_axis (axis : nat) (babystepsTodo : list Z) : list Z * list move :=
  match babystepsTodo !! axis with
  | None => (babystepsTodo, [])
  | Some curTodo =>
      if curTodo >? 0 then
        (<[axis := Machine.int16 (curTodo - 1)]> babystepsTodo, [(axis, true)])
      else if curTodo <? 0 then
        (<[axis := Machine.int16 (curTodo + 1)]> babystepsTodo, [(axis, false)])
      else (babystepsTodo, [])
  end.

(** [for(uint8_t axis=0;axis<3;axis++)] *)
Definition applyBabysteps (babystepsTodo : list Z) : list Z * list move :=
  let '(t0, m0) := apply_axis 0 babystepsTodo in
  let '(t1, m1) := apply_axis 1 t0 in
  let '(t2, m2) := apply_axis 2 t1 in
  (t2, m0 ++ m1 ++ m2).

(** [n] calls in a row, nothing else writing [babystepsTodo]. *)
Fixpoint calls (n : nat) (babystepsTodo : list Z) : list Z * list move :=
  match n with
  | O => (babystepsTodo, [])
  | S n' =>
      let '(t1, m1) := applyBabysteps babystepsTodo in
      let '(t2, m2) := calls n' t1 in
      (t2, m1 ++ m2)
  end.

(** The steps made on [axis], forward less backward. *)
Definition net (axis : nat) (moves : list move) : Z :=
  fold_right (fun (m : move) acc => (if Nat.eqb (fst m) axis then if snd m then 1 else -1 else 0) + acc)
             0 moves.

(** What is left to do on an axis after [n] calls, from [todo]. *)
Definition left_after (n : nat) (todo : Z) : Z :=
  if todo >? 0 then Z.max 0 (todo - Z.of_nat n) else Z.min 0 (todo + Z.of_nat n).

(** One call seen from one axis: the value left, and the move made. *)
Definition toward_zero (t : Z) : Z := if t >? 0 then t - 1 else if t <? 0 then t + 1 else t.
Definition moves_of (axis : nat) (t : Z) : list move :=
  if t >? 0 then [(axis, true)] else if t <? 0 then [(axis, false)] else [].

(** The values of an [int]. *)
Definition int (t : Z) : Prop := -32768 <= t <= 32767.

End Babystep.

(** ** Setting the temperature model's parameters
       (temp_model_set_params, temp_model_set_resistance) *)

Module ModelSettings.
Import F32 TempModel.

(** [if(!isnan(C) && C > 0) temp_model::data.C = C;] and the like,
    then "ensure warn <= err" and [temp_model::setup()]. *)
Definition temp_model_set_params (C P Ta_corr warn err : float) (m : model) : model :=
  let d := data m in
  let C1 := if negb (is_nan C) && gt C (of_Z 0) then C else TempModel.C d in
  let P1 := if negb (is_nan P) && gt P (of_Z 0) then P else TempModel.P d in
  let Ta_corr1 := if negb (is_nan Ta_corr) then Ta_corr else TempModel.Ta_corr d in
  let err1 := if negb (is_nan err) && gt err (of_Z 0) then err else TempModel.err d in
  let warn1 := if negb (is_nan warn) && gt warn (of_Z 0) then warn else TempModel.warn d in
  let warn2 := if gt warn1 err1 then err1 else warn1 in
  setup {| data := {| P := P1; C := C1; R := TempModel.R d; Ta_corr := Ta_corr1;
                      warn := warn2; err := err1; uninitialized := uninitialized d |};
           enabled := enabled m; warn_beep := warn_beep m |}.

(** [if(index >= TEMP_MODEL_R_SIZE || R <= 0) return;
     temp_model::data.R[index] = R; temp_model::setup();]
    with [index] a [uint8_t]. *)
Definition temp_model_set_resistance (index : Z) (R : float) (m : model) : model :=
  if (index >=? Z.of_nat TEMP_MODEL_R_SIZE) || le R (of_Z 0) then m
  else
    let d := data m in
    setup {| data := {| P := TempModel.P d; C := TempModel.C d;
                        R := <[Z.to_nat index := R]> (TempModel.R d);
                        Ta_corr := TempModel.Ta_corr d; warn := TempModel.warn d;
                        err := TempModel.err d; uninitialized := uninitialized d |};
             enabled := enabled m; warn_beep := warn_beep m |}.

(** A calibrated model that is enabled. *)
Definition running : model := {| data := plausible; enabled := true; warn_beep := true |}.

End ModelSettings.

(** ** The model's warning (temp_model::handle_warning) *)

Module ModelWarning.
Import F32.

(** [temp_model::warning_state] *)
Record warning_state_t := {
  dT_err : float;
  warning : bool;             (* there is a warning to handle *)
  assert : bool               (* the warning is still asserted *)
}.

(** What a call does besides writing [warning_state]. *)
Inductive action :=
| report (dT_err warn : float)        (* printf_P("TM: error |%f|>%f\n") *)
| alert_thermal_anomaly               (* lcd_setalertstatuspgm(MSG_THERMAL_ANOMALY, ...) *)
| beeper_high                         (* WRITE(BEEPER, HIGH) *)
| beeper_toggle                       (* TOGGLE(BEEPER) *)
| beeper_low.                         (* WRITE(BEEPER, LOW) *)

(** The state a call works on: [warning_state] and the function's
    [static bool first]. *)
Record state := { ws : warning_state_t; first : bool }.

(** [first] is initialised to [true]. *)
Definition initial (w : warning_state_t) : state := {| ws := w; first := true |}.

(** [handle_warning], given [data.warn], [TEMP_MGR_INTV] and [warn_beep]. *)
Definition handle_warning (warn interval : float) (warn_beep : bool) (st : state)
    : state * list action :=
  let dT_err := div (dT_err (ws st)) interval in
  let said := [report dT_err warn] in
  if assert (ws st) then
    if first st then
      (st, said ++ (if warn_beep then [alert_thermal_anomaly; beeper_high] else []))
    else
      (st, said ++ (if warn_beep then [beeper_toggle] else []))
  else
    (* warning cleared, reset state *)
    ({| ws := {| dT_err := ModelWarning.dT_err (ws st); warning := false;
                 assert := assert (ws st) |};
        first := true |},
     said ++ (if warn_beep then [beeper_low] else [])).

(** What happens between two passes of [manage_heater]: the ISR's
    [temp_model::check] rewrites [warning_state], and [warn_beep] and
    [data.warn] may have been set anew. *)
Record pass := {
  checked : warning_state_t -> warning_state_t;
  warn : float;
  warn_beep : bool
}.

(** [manage_heater]: [if(temp_model::warning_state.warning)
    temp_model::handle_warning();], pass after pass. *)
Fixpoint passes (interval : float) (ps : list pass) (st : state) : state * list action :=
  match ps with
  | [] => (st, [])
  | p :: ps' =>
      let st0 := {| ws := checked p (ws st); first := first st |} in
      let '(st1, a1) :=
        if warning (ws st0) then handle_warning (warn p) interval (warn_beep p) st0
        else (st0, []) in
      let '(st2, a2) := passes interval ps' st1 in
      (st2, a1 ++ a2)
  end.

Definition is_toggle (a : action) : bool :=
  match a with beeper_toggle => true | _ => false end.

(** A warning that stays asserted over three passes. *)
Definition persisting : list pass :=
  repeat {| checked := fun w => {| dT_err := dT_err w; warning := true; assert := true |};
            warn := literal 12 10; warn_beep := true |} 3.

End ModelWarning.

(** ** The temperature model at run time (model_data::reset,
       model_data::step, temp_model::check) *)

Module ModelStep.
Import F32.

Record config := {
  TEMP_MGR_INTV : float;
  TEMP_MODEL_LAG_SIZE : Z;
  TEMP_MODEL_fS : float;
  TEMP_MODEL_fE : float
}.

(** [temp_model::data]: the parameters (with the [uninitialized]
    flag) and the members that [reset] and [step] write. *)
Record model_data := {
  params : TempModel.model_data;
  C_i : float;
  warn_s : float;
  err_s : float;
  dT_lag_buf : list float;    (* float dT_lag_buf[TEMP_MODEL_LAG_SIZE] *)
  dT_lag_idx : Z;             (* uint8_t *)
  dT_err_prev : float;
  T_prev : float;
  flag_error : bool;          (* flag_bits.error *)
  flag_warning : bool         (* flag_bits.warning *)
}.

(** An element of an array of floats; the arrays are read within
    their bounds wherever the properties below speak of them. *)
Definition element (a : list float) (i : Z) : float :=
  match a !! Z.to_nat i with Some x => x | None => nan end.

Section Step.

Variable cfg : config.
Variables heater_pwm fan_pwm : Z.              (* uint8_t *)
Variables heater_temp ambient_temp : float.

(** [constexpr float soft_pwm_inv = 1. / ((1 << 7) - 1);] *)
Definition soft_pwm_inv : float := div (of_Z 1) (of_Z (Z.shiftl 1 7 - 1)).

(** [(dT_lag_idx == (TEMP_MODEL_LAG_SIZE - 1) ? 0: dT_lag_idx + 1)]
    stored in a [uint8_t]. *)
Definition dT_next_idx (d : model_data) : Z :=
  Machine.uint8 (if dT_lag_idx d =? TEMP_MODEL_LAG_SIZE cfg - 1 then 0 else dT_lag_idx d + 1).

(** expected temperature difference (K) *)
Definition dT (d : model_data) : float :=
  let heater_scale := mul soft_pwm_inv (of_Z heater_pwm) in
  let cur_ambient_temp := add ambient_temp (TempModel.Ta_corr (params d)) in
  let cur_R := element (TempModel.R (params d)) fan_pwm in
  let dP := mul (TempModel.P (params d)) heater_scale in
  let dPl := div (sub heater_temp cur_ambient_temp) cur_R in
  mul (sub dP dPl) (C_i d).

(** filter and lag dT *)
Definition dT_lag (d : model_data) : float := element (dT_lag_buf d) (dT_next_idx d).
Definition dT_f (d : model_data) : float :=
  let dT_lag_prev := element (dT_lag_buf d) (dT_lag_idx d) in
  add (mul dT_lag_prev (sub (of_Z 1) (TEMP_MODEL_fS cfg))) (mul (dT d) (TEMP_MODEL_fS cfg)).

(** calculate and filter dT_err *)
Definition dT_err_f (d : model_data) : float :=
  let dT_err := sub (sub heater_temp (T_prev d)) (dT_lag d) in
  add (mul (dT_err_prev d) (sub (of_Z 1) (TEMP_MODEL_fE cfg))) (mul dT_err (TEMP_MODEL_fE cfg)).

Definition step (d : model_data) : model_data :=
  {| params := params d; C_i := C_i d; warn_s := warn_s d; err_s := err_s d;
     dT_lag_buf := <[Z.to_nat (dT_next_idx d) := dT_f d]> (dT_lag_buf d);
     dT_lag_idx := dT_next_idx d;
     dT_err_prev := dT_err_f d;
     T_prev := heater_temp;
     (* check and trigger errors *)
     flag_error := gt (abs (dT_err_f d)) (err_s d);
     flag_warning := gt (abs (dT_err_f d)) (warn_s d) |}.

Definition clear_uninitialized (p : TempModel.model_data) : TempModel.model_data :=
  {| TempModel.P := TempModel.P p; TempModel.C := TempModel.C p; TempModel.R := TempModel.R p;
     TempModel.Ta_corr := TempModel.Ta_corr p; TempModel.warn := TempModel.warn p;
     TempModel.err := TempModel.err p; TempModel.uninitialized := false |}.

Definition reset (d : model_data) : model_data :=
  let seeded :=
    {| params := params d;
       (* pre-compute invariant values *)
       C_i := div (TEMP_MGR_INTV cfg) (TempModel.C (params d));
       warn_s := mul (TempModel.warn (params d)) (TEMP_MGR_INTV cfg);
       err_s := mul (TempModel.err (params d)) (TEMP_MGR_INTV cfg);
       (* initial values *)
       dT_lag_buf := repeat zero (length (dT_lag_buf d));
       dT_lag_idx := 0;
       dT_err_prev := of_Z 0;
       T_prev := heater_temp;
       flag_error := flag_error d; flag_warning := flag_warning d |} in
  (* perform one step to initialize the first delta *)
  let stepped := step seeded in
  (* clear the initialization flag *)
  {| params := clear_uninitialized (params stepped);
     C_i := C_i stepped; warn_s := warn_s stepped; err_s := err_s stepped;
     dT_lag_buf := dT_lag_buf stepped; dT_lag_idx := dT_lag_idx stepped;
     dT_err_prev := dT_err_prev stepped; T_prev := T_prev stepped;
     flag_error := flag_error stepped; flag_warning := flag_warning stepped |}.

(** [temp_model::check] with the model enabled: the data, the
    warning state and the calls of [set_temp_error]. *)
Definition check_enabled (d : model_data) (w : ModelWarning.warning_state_t)
    : model_data * ModelWarning.warning_state_t * list ErrorState.call :=
  let d1 := if TempModel.uninitialized (params d) then reset d else d in
  let d2 := step d1 in
  (d2,
   if flag_warning d2
   then {| ModelWarning.dT_err := dT_err_prev d2; ModelWarning.warning := true;
           ModelWarning.assert := true |}
   else {| ModelWarning.dT_err := ModelWarning.dT_err w;
           ModelWarning.warning := ModelWarning.warning w;
           ModelWarning.assert := false |},
   if flag_error d2 then [(TempErrorSource.hotend, 0, TempErrorType.model)] else []).

End Step.

(** What one pass of the ISR reads: [soft_pwm[0]], [soft_pwm_fan],
    [current_temperature_isr[0]], [current_temperature_ambient_isr]. *)
Record reading := {
  heater_pwm_of : Z;
  fan_pwm_of : Z;
  heater_temp_of : float;
  ambient_temp_of : float
}.

Definition step_on (cfg : config) (r : reading) : model_data -> model_data :=
  step cfg (heater_pwm_of r) (fan_pwm_of r) (heater_temp_of r) (ambient_temp_of r).

(** [temp_model::check], [enabled] being [temp_model::enabled]. *)
Definition check (cfg : config) (enabled : bool) (r : reading)
    (d : model_data) (w : ModelWarning.warning_state_t)
    : model_data * ModelWarning.warning_state_t * list ErrorState.call :=
  if negb enabled then (d, w, [])
  else check_enabled cfg (heater_pwm_of r) (fan_pwm_of r) (heater_temp_of r)
                     (ambient_temp_of r) d w.

(** A run of passes with the settings untouched in between. *)
Fixpoint checks (cfg : config) (enabled : bool) (rs : list reading)
    (d : model_data) (w : ModelWarning.warning_state_t)
    : model_data * ModelWarning.warning_state_t * list ErrorState.call :=
  match rs with
  | [] => (d, w, [])
  | r :: rs' =>
      let '(d1, w1, c1) := check cfg enabled r d w in
      let '(d2, w2, c2) := checks cfg enabled rs' d1 w1 in
      (d2, w2, c1 ++ c2)
  end.

(** A run of steps. *)
Definition steps (cfg : config) (rs : list reading) (d : model_data) : model_data :=
  fold_left (fun d r => step_on cfg r d) rs d.

(** The array [dT_lag_buf] has its size and the index is within it. *)
Definition lag_ok (cfg : config) (d : model_data) : Prop :=
  Z.of_nat (length (dT_lag_buf d)) = TEMP_MODEL_LAG_SIZE cfg /\
  0 <= dT_lag_idx d < TEMP_MODEL_LAG_SIZE cfg.

(** The stock values: a lag of 2.1 s in steps of 0.27 s. *)
Definition example_config : config :=
  {| TEMP_MGR_INTV := literal 27 100; TEMP_MODEL_LAG_SIZE := 8;
     TEMP_MODEL_fS := literal 65 1000; TEMP_MODEL_fE := literal 5 100 |}.

Definition example_data : model_data :=
  {| params := TempModel.plausible;
     C_i := div (literal 27 100) (of_Z 12);
     warn_s := mul (literal 12 10) (literal 27 100);
     err_s := mul (literal 174 100) (literal 27 100);
     dT_lag_buf := repeat zero 8; dT_lag_idx := 0;
     dT_err_prev := of_Z 0; T_prev := of_Z 25;
     flag_error := false; flag_warning := false |}.

(** Readings of a hotend at [celsius] degrees with the heater at
    [pwm] and the fan off, the ambient at 25 degrees. *)
Definition reading_at (pwm celsius : Z) : reading :=
  {| heater_pwm_of := pwm; fan_pwm_of := 0; heater_temp_of := of_Z celsius;
     ambient_temp_of := of_Z 25 |}.

End ModelStep.

(** ** The alert after a min-temp error (alert_automaton_mintemp) *)

Module MintempAlert.
Import F32.

Inductive States := Init | TempAboveMintemp | ShowPleaseRestart | ShowMintemp.

(** The text handed to [lcd_setalertstatuspgm]: [m1], "Please
    restart", with which [last_alert_sent_to_lcd] becomes
    [LCDALERT_PLEASERESTART], or [m2], "MINTEMP ... fixed", with
    [LCDALERT_MINTEMPFIXED]. *)
Inductive message := m1 | m2.

Definition ALERT_AUTOMATON_SPEED_DIV : Z := 5.

Record alert_automaton_mintemp := {
  state : States;
  repeat : Z                  (* uint8_t *)
}.

Definition initial : alert_automaton_mintemp :=
  {| state := Init; repeat := ALERT_AUTOMATON_SPEED_DIV |}.

Definition substep (next_state : States) (a : alert_automaton_mintemp)
    : alert_automaton_mintemp :=
  if repeat a =? 0 then
    (* advance to the next state and prepare repeating for it too *)
    {| state := next_state; repeat := ALERT_AUTOMATON_SPEED_DIV |}
  else {| state := state a; repeat := Machine.uint8 (repeat a - 1) |}.

(** [step(current_temp, mintemp)]: the automaton and the message shown. *)
Definition step (current_temp mintemp : float) (a : alert_automaton_mintemp)
    : alert_automaton_mintemp * option message :=
  match state a with
  | Init =>
      (if gt current_temp mintemp
       then {| state := TempAboveMintemp; repeat := repeat a |} else a, None)
  | TempAboveMintemp => (substep ShowMintemp a, Some m2)
  | ShowPleaseRestart => (substep ShowMintemp a, Some m1)
  | ShowMintemp => (substep ShowPleaseRestart a, Some m2)
  end.

(** A run of calls on the temperatures and limits [(current_temp, mintemp)]. *)
Fixpoint steps (temps : list (float * float)) (a : alert_automaton_mintemp)
    : alert_automaton_mintemp * list (option message) :=
  match temps with
  | [] => (a, [])
  | t :: temps' =>
      let '(a1, shown) := step (fst t) (snd t) a in
      let '(a2, shown') := steps temps' a1 in
      (a2, shown :: shown')
  end.

(** The automaton has left [Init] and counts within its divider. *)
Definition alerting (a : alert_automaton_mintemp) : Prop :=
  state a <> Init /\ 0 <= repeat a <= ALERT_AUTOMATON_SPEED_DIV.

(** The calls after which "Please restart" is shown. *)
Definition calls_to_restart (a : alert_automaton_mintemp) : Z :=
  match state a with
  | Init => 0
  | TempAboveMintemp => repeat a + 8
  | ShowMintemp => repeat a + 2
  | ShowPleaseRestart => 1
  end.

End MintempAlert.

(** ** The estimation of a model parameter (temp_model_cal::cost_fn,
       update_section, estimate) *)

Module ModelCal.
Import F32 ModelStep.

(** An entry of [rec_buffer]. *)
Record rec_entry := {
  temp : float;
  pwm : Z                     (* uint8_t *)
}.

(** What the pointer [var] points to: [autotune] passes
    [&temp_model::data.C] and [&temp_model::data.R[i]]. *)
Inductive variable := data_C | data_R (i : nat).

Definition read (var : variable) (d : model_data) : float :=
  match var with
  | data_C => TempModel.C (params d)
  | data_R i => element (TempModel.R (params d)) (Z.of_nat i)
  end.

Definition write_params (var : variable) (v : float) (p : TempModel.model_data)
    : TempModel.model_data :=
  {| TempModel.P := TempModel.P p;
     TempModel.C := match var with data_C => v | data_R _ => TempModel.C p end;
     TempModel.R := match var with
                    | data_C => TempModel.R p
                    | data_R i => <[i := v]> (TempModel.R p)
                    end;
     TempModel.Ta_corr := TempModel.Ta_corr p; TempModel.warn := TempModel.warn p;
     TempModel.err := TempModel.err p; TempModel.uninitialized := TempModel.uninitialized p |}.

(** [*var = v] *)
Definition write (var : variable) (v : float) (d : model_data) : model_data :=
  {| params := write_params var v (params d);
     C_i := C_i d; warn_s := warn_s d; err_s := err_s d;
     dT_lag_buf := dT_lag_buf d; dT_lag_idx := dT_lag_idx d;
     dT_err_prev := dT_err_prev d; T_prev := T_prev d;
     flag_error := flag_error d; flag_warning := flag_warning d |}.

(** The pointer is within [temp_model::data]. *)
Definition within (var : variable) (d : model_data) : Prop :=
  match var with
  | data_C => True
  | data_R i => (i < length (TempModel.R (params d)))%nat
  end.

(** [constexpr float GOLDEN_RATIO = 0.6180339887498949;], the
    nearest binary32 number being [10368890 * 2^-24]. *)
Definition GOLDEN_RATIO : float := S754_finite false 10368890 (-24).

(** [update_section(points, bounds)]: the new [points]. *)
Definition update_section (bounds : float * float) : float * float :=
  let d := mul GOLDEN_RATIO (sub (snd bounds) (fst bounds)) in
  (add (fst bounds) d, sub (snd bounds) d).

Section Estimate.

Variable cfg : config.
Variable rec_buffer : list rec_entry.
Variable samples : Z.                 (* uint16_t *)
Variable var : variable.
Variable fan_pwm : Z.                 (* uint8_t *)
Variable ambient : float.

(** [rec_buffer[i]]; the buffer is read within its bounds wherever
    [samples] entries have been recorded. *)
Definition entry (i : nat) : rec_entry :=
  match rec_buffer !! i with Some en => en | None => {| temp := nan; pwm := 0 |} end.

(** [for(uint16_t i = 1; i < samples; ++i) { step(...);
       err += fabsf(temp_model::data.dT_err_prev); }] *)
Definition accumulate (d : model_data) : model_data * float :=
  fold_left
    (fun acc i =>
       let d1 := step cfg (pwm (entry i)) fan_pwm (temp (entry i)) ambient (fst acc) in
       (d1, add (snd acc) (abs (dT_err_prev d1))))
    (seq 1 (Z.to_nat samples - 1)) (d, of_Z 0).

(** [cost_fn(samples, var, v, fan_pwm, ambient)]: [temp_model::data]
    afterwards and the value returned; [samples - 1] is computed at
    type [unsigned]. *)
Definition cost_fn (v : float) (d : model_data) : model_data * float :=
  let d0 := reset cfg (pwm (entry 0)) fan_pwm (temp (entry 0)) ambient (write var v d) in
  let '(d1, err) := accumulate d0 in
  (d1, div err (of_Z (Machine.wrap_unsigned 16 (samples - 1)))).

Variables min max thr : float.
Variable max_itr : Z.                 (* uint16_t *)

(** What [printf_P("TM iter:%u v:%.2f e:%.3f\n")] reports. *)
Definition report : Type := Z * float * float.

(** The loop [for(uint8_t it = 0; it != max_itr; ++it)] entered with
    the counter [it], for at most [fuel] tests of its condition, and
    what follows it.  [None]: the loop is still running. *)
Fixpoint iterate (fuel : nat) (orig : float) (it : Z) (bounds points : float * float)
    (d : model_data) (said : list report) : option (model_data * float * list report) :=
  match fuel with
  | O => None
  | S fuel' =>
      if it =? max_itr then
        (* "TM estimation did not converge" *)
        Some (write var orig d, nan, said)
      else
        let '(d1, c1) := cost_fn (fst points) d in
        let '(d2, c2) := cost_fn (snd points) d1 in
        let dir := lt c2 c1 in
        (* bounds[dir] = points[!dir]; *)
        let bounds1 := if dir then (fst bounds, fst points) else (snd points, snd bounds) in
        let points1 := update_section bounds1 in
        let x := if dir then fst points1 else snd points1 in
        let e := mul (sub (of_Z 1) GOLDEN_RATIO)
                     (abs (div (sub (fst bounds1) (snd bounds1)) x)) in
        let said1 := said ++ [(it, x, e)] in
        if lt e thr then
          if SFeqb x min || SFeqb x max then
            (* real value likely outside of the search boundaries *)
            Some (write var orig d2, nan, said1)
          else Some (write var x d2, e, said1)
        else iterate fuel' orig (Machine.uint8 (it + 1)) bounds1 points1 d2 said1
  end.

(** What [estimate] has done when it returns the value [e]. *)
Definition returned (orig : float) (result : model_data * float * list report) : Prop :=
  let '(d', e, said) := result in
  (is_nan e = true -> read var d' = orig) /\
  (is_nan e = false ->
     lt e thr = true /\
     exists before it x,
       said = before ++ [(it, x, e)] /\ read var d' = x /\
       SFeqb x min = false /\ SFeqb x max = false).

(** [estimate(samples, var, min, max, thr, max_itr, fan_pwm, ambient)]:
    [temp_model::data] afterwards, the value returned and the reports. *)
Definition estimate (fuel : nat) (d : model_data)
    : option (model_data * float * list report) :=
  iterate fuel (read var d) 0 (min, max) (update_section (min, max)) d [].

End Estimate.

(** A recording of four samples of a hotend that heats. *)
Definition example_recording : list rec_entry :=
  [{| temp := of_Z 30; pwm := 127 |}; {| temp := of_Z 31; pwm := 127 |};
   {| temp := of_Z 32; pwm := 127 |}; {| temp := of_Z 33; pwm := 127 |}].

End ModelCal.

(** * Part II: properties *)

Module MachineFacts.
Import Machine.

Lemma int16_id x : -32768 <= x <= 32767 -> int16 x = x.
Proof.
  intros H. unfold int16, wrap_signed. simpl.
  rewrite Z.mod_small by lia. lia.
Qed.

Lemma uint8_range x : 0 <= uint8 x <= 255.
Proof.
  unfold uint8, wrap_unsigned.
  pose proof (Z.mod_pos_bound x (2 ^ 8) ltac:(lia)). simpl in *. lia.
Qed.

End MachineFacts.

(** ** The latched error keeps the highest priority raised *)

Module ErrorStateFacts.
Import ErrorState.

Section Priority.

Variable world : Type.
Variable save_recovery_values : Z -> world -> world.
Variable disable_heater : world -> world.
Variable hotendFanSetFullSpeed : world -> world.

Local Abbreviation raise :=
  (raise world save_recovery_values disable_heater hotendFanSetFullSpeed).
Local Abbreviation raise_all :=
  (raise_all world save_recovery_values disable_heater hotendFanSetFullSpeed).

Lemma type_ord_fits ty :
  Z.land (TempErrorType.to_uint8 ty) 7 = TempErrorType.to_uint8 ty.
Proof. destruct ty; reflexivity. Qed.

Lemma source_ord_fits s :
  Z.land (TempErrorSource.to_uint8 s) 3 = TempErrorSource.to_uint8 s.
Proof. destruct s; reflexivity. Qed.

Lemma raise_error st c : error (err (raise st c)) = true.
Proof. destruct c as [[src idx] ty]. reflexivity. Qed.

Lemma raise_assert st c : assert (err (raise st c)) = true.
Proof. destruct c as [[src idx] ty]. reflexivity. Qed.

(** What one call does to the recorded triple. *)
Lemma raise_recorded st c :
  recorded (err (raise st c)) =
  if outranks c (err st) then written c else recorded (err st).
Proof.
  destruct c as [[src idx] ty]. unfold outranks, call_type, recorded, written. simpl.
  destruct (negb (error (err st)) || (TempErrorType.to_uint8 ty <? type (err st)));
    simpl; [| reflexivity].
  now rewrite type_ord_fits, source_ord_fits.
Qed.

Lemma raise_type st c :
  type (err (raise st c)) =
  if error (err st) then Z.min (type (err st)) (call_type c) else call_type c.
Proof.
  destruct c as [[src idx] ty]. unfold call_type. simpl.
  destruct (error (err st)); simpl.
  - destruct (Z.ltb_spec (TempErrorType.to_uint8 ty) (type (err st))); simpl;
      [rewrite type_ord_fits |]; lia.
  - apply type_ord_fits.
Qed.

Lemma raise_all_latched cs : forall st,
  error (err st) = true ->
  error (err (raise_all cs st)) = true /\
  type (err (raise_all cs st)) = fold_left Z.min (map call_type cs) (type (err st)).
Proof.
  induction cs as [|c cs IH]; intros st He; simpl.
  - split; [assumption | reflexivity].
  - destruct (IH (raise st c) (raise_error st c)) as [H1 H2].
    split; [exact H1 |]. rewrite H2, raise_type, He. reflexivity.
Qed.

(** C1.  From a state with no error latched, after any run of
    [set_temp_error] calls the [error] flag is set exactly when
    some call was made, and then the recorded type is the lowest
    ordinal (highest priority in Max > Min > Preheat > Runaway >
    Model) among all types raised.  A single call always sets
    [error] and [assert]; it overwrites the recorded source, index
    and type exactly when no error was latched or the new type has
    a strictly lower ordinal, leaves them as they were otherwise,
    and never raises the ordinal of an already latched type. *)
Theorem latched_error_priority (st : state world) (cs : list call) (c : call) :
  error (err st) = false ->
  let st' := raise_all cs st in
  (error (err st') = true <-> cs <> []) /\
  (error (err st') = true -> Some (type (err st')) = highest_priority cs) /\
  (let st'' := raise st' c in
   error (err st'') = true /\ assert (err st'') = true /\
   (outranks c (err st') = true -> recorded (err st'') = written c) /\
   (outranks c (err st') = false -> recorded (err st'') = recorded (err st')) /\
   (outranks c (err st') = true <->
      error (err st') = false \/ call_type c < type (err st')) /\
   (error (err st') = true -> type (err st'') <= type (err st'))).
Proof.
  intros He st'. subst st'. repeat split.
  - intros H Hnil. subst cs. simpl in H. congruence.
  - intros Hne. destruct cs as [|c0 cs]; [congruence |]. simpl.
    apply raise_all_latched, raise_error.
  - destruct cs as [|c0 cs]; simpl; intros H; [congruence |].
    destruct (raise_all_latched cs (raise st c0) (raise_error st c0)) as [_ H2].
    rewrite H2, raise_type, He. reflexivity.
  - apply raise_error.
  - apply raise_assert.
  - intros H. now rewrite raise_recorded, H.
  - intros H. now rewrite raise_recorded, H.
  - unfold outranks. intros H. apply orb_true_iff in H as [H | H].
    + left. now apply negb_true_iff.
    + right. now apply Z.ltb_lt.
  - unfold outranks. intros [H | H]; apply orb_true_iff.
    + left. now apply negb_true_iff.
    + right. now apply Z.ltb_lt.
  - intros H. rewrite raise_type, H. lia.
Qed.

End Priority.

(** A bed preheat fault, then a hotend model fault, then a hotend
    maximum-temperature fault, then a bed runaway: MAXTEMP stays. *)
Lemma latched_error_priority_witness :
  let st := {| err := cleared; rest := tt |} in
  let cs := [(TempErrorSource.bed, 0, TempErrorType.preheat);
             (TempErrorSource.hotend, 0, TempErrorType.model);
             (TempErrorSource.hotend, 0, TempErrorType.max)] in
  let st' := raise_all unit (fun _ w => w) (fun w => w) (fun w => w) cs st in
  recorded (err st') = (0, 0, 0) /\
  recorded (err (raise unit (fun _ w => w) (fun w => w) (fun w => w) st'
                   (TempErrorSource.bed, 0, TempErrorType.runaway))) = recorded (err st').
Proof.
  intros st cs st'.
  pose proof (latched_error_priority unit (fun _ w => w) (fun w => w) (fun w => w)
                st cs (TempErrorSource.bed, 0, TempErrorType.runaway) eq_refl) as H.
  destruct H as (_ & _ & _ & _ & _ & Hkeep & _).
  split; [reflexivity | apply Hkeep; reflexivity].
Defined.

End ErrorStateFacts.

(** ** Binary32: each operation is the rounding of the exact one *)

Module RoundingFacts.
Import Rounding.

(** *** Counting binary digits *)

Lemma digits2_size p : digits2_pos p = Pos.size p.
Proof. induction p; simpl; congruence. Qed.

(** A positive number of [d] binary digits lies between [2 ^ (d - 1)] and [2 ^ d]. *)
Lemma digits2_bounds p :
  2 ^ (Zpos (digits2_pos p) - 1) <= Zpos p < 2 ^ Zpos (digits2_pos p).
Proof.
  rewrite digits2_size. split.
  - pose proof (Pos.size_le p) as H.
    assert (H2 : 2 ^ Zpos (Pos.size p) <= 2 * Zpos p).
    { change (2 * Zpos p) with (Zpos p~0). rewrite <- Pos2Z.inj_pow. now apply Pos2Z.pos_le_pos. }
    replace (2 ^ Zpos (Pos.size p)) with (2 * 2 ^ (Zpos (Pos.size p) - 1)) in H2.
    + lia.
    + rewrite <- Z.pow_succ_r by lia. f_equal. lia.
  - pose proof (Pos.size_gt p) as H. rewrite <- Pos2Z.inj_pow. now apply Pos2Z.pos_lt_pos.
Qed.

Lemma digits_unique m d d' :
  2 ^ (d - 1) <= m < 2 ^ d -> 2 ^ (d' - 1) <= m < 2 ^ d' -> 0 < d -> 0 < d' -> d = d'.
Proof.
  intros [H1 H2] [H3 H4] Hd Hd'.
  destruct (Z.lt_trichotomy d d') as [H | [H | H]]; trivial; exfalso.
  - assert (2 ^ d <= 2 ^ (d' - 1)) by (apply Z.pow_le_mono_r; lia). lia.
  - assert (2 ^ d' <= 2 ^ (d - 1)) by (apply Z.pow_le_mono_r; lia). lia.
Qed.

(** *** The shift register *)

Lemma iter_pos_invariant {A} (f : A -> A) (P : Z -> A -> Prop) :
  (forall k x, 0 <= k -> P k x -> P (k + 1) (f x)) ->
  forall p k x, 0 <= k -> P k x -> P (k + Zpos p) (SpecFloat.iter_pos f p x).
Proof.
  intros Hstep. induction p as [p IH | p IH |]; intros k x Hk HP; simpl.
  - replace (k + Zpos p~1) with ((k + 1 + Zpos p) + Zpos p) by lia.
    apply IH; [lia |]. apply IH; [lia |]. now apply Hstep.
  - replace (k + Zpos p~0) with ((k + Zpos p) + Zpos p) by lia.
    apply IH; [lia |]. now apply IH.
  - now apply Hstep.
Qed.

(** One step of the shift register halves the mantissa and doubles
    the step of the grid; the round and sticky bits keep locating [V]. *)
Lemma shr_1_located mrs W V :
  0 <= shr_m mrs -> 0 < W -> located mrs W V ->
  located (shr_1 mrs) (2 * W) V /\ shr_m (shr_1 mrs) = shr_m mrs / 2.
Proof.
  destruct mrs as [m r s]. unfold located. cbn [shr_m shr_r shr_s]. intros Hm HW H.
  destruct m as [|p|p]; [| | lia].
  - destruct r, s; cbn [shr_1 shr_m shr_r shr_s orb] in *; split; try reflexivity; lia.
  - destruct p as [p|p|].
    + assert (Hd : Z.pos p~1 / 2 = Z.pos p).
      { change (Z.pos p~1) with (2 * Z.pos p + 1). rewrite Z.mul_comm, Z.div_add_l by lia. reflexivity. }
      rewrite Hd. change (Z.pos p~1) with (2 * Z.pos p + 1) in H.
      destruct r, s; cbn [shr_1 shr_m shr_r shr_s orb] in *; split; try reflexivity; nia.
    + assert (Hd : Z.pos p~0 / 2 = Z.pos p).
      { change (Z.pos p~0) with (2 * Z.pos p). rewrite Z.mul_comm, Z.div_mul by lia. reflexivity. }
      rewrite Hd. change (Z.pos p~0) with (2 * Z.pos p) in H.
      destruct r, s; cbn [shr_1 shr_m shr_r shr_s orb] in *; split; try reflexivity; nia.
    + destruct r, s; cbn [shr_1 shr_m shr_r shr_s orb] in *; split; try reflexivity; lia.
Qed.

(** The same for a shift by [n] places. *)
Lemma shr_located mrs e n W V :
  0 <= shr_m mrs -> 0 < W -> located mrs W V -> 0 <= n ->
  located (fst (shr mrs e n)) (2 ^ n * W) V /\
  shr_m (fst (shr mrs e n)) = shr_m mrs / 2 ^ n /\
  snd (shr mrs e n) = e + n.
Proof.
  intros Hm HW Hloc Hn. unfold shr. destruct n as [|p|p]; [| | lia].
  - cbn [fst snd]. change (2 ^ 0) with 1. rewrite Z.mul_1_l, Z.div_1_r, Z.add_0_r. auto.
  - cbn [fst snd].
    assert (Hinv : forall k x, 0 <= k ->
              (located x (2 ^ k * W) V /\ shr_m x = shr_m mrs / 2 ^ k /\ 0 <= shr_m x) ->
              located (shr_1 x) (2 ^ (k + 1) * W) V /\
              shr_m (shr_1 x) = shr_m mrs / 2 ^ (k + 1) /\ 0 <= shr_m (shr_1 x)).
    { intros k x Hk (H1 & H2 & H3).
      assert (Hp : 0 < 2 ^ k) by (apply Z.pow_pos_nonneg; lia).
      destruct (shr_1_located x (2 ^ k * W) V H3 ltac:(nia) H1) as [H4 H5].
      rewrite Z.pow_add_r by lia. change (2 ^ 1) with 2.
      replace (2 ^ k * 2 * W) with (2 * (2 ^ k * W)) by ring.
      split; [exact H4 |]. rewrite H5, H2.
      split; [rewrite Z.div_div by lia; reflexivity | apply Z.div_pos; lia]. }
    pose proof (iter_pos_invariant shr_1
      (fun k x => located x (2 ^ k * W) V /\ shr_m x = shr_m mrs / 2 ^ k /\ 0 <= shr_m x)
      Hinv p 0 mrs ltac:(lia)) as H.
    cbn beta in H. change (2 ^ 0) with 1 in H. rewrite Z.mul_1_l, Z.div_1_r in H.
    specialize (H (conj Hloc (conj eq_refl Hm))).
    change (0 + Z.pos p) with (Z.pos p) in H. tauto.
Qed.

(** *** Rounding to nearest even *)

Lemma div_mod_located m W V :
  0 < W -> m * W <= V < (m + 1) * W -> V / W = m /\ V mod W = V - m * W.
Proof.
  intros HW H.
  assert (Hq : V / W = m).
  { symmetry. apply (Z.div_unique V W m (V - m * W)); [left; lia | ring]. }
  split; [exact Hq |]. pose proof (Z.div_mod V W ltac:(lia)) as Hd. rewrite Hq in Hd. lia.
Qed.

(** The choice that [SpecFloat] makes from the round and sticky bits
    is the rounding to nearest even of [V / W]. *)
Lemma round_nearest_even_rne mrs W V :
  0 < W -> located mrs W V ->
  round_nearest_even (shr_m mrs) (loc_of_shr_record mrs) = rne V W.
Proof.
  intros HW H. destruct mrs as [m r s]. unfold located in H. cbn [shr_m shr_r shr_s] in *.
  assert (Hb : m * W <= V < (m + 1) * W) by (destruct r, s; nia).
  destruct (div_mod_located m W V HW Hb) as [Hq Hr].
  unfold rne. rewrite Hq, Hr.
  destruct r, s; cbn [loc_of_shr_record round_nearest_even].
  - destruct (Z.ltb_spec (2 * (V - m * W)) W); [nia |].
    destruct (Z.ltb_spec W (2 * (V - m * W))); [reflexivity | nia].
  - destruct (Z.ltb_spec (2 * (V - m * W)) W); [nia |].
    destruct (Z.ltb_spec W (2 * (V - m * W))); [nia | reflexivity].
  - destruct (Z.ltb_spec (2 * (V - m * W)) W); [reflexivity | nia].
  - destruct (Z.ltb_spec (2 * (V - m * W)) W); [reflexivity | nia].
Qed.

Lemma rne_bounds V W :
  0 < W -> V / W <= rne V W <= V / W + 1.
Proof.
  intros HW. unfold rne.
  destruct (2 * (V mod W) <? W); [lia |].
  destruct (W <? 2 * (V mod W)); [lia |].
  destruct (Z.even (V / W)); lia.
Qed.

Lemma rne_exact m W : 0 < W -> rne (m * W) W = m.
Proof.
  intros HW. unfold rne. rewrite Z.div_mul, Z.mod_mul by lia.
  destruct (Z.ltb_spec (2 * 0) W); [reflexivity | lia].
Qed.

Lemma rne_le V W b : 0 < W -> V <= b * W -> rne V W <= b.
Proof.
  intros HW H. unfold rne.
  pose proof (Z.div_mod V W ltac:(lia)) as Hd.
  pose proof (Z.mod_pos_bound V W HW) as Hr.
  assert (Hq : V / W <= b) by nia.
  destruct (Z.ltb_spec (2 * (V mod W)) W); [lia |].
  assert (V / W < b) by nia.
  destruct (W <? 2 * (V mod W)); [lia |].
  destruct (Z.even (V / W)); lia.
Qed.

Lemma rne_ge V W a : 0 < W -> a * W <= V -> a <= rne V W.
Proof.
  intros HW H. pose proof (rne_bounds V W HW) as Hb.
  pose proof (Z.div_mod V W ltac:(lia)) as Hd.
  pose proof (Z.mod_pos_bound V W HW) as Hr.
  assert (a <= V / W) by nia. lia.
Qed.

(** Rounding to nearest even is monotonic. *)
Lemma rne_monotone V V' W : 0 < W -> V <= V' -> rne V W <= rne V' W.
Proof.
  intros HW HV.
  pose proof (Z.div_le_mono V V' W HW HV) as Hq.
  pose proof (rne_bounds V W HW) as Hb. pose proof (rne_bounds V' W HW) as Hb'.
  destruct (Z.eq_dec (V / W) (V' / W)) as [Heq | Hne]; [| lia].
  pose proof (Z.div_mod V W ltac:(lia)) as Hd.
  pose proof (Z.div_mod V' W ltac:(lia)) as Hd'.
  assert (Hr : V mod W <= V' mod W) by nia.
  unfold rne. rewrite <- Heq.
  destruct (Z.ltb_spec (2 * (V mod W)) W), (Z.ltb_spec (2 * (V' mod W)) W); try lia.
  - destruct (W <? 2 * (V' mod W)); [lia |]. destruct (Z.even (V / W)); lia.
  - destruct (Z.ltb_spec W (2 * (V mod W))), (Z.ltb_spec W (2 * (V' mod W))); try lia.
    + destruct (Z.even (V / W)); lia.
Qed.

(** *** The rounding step of [SpecFloat] *)

Lemma fexp_normal e : -149 <= e - 24 -> fexp 24 128 e = e - 24.
Proof. intros H. unfold fexp, emin. lia. Qed.

Lemma digits_24 p : 2 ^ 23 <= Zpos p < 2 ^ 24 -> Zpos (digits2_pos p) = 24.
Proof.
  intros H. pose proof (digits2_bounds p) as Hb.
  apply (digits_unique (Zpos p)); trivial; lia.
Qed.

Lemma Zdigits2_bounds m : 0 < m -> 2 ^ (Zdigits2 m - 1) <= m < 2 ^ Zdigits2 m.
Proof. destruct m as [|p|p]; try lia. intros _. apply digits2_bounds. Qed.

Lemma Zdigits2_pos m : 0 < m -> 0 < Zdigits2 m.
Proof. destruct m; simpl; lia. Qed.

Lemma shift_to_24 m d :
  24 <= d -> 2 ^ (d - 1) <= m < 2 ^ d -> 2 ^ 23 <= m / 2 ^ (d - 24) < 2 ^ 24.
Proof.
  intros Hd [H1 H2].
  assert (Hp : 0 < 2 ^ (d - 24)) by (apply Z.pow_pos_nonneg; lia).
  assert (E1 : 2 ^ (d - 1) = 2 ^ 23 * 2 ^ (d - 24)).
  { rewrite <- Z.pow_add_r by lia. f_equal. lia. }
  assert (E2 : 2 ^ d = 2 ^ 24 * 2 ^ (d - 24)).
  { rewrite <- Z.pow_add_r by lia. f_equal. lia. }
  split.
  - apply Z.div_le_lower_bound; [lia |]. lia.
  - apply Z.div_lt_upper_bound; [lia |]. lia.
Qed.

Lemma located_bounds mrs W V :
  0 < W -> located mrs W V -> shr_m mrs * W <= V < (shr_m mrs + 1) * W.
Proof. intros HW H. destruct mrs as [m [] []]; unfold located in H; cbn [shr_m shr_r shr_s] in *; nia. Qed.

Lemma located_exact m W : located (shr_record_of_loc m loc_Exact) W (m * W).
Proof. reflexivity. Qed.

(** The rounding step of [SpecFloat] on a mantissa of at least 24
    bits, in the range of the normal numbers: the result is finite
    with a mantissa of 24 bits, and it is the rounding to nearest even
    of [V] on the grid of its binade. *)
Lemma binary_round_aux_spec sx mx ex lx W V :
  0 < mx -> 24 <= Zdigits2 mx ->
  -149 <= Zdigits2 mx + ex - 24 < 104 ->
  0 < W -> located (shr_record_of_loc mx lx) W V ->
  let E := Zdigits2 mx + ex - 24 in
  let W1 := 2 ^ (Zdigits2 mx - 24) * W in
  2 ^ 23 * W1 <= V < 2 ^ 24 * W1 /\
  exists m e,
    binary_round_aux 24 128 sx mx ex lx = S754_finite sx m e /\
    Zpos (digits2_pos m) = 24 /\ E <= e <= E + 1 /\
    Zpos m * 2 ^ (e - E) = rne V W1.
Proof.
  intros Hmx Hd HE HW Hloc E W1.
  assert (Hp : 0 < 2 ^ (Zdigits2 mx - 24)) by (apply Z.pow_pos_nonneg; lia).
  assert (HW1 : 0 < W1) by (unfold W1; nia).
  assert (Hm0 : shr_m (shr_record_of_loc mx lx) = mx) by (destruct lx as [|[]]; reflexivity).
  pose proof (shr_located (shr_record_of_loc mx lx) ex (Zdigits2 mx - 24) W V
                ltac:(rewrite Hm0; lia) HW Hloc ltac:(lia)) as (Hl1 & Hm1 & He1).
  fold W1 in Hl1. rewrite Hm0 in Hm1.
  pose proof (shift_to_24 mx (Zdigits2 mx) Hd (Zdigits2_bounds mx Hmx)) as Hm24.
  pose proof (located_bounds _ _ _ HW1 Hl1) as Hb. rewrite Hm1 in Hb.
  split; [nia |].
  unfold binary_round_aux, shr_fexp.
  rewrite (fexp_normal (Zdigits2 mx + ex)) by lia.
  replace (Zdigits2 mx + ex - 24 - ex) with (Zdigits2 mx - 24) by lia.
  destruct (shr (shr_record_of_loc mx lx) ex (Zdigits2 mx - 24)) as [mrs' e'] eqn:Hshr.
  cbn [fst snd] in Hl1, Hm1, He1. subst e'.
  rewrite (round_nearest_even_rne mrs' W1 V HW1 Hl1).
  assert (Hr : 2 ^ 23 <= rne V W1 <= 2 ^ 24).
  { split; [apply rne_ge | apply rne_le]; trivial; nia. }
  replace (ex + (Zdigits2 mx - 24)) with E by (unfold E; lia).
  destruct (Z.eq_dec (rne V W1) (2 ^ 24)) as [Htop | Hlow].
  - rewrite Htop. change (Zdigits2 (2 ^ 24)) with 25.
    rewrite (fexp_normal (25 + E)) by (unfold E; lia).
    replace (25 + E - 24 - E) with 1 by lia.
    cbn [shr shr_record_of_loc iter_pos shr_1 shr_m]. change (2 ^ 24) with 16777216.
    cbn [shr_1 shr_m orb].
    destruct (Z.leb_spec (E + 1) (128 - 24)); [| unfold E in *; lia].
    exists 8388608%positive, (E + 1). repeat split; try lia.
    replace (E + 1 - E) with 1 by lia. reflexivity.
  - destruct (rne V W1) as [|p|p] eqn:Hrne; try lia.
    assert (Hd24 : Zpos (digits2_pos p) = 24) by (apply digits_24; lia).
    cbn [Zdigits2]. rewrite Hd24.
    rewrite (fexp_normal (24 + E)) by (unfold E; lia).
    replace (24 + E - 24 - E) with 0 by lia.
    cbn [shr shr_record_of_loc shr_m].
    destruct (Z.leb_spec E (128 - 24)); [| unfold E in *; lia].
    exists p, E. repeat split; try lia.
    replace (E - E) with 0 by lia. change (2 ^ 0) with 1. lia.
Qed.

(** *** Rounding at the level of values *)

Lemma expo_unique D V j :
  0 < D -> 0 <= j -> 2 ^ 23 * (D * 2 ^ j) <= V < 2 ^ 24 * (D * 2 ^ j) -> expo D V = j.
Proof.
  intros HD Hj [H1 H2]. unfold expo.
  assert (Hp : 0 < 2 ^ j) by (apply Z.pow_pos_nonneg; lia).
  assert (Hlo : 2 ^ (23 + j) <= V / D).
  { apply Z.div_le_lower_bound; [lia |]. rewrite Z.pow_add_r by lia. nia. }
  assert (Hhi : V / D < 2 ^ (24 + j)).
  { apply Z.div_lt_upper_bound; [lia |]. rewrite Z.pow_add_r by lia. nia. }
  rewrite (Z.log2_unique (V / D) (23 + j)); [lia | lia |].
  split; [exact Hlo |]. replace (Z.succ (23 + j)) with (24 + j) by lia. exact Hhi.
Qed.

Lemma expo_spec D V :
  0 < D -> 2 ^ 23 * D <= V ->
  0 <= expo D V /\
  2 ^ 23 * (D * 2 ^ expo D V) <= V < 2 ^ 24 * (D * 2 ^ expo D V).
Proof.
  intros HD HV. unfold expo.
  assert (Hq : 2 ^ 23 <= V / D) by (apply Z.div_le_lower_bound; lia).
  assert (Hqpos : 0 < V / D) by lia.
  pose proof (Z.log2_spec (V / D) Hqpos) as [Hl Hh].
  assert (Hlog : 23 <= Z.log2 (V / D)).
  { apply Z.log2_le_pow2; lia. }
  set (j := Z.log2 (V / D) - 23) in *.
  assert (Hp : 0 < 2 ^ j) by (apply Z.pow_pos_nonneg; lia).
  assert (E1 : 2 ^ Z.log2 (V / D) = 2 ^ 23 * 2 ^ j).
  { rewrite <- Z.pow_add_r by lia. f_equal. lia. }
  assert (E2 : 2 ^ Z.succ (Z.log2 (V / D)) = 2 ^ 24 * 2 ^ j).
  { rewrite <- Z.pow_add_r by lia. f_equal. lia. }
  rewrite E1 in Hl. rewrite E2 in Hh.
  pose proof (Z.div_mod V D ltac:(lia)) as Hdm.
  pose proof (Z.mod_pos_bound V D HD) as Hr.
  split; [lia |]. split; nia.
Qed.

Lemma RK_bounds D V :
  0 < D -> 2 ^ 23 * D <= V ->
  2 ^ 23 * 2 ^ expo D V <= RK D V <= 2 ^ 24 * 2 ^ expo D V.
Proof.
  intros HD HV. destruct (expo_spec D V HD HV) as (Hj & H1 & H2). unfold RK.
  assert (Hp : 0 < 2 ^ expo D V) by (apply Z.pow_pos_nonneg; lia).
  assert (HW : 0 < D * 2 ^ expo D V) by nia.
  pose proof (rne_ge V _ (2 ^ 23) HW H1). pose proof (rne_le V _ (2 ^ 24) HW ltac:(lia)).
  nia.
Qed.

(** Rounding to 24 significant bits is monotonic, across binades. *)
Lemma RK_monotone D V V' :
  0 < D -> 2 ^ 23 * D <= V -> V <= V' -> RK D V <= RK D V'.
Proof.
  intros HD HV HVV.
  destruct (expo_spec D V HD HV) as (Hj & H1 & H2).
  destruct (expo_spec D V' HD ltac:(lia)) as (Hj' & H1' & H2').
  pose proof (RK_bounds D V HD HV) as Hb. pose proof (RK_bounds D V' HD ltac:(lia)) as Hb'.
  set (j := expo D V) in *. set (j' := expo D V') in *.
  assert (Hp : 0 < 2 ^ j) by (apply Z.pow_pos_nonneg; lia).
  assert (Hp' : 0 < 2 ^ j') by (apply Z.pow_pos_nonneg; lia).
  destruct (Z.lt_trichotomy j j') as [Hlt | [Heq | Hgt]].
  - assert (2 * 2 ^ j <= 2 ^ j').
    { replace (2 * 2 ^ j) with (2 ^ (j + 1)) by (rewrite Z.pow_add_r by lia; change (2 ^ 1) with 2; ring).
      apply Z.pow_le_mono_r; lia. }
    lia.
  - unfold RK. fold j j'. rewrite <- Heq.
    assert (HW : 0 < D * 2 ^ j) by nia.
    pose proof (rne_monotone V V' _ HW HVV). nia.
  - exfalso.
    assert (2 * 2 ^ j' <= 2 ^ j).
    { replace (2 * 2 ^ j') with (2 ^ (j' + 1)) by (rewrite Z.pow_add_r by lia; change (2 ^ 1) with 2; ring).
      apply Z.pow_le_mono_r; lia. }
    nia.
Qed.

(** A value on the grid of its binade is kept. *)
Lemma RK_exact D M j :
  0 < D -> 0 <= j -> 2 ^ 23 <= M < 2 ^ 24 -> RK D (M * (D * 2 ^ j)) = M * 2 ^ j.
Proof.
  intros HD Hj HM.
  assert (Hp : 0 < 2 ^ j) by (apply Z.pow_pos_nonneg; lia).
  unfold RK. rewrite (expo_unique D _ j HD Hj) by nia.
  rewrite rne_exact by nia. reflexivity.
Qed.

(** The rounding step of [SpecFloat], at the level of values. *)
Lemma binary_round_aux_valK sx mx ex lx D V :
  0 < mx -> 24 <= Zdigits2 mx ->
  -149 <= Zdigits2 mx + ex - 24 < 104 ->
  0 < D -> 0 <= ex + K ->
  located (shr_record_of_loc mx lx) (D * 2 ^ (ex + K)) V ->
  let f := binary_round_aux 24 128 sx mx ex lx in
  normal f /\ valK f = sgn sx * RK D V /\ 2 ^ 23 * D <= V /\
  exists m e, f = S754_finite sx m e.
Proof.
  intros Hmx Hd HE HD HK Hloc f.
  assert (Hp : 0 < 2 ^ (ex + K)) by (apply Z.pow_pos_nonneg; lia).
  assert (Hp2 : 0 < 2 ^ (Zdigits2 mx - 24)) by (apply Z.pow_pos_nonneg; lia).
  destruct (binary_round_aux_spec sx mx ex lx (D * 2 ^ (ex + K)) V Hmx Hd HE ltac:(nia) Hloc)
    as (Hb & m & e & Hf & Hdm & He & Hval).
  set (E := Zdigits2 mx + ex - 24) in *.
  assert (EW : 2 ^ (Zdigits2 mx - 24) * (D * 2 ^ (ex + K)) = D * 2 ^ (E + K)).
  { replace (E + K) with ((Zdigits2 mx - 24) + (ex + K)) by (unfold E; lia).
    rewrite (Z.pow_add_r 2 (Zdigits2 mx - 24) (ex + K)) by lia. ring. }
  rewrite EW in Hb, Hval.
  assert (Hj : expo D V = E + K) by (apply expo_unique; [lia | unfold E; lia | exact Hb]).
  assert (HpE : 0 < 2 ^ (E + K)) by (apply Z.pow_pos_nonneg; unfold E; lia).
  subst f. rewrite Hf. split; [| split; [| split]].
  - cbn [normal]. split; [exact Hdm | unfold E in *; lia].
  - cbn [valK]. unfold RK. rewrite Hj, <- Hval. f_equal.
    rewrite <- Z.mul_assoc. f_equal. rewrite <- Z.pow_add_r by (unfold E in *; lia).
    f_equal. lia.
  - nia.
  - eauto.
Qed.

(** *** The order of floats is the order of their values *)

Lemma digits_24_bounds m : Zpos (digits2_pos m) = 24 -> 2 ^ 23 <= Zpos m < 2 ^ 24.
Proof. intros H. pose proof (digits2_bounds m) as Hb. rewrite H in Hb. exact Hb. Qed.

Lemma magnitude_compare m1 e1 m2 e2 :
  Zpos (digits2_pos m1) = 24 -> Zpos (digits2_pos m2) = 24 ->
  0 <= e1 + K -> 0 <= e2 + K ->
  (Zpos m1 * 2 ^ (e1 + K) ?= Zpos m2 * 2 ^ (e2 + K)) =
  match e1 ?= e2 with
  | Lt => Lt
  | Gt => Gt
  | Eq => Pos.compare_cont Eq m1 m2
  end.
Proof.
  intros H1 H2 Hk1 Hk2.
  apply digits_24_bounds in H1, H2.
  assert (Hp1 : 0 < 2 ^ (e1 + K)) by (apply Z.pow_pos_nonneg; lia).
  assert (Hp2 : 0 < 2 ^ (e2 + K)) by (apply Z.pow_pos_nonneg; lia).
  destruct (Z.compare_spec e1 e2) as [Heq | Hlt | Hgt].
  - subst e2. change (Pos.compare_cont Eq m1 m2) with (Zpos m1 ?= Zpos m2).
    destruct (Z.compare_spec (Zpos m1) (Zpos m2)) as [Hm | Hm | Hm].
    + rewrite Hm. apply Z.compare_refl.
    + apply Z.compare_lt_iff. nia.
    + apply Z.compare_gt_iff. nia.
  - apply Z.compare_lt_iff.
    assert (2 * 2 ^ (e1 + K) <= 2 ^ (e2 + K)).
    { replace (2 * 2 ^ (e1 + K)) with (2 ^ (e1 + K + 1))
        by (rewrite (Z.pow_add_r 2 (e1 + K) 1) by lia; change (2 ^ 1) with 2; ring).
      apply Z.pow_le_mono_r; lia. }
    change (2 ^ 24) with (2 * 2 ^ 23) in *. nia.
  - apply Z.compare_gt_iff.
    assert (2 * 2 ^ (e2 + K) <= 2 ^ (e1 + K)).
    { replace (2 * 2 ^ (e2 + K)) with (2 ^ (e2 + K + 1))
        by (rewrite (Z.pow_add_r 2 (e2 + K) 1) by lia; change (2 ^ 1) with 2; ring).
      apply Z.pow_le_mono_r; lia. }
    change (2 ^ 24) with (2 * 2 ^ 23) in *. nia.
Qed.

Lemma valK_pos (s : bool) m e : 0 <= e + K -> 0 < Zpos m * 2 ^ (e + K).
Proof. intros H. assert (0 < 2 ^ (e + K)) by (apply Z.pow_pos_nonneg; lia). nia. Qed.

Lemma compare_neg a b : ((-1) * a ?= (-1) * b) = CompOpp (a ?= b).
Proof.
  destruct (Z.compare_spec a b) as [H | H | H]; cbn [CompOpp].
  - subst. apply Z.compare_refl.
  - apply Z.compare_gt_iff. lia.
  - apply Z.compare_lt_iff. lia.
Qed.

(** The comparison of two floats is the comparison of their values. *)
Lemma compare_valK f g :
  normal f -> normal g -> SFcompare f g = Some (valK f ?= valK g).
Proof.
  destruct f as [sf | sf | | sf mf ef], g as [sg | sg | | sg mg eg];
    cbn [normal]; try contradiction; intros Hf Hg.
  - reflexivity.
  - destruct Hg as [Hd He]. pose proof (valK_pos sg mg eg ltac:(lia)) as Hp.
    cbn [SFcompare valK]. f_equal. symmetry.
    destruct sg; unfold sgn; [apply Z.compare_gt_iff | apply Z.compare_lt_iff]; lia.
  - destruct Hf as [Hd He]. pose proof (valK_pos sf mf ef ltac:(lia)) as Hp.
    cbn [SFcompare valK]. f_equal. symmetry.
    destruct sf; unfold sgn; [apply Z.compare_lt_iff | apply Z.compare_gt_iff]; lia.
  - destruct Hf as [Hdf Hef], Hg as [Hdg Heg].
    pose proof (valK_pos sf mf ef ltac:(lia)) as Hpf.
    pose proof (valK_pos sg mg eg ltac:(lia)) as Hpg.
    pose proof (magnitude_compare mf ef mg eg Hdf Hdg ltac:(lia) ltac:(lia)) as Hc.
    cbn [SFcompare valK]. f_equal. symmetry.
    destruct sf, sg; unfold sgn.
    + rewrite (compare_neg (Zpos mf * 2 ^ (ef + K)) (Zpos mg * 2 ^ (eg + K))), Hc.
      destruct (ef ?= eg); reflexivity.
    + apply Z.compare_lt_iff. lia.
    + apply Z.compare_gt_iff. lia.
    + rewrite !Z.mul_1_l. exact Hc.
Qed.

Lemma leb_valK f g : normal f -> normal g -> SFleb f g = (valK f <=? valK g).
Proof.
  intros Hf Hg. unfold SFleb. rewrite (compare_valK f g Hf Hg). unfold Z.leb.
  destruct (valK f ?= valK g); reflexivity.
Qed.

(** *** Normalisation, and the conversion of integers *)

Lemma iter_xO m d : Zpos (Pos.iter xO m d) = Zpos m * 2 ^ Zpos d.
Proof.
  induction d as [|d IH] using Pos.peano_ind.
  - simpl. lia.
  - rewrite Pos.iter_succ, Pos2Z.inj_succ, Z.pow_succ_r by lia.
    change (Zpos (Pos.iter xO m d)~0) with (2 * Zpos (Pos.iter xO m d)). rewrite IH. ring.
Qed.

Lemma shl_align_spec mx ex ex' :
  snd (shl_align mx ex ex') = Z.min ex ex' /\
  Zpos (fst (shl_align mx ex ex')) = Zpos mx * 2 ^ (ex - Z.min ex ex').
Proof.
  unfold shl_align. destruct (ex' - ex) as [|d|d] eqn:Hd; cbn [fst snd].
  - rewrite Z.min_l by lia. replace (ex - ex) with 0 by lia. simpl. lia.
  - rewrite Z.min_l by lia. replace (ex - ex) with 0 by lia. simpl. lia.
  - rewrite Z.min_r by lia. rewrite iter_xO. replace (ex - ex') with (Zpos d) by lia. auto.
Qed.

Lemma digits_shift m d n :
  0 < m -> 0 <= n -> 0 < d -> 2 ^ (d - 1) <= m < 2 ^ d ->
  Zdigits2 (m * 2 ^ n) = d + n.
Proof.
  intros Hm Hn Hd [H1 H2].
  assert (Hp : 0 < 2 ^ n) by (apply Z.pow_pos_nonneg; lia).
  assert (Hmn : 0 < m * 2 ^ n) by nia.
  pose proof (Zdigits2_bounds _ Hmn) as Hb. pose proof (Zdigits2_pos _ Hmn) as Hpos.
  apply (digits_unique (m * 2 ^ n)); trivial; try lia.
  replace (d + n - 1) with ((d - 1) + n) by lia.
  rewrite !Z.pow_add_r by lia. nia.
Qed.

Lemma RK_pos D V : 0 < D -> 2 ^ 23 * D <= V -> 0 < RK D V.
Proof.
  intros HD HV. pose proof (RK_bounds D V HD HV) as Hb.
  destruct (expo_spec D V HD HV) as (Hj & _).
  assert (0 < 2 ^ expo D V) by (apply Z.pow_pos_nonneg; lia). lia.
Qed.

Lemma binary_round_valK sx mx ex :
  23 <= ex + K ->
  Zpos (digits2_pos mx) + ex - 24 < 104 ->
  let f := binary_round 24 128 sx mx ex in
  normal f /\ valK f = sgn sx * RK 1 (Zpos mx * 2 ^ (ex + K)) /\
  2 ^ 23 <= Zpos mx * 2 ^ (ex + K) /\ exists m e, f = S754_finite sx m e.
Proof.
  intros HK Hhi f. subst f. unfold binary_round.
  set (dx := Zpos (digits2_pos mx)) in *.
  assert (Hdx : 0 < dx) by (unfold dx; lia).
  pose proof (digits2_bounds mx) as Hb. fold dx in Hb.
  assert (HKv : K = 100) by reflexivity.
  rewrite (fexp_normal (dx + ex)) by lia.
  destruct (shl_align_spec mx ex (dx + ex - 24)) as [Hez Hmz].
  destruct (shl_align mx ex (dx + ex - 24)) as [mz ez]. cbn [fst snd] in Hez, Hmz. subst ez.
  set (ez := Z.min ex (dx + ex - 24)) in *.
  assert (Hn : 0 <= ex - ez) by (unfold ez; lia).
  assert (Hdz : Zdigits2 (Zpos mz) = dx + (ex - ez)).
  { rewrite Hmz. apply digits_shift; trivial; lia. }
  assert (HpK : 0 < 2 ^ (ez + K)) by (apply Z.pow_pos_nonneg; unfold ez; lia).
  assert (HV : Zpos mz * (1 * 2 ^ (ez + K)) = Zpos mx * 2 ^ (ex + K)).
  { rewrite Hmz. replace (ex + K) with ((ex - ez) + (ez + K)) by lia.
    rewrite (Z.pow_add_r 2 (ex - ez) (ez + K)) by (unfold ez; lia). ring. }
  assert (G1 : 24 <= Zdigits2 (Zpos mz)) by (rewrite Hdz; unfold ez; lia).
  assert (G2 : -149 <= Zdigits2 (Zpos mz) + ez - 24 < 104) by (rewrite Hdz; unfold ez; lia).
  assert (G3 : 0 <= ez + K) by (unfold ez; lia).
  pose proof (binary_round_aux_valK sx (Zpos mz) ez loc_Exact 1 (Zpos mx * 2 ^ (ex + K))
                eq_refl G1 G2 eq_refl G3) as H.
  rewrite <- HV in H at 1. specialize (H (located_exact _ _)).
  destruct H as (H1 & H2 & H3 & H4). repeat split; trivial; lia.
Qed.

(** Normalisation rounds the value of [m * 2 ^ e]. *)
Lemma binary_normalize_valK m e :
  23 <= e + K -> Zdigits2 m + e - 24 < 104 ->
  let f := binary_normalize 24 128 m e false in
  normal f /\ valK f = RZ (m * 2 ^ (e + K)).
Proof.
  intros HK Hhi f. subst f.
  assert (Hp : 0 < 2 ^ (e + K)) by (apply Z.pow_pos_nonneg; lia).
  destruct m as [|p|p]; cbn [binary_normalize].
  - split; reflexivity.
  - destruct (binary_round_valK false p e HK Hhi) as (H1 & H2 & H3 & _).
    split; [exact H1 |]. rewrite H2. unfold sgn, RZ.
    destruct (Zpos p * 2 ^ (e + K)) eqn:Hv; lia.
  - destruct (binary_round_valK true p e HK Hhi) as (H1 & H2 & H3 & _).
    split; [exact H1 |]. rewrite H2. unfold sgn, RZ.
    assert (Hneg : Zneg p * 2 ^ (e + K) = - (Zpos p * 2 ^ (e + K))) by lia.
    rewrite Hneg. destruct (Zpos p * 2 ^ (e + K)) eqn:Hv; try lia.
    change (- Z.pos p0) with (Z.neg p0). cbn beta iota.
    change (- Z.neg p0) with (Z.pos p0). lia.
Qed.

(** Multiples of the scale by less than [2 ^ 24] are kept. *)
Lemma RK_integer D n j :
  0 < D -> 0 < n < 2 ^ 24 -> 23 <= j -> RK D (n * (D * 2 ^ j)) = n * 2 ^ j.
Proof.
  intros HD Hn Hj.
  pose proof (Zdigits2_bounds n ltac:(lia)) as Hb. pose proof (Zdigits2_pos n ltac:(lia)) as Hd.
  set (d := Zdigits2 n) in *.
  assert (Hd24 : d <= 24).
  { destruct (Z.le_gt_cases d 24); trivial.
    assert (2 ^ 24 <= 2 ^ (d - 1)) by (apply Z.pow_le_mono_r; lia). lia. }
  assert (Hs : 0 < 2 ^ (24 - d)) by (apply Z.pow_pos_nonneg; lia).
  assert (E1 : 2 ^ j = 2 ^ (24 - d) * 2 ^ (j - (24 - d))).
  { rewrite <- Z.pow_add_r by lia. f_equal. lia. }
  assert (E2 : 2 ^ 23 = 2 ^ (d - 1) * 2 ^ (24 - d)).
  { rewrite <- Z.pow_add_r by lia. f_equal. lia. }
  assert (E3 : 2 ^ 24 = 2 ^ d * 2 ^ (24 - d)).
  { rewrite <- Z.pow_add_r by lia. f_equal. lia. }
  rewrite E1.
  replace (n * (D * (2 ^ (24 - d) * 2 ^ (j - (24 - d)))))
    with ((n * 2 ^ (24 - d)) * (D * 2 ^ (j - (24 - d)))) by ring.
  rewrite RK_exact; [ring | lia | lia |]. nia.
Qed.

Lemma RZ_integer n : Z.abs n < 2 ^ 24 -> RZ (n * 2 ^ K) = n * 2 ^ K.
Proof.
  intros Hn. assert (Hp : 0 < 2 ^ K) by reflexivity.
  destruct n as [|p|p].
  - reflexivity.
  - assert (H : RZ (Zpos p * 2 ^ K) = RK 1 (Zpos p * 2 ^ K)).
    { unfold RZ. destruct (Zpos p * 2 ^ K) eqn:Hv; lia. }
    rewrite H. replace (Zpos p * 2 ^ K) with (Zpos p * (1 * 2 ^ K)) at 1 by ring.
    apply RK_integer; try lia. unfold K. lia.
  - assert (H : RZ (Zneg p * 2 ^ K) = - RK 1 (Zpos p * 2 ^ K)).
    { unfold RZ. destruct (Zneg p * 2 ^ K) eqn:Hv; try lia. rewrite <- Hv. f_equal; f_equal; lia. }
    rewrite H. replace (Zpos p * 2 ^ K) with (Zpos p * (1 * 2 ^ K)) at 1 by ring.
    rewrite RK_integer; try lia. unfold K. lia.
Qed.

(** The conversion of an integer of at most 24 bits is exact. *)
Lemma of_Z_valK n :
  Z.abs n < 2 ^ 24 -> normal (F32.of_Z n) /\ valK (F32.of_Z n) = n * 2 ^ K.
Proof.
  intros Hn. unfold F32.of_Z, F32.prec, F32.emax.
  assert (Hd : Zdigits2 n <= 24).
  { destruct n as [|p|p]; cbn [Zdigits2]; try lia.
    - pose proof (digits2_bounds p) as Hb.
      destruct (Z.le_gt_cases (Zpos (digits2_pos p)) 24); trivial.
      assert (2 ^ 24 <= 2 ^ (Zpos (digits2_pos p) - 1)) by (apply Z.pow_le_mono_r; lia). lia.
    - pose proof (digits2_bounds p) as Hb.
      destruct (Z.le_gt_cases (Zpos (digits2_pos p)) 24); trivial.
      assert (2 ^ 24 <= 2 ^ (Zpos (digits2_pos p) - 1)) by (apply Z.pow_le_mono_r; lia). lia. }
  destruct (binary_normalize_valK n 0 ltac:(unfold K; lia) ltac:(lia)) as [H1 H2].
  split; [exact H1 |]. rewrite H2. change (0 + K) with K. now apply RZ_integer.
Qed.

(** *** Sums *)

Lemma RZ_normal f : normal f -> low f -> RZ (valK f) = valK f.
Proof.
  destruct f as [s | s | | s m e]; cbn [normal low valK]; try contradiction; try reflexivity.
  intros [Hd He] Hl. apply digits_24_bounds in Hd.
  assert (Hp : 0 < 2 ^ (e + K)) by (apply Z.pow_pos_nonneg; lia).
  assert (Hr : RK 1 (Zpos m * 2 ^ (e + K)) = Zpos m * 2 ^ (e + K)).
  { replace (Zpos m * 2 ^ (e + K)) with (Zpos m * (1 * 2 ^ (e + K))) at 1 by ring.
    apply RK_exact; lia. }
  destruct s; unfold sgn, RZ.
  - destruct (-1 * (Zpos m * 2 ^ (e + K))) eqn:Hv; try lia.
    rewrite <- Hv. replace (- (-1 * (Zpos m * 2 ^ (e + K)))) with (Zpos m * 2 ^ (e + K)) by ring.
    rewrite Hr. ring.
  - destruct (1 * (Zpos m * 2 ^ (e + K))) eqn:Hv; try lia.
    rewrite <- Hv, Z.mul_1_l. exact Hr.
Qed.

Lemma digits_of_bound S e B :
  0 < S -> 0 <= e + K -> S * 2 ^ (e + K) < 2 ^ (K + B) -> Zdigits2 S + e <= B.
Proof.
  intros HS He Hlt.
  pose proof (Zdigits2_bounds S HS) as [Hb _]. pose proof (Zdigits2_pos S HS) as Hd.
  assert (Hp : 0 < 2 ^ (e + K)) by (apply Z.pow_pos_nonneg; lia).
  assert (H : 2 ^ (Zdigits2 S - 1 + (e + K)) < 2 ^ (K + B)).
  { rewrite Z.pow_add_r by lia.
    apply Z.le_lt_trans with (S * 2 ^ (e + K)); [| exact Hlt].
    apply Z.mul_le_mono_nonneg_r; [apply Z.lt_le_incl, Hp | exact Hb]. }
  destruct (Z.le_gt_cases 0 (K + B)) as [HB | HB].
  - apply Z.pow_lt_mono_r_iff in H; lia.
  - rewrite (Z.pow_neg_r 2 (K + B)) in Hlt by lia. nia.
Qed.

Lemma valK_finite_eq s m e : valK (S754_finite s m e) = sgn s * (Zpos m * 2 ^ (e + K)).
Proof. reflexivity. Qed.

Lemma cond_Zopp_sgn s m : cond_Zopp s m = sgn s * m.
Proof. destruct s; unfold cond_Zopp, sgn; lia. Qed.

(** The sum of two floats is the rounding of the sum of their values. *)
Lemma add_valK x y :
  normal x -> normal y -> low x -> low y ->
  Z.abs (valK x + valK y) < 2 ^ (K + 100) ->
  normal (SFadd 24 128 x y) /\ valK (SFadd 24 128 x y) = RZ (valK x + valK y).
Proof.
  intros Hx Hy Lx Ly Hb.
  destruct x as [sx | sx | | sx mx ex], y as [sy | sy | | sy my ey];
    try contradiction.
  - cbn [SFadd valK]. split; [destruct sx, sy; exact I | destruct sx, sy; reflexivity].
  - cbn [SFadd]. split; [exact Hy |]. change (valK (S754_zero sx)) with 0.
    rewrite Z.add_0_l. symmetry. now apply RZ_normal.
  - cbn [SFadd]. split; [exact Hx |]. change (valK (S754_zero sy)) with 0.
    rewrite Z.add_0_r. symmetry. now apply RZ_normal.
  - cbn [SFadd]. cbn [normal low] in Hx, Hy, Lx, Ly.
    destruct Hx as [Hdx Hex], Hy as [Hdy Hey].
    set (ez := Z.min ex ey).
    destruct (shl_align_spec mx ex ez) as [_ Hmx]. destruct (shl_align_spec my ey ez) as [_ Hmy].
    rewrite (Z.min_r ex ez) in Hmx by (unfold ez; lia).
    rewrite (Z.min_r ey ez) in Hmy by (unfold ez; lia).
    rewrite !cond_Zopp_sgn, Hmx, Hmy.
    set (S := sgn sx * (Zpos mx * 2 ^ (ex - ez)) + sgn sy * (Zpos my * 2 ^ (ey - ez))).
    assert (HK : 23 <= ez + K) by (unfold ez; lia).
    assert (Hp : 0 < 2 ^ (ez + K)) by (apply Z.pow_pos_nonneg; lia).
    assert (HS : S * 2 ^ (ez + K) = valK (S754_finite sx mx ex) + valK (S754_finite sy my ey)).
    { unfold S. rewrite !valK_finite_eq.
      replace (ex + K) with ((ex - ez) + (ez + K)) by lia.
      replace (ey + K) with ((ey - ez) + (ez + K)) by lia.
      rewrite (Z.pow_add_r 2 (ex - ez) (ez + K)) by (unfold ez; lia).
      rewrite (Z.pow_add_r 2 (ey - ez) (ez + K)) by (unfold ez; lia). ring. }
    rewrite <- HS in Hb |- *.
    assert (Hdig : Zdigits2 S + ez - 24 < 104).
    { destruct S as [|p|p] eqn:HSv; cbn [Zdigits2]; try lia.
      - pose proof (digits_of_bound (Zpos p) ez 100 ltac:(lia) ltac:(lia) ltac:(lia)).
        cbn [Zdigits2] in *. lia.
      - pose proof (digits_of_bound (Zpos p) ez 100 ltac:(lia) ltac:(lia) ltac:(lia)).
        cbn [Zdigits2] in *. lia. }
    apply binary_normalize_valK; trivial.
Qed.

(** *** Quotients *)

(** The remainder of a division locates the exact quotient. *)
Lemma new_location_located my q r P :
  0 < my -> 0 <= r < my -> 0 < P ->
  located (shr_record_of_loc q (new_location my r)) (my * P) ((q * my + r) * P).
Proof.
  intros Hmy Hr HP. unfold new_location.
  destruct (Z.even my) eqn:Hev.
  - unfold new_location_even. destruct (Z.eqb_spec r 0) as [-> | Hne].
    + unfold located. cbn. ring.
    + destruct (Z.compare_spec (2 * r) my) as [Hc | Hc | Hc];
        unfold located; cbn [shr_record_of_loc shr_m shr_r shr_s]; nia.
  - unfold new_location_odd. destruct (Z.eqb_spec r 0) as [-> | Hne].
    + unfold located. cbn. ring.
    + assert (Hodd : 2 * r <> my).
      { intros Heq. rewrite <- Heq, Z.even_mul in Hev. discriminate. }
      destruct (Z.compare_spec (2 * r + 1) my) as [Hc | Hc | Hc];
        unfold located; cbn [shr_record_of_loc shr_m shr_r shr_s]; nia.
Qed.

(** The quotient by a positive float is the rounding of the quotient
    of the values. *)
Lemma div_valK x my ey :
  normal x -> low x -> normal (S754_finite false my ey) -> ey <= 0 ->
  (match x with S754_finite _ _ ex => 24 - K <= ex - ey <= 100 | _ => True end) ->
  normal (SFdiv 24 128 x (S754_finite false my ey)) /\
  valK (SFdiv 24 128 x (S754_finite false my ey)) = RD my ey (valK x).
Proof.
  intros Hx Lx [Hdy Hey] Hey0 Hhi.
  destruct x as [sx | sx | | sx mx ex]; try contradiction.
  - cbn [SFdiv]. split; [exact I | reflexivity].
  - cbn [normal low] in Hx, Lx. destruct Hx as [Hdx Hex].
    pose proof (digits_24_bounds _ Hdx) as Hbx. pose proof (digits_24_bounds _ Hdy) as Hby.
    cbn [SFdiv]. unfold SFdiv_core_binary. cbn [Zdigits2]. rewrite Hdx, Hdy.
    replace (24 + ex - (24 + ey)) with (ex - ey) by lia.
    assert (HKv : K = 100) by reflexivity.
    rewrite (fexp_normal (ex - ey)) by lia.
    rewrite (Z.min_l (ex - ey - 24) (ex - ey)) by lia.
    replace (ex - ey - (ex - ey - 24)) with 24 by lia.
    rewrite (Z.shiftl_mul_pow2 (Zpos mx) 24) by lia.
    pose proof (Z.div_eucl_eq (Zpos mx * 2 ^ 24) (Zpos my) ltac:(lia)) as Hde.
    pose proof (Z.mod_pos_bound (Zpos mx * 2 ^ 24) (Zpos my) ltac:(lia)) as Hmod.
    unfold Z.modulo in Hmod.
    destruct (Z.div_eucl (Zpos mx * 2 ^ 24) (Zpos my)) as [q r].
    set (e' := ex - ey - 24).
    assert (Hq : 2 ^ 23 <= q < 2 ^ 25).
    { change (2 ^ 25) with 33554432. change (2 ^ 24) with 16777216 in *.
      change (2 ^ 23) with 8388608 in *. nia. }
    assert (Hdq : 24 <= Zdigits2 q <= 25).
    { pose proof (Zdigits2_bounds q ltac:(lia)) as Hb.
      split.
      - destruct (Z.le_gt_cases 24 (Zdigits2 q)); trivial.
        assert (2 ^ Zdigits2 q <= 2 ^ 23) by (apply Z.pow_le_mono_r; lia). lia.
      - destruct (Z.le_gt_cases (Zdigits2 q) 25); trivial.
        assert (2 ^ 25 <= 2 ^ (Zdigits2 q - 1)) by (apply Z.pow_le_mono_r; lia). lia. }
    assert (HP : 0 < 2 ^ (e' + K)) by (apply Z.pow_pos_nonneg; unfold e'; lia).
    pose proof (new_location_located (Zpos my) q r (2 ^ (e' + K)) ltac:(lia) Hmod HP) as Hloc.
    pose proof (binary_round_aux_valK (xorb sx false) q e' (new_location (Zpos my) r)
                  (Zpos my) ((q * Zpos my + r) * 2 ^ (e' + K))
                  ltac:(lia) ltac:(lia) ltac:(unfold e'; lia) eq_refl ltac:(unfold e'; lia) Hloc)
      as (H1 & H2 & H3 & _).
    split; [exact H1 |]. rewrite H2.
    assert (HV : (q * Zpos my + r) * 2 ^ (e' + K) = Zpos mx * 2 ^ (ex + K) * 2 ^ (- ey)).
    { replace (q * Zpos my + r) with (Zpos mx * 2 ^ 24) by lia.
      rewrite <- !Z.mul_assoc. f_equal.
      rewrite <- !Z.pow_add_r by (unfold e'; lia). f_equal. unfold e'. lia. }
    rewrite HV. rewrite valK_finite_eq.
    assert (Hpx : 0 < Zpos mx * 2 ^ (ex + K)).
    { assert (0 < 2 ^ (ex + K)) by (apply Z.pow_pos_nonneg; lia). nia. }
    rewrite xorb_false_r. destruct sx; unfold sgn, RD.
    + destruct (-1 * (Zpos mx * 2 ^ (ex + K))) eqn:Hv; try lia.
      rewrite <- Hv. replace (- (-1 * (Zpos mx * 2 ^ (ex + K)))) with (Zpos mx * 2 ^ (ex + K)) by ring.
      ring.
    + destruct (1 * (Zpos mx * 2 ^ (ex + K))) eqn:Hv; try lia.
      rewrite <- Hv, !Z.mul_1_l. reflexivity.
Qed.

(** *** Rounding is monotonic, odd, and keeps 24-bit numbers *)

(** Below the scale the rounding is [0]; this makes it monotonic
    everywhere. *)
Lemma RK_small D V : 0 < D -> 0 <= V < 2 ^ 23 * D -> RK D V = 0.
Proof.
  intros HD HV. unfold RK, expo.
  assert (Hq : V / D < 2 ^ 23) by (apply Z.div_lt_upper_bound; lia).
  assert (Hq0 : 0 <= V / D) by (apply Z.div_pos; lia).
  assert (Hl : Z.log2 (V / D) < 23).
  { destruct (Z.eq_dec (V / D) 0) as [-> | Hne]; [reflexivity |].
    apply Z.log2_lt_pow2; lia. }
  rewrite (Z.pow_neg_r 2 (Z.log2 (V / D) - 23)) by lia. apply Z.mul_0_r.
Qed.

Lemma RK_nonneg D V : 0 < D -> 0 <= V -> 0 <= RK D V.
Proof.
  intros HD HV. destruct (Z.lt_ge_cases V (2 ^ 23 * D)).
  - rewrite RK_small; lia.
  - apply Z.lt_le_incl, RK_pos; lia.
Qed.

Lemma RK_mono D V V' : 0 < D -> 0 <= V <= V' -> RK D V <= RK D V'.
Proof.
  intros HD HV. destruct (Z.lt_ge_cases V (2 ^ 23 * D)).
  - rewrite (RK_small D V) by lia. apply RK_nonneg; lia.
  - apply RK_monotone; lia.
Qed.

Lemma RZ_odd v : RZ (- v) = - RZ v.
Proof.
  destruct v as [|p|p]; [reflexivity | reflexivity |].
  change (RZ (- Z.neg p)) with (RK 1 (Z.pos p)).
  change (RZ (Z.neg p)) with (- RK 1 (Z.pos p)).
  symmetry. apply Z.opp_involutive.
Qed.

Lemma RZ_mono v v' : v <= v' -> RZ v <= RZ v'.
Proof.
  intros Hle.
  assert (Hnn : forall x, 0 <= x -> 0 <= RK 1 x) by (intros; apply RK_nonneg; lia).
  destruct v as [|p|p], v' as [|p'|p']; cbn [RZ]; try lia.
  - apply Hnn; lia.
  - apply RK_mono; lia.
  - pose proof (Hnn (- Zneg p) ltac:(lia)). lia.
  - pose proof (Hnn (- Zneg p) ltac:(lia)). pose proof (Hnn (Zpos p') ltac:(lia)). lia.
  - pose proof (RK_mono 1 (- Zneg p') (- Zneg p) ltac:(lia) ltac:(lia)). lia.
Qed.

Lemma RD_odd my ey v : RD my ey (- v) = - RD my ey v.
Proof.
  destruct v as [|p|p]; [reflexivity | reflexivity |].
  change (RD my ey (- Z.neg p)) with (RK (Zpos my) (Z.pos p * 2 ^ (- ey))).
  change (RD my ey (Z.neg p)) with (- RK (Zpos my) (Z.pos p * 2 ^ (- ey))).
  symmetry. apply Z.opp_involutive.
Qed.

Lemma RD_mono my ey v v' : ey <= 0 -> v <= v' -> RD my ey v <= RD my ey v'.
Proof.
  intros Hey Hle.
  assert (Hp : 0 < 2 ^ (- ey)) by (apply Z.pow_pos_nonneg; lia).
  assert (Hnn : forall x, 0 <= x -> 0 <= RK (Zpos my) (x * 2 ^ (- ey))).
  { intros x Hx. apply RK_nonneg; [lia | nia]. }
  destruct v as [|p|p], v' as [|p'|p']; cbn [RD]; try lia.
  - apply Hnn; lia.
  - apply RK_mono; [lia | nia].
  - pose proof (Hnn (- Zneg p) ltac:(lia)). lia.
  - pose proof (Hnn (- Zneg p) ltac:(lia)). pose proof (Hnn (Zpos p') ltac:(lia)). lia.
  - pose proof (RK_mono (Zpos my) (- Zneg p' * 2 ^ (- ey)) (- Zneg p * 2 ^ (- ey))
                  ltac:(lia) ltac:(nia)). lia.
Qed.

Lemma RZ_pos v : 0 < v -> RZ v = RK 1 v.
Proof. destruct v; cbn [RZ]; lia. Qed.

Lemma RD_pos my ey v : 0 < v -> RD my ey v = RK (Zpos my) (v * 2 ^ (- ey)).
Proof. destruct v; cbn [RD]; lia. Qed.

(** Numbers of at most 24 significant bits are kept. *)
Lemma RZ_scaled n j : Z.abs n < 2 ^ 24 -> 23 <= j -> RZ (n * 2 ^ j) = n * 2 ^ j.
Proof.
  intros Hn Hj. assert (Hp : 0 < 2 ^ j) by (apply Z.pow_pos_nonneg; lia).
  assert (Hpos : forall k, 0 < k < 2 ^ 24 -> RZ (k * 2 ^ j) = k * 2 ^ j).
  { intros k Hk. rewrite RZ_pos by nia.
    replace (k * 2 ^ j) with (k * (1 * 2 ^ j)) at 1 by ring.
    apply RK_integer; lia. }
  destruct (Z.lt_trichotomy n 0) as [Hneg | [-> | Hp0]].
  - replace (n * 2 ^ j) with (- (- n * 2 ^ j)) by ring.
    rewrite RZ_odd, Hpos; lia.
  - reflexivity.
  - apply Hpos; lia.
Qed.

(** An exact quotient of at most 24 significant bits is kept. *)
Lemma RD_exact my ey dr n j :
  ey <= 0 -> Zpos my = dr * 2 ^ (- ey) -> Z.abs n < 2 ^ 24 -> 23 <= j ->
  RD my ey (n * dr * 2 ^ j) = n * 2 ^ j.
Proof.
  intros Hey Hmy Hn Hj.
  assert (Hp : 0 < 2 ^ j) by (apply Z.pow_pos_nonneg; lia).
  assert (Hq : 0 < 2 ^ (- ey)) by (apply Z.pow_pos_nonneg; lia).
  assert (Hdr : 0 < dr) by nia.
  assert (Hpos : forall k, 0 < k < 2 ^ 24 -> RD my ey (k * dr * 2 ^ j) = k * 2 ^ j).
  { intros k Hk. rewrite RD_pos by nia.
    replace (k * dr * 2 ^ j * 2 ^ (- ey)) with (k * (Zpos my * 2 ^ j)) by (rewrite Hmy; ring).
    apply RK_integer; lia. }
  destruct (Z.lt_trichotomy n 0) as [Hneg | [-> | Hp0]].
  - replace (n * dr * 2 ^ j) with (- (- n * dr * 2 ^ j)) by ring.
    rewrite RD_odd, Hpos; lia.
  - reflexivity.
  - apply Hpos; lia.
Qed.

(** *** The shape of a converted integer, and products *)

(** A converted integer other than zero is finite, with a mantissa of
    24 bits, the sign of the integer and an exponent from -23 to 0. *)
Lemma of_Z_cases n :
  Z.abs n < 2 ^ 24 -> n <> 0 ->
  exists m e, F32.of_Z n = S754_finite (n <? 0) m e /\
              Zpos (digits2_pos m) = 24 /\ -23 <= e <= 0 /\
              Zpos m * 2 ^ (e + K) = Z.abs n * 2 ^ K.
Proof.
  intros Hn Hne. destruct (of_Z_valK n Hn) as [Hnorm Hval].
  assert (HK : 0 < 2 ^ K) by reflexivity.
  destruct (F32.of_Z n) as [s | s | | s m e]; cbn [normal valK] in *; try contradiction.
  - nia.
  - destruct Hnorm as [Hd He]. exists m, e.
    pose proof (digits_24_bounds m Hd) as Hb.
    assert (Hp : 0 < 2 ^ (e + K)) by (apply Z.pow_pos_nonneg; lia).
    assert (Hs : s = (n <? 0)).
    { destruct s, (Z.ltb_spec n 0); unfold sgn in Hval; trivial; nia. }
    assert (Hv : Zpos m * 2 ^ (e + K) = Z.abs n * 2 ^ K).
    { destruct s; unfold sgn in Hval; nia. }
    subst s. repeat split; trivial.
    + (* 2^23 * 2^(e+K) <= |n| 2^K < 2^(24+K) *)
      destruct (Z.le_gt_cases (-23) e); trivial.
      assert (2 ^ (e + K) <= 2 ^ (K - 24)) by (apply Z.pow_le_mono_r; lia).
      assert (2 ^ K = 2 ^ 24 * 2 ^ (K - 24)) by reflexivity. nia.
    + destruct (Z.le_gt_cases e 0); trivial.
      assert (2 ^ (K + 1) <= 2 ^ (e + K)) by (apply Z.pow_le_mono_r; lia).
      assert (2 ^ (K + 1) = 2 * 2 ^ K) by reflexivity. nia.
Qed.

Lemma sgn_xorb a b : sgn (xorb a b) = sgn a * sgn b.
Proof. destruct a, b; reflexivity. Qed.

Lemma sgn_ltb n : n <> 0 -> sgn (n <? 0) * Z.abs n = n.
Proof. intros H. destruct (Z.ltb_spec n 0); unfold sgn; lia. Qed.

Lemma RZ_sgn s v : RZ (sgn s * v) = sgn s * RZ v.
Proof.
  destruct s; unfold sgn.
  - replace (-1 * v) with (- v) by ring. rewrite RZ_odd. ring.
  - now rewrite !Z.mul_1_l.
Qed.

Lemma RZ_nonneg v : 0 <= v -> RZ v = RK 1 v.
Proof.
  intros Hv. destruct (Z.eq_dec v 0) as [-> | Hne].
  - symmetry. apply RK_small; lia.
  - apply RZ_pos. lia.
Qed.

(** The product of two converted integers is their product, rounded. *)
Lemma mul_of_Z a b :
  Z.abs a < 2 ^ 24 -> Z.abs b < 2 ^ 24 ->
  normal (SFmul 24 128 (F32.of_Z a) (F32.of_Z b)) /\
  valK (SFmul 24 128 (F32.of_Z a) (F32.of_Z b)) = RZ (a * b * 2 ^ K).
Proof.
  intros Ha Hb.
  destruct (Z.eq_dec a 0) as [-> | Hane].
  { change (F32.of_Z 0) with (S754_zero false).
    destruct (Z.eq_dec b 0) as [-> | Hbne]; [split; [exact I | reflexivity] |].
    destruct (of_Z_cases b Hb Hbne) as (m & e & -> & _). split; [exact I | reflexivity]. }
  destruct (of_Z_cases a Ha Hane) as (ma & ea & -> & Hda & Hea & Hva).
  destruct (Z.eq_dec b 0) as [-> | Hbne].
  { change (F32.of_Z 0) with (S754_zero false). rewrite Z.mul_0_r. split; [exact I | reflexivity]. }
  destruct (of_Z_cases b Hb Hbne) as (mb & eb & -> & Hdb & Heb & Hvb).
  cbn [SFmul].
  pose proof (digits_24_bounds ma Hda) as Hba. pose proof (digits_24_bounds mb Hdb) as Hbb.
  assert (HK : 0 < 2 ^ K) by reflexivity.
  assert (Hm : 2 ^ 46 <= Zpos (ma * mb) < 2 ^ 48).
  { rewrite Pos2Z.inj_mul. change (2 ^ 46) with (2 ^ 23 * 2 ^ 23).
    change (2 ^ 48) with (2 ^ 24 * 2 ^ 24). nia. }
  assert (Hd : 47 <= Zdigits2 (Zpos (ma * mb)) <= 48).
  { pose proof (Zdigits2_bounds (Zpos (ma * mb)) ltac:(lia)) as Hbd.
    split.
    - destruct (Z.le_gt_cases 47 (Zdigits2 (Zpos (ma * mb)))); trivial.
      assert (2 ^ Zdigits2 (Zpos (ma * mb)) <= 2 ^ 46) by (apply Z.pow_le_mono_r; lia). lia.
    - destruct (Z.le_gt_cases (Zdigits2 (Zpos (ma * mb))) 48); trivial.
      assert (2 ^ 48 <= 2 ^ (Zdigits2 (Zpos (ma * mb)) - 1)) by (apply Z.pow_le_mono_r; lia).
      lia. }
  assert (HKv : K = 100) by reflexivity.
  assert (Hp : 0 < 2 ^ (ea + eb + K)) by (apply Z.pow_pos_nonneg; lia).
  assert (Hloc : located (shr_record_of_loc (Zpos (ma * mb)) loc_Exact)
                   (1 * 2 ^ (ea + eb + K)) (Zpos (ma * mb) * 2 ^ (ea + eb + K))).
  { unfold located. cbn [shr_record_of_loc shr_m shr_r shr_s]. ring. }
  pose proof (binary_round_aux_valK (xorb (a <? 0) (b <? 0)) (Zpos (ma * mb)) (ea + eb)
                loc_Exact 1 _ ltac:(lia) ltac:(lia) ltac:(lia) ltac:(lia) ltac:(lia) Hloc)
    as (H1 & H2 & _).
  split; [exact H1 |]. rewrite H2.
  assert (HV : Zpos (ma * mb) * 2 ^ (ea + eb + K) = Z.abs a * Z.abs b * 2 ^ K).
  { apply (Z.mul_reg_r _ _ (2 ^ K)); [lia |].
    transitivity ((Zpos ma * 2 ^ (ea + K)) * (Zpos mb * 2 ^ (eb + K))).
    - rewrite Pos2Z.inj_mul.
      assert (E : 2 ^ (ea + eb + K) * 2 ^ K = 2 ^ (ea + K) * 2 ^ (eb + K)).
      { rewrite <- !Z.pow_add_r by lia. f_equal. lia. }
      rewrite <- Z.mul_assoc, E. ring.
    - rewrite Hva, Hvb. ring. }
  rewrite HV, sgn_xorb.
  replace (a * b * 2 ^ K) with (sgn (a <? 0) * (sgn (b <? 0) * (Z.abs a * Z.abs b * 2 ^ K))).
  2:{ transitivity ((sgn (a <? 0) * Z.abs a) * (sgn (b <? 0) * Z.abs b) * 2 ^ K); [ring |].
      now rewrite (sgn_ltb a Hane), (sgn_ltb b Hbne). }
  rewrite !RZ_sgn, RZ_nonneg by (apply Z.mul_nonneg_nonneg; lia). ring.
Qed.

(** *** The interpolation formula *)

Lemma RZ_0 : RZ 0 = 0.
Proof. reflexivity. Qed.

Lemma RD_0 my ey : RD my ey 0 = 0.
Proof. reflexivity. Qed.

Lemma RZ_abs v : Z.abs (RZ v) = RZ (Z.abs v).
Proof.
  destruct (Z.le_gt_cases 0 v) as [H | H].
  - pose proof (RZ_mono 0 v H) as H0. rewrite RZ_0 in H0.
    rewrite (Z.abs_eq v H). lia.
  - pose proof (RZ_mono v 0 ltac:(lia)) as H0. rewrite RZ_0 in H0.
    rewrite (Z.abs_neq v) by lia. rewrite RZ_odd. lia.
Qed.

Lemma RD_abs my ey v : ey <= 0 -> Z.abs (RD my ey v) = RD my ey (Z.abs v).
Proof.
  intros Hey. destruct (Z.le_gt_cases 0 v) as [H | H].
  - pose proof (RD_mono my ey 0 v Hey H) as H0. rewrite RD_0 in H0.
    rewrite (Z.abs_eq v H). lia.
  - pose proof (RD_mono my ey v 0 Hey ltac:(lia)) as H0. rewrite RD_0 in H0.
    rewrite (Z.abs_neq v) by lia. rewrite RD_odd. lia.
Qed.

Lemma abs_valK s m e : Z.abs (valK (S754_finite s m e)) = Zpos m * 2 ^ (e + K).
Proof.
  cbn [valK]. assert (0 <= 2 ^ (e + K)) by (apply Z.pow_nonneg; lia).
  destruct s; unfold sgn; nia.
Qed.

(** The exponent of a float from the size of its value. *)
Lemma expo_of_size s m e a b :
  normal (S754_finite s m e) -> 0 <= a ->
  2 ^ a <= Z.abs (valK (S754_finite s m e)) <= 2 ^ b ->
  a - 23 <= e + K <= b - 23.
Proof.
  intros [Hd He] Ha. rewrite abs_valK. intros [Hlo Hhi].
  pose proof (digits_24_bounds m Hd) as Hb.
  assert (Hp : 0 < 2 ^ (e + K)) by (apply Z.pow_pos_nonneg; lia).
  split.
  - assert (H : 2 ^ a < 2 ^ (24 + (e + K))) by (rewrite Z.pow_add_r by lia; nia).
    apply Z.pow_lt_mono_r_iff in H; lia.
  - assert (H : 2 ^ (23 + (e + K)) <= 2 ^ b) by (rewrite Z.pow_add_r by lia; nia).
    destruct (Z.le_gt_cases 0 b) as [Hb0 | Hb0].
    + apply Z.pow_le_mono_r_iff in H; lia.
    + rewrite (Z.pow_neg_r 2 b) in Hhi by lia. nia.
Qed.

Lemma normal_zero f : normal f -> valK f = 0 -> exists s, f = S754_zero s.
Proof.
  destruct f as [s | s | | s m e]; cbn [normal]; try contradiction; intros Hn Hv.
  - now exists s.
  - pose proof (abs_valK s m e) as Ha. rewrite Hv in Ha. destruct Hn as [_ He].
    assert (0 < 2 ^ (e + K)) by (apply Z.pow_pos_nonneg; lia).
    change (Z.abs 0) with 0 in Ha. nia.
Qed.

Lemma normal_finite f :
  normal f -> valK f <> 0 -> exists s m e, f = S754_finite s m e.
Proof.
  destruct f as [s | s | | s m e]; cbn [normal valK]; try contradiction; intros Hn Hv.
  now exists s, m, e.
Qed.

(** The interpolation formula of the firmware, at the level of values:
    [t0 + x * dt / dr] with a rounding after each operation. *)
Lemma interpolate_valK t0 x dt dr my ey :
  Z.abs t0 < 2 ^ 24 -> Z.abs x <= 2 ^ 15 -> Z.abs dt <= 2 ^ 15 -> 0 < dr < 2 ^ 24 ->
  F32.of_Z dr = S754_finite false my ey ->
  let r := SFadd 24 128 (F32.of_Z t0)
             (SFdiv 24 128 (SFmul 24 128 (F32.of_Z x) (F32.of_Z dt)) (F32.of_Z dr)) in
  normal r /\ valK r = IV t0 x dt my ey.
Proof.
  intros Ht0 Hx Hdt Hdr Hy r. subst r. unfold IV. rewrite Hy.
  assert (HKv : K = 100) by reflexivity.
  assert (HK : 0 < 2 ^ K) by reflexivity.
  (* the divisor *)
  destruct (of_Z_cases dr ltac:(lia) ltac:(lia)) as (my' & ey' & Hy' & Hdy & Hey & Hvy).
  rewrite Hy in Hy'. injection Hy' as _ <- <-.
  rewrite Z.abs_eq in Hvy by lia.
  assert (Hny : normal (S754_finite false my ey)) by (cbn [normal]; split; [exact Hdy | lia]).
  assert (Hmy : Zpos my = dr * 2 ^ (- ey)).
  { assert (Hq : 0 < 2 ^ (- ey)) by (apply Z.pow_pos_nonneg; lia).
    assert (E : 2 ^ (ey + K) * 2 ^ (- ey) = 2 ^ K).
    { rewrite <- Z.pow_add_r by lia. f_equal. lia. }
    assert (Hp : 0 < 2 ^ (ey + K)) by (apply Z.pow_pos_nonneg; lia).
    apply (Z.mul_reg_r _ _ (2 ^ (ey + K))); [lia |].
    rewrite Hvy. rewrite <- E. ring. }
  (* the first operand of the sum *)
  destruct (of_Z_valK t0 Ht0) as [Hnt Hvt].
  assert (Hlt : low (F32.of_Z t0)).
  { destruct (Z.eq_dec t0 0) as [-> | Hne]; [exact I |].
    destruct (of_Z_cases t0 Ht0 Hne) as (m & e & -> & _ & He & _). cbn [low]. lia. }
  (* the product *)
  destruct (mul_of_Z x dt ltac:(change (2 ^ 24) with 16777216; change (2 ^ 15) with 32768 in Hx; lia)
              ltac:(change (2 ^ 24) with 16777216; change (2 ^ 15) with 32768 in Hdt; lia))
    as [Hnp Hvp].
  set (p := SFmul 24 128 (F32.of_Z x) (F32.of_Z dt)) in *.
  rewrite <- Hvp.
  destruct (Z.eq_dec (x * dt) 0) as [Hz | Hnz].
  - (* a zero product *)
    rewrite Hz in Hvp. cbn [Z.mul RZ] in Hvp.
    destruct (normal_zero p Hnp Hvp) as [s ->]. cbn [SFdiv valK RD].
    pose proof (add_valK (F32.of_Z t0) (S754_zero (xorb s false)) Hnt I Hlt I) as H.
    cbn [valK] in H. rewrite Hvt in H. apply H.
    rewrite Z.add_0_r, Z.abs_mul, (Z.abs_eq (2 ^ K)) by lia.
    change (2 ^ (K + 100)) with (2 ^ 100 * 2 ^ K). change (2 ^ 24) with 16777216 in Ht0.
    assert (16777216 < 2 ^ 100) by reflexivity. nia.
  - (* a product that is not zero *)
    assert (Hsp : 2 ^ K <= Z.abs (valK p) <= 2 ^ (K + 30)).
    { rewrite Hvp, RZ_abs, Z.abs_mul, (Z.abs_eq (2 ^ K)) by lia.
      assert (Hn : 1 <= Z.abs (x * dt) <= 2 ^ 30).
      { rewrite Z.abs_mul. change (2 ^ 30) with (2 ^ 15 * 2 ^ 15).
        assert (x <> 0 /\ dt <> 0) as [? ?] by nia. nia. }
      split.
      - rewrite <- (RZ_scaled 1 K) at 1 by (unfold K; lia || reflexivity).
        apply RZ_mono. nia.
      - replace (2 ^ (K + 30)) with (1 * 2 ^ (K + 30)) by ring.
        rewrite <- (RZ_scaled 1 (K + 30)) by (unfold K; lia || reflexivity).
        apply RZ_mono. change (2 ^ (K + 30)) with (2 ^ 30 * 2 ^ K). nia. }
    destruct (normal_finite p Hnp ltac:(lia)) as (sp & mp & ep & Hp).
    rewrite Hp in *.
    pose proof (expo_of_size sp mp ep K (K + 30) Hnp ltac:(lia) Hsp) as Hep.
    assert (Hlp : low (S754_finite sp mp ep)) by (cbn [low]; lia).
    destruct (div_valK (S754_finite sp mp ep) my ey Hnp Hlp Hny ltac:(lia)
                ltac:(cbn beta iota; lia))
      as [Hnq Hvq].
    set (q := SFdiv 24 128 (S754_finite sp mp ep) (S754_finite false my ey)) in *.
    rewrite <- Hvq.
    assert (Hsq : 2 ^ (K - 24) <= Z.abs (valK q) <= 2 ^ (K + 30)).
    { rewrite Hvq, RD_abs by lia. split.
      - replace (2 ^ (K - 24)) with (1 * 2 ^ (K - 24)) by ring.
        rewrite <- (RD_exact my ey dr 1 (K - 24)) by (trivial; unfold K; lia || reflexivity).
        apply RD_mono; [lia |]. apply Z.le_trans with (2 ^ K); [| lia].
        change (2 ^ K) with (2 ^ 24 * 2 ^ (K - 24)).
        assert (0 < 2 ^ (K - 24)) by reflexivity. nia.
      - replace (2 ^ (K + 30)) with (1 * 2 ^ (K + 30)) by ring.
        rewrite <- (RD_exact my ey dr 1 (K + 30)) by (trivial; unfold K; lia || reflexivity).
        apply RD_mono; [lia |]. apply Z.le_trans with (2 ^ (K + 30)); [lia |].
        assert (0 < 2 ^ (K + 30)) by reflexivity. nia. }
    destruct (normal_finite q Hnq) as (sq & mq & eq & Hq).
    { assert (0 < 2 ^ (K - 24)) by reflexivity. lia. }
    rewrite Hq in *.
    pose proof (expo_of_size sq mq eq (K - 24) (K + 30) Hnq ltac:(lia) Hsq) as Heq.
    rewrite <- Hvt. apply add_valK; trivial.
    + cbn [low]. lia.
    + rewrite Hvt.
      assert (Z.abs (t0 * 2 ^ K) < 2 ^ (K + 24)).
      { rewrite Z.abs_mul, (Z.abs_eq (2 ^ K)) by lia.
        change (2 ^ (K + 24)) with (2 ^ 24 * 2 ^ K). nia. }
      assert (2 ^ (K + 24) + 2 ^ (K + 30) < 2 ^ (K + 100)) by reflexivity.
      lia.
Qed.

(** *** Monotonicity of the interpolation formula *)

(** Rounding an integer moves it by less than any [d] of which it is
    not 2^22 times as large. *)
Lemma RZ_slack N d :
  0 <= N -> 0 < d -> N < 2 ^ 22 * d -> RZ (N * 2 ^ K) <= (N + d) * 2 ^ K.
Proof.
  intros HN Hd Hsmall.
  destruct (Z.log2_spec d Hd) as [Hlo Hhi]. pose proof (Z.log2_nonneg d) as Hj.
  set (j := Z.log2 d) in *.
  replace (Z.succ j) with (j + 1) in Hhi by lia.
  rewrite Z.pow_add_r in Hhi by lia. change (2 ^ 1) with 2 in Hhi.
  assert (Hp : 0 < 2 ^ j) by (apply Z.pow_pos_nonneg; lia).
  assert (HK : 0 < 2 ^ K) by reflexivity.
  pose proof (Z.div_mod (N + 2 ^ j - 1) (2 ^ j) ltac:(lia)) as Hdm.
  pose proof (Z.mod_pos_bound (N + 2 ^ j - 1) (2 ^ j) Hp) as Hr.
  set (M := (N + 2 ^ j - 1) / 2 ^ j) in *.
  set (r := (N + 2 ^ j - 1) mod 2 ^ j) in *.
  assert (HM : 0 <= M < 2 ^ 24).
  { change (2 ^ 24) with (4 * 2 ^ 22). change (2 ^ 22) with 4194304 in *. split; nia. }
  assert (E : M * 2 ^ (j + K) = M * 2 ^ j * 2 ^ K).
  { rewrite Z.pow_add_r by (unfold K; lia). ring. }
  apply Z.le_trans with (M * 2 ^ (j + K)).
  - rewrite <- (RZ_scaled M (j + K)) by (unfold K; lia).
    apply RZ_mono. rewrite E. nia.
  - rewrite E. nia.
Qed.

(** A falling segment is the mirror image of a rising one. *)
Lemma IV_neg t0 x dt my ey : IV (- t0) x (- dt) my ey = - IV t0 x dt my ey.
Proof.
  unfold IV.
  replace (x * - dt * 2 ^ K) with (- (x * dt * 2 ^ K)) by ring.
  rewrite RZ_odd, RD_odd, <- RZ_odd. f_equal. ring.
Qed.

(** At the lower row the formula gives its temperature. *)
Lemma IV_zero t0 dt my ey : Z.abs t0 < 2 ^ 24 -> IV t0 0 dt my ey = t0 * 2 ^ K.
Proof.
  intros Ht. unfold IV. cbn [Z.mul RZ RD]. rewrite Z.add_0_r.
  apply RZ_scaled; [exact Ht | unfold K; lia].
Qed.

(** For a rising segment the formula follows [x]. *)
Lemma IV_mono_up t0 x x' dt my ey :
  ey <= 0 -> 0 <= dt -> x <= x' -> IV t0 x dt my ey <= IV t0 x' dt my ey.
Proof.
  intros Hey Hdt Hx. unfold IV. assert (HK : 0 < 2 ^ K) by reflexivity.
  apply RZ_mono. apply Z.add_le_mono_l. apply RD_mono; [exact Hey |].
  apply RZ_mono. apply Z.mul_le_mono_nonneg_r; [lia |].
  now apply Z.mul_le_mono_nonneg_r.
Qed.

(** Before the upper row the formula does not pass its temperature:
    the rounded product stays below [dr * dt], whose quotient by [dr]
    is exact. *)
Lemma IV_before_knot_up t0 x dt dr my ey :
  ey <= 0 -> Zpos my = dr * 2 ^ (- ey) ->
  0 <= dt < 2 ^ 24 -> x < dr -> x < 2 ^ 22 -> Z.abs (t0 + dt) < 2 ^ 24 ->
  IV t0 x dt my ey <= (t0 + dt) * 2 ^ K.
Proof.
  intros Hey Hmy Hdt Hx Hx22 Ht. unfold IV. assert (HK : 0 < 2 ^ K) by reflexivity.
  assert (Hq : 0 < 2 ^ (- ey)) by (apply Z.pow_pos_nonneg; lia).
  assert (Hdr : 0 < dr) by nia.
  assert (Hp : RZ (x * dt * 2 ^ K) <= dt * dr * 2 ^ K).
  { destruct (Z.le_gt_cases (x * dt) 0) as [Hle | Hgt].
    - apply Z.le_trans with (RZ 0); [apply RZ_mono; nia | cbn [RZ]; nia].
    - apply Z.le_trans with ((x * dt + dt) * 2 ^ K).
      + apply RZ_slack; nia.
      + nia. }
  rewrite <- (RZ_scaled (t0 + dt) K) by (trivial; unfold K; lia).
  apply RZ_mono. rewrite Z.mul_add_distr_r. apply Z.add_le_mono_l.
  rewrite <- (RD_exact my ey dr dt K) by (trivial; unfold K; lia).
  now apply RD_mono.
Qed.

End RoundingFacts.

(** ** Conversion: saturation above the table, extrapolation below it *)

Module ConversionFacts.
Import Conversion.

(** *** Facts that hold in any arithmetic *)

Section AnyArithmetic.

Variable F : Type.
Variable of_int : Z -> F.
Variables fadd fmul fdiv : F -> F -> F.

Local Abbreviation lookup_from := (lookup_from F of_int fadd fmul fdiv).
Local Abbreviation table_lookup := (table_lookup F of_int fadd fmul fdiv).
Local Abbreviation interpolate := (interpolate F of_int fadd fmul fdiv).
Local Abbreviation analog2temp_with := (analog2temp_with F of_int fadd fmul fdiv).

Lemma analog2temp_table cfg raw e tbl :
  0 <= e < EXTRUDERS cfg ->
  heater_ttbl_map cfg !! Z.to_nat e = Some (Some tbl) ->
  analog2temp_with cfg raw e = Some (table_lookup tbl raw).
Proof.
  intros He Htbl. unfold Conversion.analog2temp_with.
  destruct (Z.geb_spec e (EXTRUDERS cfg)); [lia |]. now rewrite Htbl.
Qed.

Lemma last_key_largest prev rest :
  chained (fun a b => fst a < fst b) prev rest -> fst prev <= fst (last_from prev rest).
Proof.
  revert prev. induction rest as [|cur rest IH]; intros prev Hk; simpl in *; [lia |].
  destruct Hk as [Hlt Hk]. specialize (IH cur Hk). lia.
Qed.

Lemma lookup_from_saturates prev rest raw :
  chained (fun a b => fst a < fst b) prev rest ->
  fst (last_from prev rest) <= raw ->
  lookup_from prev rest raw = of_int (snd (last_from prev rest)).
Proof.
  revert prev. induction rest as [|cur rest IH]; intros prev Hk Hraw; simpl in *.
  - reflexivity.
  - destruct Hk as [Hlt Hk]. pose proof (last_key_largest cur rest Hk).
    destruct (Z.gtb_spec (fst cur) raw); [lia |]. now apply IH.
Qed.

End AnyArithmetic.

(** *** Monotonicity, in the arithmetic without rounding *)

Section Exact.
Local Open Scope Q_scope.

Local Abbreviation lookup_from := (lookup_from Q inject_Z Qplus Qmult Qdiv).
Local Abbreviation interpolate := (interpolate Q inject_Z Qplus Qmult Qdiv).


Lemma dir_le_refl up a : dir_le up a a.
Proof. destruct up; apply Qle_refl. Qed.

Lemma dir_le_trans up a b c : dir_le up a b -> dir_le up b c -> dir_le up a c.
Proof. destruct up; simpl; intros; eapply Qle_trans; eauto. Qed.

Lemma dir_le_inject up a b : dir_leZ up a b -> dir_le up (inject_Z a) (inject_Z b).
Proof. destruct up; simpl; intros; now rewrite <- Zle_Qle. Qed.

Lemma line_monotone up t0 x1 x2 dt dr :
  (0 < dr)%Z -> dir_leZ up 0 dt -> (x1 <= x2)%Z ->
  dir_le up (line t0 x1 dt dr) (line t0 x2 dt dr).
Proof.
  intros Hdr Hdt Hx. unfold line, Qdiv.
  assert (Hinv : 0 <= / inject_Z dr).
  { apply Qinv_le_0_compat. change 0 with (inject_Z 0). rewrite <- Zle_Qle. lia. }
  destruct up; simpl in *; apply Qplus_le_r; apply Qmult_le_compat_r; trivial;
    rewrite <- !inject_Z_mult, <- Zle_Qle; nia.
Qed.

Lemma line_at_knot t0 dt dr : (0 < dr)%Z -> line t0 dr dt dr == inject_Z (t0 + dt).
Proof.
  intros Hdr. unfold line. rewrite inject_Z_plus.
  apply Qplus_inj_l. rewrite Qmult_comm. apply Qdiv_mult_l.
  change 0 with (inject_Z 0). rewrite inject_Z_injective. lia.
Qed.

Lemma line_at_origin t0 dt dr : line t0 0 dt dr == inject_Z t0.
Proof.
  unfold line, Qdiv. change (inject_Z 0) with 0.
  rewrite !Qmult_0_l. apply Qplus_0_r.
Qed.

Lemma dir_le_eq up a b : a == b -> dir_le up a b.
Proof. intros H. destruct up; simpl; rewrite H; apply Qle_refl. Qed.

Lemma interpolate_line lo hi raw :
  small raw -> small (fst lo) -> small (snd lo) -> small (fst hi) -> small (snd hi) ->
  interpolate lo hi raw =
  line (snd lo) (raw - fst lo) (snd hi - snd lo) (fst hi - fst lo).
Proof.
  unfold small. intros. unfold Conversion.interpolate, line.
  rewrite !MachineFacts.int16_id by lia. reflexivity.
Qed.

Lemma rows_ok_tail up prev cur rest :
  rows_ok up prev (cur :: rest) ->
  (fst prev < fst cur)%Z /\ dir_leZ up (snd prev) (snd cur) /\
  small (fst prev) /\ small (snd prev) /\ small (fst cur) /\ small (snd cur) /\
  rows_ok up cur rest.
Proof.
  intros ((Hk1 & Hk) & (Ht1 & Ht) & Hs). simpl in *.
  inversion Hs as [|? ? [? ?] Hs']; subst. inversion Hs' as [|? ? [? ?] ?]; subst.
  unfold rows_ok. tauto.
Qed.

(** Between two rows, and below the lower one, the line stays on
    the near side of the upper row's temperature. *)
Lemma interpolate_before_knot up prev cur raw :
  (fst prev < fst cur)%Z -> dir_leZ up (snd prev) (snd cur) ->
  small raw -> small (fst prev) -> small (snd prev) -> small (fst cur) -> small (snd cur) ->
  (raw <= fst cur)%Z ->
  dir_le up (interpolate prev cur raw) (inject_Z (snd cur)).
Proof.
  intros Hk Ht ? ? ? ? ? Hraw. rewrite interpolate_line by assumption.
  eapply dir_le_trans.
  - apply (line_monotone up _ (raw - fst prev) (fst cur - fst prev)); try lia.
    destruct up; simpl in *; lia.
  - apply dir_le_eq. rewrite line_at_knot by lia.
    replace (snd prev + (snd cur - snd prev))%Z with (snd cur) by lia. reflexivity.
Qed.

Lemma interpolate_after_knot up prev cur raw :
  (fst prev < fst cur)%Z -> dir_leZ up (snd prev) (snd cur) ->
  small raw -> small (fst prev) -> small (snd prev) -> small (fst cur) -> small (snd cur) ->
  (fst prev <= raw)%Z ->
  dir_le up (inject_Z (snd prev)) (interpolate prev cur raw).
Proof.
  intros Hk Ht ? ? ? ? ? Hraw. rewrite interpolate_line by assumption.
  eapply dir_le_trans.
  - apply dir_le_eq. symmetry. apply (line_at_origin _ (snd cur - snd prev) (fst cur - fst prev)).
  - apply line_monotone; try lia. destruct up; simpl in *; lia.
Qed.

Lemma lookup_from_after_first up prev rest raw :
  rows_ok up prev rest -> small raw -> (fst prev <= raw)%Z ->
  dir_le up (inject_Z (snd prev)) (lookup_from prev rest raw).
Proof.
  revert prev. induction rest as [|cur rest IH]; intros prev Hok Hs Hraw; simpl.
  - apply dir_le_refl.
  - apply rows_ok_tail in Hok as (Hk & Ht & ? & ? & ? & ? & Hok).
    destruct (Z.gtb_spec (fst cur) raw).
    + now apply interpolate_after_knot.
    + eapply dir_le_trans; [apply dir_le_inject, Ht | apply IH; trivial].
Qed.

Lemma lookup_from_monotone up prev rest raw1 raw2 :
  rows_ok up prev rest -> small raw1 -> small raw2 -> (raw1 <= raw2)%Z ->
  dir_le up (lookup_from prev rest raw1) (lookup_from prev rest raw2).
Proof.
  revert prev. induction rest as [|cur rest IH]; intros prev Hok Hs1 Hs2 Hraw; simpl.
  - apply dir_le_refl.
  - apply rows_ok_tail in Hok as (Hk & Ht & ? & ? & ? & ? & Hok).
    destruct (Z.gtb_spec (fst cur) raw1), (Z.gtb_spec (fst cur) raw2); try lia.
    + rewrite !interpolate_line by assumption.
      apply line_monotone; try lia. destruct up; simpl in *; lia.
    + eapply dir_le_trans.
      * apply (interpolate_before_knot up prev cur raw1); trivial; lia.
      * now apply lookup_from_after_first.
    + now apply IH.
Qed.

End Exact.

(** *** Monotonicity, in binary32 *)

Section Binary32.
Import Rounding RoundingFacts.

Local Abbreviation lookup_from := (lookup_from F32.float F32.of_Z F32.add F32.mul F32.div).
Local Abbreviation interpolate := (interpolate F32.float F32.of_Z F32.add F32.mul F32.div).

Lemma dir_leZ_refl up a : dir_leZ up a a.
Proof. destruct up; simpl; lia. Qed.

Lemma dir_leZ_trans up a b c : dir_leZ up a b -> dir_leZ up b c -> dir_leZ up a c.
Proof. destruct up; simpl; lia. Qed.

Lemma dir_leZ_scale up a b : dir_leZ up a b -> dir_leZ up (a * 2 ^ K) (b * 2 ^ K).
Proof. assert (0 < 2 ^ K) by reflexivity. destruct up; simpl; nia. Qed.

Lemma dir_leZ_diff up a b : dir_leZ up a b -> dir_leZ up 0 (b - a).
Proof. destruct up; simpl; lia. Qed.

(** In the direction of the table's temperatures the computed value
    follows the raw count ... *)
Lemma IV_monotone up t0 x x' dt my ey :
  ey <= 0 -> dir_leZ up 0 dt -> x <= x' ->
  dir_leZ up (IV t0 x dt my ey) (IV t0 x' dt my ey).
Proof.
  intros Hey Hdt Hx. destruct up; cbn [dir_leZ] in *.
  - now apply IV_mono_up.
  - pose proof (IV_mono_up (- t0) x x' (- dt) my ey Hey ltac:(lia) Hx) as H.
    rewrite !IV_neg in H. lia.
Qed.

(** ... stays on the near side of the upper row before its key ... *)
Lemma IV_before_knot up t0 x dt dr my ey :
  ey <= 0 -> Zpos my = dr * 2 ^ (- ey) ->
  dir_leZ up 0 dt -> Z.abs dt < 2 ^ 24 -> x < dr -> x < 2 ^ 22 ->
  Z.abs (t0 + dt) < 2 ^ 24 ->
  dir_leZ up (IV t0 x dt my ey) ((t0 + dt) * 2 ^ K).
Proof.
  intros Hey Hmy Hdt Hdt24 Hx Hx22 Ht. destruct up; cbn [dir_leZ] in *.
  - apply (IV_before_knot_up t0 x dt dr); trivial; lia.
  - pose proof (IV_before_knot_up (- t0) x (- dt) dr my ey Hey Hmy ltac:(lia) Hx Hx22
                  ltac:(lia)) as H.
    rewrite IV_neg in H. lia.
Qed.

(** ... and on the far side of the lower row from its key on. *)
Lemma IV_after_origin up t0 x dt my ey :
  ey <= 0 -> dir_leZ up 0 dt -> 0 <= x -> Z.abs t0 < 2 ^ 24 ->
  dir_leZ up (t0 * 2 ^ K) (IV t0 x dt my ey).
Proof.
  intros Hey Hdt Hx Ht. rewrite <- (IV_zero t0 dt my ey Ht).
  now apply IV_monotone.
Qed.

Lemma of_Z_small t :
  small t -> normal (F32.of_Z t) /\ valK (F32.of_Z t) = t * 2 ^ K.
Proof. unfold small. intros Ht. apply of_Z_valK. change (2 ^ 24) with 16777216. lia. Qed.

(** What the firmware computes between two rows: a float that is
    neither a NaN nor an infinity, of the value given by [IV].  The
    divisor depends on the two rows only. *)
Lemma interpolate_value lo hi :
  fst lo < fst hi ->
  small (fst lo) -> small (snd lo) -> small (fst hi) -> small (snd hi) ->
  exists my ey,
    ey <= 0 /\ Zpos my = (fst hi - fst lo) * 2 ^ (- ey) /\
    forall raw, small raw ->
      normal (interpolate lo hi raw) /\
      valK (interpolate lo hi raw) =
        IV (snd lo) (raw - fst lo) (snd hi - snd lo) my ey.
Proof.
  unfold small. intros Hk ? ? ? ?.
  destruct (of_Z_cases (fst hi - fst lo)) as (my & ey & Hy & Hd & He & Hv).
  { change (2 ^ 24) with 16777216. lia. }
  { lia. }
  destruct (Z.ltb_spec (fst hi - fst lo) 0) as [? | _]; [lia |].
  rewrite Z.abs_eq in Hv by lia.
  assert (HKv : K = 100) by reflexivity.
  assert (Hmy : Zpos my = (fst hi - fst lo) * 2 ^ (- ey)).
  { assert (E : 2 ^ (ey + K) * 2 ^ (- ey) = 2 ^ K).
    { rewrite <- Z.pow_add_r by lia. f_equal. lia. }
    assert (Hp : 0 < 2 ^ (ey + K)) by (apply Z.pow_pos_nonneg; lia).
    apply (Z.mul_reg_r _ _ (2 ^ (ey + K))); [lia |].
    rewrite Hv, <- E. ring. }
  exists my, ey. split; [lia |]. split; [exact Hmy |].
  intros raw Hraw. unfold Conversion.interpolate.
  rewrite !MachineFacts.int16_id by lia.
  apply (interpolate_valK (snd lo) (raw - fst lo) (snd hi - snd lo) (fst hi - fst lo));
    trivial; change (2 ^ 24) with 16777216; change (2 ^ 15) with 32768; lia.
Qed.

Lemma interpolate_normal lo hi raw :
  fst lo < fst hi ->
  small raw -> small (fst lo) -> small (snd lo) -> small (fst hi) -> small (snd hi) ->
  normal (interpolate lo hi raw).
Proof.
  intros Hk Hraw ? ? ? ?.
  destruct (interpolate_value lo hi) as (my & ey & _ & _ & Hiv); trivial.
  now apply Hiv.
Qed.

Lemma interpolate_monotone32 up lo hi raw1 raw2 :
  fst lo < fst hi -> dir_leZ up (snd lo) (snd hi) ->
  small raw1 -> small raw2 ->
  small (fst lo) -> small (snd lo) -> small (fst hi) -> small (snd hi) ->
  raw1 <= raw2 ->
  dir_leZ up (valK (interpolate lo hi raw1)) (valK (interpolate lo hi raw2)).
Proof.
  intros Hk Ht H1 H2 ? ? ? ? Hraw.
  destruct (interpolate_value lo hi) as (my & ey & Hey & _ & Hiv); trivial.
  rewrite (proj2 (Hiv raw1 H1)), (proj2 (Hiv raw2 H2)).
  apply IV_monotone; [exact Hey | now apply dir_leZ_diff | lia].
Qed.

Lemma interpolate_before_knot32 up lo hi raw :
  fst lo < fst hi -> dir_leZ up (snd lo) (snd hi) ->
  small raw -> small (fst lo) -> small (snd lo) -> small (fst hi) -> small (snd hi) ->
  raw < fst hi ->
  dir_leZ up (valK (interpolate lo hi raw)) (snd hi * 2 ^ K).
Proof.
  intros Hk Ht Hraw Hs1 Hs2 Hs3 Hs4 Hlt.
  destruct (interpolate_value lo hi) as (my & ey & Hey & Hmy & Hiv); trivial.
  rewrite (proj2 (Hiv raw Hraw)).
  replace (snd hi) with (snd lo + (snd hi - snd lo)) at 2 by lia.
  unfold small in *.
  apply (IV_before_knot up _ _ _ (fst hi - fst lo)); trivial.
  - now apply dir_leZ_diff.
  - change (2 ^ 24) with 16777216. lia.
  - lia.
  - change (2 ^ 22) with 4194304. lia.
  - change (2 ^ 24) with 16777216. lia.
Qed.

Lemma interpolate_after_knot32 up lo hi raw :
  fst lo < fst hi -> dir_leZ up (snd lo) (snd hi) ->
  small raw -> small (fst lo) -> small (snd lo) -> small (fst hi) -> small (snd hi) ->
  fst lo <= raw ->
  dir_leZ up (snd lo * 2 ^ K) (valK (interpolate lo hi raw)).
Proof.
  intros Hk Ht Hraw Hs1 Hs2 Hs3 Hs4 Hle.
  destruct (interpolate_value lo hi) as (my & ey & Hey & Hmy & Hiv); trivial.
  rewrite (proj2 (Hiv raw Hraw)). unfold small in *.
  apply IV_after_origin; trivial.
  - now apply dir_leZ_diff.
  - lia.
  - change (2 ^ 24) with 16777216. lia.
Qed.

Lemma lookup_from_normal up prev rest raw :
  rows_ok up prev rest -> small raw -> normal (lookup_from prev rest raw).
Proof.
  revert prev. induction rest as [|cur rest IH]; intros prev Hok Hs; simpl.
  - destruct Hok as (_ & _ & Hsm). inversion Hsm as [|? ? [? ?] ?]; subst.
    now apply of_Z_small.
  - apply rows_ok_tail in Hok as (Hk & Ht & ? & ? & ? & ? & Hok).
    destruct (Z.gtb_spec (fst cur) raw).
    + now apply interpolate_normal.
    + now apply IH.
Qed.

Lemma lookup_from_after_first32 up prev rest raw :
  rows_ok up prev rest -> small raw -> fst prev <= raw ->
  dir_leZ up (snd prev * 2 ^ K) (valK (lookup_from prev rest raw)).
Proof.
  revert prev. induction rest as [|cur rest IH]; intros prev Hok Hs Hraw; simpl.
  - destruct Hok as (_ & _ & Hsm). inversion Hsm as [|? ? [? ?] ?]; subst.
    rewrite (proj2 (of_Z_small (snd prev) ltac:(assumption))). apply dir_leZ_refl.
  - apply rows_ok_tail in Hok as (Hk & Ht & ? & ? & ? & ? & Hok).
    destruct (Z.gtb_spec (fst cur) raw).
    + now apply interpolate_after_knot32.
    + eapply dir_leZ_trans; [apply dir_leZ_scale, Ht | apply IH; trivial].
Qed.

Lemma lookup_from_monotone32 up prev rest raw1 raw2 :
  rows_ok up prev rest -> small raw1 -> small raw2 -> raw1 <= raw2 ->
  dir_leZ up (valK (lookup_from prev rest raw1)) (valK (lookup_from prev rest raw2)).
Proof.
  revert prev. induction rest as [|cur rest IH]; intros prev Hok Hs1 Hs2 Hraw; simpl.
  - apply dir_leZ_refl.
  - apply rows_ok_tail in Hok as (Hk & Ht & ? & ? & ? & ? & Hok).
    destruct (Z.gtb_spec (fst cur) raw1), (Z.gtb_spec (fst cur) raw2); try lia.
    + now apply interpolate_monotone32.
    + eapply dir_leZ_trans.
      * apply (interpolate_before_knot32 up prev cur raw1); trivial; lia.
      * now apply lookup_from_after_first32.
    + now apply IH.
Qed.

(** The comparison of the firmware's floats is that of their values. *)
Lemma dir_le32_values up a b :
  normal a -> normal b -> dir_leZ up (valK a) (valK b) -> dir_le32 up a b = true.
Proof.
  intros Ha Hb H. unfold dir_le32, F32.le.
  destruct up; simpl in H; rewrite leb_valK by assumption; now apply Z.leb_le.
Qed.

End Binary32.

(** Without rounding, the conversion is monotonic in the raw count. *)
Lemma analog2temp_exact_monotone
    (cfg : config) (e : Z) (first : entry) (rest : table) (up : bool) (raw1 raw2 : Z) :
  0 <= e < EXTRUDERS cfg ->
  heater_ttbl_map cfg !! Z.to_nat e = Some (Some (first :: rest)) ->
  rows_ok up first rest ->
  small raw1 -> small raw2 -> raw1 <= raw2 ->
  exists q1 q2,
    analog2temp_exact cfg raw1 e = Some q1 /\ analog2temp_exact cfg raw2 e = Some q2 /\
    dir_le up q1 q2.
Proof.
  intros He Htbl Hok Hs1 Hs2 Hraw. unfold analog2temp_exact.
  rewrite !(analog2temp_table _ _ _ _ _ cfg _ e (first :: rest)) by assumption.
  eexists _, _. split; [reflexivity |]. split; [reflexivity |]. simpl.
  now apply lookup_from_monotone.
Qed.

(** C4.  For an extruder with a table whose keys increase, in the
    binary32 arithmetic of the firmware: every raw count at or above
    the largest key converts to exactly the temperature of the last
    row; and the conversion is monotonic in the raw count, in the
    direction in which the table's temperatures run -- of two raw
    counts it yields two floats that the comparison [<=] of C orders
    as the counts are ordered (so neither is a NaN). *)
Theorem analog2temp_monotone_saturating
    (cfg : config) (e : Z) (first : entry) (rest : table) :
  0 <= e < EXTRUDERS cfg ->
  heater_ttbl_map cfg !! Z.to_nat e = Some (Some (first :: rest)) ->
  keys_increasing (first :: rest) ->
  table_small (first :: rest) ->
  (forall raw, fst (last_from first rest) <= raw ->
     analog2temp cfg raw e = Some (F32.of_Z (snd (last_from first rest)))) /\
  (forall up raw1 raw2,
     temps_monotone up (first :: rest) ->
     small raw1 -> small raw2 -> raw1 <= raw2 ->
     exists a b,
       analog2temp cfg raw1 e = Some a /\ analog2temp cfg raw2 e = Some b /\
       dir_le32 up a b = true).
Proof.
  intros He Htbl Hkeys Hsmall. split.
  - intros raw Hraw. unfold analog2temp.
    rewrite (analog2temp_table _ _ _ _ _ cfg raw e (first :: rest)) by assumption.
    simpl. f_equal. now apply lookup_from_saturates.
  - intros up raw1 raw2 Htemps Hs1 Hs2 Hraw. unfold analog2temp.
    rewrite !(analog2temp_table _ _ _ _ _ cfg _ e (first :: rest)) by assumption.
    assert (Hok : rows_ok up first rest) by now split.
    eexists _, _. split; [reflexivity |]. split; [reflexivity |]. simpl.
    apply dir_le32_values.
    + now apply (lookup_from_normal up).
    + now apply (lookup_from_normal up).
    + now apply lookup_from_monotone32.
Qed.

(** C10.  Below the smallest key of a table with at least two rows
    the conversion is the straight line through the first two rows:
    this is what the firmware computes in binary32, and without
    rounding the result lies strictly beyond the first row's
    temperature whenever the first two temperatures differ -- there
    is no clamp at the low end. *)
Theorem analog2temp_extrapolates_below
    (cfg : config) (e : Z) (first second : entry) (rest : table) (raw : Z) :
  0 <= e < EXTRUDERS cfg ->
  heater_ttbl_map cfg !! Z.to_nat e = Some (Some (first :: second :: rest)) ->
  fst first < fst second ->
  small (fst first) -> small (snd first) -> small (fst second) -> small (snd second) ->
  small raw ->
  raw < fst first ->
  analog2temp cfg raw e =
    Some (F32.add (F32.of_Z (snd first))
            (F32.div (F32.mul (F32.of_Z (raw - fst first))
                              (F32.of_Z (snd second - snd first)))
                     (F32.of_Z (fst second - fst first)))) /\
  exists q,
    analog2temp_exact cfg raw e = Some q /\
    q = line (snd first) (raw - fst first) (snd second - snd first) (fst second - fst first) /\
    (forall up, dir_leZ up (snd first) (snd second) -> snd first <> snd second ->
                dir_lt up q (inject_Z (snd first))).
Proof.
  unfold small. intros He Htbl Hk ? ? ? ? ? Hraw.
  split; [| eexists; split; [| split; [reflexivity |]]].
  - unfold analog2temp.
    rewrite (analog2temp_table _ _ _ _ _ cfg raw e (first :: second :: rest)) by assumption.
    simpl. destruct (Z.gtb_spec (fst second) raw); [| lia].
    unfold interpolate. rewrite !MachineFacts.int16_id by lia. reflexivity.
  - unfold analog2temp_exact.
    rewrite (analog2temp_table _ _ _ _ _ cfg raw e (first :: second :: rest)) by assumption.
    simpl. destruct (Z.gtb_spec (fst second) raw); [| lia].
    f_equal. apply interpolate_line; unfold small; lia.
  - intros up Hdir Hne. unfold line, Qdiv.
    assert (Hinv : (0 < / inject_Z (fst second - fst first))%Q).
    { apply Qinv_lt_0_compat. change 0%Q with (inject_Z 0). rewrite <- Zlt_Qlt. lia. }
    assert (Hprod : forall a b : Z, a * b < 0 ->
              (inject_Z (snd first) + inject_Z a * inject_Z b * / inject_Z (fst second - fst first)
               < inject_Z (snd first))%Q).
    { intros a b Hab.
      assert (Hneg : (inject_Z (a * b) < inject_Z 0)%Q) by now rewrite <- Zlt_Qlt.
      apply (Qmult_lt_compat_r _ _ _ Hinv) in Hneg.
      change (inject_Z 0) with 0%Q in Hneg. rewrite Qmult_0_l, inject_Z_mult in Hneg.
      lra. }
    assert (Hprod' : forall a b : Z, 0 < a * b ->
              (inject_Z (snd first)
               < inject_Z (snd first) + inject_Z a * inject_Z b * / inject_Z (fst second - fst first))%Q).
    { intros a b Hab.
      assert (Hpos : (inject_Z 0 < inject_Z (a * b))%Q) by now rewrite <- Zlt_Qlt.
      apply (Qmult_lt_compat_r _ _ _ Hinv) in Hpos.
      change (inject_Z 0) with 0%Q in Hpos. rewrite Qmult_0_l, inject_Z_mult in Hpos.
      lra. }
    destruct up; unfold dir_lt, dir_leZ in *; [apply Hprod | apply Hprod']; nia.
Qed.

Lemma example_table_rows :
  exists first rest,
    example_table = first :: rest /\ keys_increasing (first :: rest) /\
    table_small (first :: rest) /\ temps_monotone false (first :: rest).
Proof.
  eexists _, _. split; [reflexivity |]. split; [| split].
  - cbv. repeat split.
  - unfold table_small, small. repeat constructor; simpl; lia.
  - cbv. repeat split; discriminate.
Qed.

Lemma analog2temp_monotone_saturating_witness :
  analog2temp example_config 16200 0 = Some (F32.of_Z 0) /\
  exists a b,
    analog2temp example_config 400 0 = Some a /\
    analog2temp example_config 401 0 = Some b /\
    F32.le b a = true.
Proof.
  pose proof (analog2temp_monotone_saturating example_config 0
                (23 * 16, 300) (List.tl example_table)) as H.
  destruct H as [Hsat Hmono].
  - simpl. lia.
  - reflexivity.
  - cbv. repeat split.
  - unfold table_small, small. repeat constructor; simpl; lia.
  - split.
    + apply (Hsat 16200). vm_compute. discriminate.
    + apply (Hmono false 400 401).
      * cbv. repeat split; discriminate.
      * unfold small; lia.
      * unfold small; lia.
      * lia.
Defined.

Lemma analog2temp_extrapolates_below_witness :
  analog2temp example_config 360 0 =
    Some (F32.add (F32.of_Z 300)
            (F32.div (F32.mul (F32.of_Z (-8)) (F32.of_Z (-5))) (F32.of_Z 32))) /\
  exists q, analog2temp_exact example_config 360 0 = Some q /\ (300 < q)%Q.
Proof.
  pose proof (analog2temp_extrapolates_below example_config 0
                (23 * 16, 300) (25 * 16, 295) (List.tl (List.tl example_table)) 360) as H.
  unfold small in H. simpl fst in H. simpl snd in H.
  destruct H as [H32 (q & Hq & _ & Hbeyond)]; try (simpl; lia).
  - reflexivity.
  - split; [exact H32 |]. exists q. split; [exact Hq |].
    apply (Hbeyond false); simpl; lia.
Defined.

(** In binary32 the same call yields 301.25 degrees from a table whose
    first row is 300 degrees, and a raw count of 0 yields 357.5. *)
Example analog2temp_below_first_key :
  analog2temp example_config 360 0 = Some (F32.literal 1205 4) /\
  analog2temp example_config 0 0 = Some (F32.literal 715 2).
Proof. split; vm_compute; reflexivity. Qed.

(** The model run on the example table, across its first five rows
    and below them: the conversion never rises from one raw count to
    the next. *)
Example analog2temp_binary32_monotone_on_example :
  forallb (falls_at example_config 0) (raws_from 352 (Z.to_nat 160)) = true.
Proof. vm_compute. reflexivity. Qed.

End ConversionFacts.

(** ** Soft PWM: the on-fraction of a window *)

Module SoftPwmFacts.
Import SoftPwm.

(** Heater [e] of the generator runs as a channel of its own. *)
Lemma run_projects n soft_pwm e : forall st d ch,
  soft_pwm !! e = Some d ->
  heaters st !! e = Some ch ->
  snd (run n soft_pwm e st) = run_channel n (pwm_count st) d ch.
Proof.
  induction n as [|n IH]; intros st d ch Hd Hch; [reflexivity |].
  cbn [run run_channel].
  assert (Hstep : heaters (soft_pwm_core soft_pwm st) !! e
                  = Some (heater_tick (pwm_count st) d ch)).
  { simpl. rewrite lookup_zip_with, Hd. simpl. now rewrite Hch. }
  rewrite Hstep.
  specialize (IH (soft_pwm_core soft_pwm st) d _ Hd Hstep).
  destruct (run n soft_pwm e (soft_pwm_core soft_pwm st)) as [st2 levels].
  cbn [snd] in *. now rewrite IH.
Qed.

Lemma next_count c : 0 <= c < 128 -> Z.land (Machine.uint8 (c + 1)) 127 = (c + 1) mod 128.
Proof.
  intros Hc. unfold Machine.uint8, Machine.wrap_unsigned. change (2 ^ 8) with 256.
  rewrite (Z.mod_small (c + 1) 256) by lia.
  change 127 with (Z.ones 7). rewrite Z.land_ones by lia. reflexivity.
Qed.

(** A tick of a settled channel leaves the level of its counter. *)
Lemma tick_settled d c ch :
  0 <= d -> 0 <= c < 128 -> settled d c ch ->
  latched (heater_tick c d ch) = d /\ pin (heater_tick c d ch) = level d c.
Proof.
  intros Hd Hc Hs. unfold heater_tick, level.
  destruct (Z.eqb_spec c 0) as [-> | Hne].
  - cbn [latched pin]. destruct (Z.ltb_spec d 0); [lia |]. cbn [latched pin].
    split; [reflexivity |].
    destruct (Z.leb_spec 0 d); [| lia]. now rewrite andb_true_r.
  - destruct Hs as [? | [Hl Hp]]; [lia |]. rewrite Hl.
    destruct (Z.ltb_spec d c); cbn [latched pin].
    + split; [reflexivity |]. destruct (Z.leb_spec c d); [lia |]. now rewrite andb_false_r.
    + split; [exact Hl |]. rewrite Hp. unfold level.
      destruct (Z.leb_spec (c - 1) d), (Z.leb_spec c d); try lia; reflexivity.
Qed.

Lemma tick_keeps_settled d c ch :
  0 <= d -> 0 <= c < 128 -> settled d c ch ->
  settled d ((c + 1) mod 128) (heater_tick c d ch).
Proof.
  intros Hd Hc Hs. destruct (tick_settled d c ch Hd Hc Hs) as [Hl Hp].
  destruct (Z.eq_dec c 127) as [-> | Hne]; [left; reflexivity |].
  right. rewrite Z.mod_small by lia. split; [exact Hl |].
  rewrite Hp. f_equal. lia.
Qed.

(** The levels of a settled channel, tick by tick. *)
Lemma run_channel_settled d n : forall c ch,
  0 <= d -> 0 <= c < 128 -> settled d c ch ->
  run_channel n c d ch = map (fun j => level d ((c + Z.of_nat j) mod 128)) (seq 0 n).
Proof.
  induction n as [|n IH]; intros c ch Hd Hc Hs; [reflexivity |].
  cbn [run_channel seq map]. rewrite next_count by trivial.
  destruct (tick_settled d c ch Hd Hc Hs) as [_ Hp]. rewrite Hp.
  f_equal; [f_equal; rewrite Z.add_0_r, Z.mod_small by lia; reflexivity |].
  rewrite (IH ((c + 1) mod 128) _ Hd).
  - rewrite <- seq_shift, map_map. apply map_ext. intros j.
    rewrite Z.add_mod_idemp_l by lia. do 2 f_equal. lia.
  - apply Z.mod_pos_bound. lia.
  - now apply tick_keeps_settled.
Qed.

(** Ticks with the duty register held at [d] keep heater [e] settled. *)
Lemma run_keeps_settled soft_pwm e d k : forall st ch,
  soft_pwm !! e = Some d -> 0 <= d ->
  heaters st !! e = Some ch -> 0 <= pwm_count st < 128 -> settled d (pwm_count st) ch ->
  exists ch',
    heaters (fst (run k soft_pwm e st)) !! e = Some ch' /\
    0 <= pwm_count (fst (run k soft_pwm e st)) < 128 /\
    settled d (pwm_count (fst (run k soft_pwm e st))) ch'.
Proof.
  induction k as [|k IH]; intros st ch Hd Hd0 Hch Hc Hs.
  - exists ch. cbn [run fst]. auto.
  - cbn [run].
    assert (Hstep : heaters (soft_pwm_core soft_pwm st) !! e
                    = Some (heater_tick (pwm_count st) d ch)).
    { simpl. rewrite lookup_zip_with, Hd. simpl. now rewrite Hch. }
    assert (Hcount : pwm_count (soft_pwm_core soft_pwm st) = (pwm_count st + 1) mod 128).
    { cbn [soft_pwm_core pwm_count]. now apply next_count. }
    destruct (IH (soft_pwm_core soft_pwm st) _ Hd Hd0 Hstep) as (ch' & H1 & H2 & H3).
    + rewrite Hcount. apply Z.mod_pos_bound. lia.
    + rewrite Hcount. now apply tick_keeps_settled.
    + exists ch'. destruct (run k soft_pwm e (soft_pwm_core soft_pwm st)) as [st2 levels].
      cbn [fst] in *. auto.
Qed.

Lemma on_ticks_app l1 l2 : on_ticks (l1 ++ l2) = on_ticks l1 + on_ticks l2.
Proof. unfold on_ticks. rewrite count_occ_app. lia. Qed.

Lemma on_ticks_all (f : nat -> bool) (b : bool) l :
  (forall j, In j l -> f j = b) ->
  on_ticks (map f l) = if b then Z.of_nat (length l) else 0.
Proof.
  unfold on_ticks. induction l as [|j l IH]; intros H; cbn [map count_occ length].
  - destruct b; reflexivity.
  - rewrite (H j (or_introl eq_refl)).
    specialize (IH (fun i Hi => H i (or_intror Hi))).
    destruct b; destruct (bool_dec _ _) as [E | E]; try discriminate E; try congruence; lia.
Qed.

(** A window of 128 ticks meets every value of the counter once:
    [d + 1] of them are at most [d]. *)
Lemma window_count d p :
  0 <= d <= 127 -> (p < 128)%nat ->
  on_ticks (map (fun j => level d ((Z.of_nat p + Z.of_nat j) mod 128)) (seq 0 128))
  = if 0 <? d then d + 1 else 0.
Proof.
  intros Hd Hp.
  (* the counters met before and after the wrap *)
  assert (Hseq : seq 0 128 = seq 0 (128 - p) ++ seq (128 - p) p).
  { rewrite <- seq_app. f_equal. lia. }
  rewrite Hseq, map_app, on_ticks_app.
  set (f := fun j => level d ((Z.of_nat p + Z.of_nat j) mod 128)).
  (* first part: counters p .. 127 *)
  assert (H1 : on_ticks (map f (seq 0 (128 - p)))
               = if 0 <? d then Z.max 0 (d + 1 - Z.of_nat p) else 0).
  { destruct (Z.ltb_spec 0 d) as [Hpos | Hz].
    - destruct (Z.le_gt_cases (Z.of_nat p) d) as [Hle | Hgt].
      + assert (Hs1 : seq 0 (128 - p)
                      = seq 0 (Z.to_nat (d + 1 - Z.of_nat p))
                        ++ seq (Z.to_nat (d + 1 - Z.of_nat p)) (Z.to_nat (127 - d))).
        { rewrite <- seq_app. f_equal. lia. }
        rewrite Hs1, map_app, on_ticks_app.
        rewrite (on_ticks_all f true), (on_ticks_all f false).
        * rewrite length_seq. lia.
        * intros j Hj. apply in_seq in Hj. subst f. cbn beta. unfold level.
          rewrite Z.mod_small by lia.
          destruct (Z.leb_spec (Z.of_nat p + Z.of_nat j) d); [lia |]. apply andb_false_r.
        * intros j Hj. apply in_seq in Hj. subst f. cbn beta. unfold level.
          rewrite Z.mod_small by lia.
          destruct (Z.ltb_spec 0 d); [| lia].
          destruct (Z.leb_spec (Z.of_nat p + Z.of_nat j) d); [reflexivity | lia].
      + rewrite (on_ticks_all f false); [lia |].
        intros j Hj. apply in_seq in Hj. subst f. cbn beta. unfold level.
        rewrite Z.mod_small by lia.
        destruct (Z.leb_spec (Z.of_nat p + Z.of_nat j) d); [lia |]. apply andb_false_r.
    - rewrite (on_ticks_all f false); [reflexivity |].
      intros j _. subst f. cbn beta. unfold level.
      destruct (Z.ltb_spec 0 d); [lia | reflexivity]. }
  (* second part: counters 0 .. p - 1 *)
  assert (H2 : on_ticks (map f (seq (128 - p) p))
               = if 0 <? d then Z.min (Z.of_nat p) (d + 1) else 0).
  { destruct (Z.ltb_spec 0 d) as [Hpos | Hz].
    - destruct (Z.le_gt_cases (Z.of_nat p) (d + 1)) as [Hle | Hgt].
      + rewrite (on_ticks_all f true); [rewrite length_seq; lia |].
        intros j Hj. apply in_seq in Hj. subst f. cbn beta. unfold level.
        replace (Z.of_nat p + Z.of_nat j) with (Z.of_nat p + Z.of_nat j - 128 + 1 * 128) by lia.
        rewrite Z.mod_add, Z.mod_small by lia.
        destruct (Z.ltb_spec 0 d); [| lia].
        destruct (Z.leb_spec (Z.of_nat p + Z.of_nat j - 128) d); [reflexivity | lia].
      + assert (Hs2 : seq (128 - p) p
                      = seq (128 - p) (Z.to_nat (d + 1))
                        ++ seq (128 - p + Z.to_nat (d + 1)) (p - Z.to_nat (d + 1))).
        { rewrite <- seq_app. f_equal. lia. }
        rewrite Hs2, map_app, on_ticks_app.
        rewrite (on_ticks_all f true), (on_ticks_all f false).
        * rewrite length_seq. lia.
        * intros j Hj. apply in_seq in Hj. subst f. cbn beta. unfold level.
          replace (Z.of_nat p + Z.of_nat j) with (Z.of_nat p + Z.of_nat j - 128 + 1 * 128)
            by lia.
          rewrite Z.mod_add, Z.mod_small by lia.
          destruct (Z.leb_spec (Z.of_nat p + Z.of_nat j - 128) d); [lia |].
          apply andb_false_r.
        * intros j Hj. apply in_seq in Hj. subst f. cbn beta. unfold level.
          replace (Z.of_nat p + Z.of_nat j) with (Z.of_nat p + Z.of_nat j - 128 + 1 * 128)
            by lia.
          rewrite Z.mod_add, Z.mod_small by lia.
          destruct (Z.ltb_spec 0 d); [| lia].
          destruct (Z.leb_spec (Z.of_nat p + Z.of_nat j - 128) d); [reflexivity | lia].
    - rewrite (on_ticks_all f false); [reflexivity |].
      intros j _. subst f. cbn beta. unfold level.
      destruct (Z.ltb_spec 0 d); [lia | reflexivity]. }
  rewrite H1, H2. destruct (0 <? d); lia.
Qed.

(** C3.  With the duty register of heater [e] held at [d] since a
    tick that found [pwm_count == 0], over every window of 128
    consecutive ticks from then on -- [k] ticks later, aligned with the
    counter or not: for [d = 0] the pin is low after every tick, for
    [d = 127] it is high after every tick, and for a duty in between
    the pin is high for [d + 1] of the 128 ticks, so that the
    on-fraction differs from [d/127] by at most [1/127]
    ([|127 * on - 128 * d| <= 128], the inequality multiplied by [127 * 128]). *)
Theorem soft_pwm_duty_fraction
    (soft_pwm : list Z) (e : nat) (d : Z) (k : nat) (st0 : state) (ch : channel) :
  pwm_count st0 = 0 ->
  soft_pwm !! e = Some d ->
  heaters st0 !! e = Some ch ->
  0 <= d <= 127 ->
  let st := fst (run k soft_pwm e st0) in
  let levels := snd (run 128 soft_pwm e st) in
  length levels = 128%nat /\
  (d = 0 -> forall l, In l levels -> l = false) /\
  (d = 127 -> forall l, In l levels -> l = true) /\
  (0 < d < 127 ->
     on_ticks levels = d + 1 /\
     Z.abs (127 * on_ticks levels - 128 * d) <= 128).
Proof.
  intros Hcount Hd Hch Hrange st levels. subst st levels.
  destruct (run_keeps_settled soft_pwm e d k st0 ch Hd ltac:(lia) Hch ltac:(lia)
              ltac:(left; exact Hcount)) as (ch' & Hch' & Hc' & Hs').
  rewrite (run_projects 128 soft_pwm e _ d ch' Hd Hch').
  rewrite (run_channel_settled d 128 _ ch' ltac:(lia) Hc' Hs').
  set (p := pwm_count (fst (run k soft_pwm e st0))) in *.
  split; [now rewrite length_map, length_seq |].
  split; [| split].
  - intros -> l Hl. apply in_map_iff in Hl as (j & <- & _). reflexivity.
  - intros -> l Hl. apply in_map_iff in Hl as (j & <- & _). unfold level.
    pose proof (Z.mod_pos_bound (p + Z.of_nat j) 128 ltac:(lia)).
    destruct (Z.leb_spec ((p + Z.of_nat j) mod 128) 127); [reflexivity | lia].
  - intros Hmid.
    pose proof (window_count d (Z.to_nat p) ltac:(lia) ltac:(lia)) as Hw.
    rewrite Z2Nat.id in Hw by lia.
    destruct (Z.ltb_spec 0 d); [| lia]. rewrite Hw. lia.
Qed.

(** A single hotend at duty 64, and the window that starts 200 ticks
    after the cycle boundary, at [pwm_count == 72]. *)
Lemma soft_pwm_duty_fraction_witness :
  on_ticks (snd (run 128 [64] 0
                   (fst (run 200 [64] 0
                           {| pwm_count := 0;
                              heaters := [{| latched := 0; pin := false |}] |})))) = 65.
Proof.
  destruct (soft_pwm_duty_fraction [64] 0%nat 64 200
              {| pwm_count := 0; heaters := [{| latched := 0; pin := false |}] |}
              {| latched := 0; pin := false |} eq_refl eq_refl eq_refl)
    as (_ & _ & _ & H); [lia |].
  apply H. lia.
Defined.

Example mid_window_state :
  mid_window = {| pwm_count := 64; heaters := [{| latched := 127; pin := true |}] |}.
Proof. vm_compute. reflexivity. Qed.

(** C3 as stated fails, the duty register being constant over the
    128 ticks of the window in both cases.  From the reset
    ([pwm_count == 1], nothing latched) at duty 127 the pin is high
    after one tick only, the last, which is the first to latch the
    duty.  From the middle of a window at full duty, at duty 0, the
    pin stays high for the 64 ticks up to the next latch. *)
Lemma soft_pwm_window_counterexample :
  on_ticks (snd (run 128 [127] 0 power_on)) = 1 /\
  on_ticks (snd (run 128 [0] 0 mid_window)) = 64.
Proof. split; vm_compute; reflexivity. Qed.

End SoftPwmFacts.

(** ** Comparisons of binary32 values *)

Module F32Facts.
Import F32.

Lemma compare_antisym x y : SFcompare y x = option_map CompOpp (SFcompare x y).
Proof.
  destruct x as [sx | sx | | sx mx ex], y as [sy | sy | | sy my ey];
    try reflexivity; try (destruct sx; reflexivity); try (destruct sy; reflexivity);
    try (destruct sx, sy; reflexivity).
  simpl. destruct sx, sy; simpl; try reflexivity;
    rewrite (Z.compare_antisym ex ey); destruct (ex ?= ey); simpl; try reflexivity;
    rewrite (Pos.compare_cont_antisym mx my Eq); simpl;
    destruct (Pos.compare_cont Eq mx my); reflexivity.
Qed.

Lemma compare_refl x : is_nan x = false -> SFcompare x x = Some Eq.
Proof.
  destruct x as [s | s | | s m e]; simpl; try discriminate; intros _;
    try (destruct s; reflexivity).
  destruct s; rewrite Z.compare_refl, Pos.compare_cont_refl; reflexivity.
Qed.

Lemma compare_total x y :
  is_nan x = false -> is_nan y = false -> exists c, SFcompare x y = Some c.
Proof.
  destruct x, y; simpl; try discriminate; intros _ _; eauto.
Qed.

Lemma lt_irrefl x : lt x x = false.
Proof.
  unfold lt, SFltb. destruct (is_nan x) eqn:Hx.
  - destruct x; try discriminate. reflexivity.
  - now rewrite compare_refl.
Qed.

Lemma le_refl x : is_nan x = false -> le x x = true.
Proof. intros Hx. unfold le, SFleb. now rewrite compare_refl. Qed.

Lemma le_not_nan x y : le x y = true -> is_nan x = false /\ is_nan y = false.
Proof.
  unfold le, SFleb. destruct x, y; simpl; try discriminate; auto.
Qed.

Lemma not_lt_le x y :
  is_nan x = false -> is_nan y = false -> lt x y = false -> le y x = true.
Proof.
  intros Hx Hy. unfold lt, le, SFltb, SFleb. rewrite (compare_antisym x y).
  destruct (compare_total x y Hx Hy) as [c ->]. destruct c; simpl; congruence.
Qed.

Lemma lt_le x y : lt x y = true -> le x y = true.
Proof. unfold lt, le, SFltb, SFleb. destruct (SFcompare x y) as [[]|]; congruence. Qed.

Lemma lt_not_le x y : lt x y = true -> le y x = false.
Proof.
  unfold lt, le, SFltb, SFleb. rewrite (compare_antisym x y).
  destruct (SFcompare x y) as [[]|]; simpl; congruence.
Qed.

(** Arduino's [constrain] yields a value within the limits. *)
Lemma constrain_within amt low high :
  le low high = true -> is_nan amt = false ->
  le low (constrain amt low high) = true /\ le (constrain amt low high) high = true.
Proof.
  intros Hlh Hamt. destruct (le_not_nan _ _ Hlh) as [Hl Hh].
  unfold constrain, gt. destruct (lt amt low) eqn:H1.
  - split; [now apply le_refl | exact Hlh].
  - change (SFltb high amt) with (lt high amt). destruct (lt high amt) eqn:H2.
    + split; [exact Hlh | now apply le_refl].
    + split; now apply not_lt_le.
Qed.

End F32Facts.

(** ** The PID regulator: integral limits, off state *)

Module PidFacts.
Import F32 Pid.

Lemma regulate_limits cfg current target ch :
  iState_sum_min (fst (regulate cfg current target ch)) = iState_sum_min ch /\
  iState_sum_max (fst (regulate cfg current target ch)) = iState_sum_max ch /\
  maxttemp (fst (regulate cfg current target ch)) = maxttemp ch.
Proof. unfold regulate. destruct (target =? 0); simpl; auto. Qed.

Lemma apply_reset_limits ch :
  iState_sum_min (apply_reset ch) = iState_sum_min ch /\
  iState_sum_max (apply_reset ch) = iState_sum_max ch.
Proof. unfold apply_reset. destruct (pid_reset ch); simpl; auto. Qed.

Lemma step_fields cfg current target ch :
  let r := fst (regulate cfg current target ch) in
  let ch' := pid_heater_channel cfg current target ch in
  iState_sum ch' = iState_sum r /\ iTerm ch' = iTerm r /\ pid_reset ch' = pid_reset r /\
  dTerm ch' = dTerm r /\ iState_sum_min ch' = iState_sum_min ch /\
  iState_sum_max ch' = iState_sum_max ch.
Proof.
  intros r ch'. subst r ch'. unfold pid_heater_channel.
  pose proof (regulate_limits cfg current target ch) as (Hmin & Hmax & _).
  destruct (regulate cfg current target ch) as [ch1 out]. simpl in *.
  repeat split; assumption || reflexivity.
Qed.

(** C2, as the code has it.  In a step with a non-zero target whose
    limits are ordered and whose sum is a number, the integral right
    after [constrain] -- the value the I term is computed from -- lies
    within [[iState_sum_min, iState_sum_max]]; that value is also
    what the step stores, unless the output saturated high with a
    positive error or low with a negative error: then the step
    stores the constrained value minus the error. *)
Theorem pid_integral_constrained
    (cfg : config) (current : float) (target : Z) (ch : channel) :
  target <> 0 ->
  le (iState_sum_min ch) (iState_sum_max ch) = true ->
  is_nan (add (iState_sum (apply_reset ch)) (error_of current target)) = false ->
  let err := error_of current target in
  let sum := integrate (apply_reset ch) err in
  let ch' := pid_heater_channel cfg current target ch in
  within sum (iState_sum_min ch) (iState_sum_max ch) = true /\
  iTerm ch' = mul (Ki cfg) sum /\
  (unintegrates cfg current target ch = false ->
     iState_sum ch' = sum /\
     within (iState_sum ch') (iState_sum_min ch') (iState_sum_max ch') = true) /\
  (unintegrates cfg current target ch = true -> iState_sum ch' = sub sum err).
Proof.
  intros Htarget Hlim Hnan err sum ch'.
  pose proof (step_fields cfg current target ch) as (HI & HiT & _ & _ & Hmin & Hmax).
  fold ch' in HI, HiT, Hmin, Hmax.
  pose proof (apply_reset_limits ch) as [Hrmin Hrmax].
  assert (Hwithin : within sum (iState_sum_min ch) (iState_sum_max ch) = true).
  { unfold within, sum, integrate, err. rewrite Hrmin, Hrmax.
    destruct (F32Facts.constrain_within _ _ _ Hlim Hnan) as [H1 H2].
    now rewrite H1, H2. }
  assert (Hreg : regulate cfg current target ch =
            (fst (regulate cfg current target ch), snd (regulate cfg current target ch)))
    by now destruct (regulate cfg current target ch).
  unfold regulate in HI, HiT. destruct (Z.eqb_spec target 0) as [|_]; [lia |].
  cbn [fst iState_sum iTerm] in HI, HiT. fold err sum in HI, HiT.
  split; [exact Hwithin |]. split; [exact HiT |].
  unfold unintegrates, saturates_low, saturates_high. fold err.
  change (gt (unlimited_output cfg current target ch) (of_Z (PID_MAX cfg)))
    with (SFltb (of_Z (PID_MAX cfg)) (unlimited_output cfg current target ch)) in *.
  unfold gt in *.
  destruct (SFltb (of_Z (PID_MAX cfg)) (unlimited_output cfg current target ch));
    [| destruct (lt (unlimited_output cfg current target ch) (of_Z 0))];
    cbn [negb andb orb]; rewrite ?orb_false_r.
  - destruct (SFltb (of_Z 0) err); split; try discriminate; intros _;
      rewrite ?Hmin, ?Hmax, HI; auto.
  - destruct (lt err (of_Z 0)); split; try discriminate; intros _;
      rewrite ?Hmin, ?Hmax, HI; auto.
  - split; try discriminate; intros _; rewrite ?Hmin, ?Hmax, HI; auto.
Qed.

Lemma pid_integral_constrained_witness :
  let ch := at_rest plain_gains 255 (of_Z 150) 305 in
  let ch' := pid_heater_channel plain_gains (of_Z 195) 200 ch in
  iState_sum ch' = of_Z 5 /\
  within (iState_sum ch') (iState_sum_min ch') (iState_sum_max ch') = true.
Proof.
  intros ch ch'.
  destruct (pid_integral_constrained plain_gains (of_Z 195) 200 ch)
    as (_ & _ & Hkeep & _); [lia | reflexivity | reflexivity |].
  destruct Hkeep as [HI Hin]; [reflexivity |].
  split; [etransitivity; [exact HI | reflexivity] | exact Hin].
Defined.

(** C2 as stated fails twice.  With limits [[0, 5]] a first step
    towards 225 degrees from 25 saturates the output and stores an
    integral of -195, outside the limits.  And with ordinary gains, a
    saturated step towards 200 degrees from 150 leaves the integral
    at 0, whereupon the next, unsaturated, step at 195 degrees raises
    it to 5. *)
Lemma pid_integral_bounds_counterexample :
  (let ch := at_rest stiff_gains 255 (of_Z 25) 305 in
   let ch' := pid_heater_channel stiff_gains (of_Z 25) 225 ch in
   within (iState_sum ch) (iState_sum_min ch) (iState_sum_max ch) = true /\
   iState_sum_min ch' = of_Z 0 /\ iState_sum_max ch' = of_Z 5 /\
   iState_sum ch' = of_Z (-195) /\
   within (iState_sum ch') (iState_sum_min ch') (iState_sum_max ch') = false) /\
  (let ch := at_rest plain_gains 255 (of_Z 150) 305 in
   let ch1 := pid_heater_channel plain_gains (of_Z 150) 200 ch in
   let ch2 := pid_heater_channel plain_gains (of_Z 195) 200 ch1 in
   saturates_high plain_gains (of_Z 150) 200 ch = true /\
   saturates_high plain_gains (of_Z 195) 200 ch1 = false /\
   saturates_low plain_gains (of_Z 195) 200 ch1 = false /\
   iState_sum ch1 = of_Z 0 /\ iState_sum ch2 = of_Z 5 /\
   lt (abs (iState_sum ch1)) (abs (iState_sum ch2)) = true).
Proof. vm_compute. repeat split. Qed.

Lemma step_duty cfg current target ch :
  soft_pwm (pid_heater_channel cfg current target ch) =
  if lt current (of_Z (maxttemp ch)) && negb (target =? 0)
  then duty_of (snd (regulate cfg current target ch)) else 0.
Proof.
  unfold pid_heater_channel.
  pose proof (regulate_limits cfg current target ch) as (_ & _ & Hmax).
  destruct (regulate cfg current target ch) as [ch1 out]. simpl in *. now rewrite Hmax.
Qed.

(** C7, as the code has it.  A step of [pid_heater] on extruder [e]
    with [target == 0] sets the duty [soft_pwm[e]] to 0 and sets
    [pid_reset[e]], so that the next step with a non-zero target
    computes its I term from an integral of 0 (and its D term from a
    previous D term of 0).  A step whose current temperature is not
    below [maxttemp[e]] also sets the duty to 0; but every step with a
    non-zero target clears [pid_reset[e]], at or above [maxttemp[e]]
    too. *)
Theorem pid_off_state
    (cfg : config) (e : nat) (current : float) (target : Z)
    (chs : list channel) (ch : channel) :
  chs !! e = Some ch ->
  let ch' := pid_heater_channel cfg current target ch in
  pid_heater cfg e current target chs !! e = Some ch' /\
  (target = 0 ->
     soft_pwm ch' = 0 /\ pid_reset ch' = true /\
     forall current2 target2, target2 <> 0 ->
       let ch'' := pid_heater_channel cfg current2 target2 ch' in
       iTerm ch'' =
         mul (Ki cfg) (constrain (add zero (error_of current2 target2))
                                 (iState_sum_min ch) (iState_sum_max ch)) /\
       dTerm ch'' =
         add (mul (mul (Kd cfg) (sub current2 current)) (sub (of_Z 1) (PID_K1 cfg)))
             (mul (PID_K1 cfg) zero)) /\
  (lt current (of_Z (maxttemp ch)) = false -> soft_pwm ch' = 0) /\
  (target <> 0 -> pid_reset ch' = false).
Proof.
  intros Hch ch'. split; [| split; [| split]].
  - unfold pid_heater. rewrite list_lookup_alter, Hch.
    destruct (decide (e = e)); [reflexivity | congruence].
  - intros ->. split; [| split].
    + subst ch'. rewrite step_duty. simpl. now rewrite andb_false_r.
    + reflexivity.
    + intros current2 target2 Ht2 ch''.
      pose proof (step_fields cfg current2 target2 ch') as (_ & HiT & _ & HdT & _).
      fold ch'' in HiT, HdT. rewrite HiT, HdT. unfold regulate.
      destruct (Z.eqb_spec target2 0); [lia |]. split; reflexivity.
  - intros Hmax. subst ch'. rewrite step_duty, Hmax. reflexivity.
  - intros Ht.
    pose proof (step_fields cfg current target ch) as (_ & _ & Hr & _).
    fold ch' in Hr. rewrite Hr. unfold regulate.
    destruct (Z.eqb_spec target 0); [lia |]. reflexivity.
Qed.

Lemma pid_off_state_witness :
  let ch := at_rest plain_gains 255 (of_Z 150) 305 in
  let ch' := pid_heater_channel plain_gains (of_Z 150) 0 ch in
  pid_heater plain_gains 0 (of_Z 150) 0 [ch] = [ch'] /\
  soft_pwm ch' = 0 /\ pid_reset ch' = true.
Proof.
  intros ch ch'.
  destruct (pid_off_state plain_gains 0 (of_Z 150) 0 [ch] ch eq_refl)
    as (_ & Hoff & _).
  destruct (Hoff eq_refl) as (Hduty & Hreset & _).
  split; [reflexivity | split; [exact Hduty | exact Hreset]].
Defined.

(** C7 as stated fails above [maxttemp]: with a target of 200
    degrees and a hotend at 310 degrees, over its limit of 305, the
    step sets the duty to 0 but leaves [pid_reset] clear -- even when
    it was set before -- and goes on integrating. *)
Lemma pid_reset_above_maxtemp_counterexample :
  let ch := at_rest plain_gains 255 (of_Z 150) 305 in
  let ch' := pid_heater_channel plain_gains (of_Z 310) 200 ch in
  let ch'' := pid_heater_channel plain_gains (of_Z 310) 200
                (pid_heater_channel plain_gains (of_Z 150) 0 ch) in
  ge (of_Z 310) (of_Z (maxttemp ch)) = true /\
  soft_pwm ch' = 0 /\ pid_reset ch' = false /\ iState_sum ch' = of_Z 110 /\
  soft_pwm ch'' = 0 /\ pid_reset ch'' = false.
Proof. vm_compute. repeat split. Qed.

End PidFacts.

(** ** Targets reach the ISR only while no error is latched *)

Module ManagerFacts.
Import F32 Manager.

Lemma copy_array_length {A} n (src dst : list A) :
  length (copy_array n src dst) = length dst.
Proof.
  unfold copy_array. induction n as [|n IH]; [reflexivity |].
  rewrite seq_S, fold_left_app. simpl.
  destruct (src !! n); [rewrite length_insert |]; exact IH.
Qed.

Lemma copy_array_lookup {A} n (src dst : list A) e :
  copy_array n src dst !! e =
  if decide (e < n)%nat
  then match src !! e with
       | Some x => match dst !! e with Some _ => Some x | None => None end
       | None => dst !! e
       end
  else dst !! e.
Proof.
  unfold copy_array. induction n as [|n IH].
  - simpl. destruct (decide (e < 0)%nat); [lia | reflexivity].
  - rewrite seq_S, fold_left_app. simpl.
    pose proof (copy_array_length n src dst) as Hlen. unfold copy_array in Hlen.
    destruct (decide (e = n)) as [-> | Hne].
    + destruct (decide (n < S n)%nat); [| lia].
      destruct (decide (n < n)%nat); [lia |].
      destruct (src !! n) as [x|] eqn:Hsrc; [| exact IH].
      destruct (dst !! n) as [y|] eqn:Hdst; simpl.
      * apply list_lookup_insert_eq. rewrite Hlen.
        now apply lookup_lt_Some in Hdst.
      * apply lookup_ge_None. rewrite length_insert, Hlen.
        now apply lookup_ge_None in Hdst.
    + assert (Hstep : forall (l : list A),
                (match src !! n with Some x => <[n:=x]> l | None => l end) !! e = l !! e).
      { intros l. destruct (src !! n); [| reflexivity].
        now apply list_lookup_insert_ne. }
      rewrite Hstep, IH.
      destruct (decide (e < n)%nat), (decide (e < S n)%nat); try lia; reflexivity.
Qed.

(** Copying all of an array onto one of the same size gives the source. *)
Lemma copy_array_full {A} n (src dst : list A) :
  length src = n -> length dst = n -> copy_array n src dst = src.
Proof.
  intros Hs Hd. apply list_eq. intros e. rewrite copy_array_lookup.
  destruct (decide (e < n)%nat) as [Hlt | Hge].
  - destruct (src !! e) as [x|] eqn:Hsrc.
    + destruct (lookup_lt_is_Some_2 dst e ltac:(lia)) as [y ->]. reflexivity.
    + apply lookup_ge_None in Hsrc. lia.
  - rewrite (proj2 (lookup_ge_None dst e)) by lia.
    symmetry. apply lookup_ge_None. lia.
Qed.

Lemma error_word_nonzero (s : ErrorState.temp_error_state_t) :
  ErrorState.well_formed s -> ErrorState.error s = true -> ErrorState.v s <> 0.
Proof.
  intros (Hs & Hi & Ht) He. unfold ErrorState.v. rewrite He.
  destruct (ErrorState.assert s); simpl; lia.
Qed.

(** C8.  [updateTemperatures] always refreshes the foreground copies
    of the current temperatures from the ISR's values, and never
    changes the foreground targets or the error word.  It copies the
    foreground targets into [target_temperature_isr] and
    [target_temperature_bed_isr] when the whole error word
    [temp_error_state.v] is zero, and leaves both as they were when it
    is not -- in particular whenever an error is latched. *)
Theorem targets_frozen_on_error (extruders : nat) (t : temperatures) :
  length (current_temperature t) = extruders ->
  length (current_temperature_isr t) = extruders ->
  length (target_temperature t) = extruders ->
  length (target_temperature_isr t) = extruders ->
  ErrorState.well_formed (temp_error_state t) ->
  let t' := updateTemperatures extruders t in
  (current_temperature t' = current_temperature_isr t /\
   current_temperature_bed t' = current_temperature_bed_isr t /\
   current_temperature_pinda t' = current_temperature_pinda_isr t /\
   current_temperature_ambient t' = current_temperature_ambient_isr t) /\
  (ErrorState.v (temp_error_state t) = 0 ->
     target_temperature_isr t' = target_temperature t /\
     target_temperature_bed_isr t' = target_temperature_bed t) /\
  (ErrorState.v (temp_error_state t) <> 0 ->
     target_temperature_isr t' = target_temperature_isr t /\
     target_temperature_bed_isr t' = target_temperature_bed_isr t) /\
  (ErrorState.error (temp_error_state t) = true ->
     target_temperature_isr t' = target_temperature_isr t /\
     target_temperature_bed_isr t' = target_temperature_bed_isr t) /\
  target_temperature t' = target_temperature t /\
  target_temperature_bed t' = target_temperature_bed t /\
  temp_error_state t' = temp_error_state t /\
  temp_meas_ready t' = false.
Proof.
  intros Hc Hci Ht Hti Hwf t'. subst t'. unfold updateTemperatures.
  assert (Hfrozen : ErrorState.v (temp_error_state t) <> 0 ->
    target_temperature_isr
      (if ErrorState.v (temp_error_state (setCurrentTemperaturesFromIsr extruders t)) =? 0
       then setIsrTargetTemperatures extruders (setCurrentTemperaturesFromIsr extruders t)
       else setCurrentTemperaturesFromIsr extruders t) = target_temperature_isr t /\
    target_temperature_bed_isr
      (if ErrorState.v (temp_error_state (setCurrentTemperaturesFromIsr extruders t)) =? 0
       then setIsrTargetTemperatures extruders (setCurrentTemperaturesFromIsr extruders t)
       else setCurrentTemperaturesFromIsr extruders t) = target_temperature_bed_isr t).
  { intros Hv. cbn [setCurrentTemperaturesFromIsr temp_error_state].
    destruct (Z.eqb_spec (ErrorState.v (temp_error_state t)) 0); [lia |].
    split; reflexivity. }
  cbn [current_temperature current_temperature_bed current_temperature_pinda
       current_temperature_ambient target_temperature target_temperature_bed
       target_temperature_isr target_temperature_bed_isr temp_error_state temp_meas_ready].
  repeat split; try exact (proj1 (Hfrozen ltac:(assumption)));
    try exact (proj2 (Hfrozen ltac:(assumption)));
    try (apply Hfrozen; now apply error_word_nonzero);
    cbn [setCurrentTemperaturesFromIsr temp_error_state];
    destruct (Z.eqb_spec (ErrorState.v (temp_error_state t)) 0); simpl;
    try reflexivity; try lia; try (now apply copy_array_full).
Qed.

(** A printer heating up: with a clear error word the targets reach
    the ISR; with a latched MAXTEMP they stay at 0. *)
Lemma targets_frozen_on_error_witness :
  target_temperature_isr (updateTemperatures 1 (heating_up ErrorState.cleared)) = [215] /\
  target_temperature_isr
    (updateTemperatures 1
       (heating_up {| ErrorState.error := true; ErrorState.assert := false;
                      ErrorState.source := 0; ErrorState.index := 0;
                      ErrorState.type := 0 |})) = [0].
Proof.
  assert (Hwf : forall b, ErrorState.well_formed
            {| ErrorState.error := b; ErrorState.assert := false;
               ErrorState.source := 0; ErrorState.index := 0; ErrorState.type := 0 |}).
  { intros b. unfold ErrorState.well_formed. simpl. lia. }
  split.
  - pose proof (targets_frozen_on_error 1 (heating_up ErrorState.cleared)
                  eq_refl eq_refl eq_refl eq_refl (Hwf false)) as (_ & Hcopy & _).
    apply Hcopy. reflexivity.
  - pose proof (targets_frozen_on_error 1
                  (heating_up {| ErrorState.error := true; ErrorState.assert := false;
                                 ErrorState.source := 0; ErrorState.index := 0;
                                 ErrorState.type := 0 |})
                  eq_refl eq_refl eq_refl eq_refl (Hwf true)) as (_ & _ & _ & Hkeep & _).
    apply Hkeep. reflexivity.
Defined.

End ManagerFacts.

(** ** Validity of the temperature model's parameters *)

Module TempModelFacts.
Import F32 TempModel.

(** [x != NAN] holds for every [x], a NaN included. *)
Lemma ne_nan x : ne x nan = true.
Proof. destruct x; reflexivity. Qed.

(** [x >= 0] holds for no NaN. *)
Lemma ge_zero_not_nan x : ge x (of_Z 0) = true -> is_nan x = false.
Proof. intros H. now apply F32Facts.le_not_nan in H. Qed.

Lemma calibrated_iff d :
  calibrated d = true <->
  ge (P d) (of_Z 0) = true /\ ge (C d) (of_Z 0) = true /\ resistances_ok (R d) = true.
Proof.
  unfold calibrated. rewrite !ne_nan. cbn [negb].
  destruct (ge (P d) (of_Z 0)), (ge (C d) (of_Z 0)), (resistances_ok (R d));
    cbn [negb]; intuition congruence.
Qed.

Lemma default_data_uncalibrated dflt u : calibrated (default_data dflt u) = false.
Proof.
  unfold calibrated, default_data. cbn [P C].
  destruct (ge (TEMP_MODEL_P dflt) (of_Z 0)); reflexivity.
Qed.

(** C9, as the code has it.  [calibrated()] returns true whenever
    [P >= 0], [C >= 0], every [R[i] >= 0] and [Ta_corr], [warn] and
    [err] are not NaN, and returns false whenever [P] or [C] or some
    [R[i]] is negative or NaN.  When the stored settings fail the
    check, loading resets every parameter to its default ([C] and
    [R] to NaN), turns [warn_beep] on and leaves the model disabled;
    when they pass, loading keeps them and the stored enable flag. *)
Theorem calibrated_validity (dflt : defaults) (ee : eeprom) (m : model) (d : model_data) :
  (ge (P d) (of_Z 0) = true -> ge (C d) (of_Z 0) = true ->
   resistances_ok (R d) = true ->
   is_nan (Ta_corr d) = false -> is_nan (warn d) = false -> is_nan (err d) = false ->
   calibrated d = true) /\
  (calibrated d = true ->
   ge (P d) (of_Z 0) = true /\ ge (C d) (of_Z 0) = true /\ resistances_ok (R d) = true /\
   is_nan (P d) = false /\ is_nan (C d) = false) /\
  (calibrated (stored_data ee (uninitialized (data m))) = false ->
   temp_model_load_settings dflt ee m =
     {| data := default_data dflt true; enabled := false; warn_beep := true |}) /\
  (calibrated (stored_data ee (uninitialized (data m))) = true ->
   temp_model_load_settings dflt ee m =
     {| data := stored_data ee true; enabled := negb (ee_ENABLE ee =? 0);
        warn_beep := warn_beep m |}).
Proof.
  split; [| split; [| split]].
  - intros HP HC HR _ _ _. apply calibrated_iff. auto.
  - intros H. apply calibrated_iff in H as (HP & HC & HR).
    repeat split; trivial; now apply ge_zero_not_nan.
  - intros H. unfold temp_model_load_settings. cbn [data]. rewrite H.
    cbn [negb]. unfold setup, temp_model_reset_settings. cbn [data enabled warn_beep].
    rewrite default_data_uncalibrated. reflexivity.
  - intros H. unfold temp_model_load_settings. cbn [data]. rewrite H.
    cbn [negb]. unfold setup. cbn [data enabled warn_beep]. rewrite H. reflexivity.
Qed.

Lemma calibrated_validity_witness :
  calibrated plausible = true /\
  temp_model_load_settings example_defaults erased
    {| data := plausible; enabled := true; warn_beep := false |} =
    {| data := default_data example_defaults true; enabled := false; warn_beep := true |}.
Proof.
  destruct (calibrated_validity example_defaults erased
              {| data := plausible; enabled := true; warn_beep := false |} plausible)
    as (Hok & _ & Hreset & _).
  split; [apply Hok; reflexivity | apply Hreset; reflexivity].
Defined.

(** C9 as stated fails: with a heater power of exactly 0, which is
    not [> 0], [calibrated()] returns true. *)
Lemma calibrated_zero_power_counterexample :
  calibrated powerless = true /\
  gt (P powerless) (of_Z 0) = false /\
  valid_as_specified powerless = false.
Proof. vm_compute. repeat split. Qed.

(** The tests written [x != NAN] never fail: a NaN [Ta_corr] passes. *)
Example calibrated_accepts_nan_Ta_corr :
  calibrated drifting = true /\ is_nan (Ta_corr drifting) = true.
Proof. vm_compute. split; reflexivity. Qed.

End TempModelFacts.

(** ** The autotuner: when gains are reported, when the tuning fails *)

Module AutotuneFacts.
Import F32 Autotune.

Section Tuner.

Variable cfg : config.
Variable temp : float.
Variable extruder : Z.
Variable ncycles : Z.

Local Abbreviation switch_on := (switch_on cfg temp extruder).
Local Abbreviation switches_on := (switches_on temp).
Local Abbreviation measure := (measure cfg temp extruder).
Local Abbreviation iteration := (iteration cfg temp extruder ncycles).
Local Abbreviation loop := (loop cfg temp extruder ncycles).
Local Abbreviation start := (start cfg extruder).
Local Abbreviation PID_autotune := (PID_autotune cfg temp extruder ncycles).
Local Abbreviation too_high := (too_high temp).
Local Abbreviation not_heating := (not_heating extruder).


Lemma report_keeps_switch_times clock st :
  t1 (report extruder clock st) = t1 st /\ t2 (report extruder clock st) = t2 st /\
  pid_cycle (report extruder clock st) = pid_cycle st.
Proof. repeat split. Qed.

(** How one turn of the loop returns. *)
Lemma iteration_outcome (s : sample) (st : state) :
  let m := measure s st in
  snd (iteration s st) =
    if too_high m then Some TooHigh
    else if not_heating (now s) m then Some NotHeating
    else if timed_out (now s) m then Some TimedOut
    else if pid_cycle m >? ncycles then Some Finished
    else None.
Proof.
  intros m. subst m. unfold Autotune.iteration.
  destruct (too_high (measure s st)); [reflexivity |].
  destruct (not_heating (now s) (measure s st)); [reflexivity |].
  assert (Ht : timed_out (now s)
                 (if report_due (now s) (measure s st)
                  then report extruder (now s) (measure s st) else measure s st)
               = timed_out (now s) (measure s st)).
  { destruct (report_due (now s) (measure s st)); reflexivity. }
  assert (Hc : pid_cycle
                 (if report_due (now s) (measure s st)
                  then report extruder (now s) (measure s st) else measure s st)
               = pid_cycle (measure s st)).
  { destruct (report_due (now s) (measure s st)); reflexivity. }
  rewrite Ht, Hc.
  destruct (timed_out (now s) (measure s st)); [reflexivity |].
  destruct (pid_cycle (measure s st) >? ncycles); reflexivity.
Qed.

Lemma iteration_fails (s : sample) (st : state) :
  (exists o, snd (iteration s st) = Some o /\ failure o = true) <->
  too_high (measure s st) = true \/
  not_heating (now s) (measure s st) = true \/
  timed_out (now s) (measure s st) = true.
Proof.
  rewrite iteration_outcome.
  destruct (too_high (measure s st)); [split; eauto |].
  destruct (not_heating (now s) (measure s st)); [split; eauto |].
  destruct (timed_out (now s) (measure s st)); [split; eauto |].
  split.
  - intros (o & Ho & Hf). destruct (pid_cycle (measure s st) >? ncycles);
      [injection Ho as <- |]; discriminate.
  - intros [H | [H | H]]; discriminate.
Qed.

(** The loop returns in the first turn that returns. *)
Lemma loop_returns (samples : list sample) : forall st0 st' o,
  loop samples st0 = (st', Some o) <->
  exists pre s post st,
    samples = pre ++ s :: post /\ loop pre st0 = (st, None) /\
    iteration s st = (st', Some o).
Proof.
  induction samples as [|s0 rest IH]; intros st0 st' o; simpl.
  - split; [discriminate |]. intros (pre & s & post & st & Heq & _).
    destruct pre; discriminate.
  - destruct (iteration s0 st0) as [st1 [o1|]] eqn:Hit.
    + split.
      * intros [= <- <-]. exists [], s0, rest, st0. auto.
      * intros (pre & s & post & st & Heq & Hpre & Hs).
        destruct pre as [|p pre]; simpl in *.
        -- injection Heq as <- <-. injection Hpre as <-. congruence.
        -- injection Heq as <- ->. rewrite Hit in Hpre. discriminate.
    + rewrite IH. split.
      * intros (pre & s & post & st & -> & Hpre & Hs).
        exists (s0 :: pre), s, post, st. simpl. rewrite Hit. auto.
      * intros (pre & s & post & st & Heq & Hpre & Hs).
        destruct pre as [|p pre]; simpl in *.
        -- injection Heq as <- <-. injection Hpre as <-. congruence.
        -- injection Heq as <- ->. rewrite Hit in Hpre.
           exists pre, s, post, st. auto.
Qed.

Lemma iteration_final_line (s : sample) (st st' : state) (o : outcome) :
  iteration s st = (st', Some o) ->
  exists front, serial st' = front ++ [final_line extruder o].
Proof.
  unfold Autotune.iteration.
  destruct (too_high (measure s st)); [intros [= <- <-]; eexists; reflexivity |].
  destruct (not_heating (now s) (measure s st)); [intros [= <- <-]; eexists; reflexivity |].
  destruct (timed_out (now s) _); [intros [= <- <-]; eexists; reflexivity |].
  destruct (pid_cycle _ >? ncycles); [intros [= <- <-]; eexists; reflexivity |].
  discriminate.
Qed.

(** C6, as the code has it.  [PID_autotune] returns with a reported
    failure exactly when the extruder number is invalid, or when in
    some turn of its loop, after the measurement block, the last
    measured input exceeds [temp + 20]; or the periodic report is due
    with [safety_check_cycles] at its count (10 for a hotend, 45 for
    the bed) and [|input - temp_ambient| < 5]; or the time since the
    last switch to cooling plus the time since the last switch to
    heating exceeds 20 minutes.  The last line it writes names the way
    it returned. *)
Theorem autotune_fails_exactly_when
    (t0 : Z) (gains : float * float * float) (samples : list sample) :
  ((exists lines o, PID_autotune t0 gains samples = (lines, Some o) /\ failure o = true) <->
   (bad_extruder cfg extruder = true \/
    exists st0 pre s post st,
      start t0 gains = inl st0 /\
      samples = pre ++ s :: post /\
      loop pre st0 = (st, None) /\
      (too_high (measure s st) = true \/
       not_heating (now s) (measure s st) = true \/
       timed_out (now s) (measure s st) = true))) /\
  (forall lines o, PID_autotune t0 gains samples = (lines, Some o) ->
     exists front, lines = front ++ [final_line extruder o]).
Proof.
  unfold Autotune.PID_autotune, Autotune.start.
  destruct (bad_extruder cfg extruder) eqn:Hbad.
  - split.
    + split; [auto |]. intros _. exists [MsgBadExtruder], BadExtruder. auto.
    + intros lines o [= <- <-]. exists []. reflexivity.
  - match goal with |- context [loop samples ?x] => set (st0 := x) end.
    split; [split |].
    + intros (lines & o & Hrun & Hf). right.
      destruct (loop samples st0) as [st' o'] eqn:Hloop.
      injection Hrun as <- ->.
      apply loop_returns in Hloop as (pre & s & post & st & Heq & Hpre & Hs).
      exists st0, pre, s, post, st. repeat split; trivial.
      apply iteration_fails. exists o. now rewrite Hs.
    + intros [Hb | (st0' & pre & s & post & st & [= <-] & Heq & Hpre & Hcond)];
        [discriminate |].
      apply iteration_fails in Hcond as (o & Ho & Hf).
      destruct (iteration s st) as [st' o'] eqn:Hit. simpl in Ho. subst o'.
      assert (Hloop : loop samples st0 = (st', Some o)).
      { apply loop_returns. exists pre, s, post, st. auto. }
      rewrite Hloop. eauto.
    + intros lines o Hrun.
      destruct (loop samples st0) as [st' o'] eqn:Hloop.
      injection Hrun as <- ->.
      apply loop_returns in Hloop as (pre & s & post & st & Heq & Hpre & Hs).
      now apply iteration_final_line in Hs.
Qed.

End Tuner.


Lemma autotune_fails_exactly_when_witness :
  exists lines,
    PID_autotune example_config (of_Z 210) 0 3 0 no_gains weak_heater
      = (lines, Some TimedOut).
Proof.
  destruct (proj2 (proj1 (autotune_fails_exactly_when example_config (of_Z 210) 0 3
                            0 no_gains weak_heater))) as (lines & o & Hrun & Hf).
  - right. eexists _, (removelast weak_heater), _, [], _.
    split; [reflexivity |]. split; [reflexivity |]. split; [vm_compute; reflexivity |].
    right. right. vm_compute. reflexivity.
  - exists lines. rewrite Hrun. f_equal. f_equal.
    assert (Ho : snd (PID_autotune example_config (of_Z 210) 0 3 0 no_gains weak_heater)
                 = Some TimedOut) by (vm_compute; reflexivity).
    rewrite Hrun in Ho. injection Ho as ->. reflexivity.
Defined.

(** On the oscillating heater the first report of gains comes with the
    fourth switch to heating, at 61 seconds: after 49 seconds three
    relay cycles have been counted and two [bias]/[d] lines written,
    and nothing has been reported or stored yet. *)
Example autotune_first_report_at_fourth_switch :
  exists st0 st,
    start example_config 0 0 no_gains = inl st0 /\
    loop example_config (of_Z 210) 0 3 (oscillating 49) st0 = (st, None) /\
    pid_cycle st = 3 /\
    length (List.filter is_cycle_line (serial st)) = 2%nat /\
    List.filter reports_gains (serial st) = [] /\
    (_Kp st, _Ki st, _Kd st) = no_gains /\
    length (List.filter reports_gains
              (fst (PID_autotune example_config (of_Z 210) 0 3 0 no_gains (oscillating 61))))
      = 2%nat.
Proof.
  eexists _, _. split; [reflexivity |]. split; [vm_compute; reflexivity |].
  vm_compute. repeat split.
Qed.


(** C6 as stated fails: the weak heater never reaches 210 degrees,
    so the relay never switches, and the tuning is given up as timed
    out 600001 ms after its start -- ten minutes, not twenty -- although
    no reading exceeds [temp + 20] and the warm-up check has passed
    (25 degrees at the first report, 95 at the eleventh). *)
Lemma autotune_abort_counterexample :
  (exists lines,
     PID_autotune example_config (of_Z 210) 0 3 0 no_gains weak_heater
       = (lines, Some TimedOut) /\
     List.last lines MsgStart = MsgTimeout /\
     List.filter (fun m => match m with MsgRunawayStop _ | MsgTooHigh => true | _ => false end)
                 lines = []) /\
  forallb (fun s => (now s - 0 <=? 20 * 60 * 1000) &&
                    negb (gt (reading s) (add (of_Z 210) (of_Z 20))))
          weak_heater = true /\
  option_map reading (nth_error weak_heater 0) = Some (of_Z 25) /\
  option_map reading (nth_error weak_heater 10) = Some (of_Z 95).
Proof.
  split; [eexists; split; [vm_compute; reflexivity |] |]; vm_compute; repeat split.
Qed.

(** Scenario S5: three cycles on the oscillating heater end with three
    [bias]/[d] lines, one report of the gains, and "finished". *)
Example autotune_three_cycles :
  let lines := fst (PID_autotune example_config (of_Z 210) 0 3 0 no_gains (oscillating 61)) in
  snd (PID_autotune example_config (of_Z 210) 0 3 0 no_gains (oscillating 61)) = Some Finished /\
  length (List.filter is_cycle_line lines) = 3%nat /\
  List.last lines MsgStart = MsgFinished.
Proof. vm_compute. repeat split. Qed.

End AutotuneFacts.

(** ** Binary32: every result fits the mantissa *)

Module MantissaFacts.
Import Rounding RoundingFacts Mantissa.

Lemma Zdigits2_le m k : 0 <= k -> 0 <= m < 2 ^ k -> Zdigits2 m <= k.
Proof.
  intros Hk [H0 Hlt]. destruct (Z.eq_dec m 0) as [-> | Hne]; [simpl; lia |].
  pose proof (Zdigits2_bounds m ltac:(lia)) as [Hb _].
  destruct (Z.le_gt_cases (Zdigits2 m) k) as [|Hgt]; trivial.
  assert (2 ^ k <= 2 ^ (Zdigits2 m - 1)) by (apply Z.pow_le_mono_r; lia). lia.
Qed.

(** A shift by [n] places divides the mantissa by [2 ^ n]. *)
Lemma shr_m_div m l e n :
  0 <= m -> 0 <= n ->
  shr_m (fst (shr (shr_record_of_loc m l) e n)) = m / 2 ^ n.
Proof.
  intros Hm Hn.
  assert (Hm0 : shr_m (shr_record_of_loc m l) = m) by (destruct l as [|[]]; reflexivity).
  assert (Hloc : exists V, located (shr_record_of_loc m l) 4 V).
  { destruct l as [|[]]; unfold located; cbn [shr_record_of_loc shr_m shr_r shr_s].
    - exists (m * 4). reflexivity.
    - exists (4 * m + 2). lia.
    - exists (4 * m + 1). lia.
    - exists (4 * m + 3). lia. }
  destruct Hloc as [V Hloc].
  destruct (shr_located (shr_record_of_loc m l) e n 4 V ltac:(rewrite Hm0; lia) ltac:(lia)
              Hloc Hn) as (_ & H & _).
  now rewrite H, Hm0.
Qed.

Lemma round_nearest_even_nonneg m l : 0 <= m -> 0 <= round_nearest_even m l.
Proof.
  intros Hm. destruct l as [|[]]; cbn [round_nearest_even]; try lia.
  destruct (Z.even m); lia.
Qed.

(** The rounding step of [SpecFloat] never delivers more than 24 bits,
    whatever it is given. *)
Lemma binary_round_aux_fits sx mx ex lx :
  0 <= mx -> fits (binary_round_aux 24 128 sx mx ex lx).
Proof.
  intros Hmx. unfold binary_round_aux.
  destruct (shr_fexp 24 128 mx ex lx) as [mrs' e'] eqn:H1.
  assert (Hm1 : 0 <= shr_m mrs').
  { unfold shr_fexp in H1.
    destruct (Z.le_gt_cases 0 (fexp 24 128 (Zdigits2 mx + ex) - ex)) as [Hn | Hn].
    - pose proof (shr_m_div mx lx ex _ Hmx Hn) as H. rewrite H1 in H. cbn [fst] in H.
      rewrite H. apply Z.div_pos; [lia |]. apply Z.pow_pos_nonneg; lia.
    - unfold shr in H1. destruct (fexp 24 128 (Zdigits2 mx + ex) - ex); try lia.
      injection H1 as <- _. destruct lx as [|[]]; exact Hmx. }
  set (m' := round_nearest_even (shr_m mrs') (loc_of_shr_record mrs')).
  assert (Hm' : 0 <= m') by now apply round_nearest_even_nonneg.
  destruct (shr_fexp 24 128 m' e' loc_Exact) as [mrs'' e''] eqn:H2.
  destruct (shr_m mrs'') as [|m|m] eqn:Hm; try exact I.
  destruct (e'' <=? 128 - 24); [| exact I]. cbn [fits].
  change (Z.pos (digits2_pos m)) with (Zdigits2 (Z.pos m)). rewrite <- Hm.
  unfold shr_fexp in H2.
  set (d := Zdigits2 m') in *.
  assert (Hfexp : d + e' - 24 <= fexp 24 128 (d + e')) by (unfold fexp; lia).
  assert (Hd : 0 <= d).
  { unfold d. destruct m'; simpl; lia. }
  assert (Hb : m' < 2 ^ d).
  { destruct (Z.eq_dec m' 0) as [E | E]; [rewrite E; apply Z.pow_pos_nonneg; lia |].
    apply Zdigits2_bounds. lia. }
  destruct (Z.le_gt_cases (fexp 24 128 (d + e') - e') 0) as [Hn | Hn].
  - unfold shr in H2. destruct (fexp 24 128 (d + e') - e') eqn:E; try lia;
      injection H2 as <- _; cbn [shr_record_of_loc shr_m]; fold d; lia.
  - pose proof (shr_m_div m' loc_Exact e' (fexp 24 128 (d + e') - e') Hm' ltac:(lia)) as H.
    rewrite H2 in H.
    cbn [fst] in H. rewrite H.
    set (n := fexp 24 128 (d + e') - e') in *.
    destruct (Z.le_gt_cases n d) as [Hnd | Hnd].
    + apply Z.le_trans with (d - n); [| unfold n; lia].
      apply Zdigits2_le; try lia. split.
      * apply Z.div_pos; [lia |]. apply Z.pow_pos_nonneg; lia.
      * apply Z.div_lt_upper_bound; [apply Z.pow_pos_nonneg; lia |].
        rewrite <- Z.pow_add_r by lia. now replace (n + (d - n)) with d by lia.
    + assert (2 ^ d <= 2 ^ n) by (apply Z.pow_le_mono_r; lia).
      rewrite Z.div_small by lia. simpl. lia.
Qed.

Lemma binary_normalize_fits m e sz : fits (binary_normalize 24 128 m e sz).
Proof.
  destruct m as [|p|p]; cbn [binary_normalize]; [exact I | |];
    unfold binary_round;
    destruct (shl_align p e (fexp 24 128 (Z.pos (digits2_pos p) + e))) as [mz ez];
    apply binary_round_aux_fits; lia.
Qed.

Lemma of_Z_fits n : fits (F32.of_Z n).
Proof. apply binary_normalize_fits. Qed.

Lemma mul_fits x y : fits (F32.mul x y).
Proof.
  destruct x as [sx | sx | | sx mx ex], y as [sy | sy | | sy my ey]; try exact I.
  apply binary_round_aux_fits. lia.
Qed.

Lemma div_fits x y : fits (F32.div x y).
Proof.
  destruct x as [sx | sx | | sx mx ex], y as [sy | sy | | sy my ey]; try exact I.
  unfold F32.div. cbn [SFdiv]. unfold SFdiv_core_binary.
  set (m' := match _ with Z0 => _ | Zpos _ => _ | Zneg _ => _ end).
  assert (Hm' : 0 <= m').
  { subst m'. destruct (_ - _ - _); try lia. rewrite Z.shiftl_mul_pow2 by lia.
    apply Z.mul_nonneg_nonneg; [lia | apply Z.pow_nonneg; lia]. }
  pose proof (Z.div_pos m' (Z.pos my) Hm' ltac:(lia)) as Hq. unfold Z.div in Hq.
  destruct (Z.div_eucl m' (Z.pos my)) as [q r].
  now apply binary_round_aux_fits.
Qed.

Lemma add_fits x y : fits x -> fits y -> fits (F32.add x y).
Proof.
  destruct x as [sx | sx | | sx mx ex], y as [sy | sy | | sy my ey];
    intros Hx Hy; try exact I; try assumption.
  - destruct sx, sy; exact I.
  - destruct sx, sy; exact I.
  - apply binary_normalize_fits.
Qed.

Lemma sub_fits x y : fits x -> fits y -> fits (F32.sub x y).
Proof.
  destruct x as [sx | sx | | sx mx ex], y as [sy | sy | | sy my ey];
    intros Hx Hy; try exact I; try assumption.
  - destruct sx, sy; exact I.
  - destruct sx, sy; exact I.
  - apply binary_normalize_fits.
Qed.

(** The conversion of a small natural number back to an integer. *)
Lemma to_Z_of_Z n : 0 <= n < 2 ^ 24 -> F32.to_Z (F32.of_Z n) = n.
Proof.
  intros Hn. destruct (Z.eq_dec n 0) as [-> | Hne]; [reflexivity |].
  destruct (of_Z_cases n ltac:(lia) Hne) as (m & e & -> & Hd & He & Hv).
  destruct (Z.ltb_spec n 0) as [? | _]; [lia |]. cbn [F32.to_Z].
  rewrite Z.abs_eq in Hv by lia.
  assert (HKv : K = 100) by reflexivity.
  assert (Hp : 0 < 2 ^ (- e)) by (apply Z.pow_pos_nonneg; lia).
  assert (Hm : Zpos m = n * 2 ^ (- e)).
  { assert (E : 2 ^ (e + K) * 2 ^ (- e) = 2 ^ K).
    { rewrite <- Z.pow_add_r by lia. f_equal. lia. }
    assert (Hq : 0 < 2 ^ (e + K)) by (apply Z.pow_pos_nonneg; lia).
    apply (Z.mul_reg_r _ _ (2 ^ (e + K))); [lia |]. rewrite Hv, <- E. ring. }
  destruct (Z.eq_dec e 0) as [-> | Hne0].
  - rewrite Z.shiftl_0_r. change (2 ^ (- 0)) with 1 in Hm. lia.
  - rewrite Z.shiftl_div_pow2 by lia. rewrite Hm. apply Z.div_mul. lia.
Qed.

(** A number that fits the mantissa and that the comparisons of C
    place between [0] and [M] converts to an integer from [0] to [M]. *)
Lemma to_Z_between x M :
  0 <= M < 2 ^ 24 -> fits x ->
  F32.is_nan x = false ->
  F32.lt x (F32.of_Z 0) = false -> F32.gt x (F32.of_Z M) = false ->
  0 <= F32.to_Z x <= M.
Proof.
  intros HM Hfit Hnan Hlo Hhi. change (F32.of_Z 0) with (S754_zero false) in Hlo.
  destruct x as [s | s | | s m e]; try discriminate.
  - cbn. lia.
  - destruct s; [discriminate Hlo |].
    destruct (Z.eq_dec M 0) as [-> | Hne]; [discriminate Hhi |].
    destruct (of_Z_cases M ltac:(lia) Hne) as (mM & eM & HeqM & _).
    rewrite HeqM in Hhi. discriminate Hhi.
  - destruct s; [discriminate Hlo |]. cbn [F32.to_Z fits] in *.
    destruct (Z.eq_dec M 0) as [-> | Hne].
    { change (F32.of_Z 0) with (S754_zero false) in Hhi. discriminate Hhi. }
    destruct (of_Z_cases M ltac:(lia) Hne) as (mM & eM & HeqM & Hd & HeM & Hv).
    destruct (Z.ltb_spec M 0) as [? | _]; [lia |].
    rewrite HeqM in Hhi. unfold F32.gt, SFltb in Hhi. cbn [SFcompare] in Hhi.
    rewrite Z.abs_eq in Hv by lia.
    assert (HKv : K = 100) by reflexivity.
    pose proof (digits_24_bounds mM Hd) as HbM.
    pose proof (digits2_bounds m) as Hbm.
    assert (Hm24 : Zpos m < 2 ^ 24).
    { apply Z.lt_le_trans with (2 ^ Zpos (digits2_pos m)); [lia |].
      apply Z.pow_le_mono_r; lia. }
    assert (HmM : Zpos mM = M * 2 ^ (- eM)).
    { assert (E : 2 ^ (eM + K) * 2 ^ (- eM) = 2 ^ K).
      { rewrite <- Z.pow_add_r by lia. f_equal. lia. }
      assert (Hq : 0 < 2 ^ (eM + K)) by (apply Z.pow_pos_nonneg; lia).
      apply (Z.mul_reg_r _ _ (2 ^ (eM + K))); [lia |]. rewrite Hv, <- E. ring. }
    assert (HpM : 0 < 2 ^ (- eM)) by (apply Z.pow_pos_nonneg; lia).
    destruct (Z.compare_spec eM e) as [Heq | Hlt | Hgt]; [| discriminate Hhi |].
    + subst e.
      assert (Hle : Zpos m <= Zpos mM).
      { change (Pos.compare_cont Eq mM m) with (Zpos mM ?= Zpos m) in Hhi.
        destruct (Z.compare_spec (Zpos mM) (Zpos m)); [lia | discriminate Hhi | lia]. }
      destruct (Z.eq_dec eM 0) as [E0 | Hne0].
      * rewrite E0 in *. rewrite Z.shiftl_0_r. change (2 ^ (- 0)) with 1 in HmM. lia.
      * rewrite Z.shiftl_div_pow2 by lia. split.
        -- apply Z.div_pos; lia.
        -- apply Z.div_le_upper_bound; lia.
    + assert (He : e < 0) by lia.
      rewrite Z.shiftl_div_pow2 by lia.
      assert (Hp : 0 < 2 ^ (- e)) by (apply Z.pow_pos_nonneg; lia).
      split; [apply Z.div_pos; lia |].
      apply Z.div_le_upper_bound; [lia |].
      (* m < 2^24 <= 2^(-e) * 2^(23 + eM) <= 2^(-e) * M *)
      assert (H1 : 2 ^ 24 <= 2 ^ (- e) * 2 ^ (23 + eM)).
      { rewrite <- Z.pow_add_r by lia. apply Z.pow_le_mono_r; lia. }
      assert (H2 : 2 ^ (23 + eM) <= M).
      { assert (E : 2 ^ (23 + eM) * 2 ^ (- eM) = 2 ^ 23).
        { rewrite <- Z.pow_add_r by lia. f_equal. lia. }
        nia. }
      nia.
Qed.

End MantissaFacts.

(** ** The duty registers stay within the power limits *)

Module DutyFacts.
Import F32 Mantissa MantissaFacts.

(** [(int)pid_output >> 1] for an output from [0] to [M]. *)
Lemma duty_of_bound x M :
  0 <= M <= 255 -> 0 <= to_Z x <= M ->
  0 <= Pid.duty_of x <= Z.shiftr M 1.
Proof.
  intros HM Hx. unfold Pid.duty_of.
  rewrite MachineFacts.int16_id by lia.
  rewrite !Z.shiftr_div_pow2 by lia. change (2 ^ 1) with 2.
  assert (H1 : 0 <= to_Z x / 2) by (apply Z.div_pos; lia).
  assert (H2 : to_Z x / 2 <= M / 2) by (apply Z.div_le_mono; lia).
  assert (H3 : M / 2 < 128) by (apply Z.div_lt_upper_bound; lia).
  unfold Machine.uint8, Machine.wrap_unsigned. rewrite Z.mod_small; [lia |].
  change (2 ^ 8) with 256. lia.
Qed.

(** The output of a regulator after its limitation to [0 .. M]. *)
Lemma limited_output_bound out M :
  0 <= M <= 255 -> fits out -> is_nan out = false ->
  0 <= to_Z (if gt out (of_Z M) then of_Z M
             else if lt out (of_Z 0) then of_Z 0 else out) <= M.
Proof.
  intros HM Hfit Hnan.
  destruct (gt out (of_Z M)) eqn:Hhi.
  - rewrite to_Z_of_Z; [lia |]. change (2 ^ 24) with 16777216. lia.
  - destruct (lt out (of_Z 0)) eqn:Hlo.
    + change (to_Z (of_Z 0)) with 0. lia.
    + apply to_Z_between; trivial. change (2 ^ 24) with 16777216. lia.
Qed.

Lemma hotend_output_fits cfg current target ch :
  fits (Pid.unlimited_output cfg current target ch).
Proof.
  unfold Pid.unlimited_output, Pid.filtered_derivative.
  apply sub_fits; apply add_fits; apply mul_fits.
Qed.

Lemma bed_output_fits cfg current target st :
  fits (PidBed.unlimited_output cfg current target st).
Proof.
  unfold PidBed.unlimited_output, PidBed.filtered_derivative.
  apply sub_fits; apply add_fits; apply mul_fits.
Qed.

(** X1.  After any step of [pid_heater], whatever the gains, the state and
    the temperature: the duty register of the hotend is [0] when the
    target is [0] or the temperature is not below [maxttemp[e]] -- a
    NaN is not --, and it lies between [0] and [PID_MAX >> 1] whenever
    the regulated sum is not a NaN (the conversion of a NaN to [int] is
    undefined). *)
Theorem pid_heater_duty_bounded
    (cfg : Pid.config) (current : float) (target : Z) (ch : Pid.channel) :
  0 <= Pid.PID_MAX cfg <= 255 ->
  let ch' := Pid.pid_heater_channel cfg current target ch in
  (target = 0 \/ lt current (of_Z (Pid.maxttemp ch)) = false -> Pid.soft_pwm ch' = 0) /\
  (is_nan (Pid.unlimited_output cfg current target ch) = false ->
   0 <= Pid.soft_pwm ch' <= Z.shiftr (Pid.PID_MAX cfg) 1).
Proof.
  intros HM ch'. subst ch'. rewrite PidFacts.step_duty.
  assert (H0 : 0 <= Z.shiftr (Pid.PID_MAX cfg) 1).
  { rewrite Z.shiftr_div_pow2 by lia. apply Z.div_pos; lia. }
  split.
  - intros [-> | ->]; [now rewrite andb_false_r | reflexivity].
  - intros Hnan.
    destruct (lt current (of_Z (Pid.maxttemp ch))); [| simpl; lia].
    destruct (Z.eqb_spec target 0) as [-> | Hne]; [simpl; lia |].
    cbn [andb negb]. unfold Pid.regulate.
    destruct (Z.eqb_spec target 0); [lia |]. cbn [snd].
    apply duty_of_bound; [lia |].
    apply limited_output_bound; trivial. apply hotend_output_fits.
Qed.

Lemma pid_heater_duty_bounded_witness :
  let ch := Pid.at_rest Pid.plain_gains 255 (of_Z 25) 305 in
  Pid.soft_pwm (Pid.pid_heater_channel Pid.plain_gains nan 215 ch) = 0 /\
  0 <= Pid.soft_pwm (Pid.pid_heater_channel Pid.plain_gains (of_Z 25) 215 ch) <= 127.
Proof.
  intros ch. split.
  - apply (pid_heater_duty_bounded Pid.plain_gains nan 215 ch).
    + simpl. lia.
    + right. reflexivity.
  - apply (pid_heater_duty_bounded Pid.plain_gains (of_Z 25) 215 ch).
    + simpl. lia.
    + vm_compute. reflexivity.
Defined.

Lemma bed_step_duty cfg current target st :
  PidBed.soft_pwm_bed (PidBed.pid_bed cfg current target st) =
    (if (target =? 0) || negb (lt current (of_Z (PidBed.BED_MAXTEMP cfg))) then 0
     else Pid.duty_of (snd (PidBed.regulate cfg current target st))) /\
  PidBed.pwm0 (PidBed.pid_bed cfg current target st) =
    Z.shiftl (PidBed.soft_pwm_bed (PidBed.pid_bed cfg current target st)) 1.
Proof.
  unfold PidBed.pid_bed.
  destruct (PidBed.regulate cfg current target st) as [st1 out]. cbn [snd].
  destruct (target =? 0), (lt current (of_Z (PidBed.BED_MAXTEMP cfg)));
    split; reflexivity.
Qed.

(** X2.  After any step of [pid_bed]: the value handed to
    [timer02_set_pwm0] is twice the bed duty; both are [0] when the
    target is [0] or the temperature is not below [BED_MAXTEMP] (a NaN
    is not); and the duty lies between [0] and [MAX_BED_POWER >> 1]
    whenever the regulated sum is not a NaN. *)
Theorem pid_bed_duty_bounded
    (cfg : PidBed.config) (current : float) (target : Z) (st : PidBed.state) :
  0 <= PidBed.MAX_BED_POWER cfg <= 255 ->
  let st' := PidBed.pid_bed cfg current target st in
  PidBed.pwm0 st' = 2 * PidBed.soft_pwm_bed st' /\
  (target = 0 \/ lt current (of_Z (PidBed.BED_MAXTEMP cfg)) = false ->
   PidBed.soft_pwm_bed st' = 0) /\
  (is_nan (PidBed.unlimited_output cfg current target st) = false ->
   0 <= PidBed.soft_pwm_bed st' <= Z.shiftr (PidBed.MAX_BED_POWER cfg) 1).
Proof.
  intros HM st'. subst st'.
  destruct (bed_step_duty cfg current target st) as [Hd Hp].
  assert (H0 : 0 <= Z.shiftr (PidBed.MAX_BED_POWER cfg) 1).
  { rewrite Z.shiftr_div_pow2 by lia. apply Z.div_pos; lia. }
  split; [| split].
  - rewrite Hp, Z.shiftl_mul_pow2 by lia. change (2 ^ 1) with 2. ring.
  - rewrite Hd. intros [-> | ->]; [reflexivity | now rewrite orb_true_r].
  - intros Hnan. rewrite Hd.
    destruct ((target =? 0) || negb (lt current (of_Z (PidBed.BED_MAXTEMP cfg)))); [lia |].
    unfold PidBed.regulate. cbn [snd].
    apply duty_of_bound; [lia |].
    apply limited_output_bound; trivial. apply bed_output_fits.
Qed.

Lemma pid_bed_duty_bounded_witness :
  let st := PidBed.at_rest PidBed.example_gains 255 (of_Z 25) in
  PidBed.soft_pwm_bed (PidBed.pid_bed PidBed.example_gains (of_Z 130) 60 st) = 0 /\
  0 <= PidBed.soft_pwm_bed (PidBed.pid_bed PidBed.example_gains (of_Z 25) 60 st) <= 127.
Proof.
  intros st. split.
  - apply (pid_bed_duty_bounded PidBed.example_gains (of_Z 130) 60 st).
    + simpl. lia.
    + right. vm_compute. reflexivity.
  - apply (pid_bed_duty_bounded PidBed.example_gains (of_Z 25) 60 st).
    + simpl. lia.
    + vm_compute. reflexivity.
Defined.

End DutyFacts.

(** ** Regulating and switching off all heaters *)

Module HeatersFacts.
Import F32 Heaters.

(** The loop over the hotends regulates each of them once. *)
Lemma regulate_from_lookup cfg t n : forall start chs e,
  fold_left
    (fun acc e =>
       match Manager.current_temperature_isr t !! e, Manager.target_temperature_isr t !! e with
       | Some current, Some target => Pid.pid_heater (hotend_pid cfg) e current target acc
       | _, _ => acc
       end)
    (seq start n) chs !! e =
  if decide (start <= e < start + n)%nat
  then match Manager.current_temperature_isr t !! e, Manager.target_temperature_isr t !! e with
       | Some current, Some target =>
           Pid.pid_heater_channel (hotend_pid cfg) current target <$> chs !! e
       | _, _ => chs !! e
       end
  else chs !! e.
Proof.
  induction n as [|n IH]; intros start chs e.
  - simpl. destruct (decide (start <= e < start + 0)%nat); [lia | reflexivity].
  - cbn [seq fold_left]. rewrite IH.
    destruct (decide (e = start)) as [-> | Hne].
    + destruct (decide (S start <= start < S start + n)%nat); [lia |].
      destruct (decide (start <= start < start + S n)%nat); [| lia].
      destruct (Manager.current_temperature_isr t !! start),
               (Manager.target_temperature_isr t !! start); try reflexivity.
      unfold Pid.pid_heater. rewrite list_lookup_alter.
      destruct (decide (start = start)); [reflexivity | congruence].
    + assert (Hstep :
        match Manager.current_temperature_isr t !! start,
              Manager.target_temperature_isr t !! start with
        | Some current, Some target => Pid.pid_heater (hotend_pid cfg) start current target chs
        | _, _ => chs
        end !! e = chs !! e).
      { destruct (Manager.current_temperature_isr t !! start),
                 (Manager.target_temperature_isr t !! start); try reflexivity.
        unfold Pid.pid_heater. rewrite list_lookup_alter.
        destruct (decide (start = e)); [congruence | reflexivity]. }
      rewrite Hstep.
      destruct (decide (S start <= e < S start + n)%nat),
               (decide (start <= e < start + S n)%nat); try lia; reflexivity.
Qed.

Lemma regulate_hotends_lookup cfg t chs e ch current target :
  (e < EXTRUDERS cfg)%nat -> chs !! e = Some ch ->
  Manager.current_temperature_isr t !! e = Some current ->
  Manager.target_temperature_isr t !! e = Some target ->
  regulate_hotends cfg t chs !! e =
    Some (Pid.pid_heater_channel (hotend_pid cfg) current target ch).
Proof.
  intros He Hch Hc Ht. unfold regulate_hotends. rewrite regulate_from_lookup.
  destruct (decide (0 <= e < 0 + EXTRUDERS cfg)%nat); [| lia].
  now rewrite Hc, Ht, Hch.
Qed.

Lemma regulate_hotends_length cfg t chs :
  length (regulate_hotends cfg t chs) = length chs.
Proof.
  unfold regulate_hotends. generalize (seq 0 (EXTRUDERS cfg)). intros l. revert chs.
  induction l as [|e l IH]; intros chs; [reflexivity |]. cbn [fold_left]. rewrite IH.
  destruct (Manager.current_temperature_isr t !! e),
           (Manager.target_temperature_isr t !! e); try reflexivity.
  unfold Pid.pid_heater. apply length_alter.
Qed.

(** A hotend regulated at target [0] ends with duty [0] and its reset
    flag set. *)
Lemma hotend_off cfg current ch :
  Pid.soft_pwm (Pid.pid_heater_channel cfg current 0 ch) = 0 /\
  Pid.pid_reset (Pid.pid_heater_channel cfg current 0 ch) = true.
Proof.
  split.
  - rewrite PidFacts.step_duty. now rewrite andb_false_r.
  - pose proof (PidFacts.step_fields cfg current 0 ch) as (_ & _ & Hr & _).
    cbn zeta in Hr. rewrite Hr. reflexivity.
Qed.

(** The hotend regulators with every ISR target at zero. *)
Lemma hotends_regulated_off (cfg : config) (t : Manager.temperatures) (chs : list Pid.channel) :
  length (Manager.current_temperature_isr t) = EXTRUDERS cfg ->
  length chs = EXTRUDERS cfg ->
  (forall e, (e < EXTRUDERS cfg)%nat -> Manager.target_temperature_isr t !! e = Some 0) ->
  forall e ch', regulate_hotends cfg t chs !! e = Some ch' ->
                Pid.soft_pwm ch' = 0 /\ Pid.pid_reset ch' = true.
Proof.
  intros Hlc Hlh Htg e ch' Hlook.
  assert (He : (e < EXTRUDERS cfg)%nat).
  { apply lookup_lt_Some in Hlook. now rewrite regulate_hotends_length, Hlh in Hlook. }
  destruct (lookup_lt_is_Some_2 chs e ltac:(lia)) as [ch Hch].
  destruct (lookup_lt_is_Some_2 (Manager.current_temperature_isr t) e ltac:(lia))
    as [current Hc].
  rewrite (regulate_hotends_lookup cfg t chs e ch current 0 He Hch Hc (Htg e He)) in Hlook.
  injection Hlook as <-. apply hotend_off.
Qed.

(** X3.  With every ISR target at [0], one round of [temp_mgr_pid] leaves
    every hotend duty and the bed duty at [0] and sets every reset
    flag, whatever the temperatures (a NaN included) and whatever the
    regulators' states. *)
Theorem temp_mgr_pid_all_off (cfg : config) (p : plant) :
  length (Manager.current_temperature_isr (temps p)) = EXTRUDERS cfg ->
  length (hotends p) = EXTRUDERS cfg ->
  (forall e, (e < EXTRUDERS cfg)%nat ->
             Manager.target_temperature_isr (temps p) !! e = Some 0) ->
  Manager.target_temperature_bed_isr (temps p) = 0 ->
  let p' := temp_mgr_pid cfg p in
  length (hotends p') = EXTRUDERS cfg /\
  (forall e ch', hotends p' !! e = Some ch' ->
                 Pid.soft_pwm ch' = 0 /\ Pid.pid_reset ch' = true) /\
  PidBed.soft_pwm_bed (bed p') = 0 /\ PidBed.pwm0 (bed p') = 0.
Proof.
  intros Hlc Hlh Htg Hbed p'. subst p'. cbn [temp_mgr_pid hotends bed].
  split; [now rewrite regulate_hotends_length |]. split.
  - now apply hotends_regulated_off.
  - rewrite Hbed.
    destruct (DutyFacts.bed_step_duty (bed_pid cfg)
                (Manager.current_temperature_bed_isr (temps p)) 0 (bed p)) as [Hd Hp].
    rewrite Hp, Hd. split; reflexivity.
Qed.

Lemma temp_mgr_pid_all_off_witness :
  let p := {| temps := Manager.heating_up ErrorState.cleared;
              hotends := hotends at_work; bed := bed at_work; pwm := pwm at_work;
              bedPWMDisabled := 0 |} in
  map Pid.soft_pwm (hotends (temp_mgr_pid example_config p)) = [0] /\
  PidBed.soft_pwm_bed (bed (temp_mgr_pid example_config p)) = 0.
Proof.
  intros p.
  destruct (temp_mgr_pid_all_off example_config p) as (Hlen & Hoff & Hbed & _).
  - reflexivity.
  - reflexivity.
  - intros e He. simpl in He. destruct e as [|e]; [reflexivity | lia].
  - reflexivity.
  - split; [| exact Hbed].
    destruct (hotends (temp_mgr_pid example_config p)) as [|ch [|ch2 l]] eqn:E;
      try discriminate Hlen.
    simpl. f_equal. exact (proj1 (Hoff 0%nat ch eq_refl)).
Defined.

Section DisableHeater.

Variable setAllTargetHotends : Z -> Manager.temperatures -> Manager.temperatures.
Variable setTargetBed : Z -> Manager.temperatures -> Manager.temperatures.

Local Abbreviation cleared := (targets_cleared setAllTargetHotends setTargetBed).
Local Abbreviation disable := (disable_heater setAllTargetHotends setTargetBed).

(** X4.  [disable_heater] hands the cleared targets to the ISR side,
    regulates once and writes the pins: provided the two setters of
    temperature.h leave every target at [0], it ends with every ISR
    target at [0], every hotend duty and the bed duty at [0], every
    reset flag set, the bed PWM register at [0] and every heater pin
    low -- whatever the temperatures and the regulators' states. *)
Theorem disable_heater_all_off (cfg : config) (p : plant) :
  let t1 := cleared (temps p) in
  (forall e, (e < EXTRUDERS cfg)%nat -> Manager.target_temperature t1 !! e = Some 0) ->
  Manager.target_temperature_bed t1 = 0 ->
  length (Manager.target_temperature_isr t1) = EXTRUDERS cfg ->
  length (Manager.current_temperature_isr t1) = EXTRUDERS cfg ->
  length (hotends p) = EXTRUDERS cfg ->
  let p' := disable cfg p in
  (forall e, (e < EXTRUDERS cfg)%nat ->
             Manager.target_temperature_isr (temps p') !! e = Some 0) /\
  Manager.target_temperature_bed_isr (temps p') = 0 /\
  (forall e ch', hotends p' !! e = Some ch' ->
                 Pid.soft_pwm ch' = 0 /\ Pid.pid_reset ch' = true) /\
  PidBed.soft_pwm_bed (bed p') = 0 /\ PidBed.pwm0 (bed p') = 0 /\
  Forall (fun ch => SoftPwm.pin ch = false) (SoftPwm.heaters (pwm p')) /\
  bedPWMDisabled p' = 0.
Proof.
  intros t1 Htg Hbed Hli Hlc Hlh p'.
  set (t2 := Manager.setIsrTargetTemperatures (EXTRUDERS cfg) t1).
  set (p0 := {| temps := t2; hotends := hotends p; bed := bed p;
                pwm := pwm p; bedPWMDisabled := bedPWMDisabled p |}).
  assert (Hisr : forall e, (e < EXTRUDERS cfg)%nat ->
                           Manager.target_temperature_isr t2 !! e = Some 0).
  { intros e He. subst t2. cbn [Manager.setIsrTargetTemperatures Manager.target_temperature_isr].
    rewrite ManagerFacts.copy_array_lookup.
    destruct (decide (e < EXTRUDERS cfg)%nat); [| lia].
    rewrite (Htg e He).
    destruct (lookup_lt_is_Some_2 (Manager.target_temperature_isr t1) e ltac:(lia))
      as [y ->]. reflexivity. }
  assert (Hoff : forall e ch', hotends (temp_mgr_pid cfg p0) !! e = Some ch' ->
                               Pid.soft_pwm ch' = 0 /\ Pid.pid_reset ch' = true).
  { cbn [temp_mgr_pid hotends]. now apply hotends_regulated_off. }
  assert (Hb : PidBed.soft_pwm_bed (bed (temp_mgr_pid cfg p0)) = 0).
  { cbn [temp_mgr_pid bed]. replace (Manager.target_temperature_bed_isr (temps p0)) with 0
      by (symmetry; exact Hbed).
    apply DutyFacts.bed_step_duty. }
  subst p'. unfold disable_heater. fold t1. fold t2. fold p0.
  cbn [temps hotends bed pwm bedPWMDisabled PidBed.soft_pwm_bed PidBed.pwm0].
  split; [exact Hisr |]. split; [subst t2; exact Hbed |]. split; [exact Hoff |].
  split; [exact Hb |]. split; [reflexivity |]. split; [| reflexivity].
  unfold pins_low. cbn [SoftPwm.heaters]. apply Forall_map. apply Forall_forall.
  intros; reflexivity.
Qed.

End DisableHeater.

Lemma disable_heater_all_off_witness :
  let p' := disable_heater store_hotend_targets store_bed_target example_config at_work in
  Manager.target_temperature_isr (temps p') !! 0%nat = Some 0 /\
  Manager.target_temperature_bed_isr (temps p') = 0 /\
  PidBed.soft_pwm_bed (bed p') = 0 /\
  Forall (fun ch => SoftPwm.pin ch = false) (SoftPwm.heaters (pwm p')).
Proof.
  intros p'.
  destruct (disable_heater_all_off store_hotend_targets store_bed_target example_config at_work)
    as (Hisr & Hbisr & _ & Hbed & _ & Hpins & _).
  - intros e He. simpl in He. destruct e as [|e]; [reflexivity | lia].
  - reflexivity.
  - reflexivity.
  - reflexivity.
  - reflexivity.
  - split; [apply Hisr; simpl; lia |]. split; [exact Hbisr |]. split; [exact Hbed | exact Hpins].
Defined.

(** ** The soft PWM generator with the duty register at zero *)

(** A tick with the duty register at [0] leaves a low pin low. *)
Lemma heater_tick_stays_low count ch :
  SoftPwm.pin ch = false -> SoftPwm.pin (SoftPwm.heater_tick count 0 ch) = false.
Proof.
  intros Hp. unfold SoftPwm.heater_tick.
  destruct (count =? 0); cbn [SoftPwm.latched SoftPwm.pin].
  - destruct (0 <? count); reflexivity.
  - destruct (SoftPwm.latched ch <? count); [reflexivity | exact Hp].
Qed.

Lemma channel_stays_low n : forall count ch,
  SoftPwm.pin ch = false ->
  Forall (fun level => level = false) (SoftPwm.run_channel n count 0 ch).
Proof.
  induction n as [|n IH]; intros count ch Hp; cbn [SoftPwm.run_channel].
  - constructor.
  - constructor; [now apply heater_tick_stays_low |].
    apply IH. now apply heater_tick_stays_low.
Qed.

(** X5.  A heater whose pin is low and whose duty register is held at [0]
    stays off: the pin is low after every later call of
    [soft_pwm_core], from any value of [pwm_count] and whatever duty is
    still latched from the running window. *)
Theorem soft_pwm_stays_low
    (n : nat) (soft_pwm : list Z) (e : nat) (st : SoftPwm.state) (ch : SoftPwm.channel) :
  soft_pwm !! e = Some 0 -> SoftPwm.heaters st !! e = Some ch -> SoftPwm.pin ch = false ->
  Forall (fun level => level = false) (snd (SoftPwm.run n soft_pwm e st)).
Proof.
  intros Hd Hch Hp. rewrite (SoftPwmFacts.run_projects n soft_pwm e st 0 ch Hd Hch).
  now apply channel_stays_low.
Qed.

Lemma soft_pwm_stays_low_witness :
  Forall (fun level => level = false)
    (snd (SoftPwm.run 300 [0] 0
            {| SoftPwm.pwm_count := 17;
               SoftPwm.heaters := [{| SoftPwm.latched := 127; SoftPwm.pin := false |}] |})).
Proof.
  apply (soft_pwm_stays_low 300 [0] 0%nat _ {| SoftPwm.latched := 127; SoftPwm.pin := false |});
    reflexivity.
Defined.

End HeatersFacts.

(** ** The thermal runaway watch *)

Module RunawayFacts.
Import F32 Runaway.

Lemma uint16_range x : 0 <= uint16 x < 65536.
Proof.
  unfold uint16, Machine.wrap_unsigned. change (2 ^ 16) with 65536.
  apply Z.mod_pos_bound. lia.
Qed.

Lemma uint16_small x : 0 <= x < 65536 -> uint16 x = x.
Proof.
  intros H. unfold uint16, Machine.wrap_unsigned. change (2 ^ 16) with 65536.
  now apply Z.mod_small.
Qed.

(** [x == 0] excludes [x > 0]. *)
Lemma eq_zero_not_gt x : SFeqb x (of_Z 0) = true -> gt x (of_Z 0) = false.
Proof.
  change (of_Z 0) with (S754_zero false).
  destruct x as [s | s | | s m e]; try discriminate; try reflexivity.
  - destruct s; discriminate.
  - destruct s; discriminate.
Qed.

Lemma gt_zero_not_eq x : gt x (of_Z 0) = true -> SFeqb x (of_Z 0) = false.
Proof.
  intros H. destruct (SFeqb x (of_Z 0)) eqn:E; [| reflexivity].
  apply eq_zero_not_gt in E. congruence.
Qed.

Section Check.

Variable cfg : config.
Variable tgt cur out : float.
Variable isbed : bool.
Variable id : Z.

Local Abbreviation check := (temp_runaway_check cfg tgt cur out isbed id).
Local Abbreviation watch := (watch cfg tgt cur out isbed id).
Local Abbreviation preheat := (preheat tgt cur isbed id).
Local Abbreviation activate := (activate cfg tgt cur isbed).
Local Abbreviation retarget := (retarget tgt cur).
Local Abbreviation restart := (restart out).

Lemma preheat_calls s : existsb is_runaway (snd (preheat s)) = false.
Proof.
  unfold Runaway.preheat.
  destruct (lt cur tgt && is_preheat (status s)); [| reflexivity].
  destruct (window_over isbed _); [| reflexivity]. cbn [snd].
  destruct (_ >? _); reflexivity.
Qed.

Lemma preheat_keeps s :
  status (fst (preheat s)) = status s /\ target (fst (preheat s)) = target s /\
  timer (fst (preheat s)) = timer s /\ error_counter (fst (preheat s)) = error_counter s.
Proof.
  unfold Runaway.preheat.
  destruct (lt cur tgt && is_preheat (status s)); [| auto].
  destruct (window_over isbed _); cbn; auto.
Qed.

Lemma watch_keeps s :
  status (fst (watch s)) = status s /\ target (fst (watch s)) = target s /\
  timer (fst (watch s)) = timer s.
Proof.
  unfold Runaway.watch. destruct (gt out (of_Z 0)); [| auto].
  destruct (in_range cfg tgt cur isbed); [cbn; auto |].
  destruct (_ >? _); cbn; auto.
Qed.

(** What a runaway error in [watch] presupposes. *)
Lemma watch_raises s :
  existsb is_runaway (snd (watch s)) = true ->
  gt out (of_Z 0) = true /\ in_range cfg tgt cur isbed = false /\
  status s = TempRunaway_ACTIVE /\
  error_counter (fst (watch s)) = uint16 (error_counter s + 1) /\
  uint16 (error_counter (fst (watch s)) * 2) > timeout cfg isbed.
Proof.
  unfold Runaway.watch. destruct (gt out (of_Z 0)); [| discriminate].
  destruct (in_range cfg tgt cur isbed); [discriminate |].
  destruct (status s); cbn [to_uint8]; try discriminate.
  change (2 >? 1) with true. cbn [fst snd error_counter].
  destruct (Z.gtb_spec (uint16 (uint16 (error_counter s + 1) * 2)) (timeout cfg isbed));
    [| discriminate].
  intros _. repeat split; trivial. lia.
Qed.

Lemma existsb_app_false {A} (f : A -> bool) l1 l2 :
  existsb f l1 = false -> existsb f (l1 ++ l2) = existsb f l2.
Proof. intros H. now rewrite existsb_app, H. Qed.

(** The parts of a call that the throttle lets through. *)
Lemma check_due now now' s :
  due now s = true ->
  check now now' s =
    (fst (watch (activate (fst (preheat (retarget (restart now' s)))))),
     snd (preheat (retarget (restart now' s))) ++
     snd (watch (activate (fst (preheat (retarget (restart now' s))))))).
Proof.
  intros Hd. unfold temp_runaway_check. rewrite Hd.
  destruct (Runaway.preheat _ _ _ _ _) as [s2 c1]. cbn [fst snd].
  destruct (Runaway.watch _ _ _ _ _ _ _) as [s3 c2]. reflexivity.
Qed.

Lemma check_throttled now now' s : due now s = false -> check now now' s = (s, []).
Proof. intros Hd. unfold temp_runaway_check. now rewrite Hd. Qed.

Lemma activate_status s :
  status (activate s) = TempRunaway_ACTIVE \/ activate s = s.
Proof. unfold Runaway.activate. destruct (_ && _); auto. Qed.

(** The error counter grows by at most one in a call. *)
Lemma check_counter now now' s :
  0 <= error_counter s ->
  0 <= error_counter (fst (check now now' s)) <= error_counter s + 1.
Proof.
  intros H0. destruct (due now s) eqn:Hd.
  2:{ rewrite check_throttled by trivial. cbn. lia. }
  rewrite check_due by trivial. cbn [fst].
  set (s1 := retarget (restart now' s)).
  assert (H1 : 0 <= error_counter s1 <= error_counter s).
  { subst s1. unfold Runaway.retarget, Runaway.restart.
    destruct (ne _ tgt); [destruct (gt tgt _) |]; cbn; destruct (SFeqb out _); lia. }
  destruct (preheat_keeps s1) as (_ & _ & _ & H2).
  set (s2 := fst (preheat s1)) in *.
  assert (H3 : 0 <= error_counter (activate s2) <= error_counter s).
  { unfold Runaway.activate. destruct (_ && _); cbn; lia. }
  set (s3 := activate s2) in *.
  unfold Runaway.watch. destruct (gt out _); [| cbn; lia].
  destruct (in_range _ _ _ _); [cbn; lia |].
  destruct (_ >? _); cbn; [| lia].
  pose proof (uint16_range (error_counter s3 + 1)) as Hr.
  unfold uint16, Machine.wrap_unsigned in *. change (2 ^ 16) with 65536 in *.
  pose proof (Z.mod_le (error_counter s3 + 1) 65536 ltac:(lia) ltac:(lia)). lia.
Qed.

(** A call that raises a runaway error leaves the doubled error
    counter above the timeout. *)
Lemma check_raises_counter (now now' : Z) (s : slot) :
  existsb is_runaway (snd (check now now' s)) = true ->
  uint16 (error_counter (fst (check now now' s)) * 2) > timeout cfg isbed.
Proof.
  intros Hr. destruct (due now s) eqn:Hd.
  2:{ rewrite check_throttled in Hr by trivial. discriminate. }
  rewrite check_due in * by trivial. cbn [fst snd] in *.
  rewrite existsb_app_false in Hr by apply preheat_calls.
  now destruct (watch_raises _ Hr) as (_ & _ & _ & _ & Hc).
Qed.

(** X6.  A call raises a runaway error only when it is let through, the
    heater is driven, the temperature is outside the band around the
    target and the status is [TempRunaway_ACTIVE]; the error counter
    has then passed half the timeout.  A call that is let through
    with the heater off ([_output == 0]) zeroes the counter and raises
    no runaway error. *)
Theorem runaway_only_when_driven_outside_band (now now' : Z) (s : slot) :
  let s' := fst (check now now' s) in
  let calls := snd (check now now' s) in
  (existsb is_runaway calls = true ->
     due now s = true /\ gt out (of_Z 0) = true /\ in_range cfg tgt cur isbed = false /\
     status s' = TempRunaway_ACTIVE /\
     uint16 (error_counter s' * 2) > timeout cfg isbed) /\
  (due now s = true -> SFeqb out (of_Z 0) = true ->
     error_counter s' = 0 /\ existsb is_runaway calls = false).
Proof.
  intros s' calls. subst s' calls. split.
  - intros Hr. destruct (due now s) eqn:Hd.
    2:{ rewrite check_throttled in Hr by trivial. discriminate. }
    rewrite check_due in * by trivial. cbn [fst snd] in *.
    rewrite existsb_app_false in Hr by apply preheat_calls.
    destruct (watch_raises _ Hr) as (Hg & Hin & Hst & _ & Hc).
    destruct (watch_keeps (activate (fst (preheat (retarget (restart now' s))))))
      as (Hs & _).
    rewrite Hs. auto.
  - intros Hd Hoff. rewrite check_due by trivial. cbn [fst snd].
    rewrite existsb_app_false by apply preheat_calls.
    unfold Runaway.watch. rewrite (eq_zero_not_gt out Hoff). cbn [fst snd].
    split; [| reflexivity].
    set (s1 := retarget (restart now' s)).
    assert (H1 : error_counter s1 = 0).
    { subst s1. unfold Runaway.retarget, Runaway.restart. rewrite Hoff.
      destruct (ne _ tgt); [destruct (gt tgt _) |]; reflexivity. }
    destruct (preheat_keeps s1) as (_ & _ & _ & H2).
    unfold Runaway.activate. destruct (_ && _); cbn; congruence.
Qed.

End Check.

Lemma runaway_only_when_driven_outside_band_witness :
  let r := temp_runaway_check example_config (of_Z 215) (of_Z 180) (of_Z 0) false 1
                              2001 2001 holding in
  error_counter (fst r) = 0 /\ existsb is_runaway (snd r) = false.
Proof.
  intros r.
  apply (runaway_only_when_driven_outside_band example_config (of_Z 215) (of_Z 180) (of_Z 0)
           false 1 2001 2001 holding); reflexivity.
Defined.

(** The error counter after a run of calls. *)
Lemma checks_counter cfg isbed id rs : forall s,
  0 <= error_counter s ->
  0 <= error_counter (fst (checks cfg isbed id rs s)) <= error_counter s + Z.of_nat (length rs).
Proof.
  induction rs as [|r rs IH]; intros s H0; cbn [checks].
  - cbn. lia.
  - pose proof (check_counter cfg (target_temperature r) (current_temperature r) (output r)
                  isbed id (now r) (now' r) s H0) as H1.
    destruct (temp_runaway_check _ _ _ _ _ _ _ _ _) as [s1 c1]. cbn [fst] in H1.
    specialize (IH s1 ltac:(lia)).
    destruct (checks cfg isbed id rs s1) as [s2 c2]. cbn [fst length] in *. lia.
Qed.

(** X7.  Starting from an error counter [c], no run of [n] calls with
    [2 * (c + n) <= timeout] raises a runaway error, whatever the
    temperatures, targets and duties: the watch needs more than
    [timeout / 2] checks. *)
Theorem runaway_not_before_timeout
    (cfg : config) (isbed : bool) (id : Z) (rs : list reading) (s : slot) :
  0 <= error_counter s ->
  2 * (error_counter s + Z.of_nat (length rs)) <= timeout cfg isbed ->
  existsb is_runaway (snd (checks cfg isbed id rs s)) = false.
Proof.
  revert s. induction rs as [|r rs IH]; intros s H0 Hn; cbn [checks]; [reflexivity |].
  pose proof (check_counter cfg (target_temperature r) (current_temperature r) (output r)
                isbed id (now r) (now' r) s H0) as H1.
  pose proof (check_raises_counter cfg (target_temperature r)
                (current_temperature r) (output r) isbed id (now r) (now' r) s) as Hr.
  destruct (temp_runaway_check _ _ _ _ _ _ _ _ _) as [s1 c1]. cbn [fst snd length] in *.
  assert (Hc1 : existsb is_runaway c1 = false).
  { destruct (existsb is_runaway c1) eqn:E; [| reflexivity].
    pose proof (Hr eq_refl) as Hc.
    pose proof (uint16_range (timeout cfg isbed)) as Ht.
    assert (Hto : timeout cfg isbed < 65536) by (unfold timeout; apply uint16_range).
    rewrite uint16_small in Hc by lia. lia. }
  specialize (IH s1 ltac:(lia) ltac:(lia)).
  destruct (checks cfg isbed id rs s1) as [s2 c2]. cbn [snd] in *.
  now rewrite existsb_app, Hc1, IH.
Qed.

Lemma runaway_not_before_timeout_witness :
  existsb is_runaway (snd (checks example_config false 1 (stuck_at 150 22) holding)) = false.
Proof.
  apply runaway_not_before_timeout.
  - simpl. lia.
  - vm_compute. discriminate.
Defined.

(** One call on an active slot whose target has not changed, with the
    heater driven and the temperature outside the band. *)
Lemma check_active_outside cfg tgt cur out isbed id now now' s :
  status s = TempRunaway_ACTIVE -> due now s = true ->
  ne (target s) tgt = false -> gt out (of_Z 0) = true ->
  in_range cfg tgt cur isbed = false ->
  let s' := fst (temp_runaway_check cfg tgt cur out isbed id now now' s) in
  status s' = TempRunaway_ACTIVE /\ target s' = target s /\
  timer s' = Machine.uint32 now' /\
  error_counter s' = uint16 (error_counter s + 1) /\
  existsb is_runaway (snd (temp_runaway_check cfg tgt cur out isbed id now now' s)) =
    (uint16 (uint16 (error_counter s + 1) * 2) >? timeout cfg isbed).
Proof.
  intros Hst Hd Hne Hg Hin s'. subst s'. unfold temp_runaway_check. rewrite Hd.
  assert (E1 : retarget tgt cur (restart out now' s) =
               {| status := status s; target := target s; timer := Machine.uint32 now';
                  error_counter := error_counter s;
                  preheat_start := preheat_start s; preheat_counter := preheat_counter s;
                  preheat_errors := preheat_errors s |}).
  { unfold retarget, restart. cbn [target]. now rewrite Hne, (gt_zero_not_eq out Hg). }
  rewrite E1. set (s1 := {| status := status s |}).
  assert (E2 : preheat tgt cur isbed id s1 = (s1, [])).
  { unfold preheat. subst s1. cbn [status]. rewrite Hst. cbn [is_preheat].
    now rewrite andb_false_r. }
  rewrite E2.
  assert (E3 : activate cfg tgt cur isbed s1 = s1).
  { unfold activate. subst s1. cbn [status]. rewrite Hst. cbn [is_preheat].
    now rewrite andb_false_r. }
  rewrite E3. unfold watch. rewrite Hg, Hin. subst s1. cbn [status]. rewrite Hst.
  cbn [to_uint8]. change (2 >? 1) with true.
  cbn [fst snd status target timer error_counter app].
  repeat split; trivial.
  destruct (_ >? _); reflexivity.
Qed.

(** X8.  An active slot whose target does not change, with the heater
    driven and the temperature outside the band at every check: the
    runaway error is raised as soon as the error counter has passed
    half the timeout, that is within [timeout / 2 + 1] checks of a
    counter at zero. *)
Theorem runaway_raised_after_timeout
    (cfg : config) (isbed : bool) (id : Z) (rs : list reading) (s : slot) :
  status s = TempRunaway_ACTIVE ->
  rs <> [] ->
  all_due rs (timer s) = true ->
  Forall (fun r => ne (target s) (target_temperature r) = false /\
                   gt (output r) (of_Z 0) = true /\
                   outside_band cfg isbed r = true) rs ->
  0 <= error_counter s ->
  error_counter s + Z.of_nat (length rs) < 32768 ->
  timeout cfg isbed < 2 * (error_counter s + Z.of_nat (length rs)) ->
  existsb is_runaway (snd (checks cfg isbed id rs s)) = true.
Proof.
  revert s. induction rs as [|r rs IH]; intros s Hst Hne Hdue Hall H0 Hw Ht; [congruence |].
  cbn [all_due] in Hdue. apply andb_true_iff in Hdue as [Hd Hdue].
  inversion Hall as [|? ? (Htg & Hout & Hband) Hall']; subst.
  apply negb_true_iff in Hband.
  destruct (check_active_outside cfg (target_temperature r) (current_temperature r)
              (output r) isbed id (now r) (now' r) s Hst Hd Htg Hout Hband)
    as (Hs1 & Ht1 & Htm1 & Hc1 & Hr1).
  cbn [checks].
  destruct (temp_runaway_check _ _ _ _ _ _ _ _ _) as [s1 c1]. cbn [fst snd] in *.
  cbn [length] in Hw, Ht.
  rewrite uint16_small in Hc1 by lia.
  destruct rs as [|r2 rs].
  - cbn [checks snd]. rewrite app_nil_r, Hr1.
    rewrite (uint16_small (error_counter s + 1)) by lia.
    rewrite uint16_small by lia.
    cbn [length] in Ht. apply Z.gtb_lt. lia.
  - assert (Hgo : existsb is_runaway (snd (checks cfg isbed id (r2 :: rs) s1)) = true).
    { apply IH.
      - exact Hs1.
      - discriminate.
      - rewrite Htm1. exact Hdue.
      - rewrite Ht1. exact Hall'.
      - lia.
      - rewrite Hc1. cbn [length] in *. lia.
      - rewrite Hc1. cbn [length] in *. lia. }
    destruct (checks cfg isbed id (r2 :: rs) s1) as [s2 c2]. cbn [snd] in *.
    rewrite existsb_app, Hgo. apply orb_true_r.
Qed.

Lemma runaway_raised_after_timeout_witness :
  existsb is_runaway (snd (checks example_config false 1 (stuck_at 150 23) holding)) = true.
Proof.
  apply runaway_raised_after_timeout.
  - reflexivity.
  - discriminate.
  - vm_compute. reflexivity.
  - unfold stuck_at. apply Forall_map. apply Forall_forall. intros k _.
    vm_compute. repeat split.
  - simpl. lia.
  - simpl. lia.
  - vm_compute. reflexivity.
Defined.

(** *** Consistency of the status with the target *)

Lemma eq_zero_cases x : ne x (of_Z 0) = false -> gt x (of_Z 0) = false.
Proof.
  unfold ne. intros H. apply negb_false_iff in H. now apply eq_zero_not_gt.
Qed.

Lemma check_consistent cfg tgt cur out isbed id now now' s :
  consistent s -> consistent (fst (temp_runaway_check cfg tgt cur out isbed id now now' s)).
Proof.
  intros Hc. destruct (due now s) eqn:Hd.
  2:{ now rewrite check_throttled. }
  rewrite check_due by trivial. cbn [fst].
  set (s1 := retarget tgt cur (restart out now' s)).
  assert (H1 : consistent s1).
  { subst s1. unfold retarget, restart. cbn [target].
    destruct (ne (target s) tgt); [| exact Hc].
    destruct (gt tgt (of_Z 0)) eqn:Hg; unfold consistent; cbn; trivial. congruence. }
  destruct (preheat_keeps tgt cur isbed id s1) as (Hs2 & Ht2 & _).
  set (s2 := fst (preheat tgt cur isbed id s1)) in *.
  assert (H3 : consistent (activate cfg tgt cur isbed s2)).
  { unfold activate. destruct (above_lower cfg tgt cur isbed && is_preheat (status s2)) eqn:E.
    - unfold consistent. cbn. intros _. rewrite Ht2. apply H1. rewrite <- Hs2.
      apply andb_true_iff in E as [_ E]. destruct (status s2); discriminate.
    - unfold consistent. rewrite Hs2, Ht2. exact H1. }
  destruct (watch_keeps cfg tgt cur out isbed id (activate cfg tgt cur isbed s2))
    as (Hs4 & Ht4 & _).
  unfold consistent. rewrite Hs4, Ht4. exact H3.
Qed.

(** A call with the target at [0] on a consistent slot raises nothing. *)
Lemma check_zero_target cfg cur out isbed id now now' s :
  consistent s ->
  snd (temp_runaway_check cfg (of_Z 0) cur out isbed id now now' s) = [].
Proof.
  intros Hc. destruct (due now s) eqn:Hd.
  2:{ now rewrite check_throttled. }
  rewrite check_due by trivial. cbn [snd].
  set (s1 := retarget (of_Z 0) cur (restart out now' s)).
  assert (H1 : status s1 = TempRunaway_INACTIVE).
  { subst s1. unfold retarget, restart. cbn [target].
    destruct (ne (target s) (of_Z 0)) eqn:Hne.
    - reflexivity.
    - cbn [status]. destruct (status s) eqn:Hs; trivial; exfalso;
        assert (Hg : gt (target s) (of_Z 0) = true) by (apply Hc; rewrite Hs; discriminate);
        rewrite (eq_zero_cases _ Hne) in Hg; discriminate. }
  unfold preheat. rewrite H1. cbn [is_preheat]. rewrite andb_false_r. cbn [fst snd app].
  unfold activate. rewrite H1. cbn [is_preheat]. rewrite andb_false_r.
  unfold watch. rewrite H1. cbn [to_uint8]. change (0 >? 1) with false.
  destruct (gt out (of_Z 0)); [| reflexivity].
  destruct (in_range cfg (of_Z 0) cur isbed); reflexivity.
Qed.

(** X9.  From the statics at power-on, or from any slot whose status goes
    with its target, checks with the target at [0] never raise a
    preheat or a runaway error, whatever the temperatures and the
    duty; and every call keeps the status consistent with the target. *)
Theorem no_runaway_error_at_zero_target
    (cfg : config) (isbed : bool) (id : Z) (rs : list reading) (s : slot) :
  consistent s ->
  Forall (fun r => target_temperature r = of_Z 0) rs ->
  snd (checks cfg isbed id rs s) = [] /\ consistent (fst (checks cfg isbed id rs s)).
Proof.
  revert s. induction rs as [|r rs IH]; intros s Hc Hall; cbn [checks]; [auto |].
  inversion Hall as [|? ? Hz Hall']; subst.
  pose proof (check_zero_target cfg (current_temperature r) (output r) isbed id
                (now r) (now' r) s Hc) as Hnone.
  pose proof (check_consistent cfg (target_temperature r) (current_temperature r) (output r)
                isbed id (now r) (now' r) s Hc) as Hc1.
  rewrite Hz in *.
  destruct (temp_runaway_check _ _ _ _ _ _ _ _ _) as [s1 c1]. cbn [fst snd] in *.
  destruct (IH s1 Hc1 Hall') as [Hn2 Hc2].
  destruct (checks cfg isbed id rs s1) as [s2 c2]. cbn [fst snd] in *.
  subst. auto.
Qed.

Lemma no_runaway_error_at_zero_target_witness :
  snd (checks example_config false 1
         [{| now := 3000; now' := 3000; target_temperature := of_Z 0;
             current_temperature := of_Z 250; output := of_Z 127 |}] initial) = [].
Proof.
  apply (no_runaway_error_at_zero_target example_config false 1 _ initial).
  - intros H. now contradiction H.
  - repeat constructor.
Defined.

(** *** The preheat check *)

Lemma uint8_small x : 0 <= x < 256 -> Machine.uint8 x = x.
Proof.
  intros H. unfold Machine.uint8, Machine.wrap_unsigned. change (2 ^ 8) with 256.
  now apply Z.mod_small.
Qed.

Lemma window_over_spec isbed c : window_over isbed c = (c >? preheat_window isbed).
Proof. reflexivity. Qed.

Lemma watch_calls cfg tgt cur out isbed id s :
  existsb is_preheat_error (snd (watch cfg tgt cur out isbed id s)) = false.
Proof.
  unfold watch. destruct (gt out _); [| reflexivity].
  destruct (in_range _ _ _ _); [reflexivity |].
  destruct (_ >? _); [| reflexivity]. cbn [snd]. destruct (_ >? _); reflexivity.
Qed.

Lemma watch_keeps_preheat cfg tgt cur out isbed id s :
  preheat_start (fst (watch cfg tgt cur out isbed id s)) = preheat_start s /\
  preheat_counter (fst (watch cfg tgt cur out isbed id s)) = preheat_counter s /\
  preheat_errors (fst (watch cfg tgt cur out isbed id s)) = preheat_errors s.
Proof.
  unfold watch. destruct (gt out _); [| auto].
  destruct (in_range _ _ _ _); [cbn; auto |].
  destruct (_ >? _); cbn; auto.
Qed.

Lemma activate_keeps_preheat cfg tgt cur isbed s :
  preheat_start (activate cfg tgt cur isbed s) = preheat_start s /\
  preheat_counter (activate cfg tgt cur isbed s) = preheat_counter s /\
  preheat_errors (activate cfg tgt cur isbed s) = preheat_errors s.
Proof. unfold activate. destruct (_ && _); cbn; auto. Qed.

Lemma window_values isbed :
  (preheat_window isbed = 8 /\ preheat_limit isbed = 5) \/
  (preheat_window isbed = 16 /\ preheat_limit isbed = 3).
Proof. destruct isbed; [right | left]; split; reflexivity. Qed.

(** One call: without an error the counters stay within their windows
    and the progress grows by at most one; an error presupposes the
    last check of the last tolerated window. *)
Lemma check_preheat_progress cfg tgt cur out isbed id now now' s :
  in_window isbed s ->
  let r := temp_runaway_check cfg tgt cur out isbed id now now' s in
  (existsb is_preheat_error (snd r) = true ->
     preheat_progress isbed s + 1 = preheat_checks isbed) /\
  (existsb is_preheat_error (snd r) = false ->
     in_window isbed (fst r) /\
     preheat_progress isbed (fst r) <= preheat_progress isbed s + 1).
Proof.
  intros (Hc & He) r. subst r.
  destruct (due now s) eqn:Hd.
  2:{ rewrite check_throttled by trivial. cbn [fst snd existsb].
      split; [discriminate |]. intros _. split; [split; trivial | lia]. }
  rewrite check_due by trivial. cbn [fst snd].
  rewrite existsb_app, watch_calls, orb_false_r.
  set (s1 := retarget tgt cur (restart out now' s)).
  assert (H1 : in_window isbed s1 /\ preheat_progress isbed s1 <= preheat_progress isbed s).
  { subst s1. unfold retarget, restart, in_window, preheat_progress. cbn [target].
    destruct (ne (target s) tgt); [destruct (gt tgt (of_Z 0)) |]; cbn; repeat split; lia. }
  destruct H1 as ((Hc1 & He1) & Hp1).
  destruct (watch_keeps_preheat cfg tgt cur out isbed id
              (activate cfg tgt cur isbed (fst (preheat tgt cur isbed id s1))))
    as (_ & Hwc & Hwe).
  destruct (activate_keeps_preheat cfg tgt cur isbed (fst (preheat tgt cur isbed id s1)))
    as (_ & Hac & Hae).
  unfold in_window, preheat_progress. rewrite Hwc, Hwe, Hac, Hae.
  unfold preheat_progress in Hp1. unfold preheat_checks.
  assert (Hstep : forall W L, preheat_window isbed = W -> preheat_limit isbed = L ->
            (W = 8 /\ L = 5) \/ (W = 16 /\ L = 3) ->
            let p := preheat tgt cur isbed id s1 in
            (existsb is_preheat_error (snd p) = true ->
               (W + 1) * preheat_errors s1 + preheat_counter s1 + 1 = (W + 1) * (L + 1)) /\
            (existsb is_preheat_error (snd p) = false ->
               (0 <= preheat_counter (fst p) <= W /\ 0 <= preheat_errors (fst p) <= L) /\
               (W + 1) * preheat_errors (fst p) + preheat_counter (fst p)
               <= (W + 1) * preheat_errors s1 + preheat_counter s1 + 1)).
  { intros W L HW HL HWL p. subst p. unfold in_window in Hc1, He1. rewrite HW in Hc1. rewrite HL in He1.
    unfold preheat.
    destruct (lt cur tgt && is_preheat (status s1));
      [| cbn [fst snd existsb]; split; [discriminate | intros _; lia]].
    cbv zeta. rewrite window_over_spec, HW.
    rewrite (uint8_small (preheat_counter s1 + 1)) by lia.
    destruct (Z.gtb_spec (preheat_counter s1 + 1) W) as [Hover | Hin];
      [| cbn [fst snd existsb preheat_counter preheat_errors];
         split; [discriminate | intros _; lia]].
    cbn [fst snd preheat_counter preheat_errors].
    change (if isbed then 3 else 5) with (preheat_limit isbed). rewrite HL.
    destruct (lt (sub cur (preheat_start s1)) (delta cur isbed)).
    - rewrite (uint8_small (preheat_errors s1 + 1)) by lia.
      destruct (Z.gtb_spec (preheat_errors s1 + 1) L) as [Hl | Hl].
      + cbn [existsb is_preheat_error snd orb]. split; [intros _ | discriminate].
        assert (preheat_errors s1 = L) by lia. assert (preheat_counter s1 = W) by lia. nia.
      + cbn [existsb]. split; [discriminate | intros _].
        assert (preheat_counter s1 = W) by lia. nia.
    - destruct (Z.gtb_spec 0 L) as [Hl | Hl]; [lia |].
      cbn [existsb]. split; [discriminate | intros _]. nia. }
  unfold preheat_progress in *. unfold in_window.
  specialize (Hstep _ _ eq_refl eq_refl ltac:(destruct isbed; [right | left]; split; reflexivity)).
  cbv zeta in Hstep. destruct Hstep as [Hs1 Hs2]. unfold preheat_checks.
  split.
  - intros E. specialize (Hs1 E). unfold in_window in Hc, He, Hc1, He1. nia.
  - intros E. specialize (Hs2 E). lia.
Qed.

(** X10.  No preheat error is raised before the 54th call (the 68th for
    the bed) from counters at zero, whatever the readings: a run of
    calls that is shorter than what the counters leave of these
    raises none. *)
Theorem preheat_not_before_windows
    (cfg : config) (isbed : bool) (id : Z) (rs : list reading) (s : slot) :
  in_window isbed s ->
  preheat_progress isbed s + Z.of_nat (length rs) < preheat_checks isbed ->
  existsb is_preheat_error (snd (checks cfg isbed id rs s)) = false.
Proof.
  revert s. induction rs as [|r rs IH]; intros s Hw Hn; cbn [checks]; [reflexivity |].
  pose proof (check_preheat_progress cfg (target_temperature r) (current_temperature r)
                (output r) isbed id (now r) (now' r) s Hw) as [Hr Hk].
  destruct (temp_runaway_check _ _ _ _ _ _ _ _ _) as [s1 c1]. cbn [fst snd length] in *.
  destruct (existsb is_preheat_error c1) eqn:E.
  - specialize (Hr eq_refl). lia.
  - destruct (Hk eq_refl) as [Hw1 Hp1].
    specialize (IH s1 Hw1 ltac:(lia)).
    destruct (checks cfg isbed id rs s1) as [s2 c2]. cbn [snd] in *.
    now rewrite existsb_app, E, IH.
Qed.

Lemma preheat_not_before_windows_witness :
  existsb is_preheat_error
    (snd (checks example_config false 1 (stuck_at 25 53) warming)) = false.
Proof.
  apply preheat_not_before_windows.
  - repeat split; simpl; lia.
  - vm_compute. reflexivity.
Defined.

Lemma sub_self_stalled (T : float) (isbed : bool) :
  finite T = true -> lt (sub T T) (delta T isbed) = true.
Proof.
  intros HT.
  assert (Hz : sub T T = S754_zero false).
  { destruct T as [[|] | | | sx m e]; try discriminate HT; try reflexivity.
    unfold sub, SFsub. cbv zeta. rewrite Z.sub_diag. reflexivity. }
  rewrite Hz. unfold delta.
  destruct isbed; [| reflexivity].
  destruct (gt T (of_Z 105)); [vm_compute; reflexivity |].
  destruct (gt T (of_Z 90)); reflexivity.
Qed.

(** One call on the reading of a heater that does not heat: an error,
    or one step of progress with everything else as before. *)
Lemma check_not_heating cfg isbed id T r s :
  status s = TempRunaway_PREHEAT -> in_window isbed s -> preheat_start s = T ->
  finite T = true -> due (now r) s = true -> not_heating cfg isbed s T r ->
  let p := temp_runaway_check cfg (target_temperature r) (current_temperature r) (output r)
             isbed id (now r) (now' r) s in
  timer (fst p) = Machine.uint32 (now' r) /\
  (existsb is_preheat_error (snd p) = true \/
   (status (fst p) = TempRunaway_PREHEAT /\ in_window isbed (fst p) /\
    preheat_start (fst p) = T /\ target (fst p) = target s /\
    preheat_progress isbed (fst p) = preheat_progress isbed s + 1)).
Proof.
  intros Hs (Hc & He) Hst HT Hd (Hne & Hcur & Hlt & Hab) p. subst p.
  rewrite check_due by trivial. rewrite Hcur.
  set (tgt := target_temperature r) in *.
  assert (E1 : retarget tgt T (restart (output r) (now' r) s) = restart (output r) (now' r) s).
  { unfold retarget. cbn [restart target]. now rewrite Hne. }
  rewrite E1. set (s0 := restart (output r) (now' r) s).
  assert (Hwatch : forall s2, status s2 = TempRunaway_PREHEAT ->
            watch cfg tgt T (output r) isbed id (activate cfg tgt T isbed s2) = (s2, [])).
  { intros s2 H2. unfold activate. rewrite Hab. cbn [andb].
    unfold watch, in_range. rewrite Hab, H2. cbn [andb to_uint8].
    destruct (gt (output r) (of_Z 0)); reflexivity. }
  unfold preheat. rewrite Hlt. subst s0. cbn [restart status preheat_counter preheat_errors
    preheat_start target timer error_counter]. rewrite Hs. cbn [andb is_preheat]. cbv zeta.
  rewrite window_over_spec.
  change (if isbed then 3 else 5) with (preheat_limit isbed).
  unfold in_window, preheat_progress, preheat_checks in *.
  pose proof (window_values isbed) as HWL.
  set (W := preheat_window isbed) in *. set (L := preheat_limit isbed) in *.
  clearbody W L.
  rewrite (uint8_small (preheat_counter s + 1)) by lia.
  destruct (Z.gtb_spec (preheat_counter s + 1) W) as [Hover | Hin].
  - rewrite Hst, sub_self_stalled by trivial.
    rewrite (uint8_small (preheat_errors s + 1)) by lia.
    cbn [fst snd].
    destruct (Z.gtb_spec (preheat_errors s + 1) L) as [Hl | Hl].
    + rewrite Hwatch by reflexivity. cbn [fst snd timer existsb app is_preheat_error orb].
      split; [reflexivity | left; reflexivity].
    + rewrite Hwatch by reflexivity.
      cbn [fst snd timer status preheat_counter preheat_errors preheat_start target].
      split; [reflexivity | right]. repeat split; try reflexivity; try lia; nia.
  - cbn [fst snd]. rewrite Hwatch by (cbn; trivial).
    cbn [fst snd timer status preheat_counter preheat_errors preheat_start target].
    split; [reflexivity | right]. repeat split; try reflexivity; try lia; trivial.
Qed.

(** X11.  A heater in preheat whose temperature does not move (54 checks
    for the hotend, 68 for the bed, less the progress already made) is
    reported with a preheat error. *)
Theorem preheat_error_when_not_heating
    (cfg : config) (isbed : bool) (id : Z) (celsius : float) (rs : list reading) (s : slot) :
  status s = TempRunaway_PREHEAT -> in_window isbed s -> preheat_start s = celsius ->
  finite celsius = true -> all_due rs (timer s) = true ->
  Forall (not_heating cfg isbed s celsius) rs ->
  preheat_checks isbed <= preheat_progress isbed s + Z.of_nat (length rs) ->
  existsb is_preheat_error (snd (checks cfg isbed id rs s)) = true.
Proof.
  revert s. induction rs as [|r rs IH]; intros s Hs Hw Hst HT Hdue Hall Hn.
  - exfalso. destruct Hw as (Hc & He). unfold preheat_checks, preheat_progress in Hn.
    cbn [length] in Hn. destruct (window_values isbed) as [[HW HL] | [HW HL]];
      rewrite HW, HL in *; lia.
  - cbn [all_due] in Hdue. apply andb_prop in Hdue as [Hd Hdue].
    inversion Hall as [|? ? Hr Hrs]; subst.
    pose proof (check_not_heating cfg isbed id (preheat_start s) r s Hs Hw eq_refl HT Hd Hr)
      as [Ht Hcase].
    cbn [checks].
    destruct (temp_runaway_check _ _ _ _ _ _ _ _ _) as [s1 c1]. cbn [fst snd] in *.
    destruct (checks cfg isbed id rs s1) as [s2 c2] eqn:E2. cbn [snd].
    rewrite existsb_app.
    destruct Hcase as [Hraised | (Hs1 & Hw1 & Hst1 & Htg & Hp)].
    + now rewrite Hraised.
    + apply orb_true_iff. right.
      specialize (IH s1 Hs1 Hw1 Hst1 HT).
      rewrite Ht in IH. specialize (IH Hdue).
      assert (Hall1 : Forall (not_heating cfg isbed s1 (preheat_start s)) rs).
      { eapply Forall_impl; [exact Hrs |]. intros r0. unfold not_heating. now rewrite Htg. }
      specialize (IH Hall1 ltac:(cbn [length] in Hn; lia)).
      now rewrite E2 in IH.
Qed.

Lemma preheat_error_when_not_heating_witness :
  existsb is_preheat_error
    (snd (checks example_config false 1 (stuck_at 25 54) warming)) = true.
Proof.
  apply (preheat_error_when_not_heating example_config false 1 (of_Z 25)).
  - reflexivity.
  - repeat split; simpl; lia.
  - reflexivity.
  - reflexivity.
  - vm_compute. reflexivity.
  - unfold stuck_at. apply Forall_map, Forall_forall. intros k _.
    repeat split; vm_compute; reflexivity.
  - vm_compute. discriminate.
Defined.

End RunawayFacts.

(** ** The raw limits of hotend 0 *)

Module LimitsFacts.
Import Rounding RoundingFacts Conversion ConversionFacts Limits.

Local Abbreviation lookup32 :=
  (Conversion.lookup_from F32.float F32.of_Z F32.add F32.mul F32.div).

Lemma ltb_valK f g : normal f -> normal g -> SFltb f g = (valK f <? valK g).
Proof.
  intros Hf Hg. unfold SFltb. rewrite (compare_valK f g Hf Hg). unfold Z.ltb.
  destruct (valK f ?= valK g); reflexivity.
Qed.

(** At and below the first key the conversion stays on the far side
    of the first row's temperature. *)
Lemma lookup_from_before_first32 up prev rest raw :
  rows_ok up prev rest -> small raw -> raw <= fst prev ->
  dir_leZ up (valK (lookup32 prev rest raw)) (snd prev * 2 ^ K).
Proof.
  intros Hok Hs Hraw. destruct rest as [|cur rest]; simpl.
  - destruct Hok as (_ & _ & Hsm). inversion Hsm as [|? ? [? ?] ?]; subst.
    rewrite (proj2 (of_Z_small (snd prev) ltac:(assumption))). apply dir_leZ_refl.
  - apply rows_ok_tail in Hok as (Hk & Ht & Hs1 & Hs2 & Hs3 & Hs4 & Hok).
    destruct (Z.gtb_spec (fst cur) raw); [| lia].
    destruct (interpolate_value prev cur) as (my & ey & Hey & _ & Hiv); trivial.
    rewrite (proj2 (Hiv raw Hs)).
    rewrite <- (IV_zero (snd prev) (snd cur - snd prev) my ey).
    + apply IV_monotone; [exact Hey | now apply dir_leZ_diff | lia].
    + unfold small in Hs2. change (2 ^ 24) with 16777216. lia.
Qed.

Section Thermistor.

(** Hotend 0 has a thermistor table whose temperatures fall as the
    raw count rises, [HEATER_0_RAW_LO_TEMP] being the larger count. *)
Variable cfg : config.
Variable first : entry.
Variable rest : table.
Hypothesis Hextruders : 0 < EXTRUDERS (conversion cfg).
Hypothesis Htable : heater_ttbl_map (conversion cfg) !! 0%nat = Some (Some (first :: rest)).
Hypothesis Hrows : rows_ok false first rest.
Hypothesis Hdir : HEATER_0_RAW_HI_TEMP cfg < HEATER_0_RAW_LO_TEMP cfg.
Hypothesis Hstep : 0 < OVERSAMPLENR (conversion cfg) <= 16384.

Lemma convert raw :
  analog2temp (conversion cfg) raw 0 = Some (lookup32 first rest raw).
Proof.
  unfold analog2temp.
  now rewrite (analog2temp_table _ _ _ _ _ (conversion cfg) raw 0 (first :: rest)) by (trivial; lia).
Qed.

Lemma min_step_down raw :
  -16384 <= raw - OVERSAMPLENR (conversion cfg) -> raw <= 16383 ->
  min_step cfg raw = raw - OVERSAMPLENR (conversion cfg).
Proof.
  intros. unfold min_step. destruct (Z.ltb_spec (HEATER_0_RAW_LO_TEMP cfg)
    (HEATER_0_RAW_HI_TEMP cfg)); [lia |]. apply MachineFacts.int16_id. lia.
Qed.

Lemma max_step_up raw :
  -16384 <= raw -> raw + OVERSAMPLENR (conversion cfg) <= 16383 ->
  max_step cfg raw = raw + OVERSAMPLENR (conversion cfg).
Proof.
  intros. unfold max_step. destruct (Z.ltb_spec (HEATER_0_RAW_LO_TEMP cfg)
    (HEATER_0_RAW_HI_TEMP cfg)); [lia |]. apply MachineFacts.int16_id. lia.
Qed.

(** The comparisons of a converted temperature with a limit, by values. *)
Lemma below_limit raw limit :
  small raw -> small limit ->
  F32.lt (lookup32 first rest raw) (F32.of_Z limit)
  = (valK (lookup32 first rest raw) <? limit * 2 ^ K).
Proof.
  intros Hr Hl. destruct (of_Z_small limit Hl) as [Hn Hv].
  unfold F32.lt. rewrite ltb_valK, Hv; trivial. now apply (lookup_from_normal false).
Qed.

Lemma above_limit raw limit :
  small raw -> small limit ->
  F32.gt (lookup32 first rest raw) (F32.of_Z limit)
  = (limit * 2 ^ K <? valK (lookup32 first rest raw)).
Proof.
  intros Hr Hl. destruct (of_Z_small limit Hl) as [Hn Hv].
  unfold F32.gt. rewrite ltb_valK, Hv; trivial. now apply (lookup_from_normal false).
Qed.

Lemma falls raw1 raw2 :
  small raw1 -> small raw2 -> raw1 <= raw2 ->
  valK (lookup32 first rest raw2) <= valK (lookup32 first rest raw1).
Proof. intros H1 H2 H. exact (lookup_from_monotone32 false first rest raw1 raw2 Hrows H1 H2 H). Qed.

(** The loop for [minttemp_raw[0]] ends, at a count whose temperature
    is not below the limit. *)
Lemma calibrate_min_ends :
  0 <= fst first -> small (HEATER_0_MINTEMP cfg) -> HEATER_0_MINTEMP cfg <= snd first ->
  forall (n : nat) (raw : Z),
  fst first - OVERSAMPLENR (conversion cfg) < raw <= 16383 ->
  raw <= fst first + OVERSAMPLENR (conversion cfg) * Z.of_nat n ->
  exists limit,
    calibrate cfg (fun celsius => F32.lt celsius (F32.of_Z (HEATER_0_MINTEMP cfg)))
              (min_step cfg) (S n) raw = Some limit /\
    small limit /\
    HEATER_0_MINTEMP cfg * 2 ^ K <= valK (lookup32 first rest limit).
Proof.
  intros H0 Hm Hhot. assert (HK : 0 < 2 ^ K) by reflexivity.
  induction n as [|n IH]; intros raw Hraw Hn.
  - assert (Hs : small raw) by (unfold small; lia).
    cbn [calibrate]. rewrite convert, below_limit by trivial.
    pose proof (lookup_from_before_first32 false first rest raw Hrows Hs ltac:(lia)) as Hb.
    cbn [dir_leZ] in Hb.
    destruct (Z.ltb_spec (valK (lookup32 first rest raw)) (HEATER_0_MINTEMP cfg * 2 ^ K));
      [nia |].
    exists raw. auto.
  - assert (Hs : small raw) by (unfold small; lia).
    change (calibrate cfg ?p ?s (S (S n)) raw)
      with (match analog2temp (conversion cfg) raw 0 with
            | None => None
            | Some celsius => if p celsius then calibrate cfg p s (S n) (s raw) else Some raw
            end).
    rewrite convert, below_limit by trivial.
    destruct (Z.ltb_spec (valK (lookup32 first rest raw)) (HEATER_0_MINTEMP cfg * 2 ^ K))
      as [Hlt | Hge]; [| exists raw; auto].
    assert (Hpast : fst first < raw).
    { destruct (Z.lt_ge_cases (fst first) raw) as [? | Hle]; trivial.
      pose proof (lookup_from_before_first32 false first rest raw Hrows Hs Hle) as Hb.
      cbn [dir_leZ] in Hb. nia. }
    rewrite min_step_down by lia. apply IH; lia.
Qed.

(** The loop for [maxttemp_raw[0]] ends, at a count whose temperature
    is not above the limit. *)
Lemma calibrate_max_ends :
  fst (last_from first rest) + OVERSAMPLENR (conversion cfg) <= 16384 ->
  small (HEATER_0_MAXTEMP cfg) -> snd (last_from first rest) <= HEATER_0_MAXTEMP cfg ->
  forall (n : nat) (raw : Z),
  -16384 <= raw < fst (last_from first rest) + OVERSAMPLENR (conversion cfg) ->
  fst (last_from first rest) <= raw + OVERSAMPLENR (conversion cfg) * Z.of_nat n ->
  exists limit,
    calibrate cfg (fun celsius => F32.gt celsius (F32.of_Z (HEATER_0_MAXTEMP cfg)))
              (max_step cfg) (S n) raw = Some limit /\
    small limit /\
    valK (lookup32 first rest limit) <= HEATER_0_MAXTEMP cfg * 2 ^ K.
Proof.
  intros Hlast Hm Hcold. assert (HK : 0 < 2 ^ K) by reflexivity.
  assert (Hsat : forall raw, fst (last_from first rest) <= raw ->
            valK (lookup32 first rest raw) = snd (last_from first rest) * 2 ^ K).
  { intros raw Hraw. rewrite lookup_from_saturates by (trivial; apply Hrows).
    apply of_Z_small. destruct Hrows as (_ & _ & Hsm).
    clear - Hsm. revert first Hsm. induction rest as [|cur r IH]; intros first Hsm; simpl.
    - inversion Hsm as [|? ? [? ?] ?]; subst. trivial.
    - apply IH. now inversion Hsm. }
  induction n as [|n IH]; intros raw Hraw Hn.
  - assert (Hs : small raw) by (unfold small; lia).
    cbn [calibrate]. rewrite convert, above_limit by trivial.
    rewrite Hsat by lia.
    destruct (Z.ltb_spec (HEATER_0_MAXTEMP cfg * 2 ^ K) (snd (last_from first rest) * 2 ^ K));
      [nia |].
    exists raw. rewrite Hsat by lia. split; [reflexivity |]. split; [trivial | nia].
  - assert (Hs : small raw) by (unfold small; lia).
    change (calibrate cfg ?p ?s (S (S n)) raw)
      with (match analog2temp (conversion cfg) raw 0 with
            | None => None
            | Some celsius => if p celsius then calibrate cfg p s (S n) (s raw) else Some raw
            end).
    rewrite convert, above_limit by trivial.
    destruct (Z.ltb_spec (HEATER_0_MAXTEMP cfg * 2 ^ K) (valK (lookup32 first rest raw)))
      as [Hgt | Hle]; [| exists raw; auto].
    assert (Hbefore : raw < fst (last_from first rest)).
    { destruct (Z.lt_ge_cases raw (fst (last_from first rest))) as [? | Hle]; trivial.
      rewrite Hsat in Hgt by lia. nia. }
    rewrite max_step_up by lia. apply IH; lia.
Qed.

End Thermistor.

(** X12.  [soft_pwm_init] and [check_min_temp_heater0].  For a thermistor
    table whose temperatures fall as the raw count rises, the loop
    that sets [minttemp_raw[0]] ends, and with the limit it leaves
    every raw count that converts to a temperature below
    [HEATER_0_MINTEMP] raises the min-temp error of hotend 0. *)
Theorem mintemp_is_caught (cfg : config) (first : entry) (rest : table) :
  0 < EXTRUDERS (conversion cfg) ->
  heater_ttbl_map (conversion cfg) !! 0%nat = Some (Some (first :: rest)) ->
  keys_increasing (first :: rest) -> temps_monotone false (first :: rest) ->
  table_small (first :: rest) ->
  0 < OVERSAMPLENR (conversion cfg) <= 16384 ->
  HEATER_0_RAW_HI_TEMP cfg < HEATER_0_RAW_LO_TEMP cfg ->
  0 <= fst first <= HEATER_0_RAW_LO_TEMP cfg -> HEATER_0_RAW_LO_TEMP cfg <= 16383 ->
  small (HEATER_0_MINTEMP cfg) -> HEATER_0_MINTEMP cfg <= snd first ->
  exists fuel minttemp_raw,
    minttemp_raw_0 cfg fuel = Some minttemp_raw /\
    forall raw celsius,
      small raw -> analog2temp (conversion cfg) raw 0 = Some celsius ->
      F32.lt celsius (F32.of_Z (HEATER_0_MINTEMP cfg)) = true ->
      check_min_temp_heater0 cfg minttemp_raw raw
      = [(TempErrorSource.hotend, 0, TempErrorType.min)].
Proof.
  intros He Htbl Hk Ht Hsm Hovs Hdir Hlo Hlo' Hm Hhot.
  assert (Hrows : rows_ok false first rest) by now split.
  destruct (calibrate_min_ends cfg first rest He Htbl Hrows Hdir Hovs ltac:(lia) Hm Hhot
              (Z.to_nat (HEATER_0_RAW_LO_TEMP cfg - fst first)) (HEATER_0_RAW_LO_TEMP cfg))
    as (limit & Hcal & Hsl & Hval).
  { lia. }
  { nia. }
  exists (S (Z.to_nat (HEATER_0_RAW_LO_TEMP cfg - fst first))), limit.
  split; [exact Hcal |].
  intros raw celsius Hs Hconv Hlt.
  rewrite (convert cfg first rest He Htbl) in Hconv. injection Hconv as <-.
  rewrite (below_limit first rest Hrows) in Hlt by trivial. apply Z.ltb_lt in Hlt.
  unfold check_min_temp_heater0.
  destruct (Z.gtb_spec (HEATER_0_RAW_LO_TEMP cfg) (HEATER_0_RAW_HI_TEMP cfg)); [| lia].
  destruct (Z.geb_spec raw limit) as [? | Hbelow]; [reflexivity |].
  pose proof (falls first rest Hrows raw limit Hs Hsl ltac:(lia)). lia.
Qed.

(** X13.  [soft_pwm_init] and [check_max_temp_raw].  Likewise the loop that
    sets [maxttemp_raw[0]] ends, and with the limit it leaves every
    raw count that converts to a temperature above [HEATER_0_MAXTEMP]
    raises the max-temp error of hotend 0. *)
Theorem maxtemp_is_caught (cfg : config) (first : entry) (rest : table) :
  0 < EXTRUDERS (conversion cfg) ->
  heater_ttbl_map (conversion cfg) !! 0%nat = Some (Some (first :: rest)) ->
  keys_increasing (first :: rest) -> temps_monotone false (first :: rest) ->
  table_small (first :: rest) ->
  0 < OVERSAMPLENR (conversion cfg) ->
  HEATER_0_RAW_HI_TEMP cfg < HEATER_0_RAW_LO_TEMP cfg ->
  0 <= HEATER_0_RAW_HI_TEMP cfg <= fst (last_from first rest) ->
  fst (last_from first rest) + OVERSAMPLENR (conversion cfg) <= 16384 ->
  small (HEATER_0_MAXTEMP cfg) -> snd (last_from first rest) <= HEATER_0_MAXTEMP cfg ->
  exists fuel maxttemp_raw,
    maxttemp_raw_0 cfg fuel = Some maxttemp_raw /\
    forall raw celsius,
      small raw -> analog2temp (conversion cfg) raw 0 = Some celsius ->
      F32.gt celsius (F32.of_Z (HEATER_0_MAXTEMP cfg)) = true ->
      check_max_temp_raw_heater cfg maxttemp_raw raw
      = [(TempErrorSource.hotend, 0, TempErrorType.max)].
Proof.
  intros He Htbl Hk Ht Hsm Hovs Hdir Hhi Hlast Hm Hcold.
  assert (Hrows : rows_ok false first rest) by now split.
  assert (Hovs' : 0 < OVERSAMPLENR (conversion cfg) <= 16384).
  { lia. }
  destruct (calibrate_max_ends cfg first rest He Htbl Hrows Hdir Hovs' Hlast Hm Hcold
              (Z.to_nat (fst (last_from first rest) - HEATER_0_RAW_HI_TEMP cfg))
              (HEATER_0_RAW_HI_TEMP cfg))
    as (limit & Hcal & Hsl & Hval).
  { lia. }
  { nia. }
  exists (S (Z.to_nat (fst (last_from first rest) - HEATER_0_RAW_HI_TEMP cfg))), limit.
  split; [exact Hcal |].
  intros raw celsius Hs Hconv Hgt.
  rewrite (convert cfg first rest He Htbl) in Hconv. injection Hconv as <-.
  rewrite (above_limit first rest Hrows) in Hgt by trivial. apply Z.ltb_lt in Hgt.
  unfold check_max_temp_raw_heater.
  destruct (Z.gtb_spec (HEATER_0_RAW_LO_TEMP cfg) (HEATER_0_RAW_HI_TEMP cfg)); [| lia].
  destruct (Z.leb_spec raw limit) as [? | Habove]; [reflexivity |].
  pose proof (falls first rest Hrows limit raw Hsl Hs ltac:(lia)). lia.
Qed.

Lemma example_rows :
  keys_increasing ((368, 300) :: tl example_table) /\
  temps_monotone false ((368, 300) :: tl example_table) /\
  table_small ((368, 300) :: tl example_table).
Proof.
  split; [| split].
  - cbv. repeat split.
  - cbv. repeat split; discriminate.
  - unfold table_small, small. repeat constructor; simpl; lia.
Qed.

Lemma mintemp_is_caught_witness :
  exists fuel minttemp_raw,
    minttemp_raw_0 example_config fuel = Some minttemp_raw /\
    forall raw celsius,
      small raw -> analog2temp (conversion example_config) raw 0 = Some celsius ->
      F32.lt celsius (F32.of_Z (HEATER_0_MINTEMP example_config)) = true ->
      check_min_temp_heater0 example_config minttemp_raw raw
      = [(TempErrorSource.hotend, 0, TempErrorType.min)].
Proof.
  destruct example_rows as (Hk & Ht & Hs).
  apply (mintemp_is_caught example_config (368, 300) (tl example_table));
    trivial; try reflexivity; simpl; unfold small; lia.
Defined.

Lemma maxtemp_is_caught_witness :
  exists fuel maxttemp_raw,
    maxttemp_raw_0 example_config fuel = Some maxttemp_raw /\
    forall raw celsius,
      small raw -> analog2temp (conversion example_config) raw 0 = Some celsius ->
      F32.gt celsius (F32.of_Z (HEATER_0_MAXTEMP example_config)) = true ->
      check_max_temp_raw_heater example_config maxttemp_raw raw
      = [(TempErrorSource.hotend, 0, TempErrorType.max)].
Proof.
  destruct example_rows as (Hk & Ht & Hs).
  apply (maxtemp_is_caught example_config (368, 300) (tl example_table));
    trivial; try reflexivity; simpl; unfold small; lia.
Defined.

End LimitsFacts.

(** ** The handling of a latched error *)

Module ErrorHandlingFacts.
Import ErrorState ErrorStateFacts ErrorHandling.

(** [handle_temp_error] changes the word in one case only. *)
Lemma handle_word s :
  fst (handle_temp_error s) =
  if (type s =? 4) && negb (assert s) then cleared else s.
Proof.
  unfold handle_temp_error.
  destruct (Z.eqb_spec (type s) 4) as [E | E]; cbn [andb].
  - rewrite E. destruct (assert s); reflexivity.
  - destruct (type s) as [|p|p]; [| | reflexivity].
    + destruct (source s) as [|[[q|q|]|[q|q|]|]|]; reflexivity.
    + destruct p as [[p|p|]|[[p|p|]|[p|p|]|]|]; try reflexivity; try contradiction;
        destruct (source s) as [|[[q|q|]|[q|q|]|]|]; reflexivity.
Qed.

Section Cycle.

Variable world : Type.
Variable save_recovery_values : Z -> world -> world.
Variable disable_heater : world -> world.
Variable hotendFanSetFullSpeed : world -> world.
Variable relay_to : relay -> world -> world.

Local Abbreviation apply :=
  (apply world save_recovery_values disable_heater hotendFanSetFullSpeed relay_to).
Local Abbreviation run :=
  (run world save_recovery_values disable_heater hotendFanSetFullSpeed relay_to).
Local Abbreviation raise_all :=
  (raise_all world save_recovery_values disable_heater hotendFanSetFullSpeed).

Lemma apply_handled st :
  err (apply st handled) =
  if (v (err st) =? 0) then err st
  else if (type (err st) =? 4) && negb (assert (err st)) then cleared else err st.
Proof.
  cbn [ErrorHandling.apply]. destruct (v (err st) =? 0); [reflexivity |].
  rewrite <- handle_word. destruct (handle_temp_error (err st)); reflexivity.
Qed.

Lemma raise_well_formed st c :
  well_formed (err st) ->
  well_formed (err (raise world save_recovery_values disable_heater hotendFanSetFullSpeed st c)).
Proof.
  intros (Hs & Hi & Ht). destruct c as [[src idx] ty]. unfold well_formed. simpl.
  destruct (negb (error (err st)) || (TempErrorType.to_uint8 ty <? type (err st))); simpl.
  - rewrite type_ord_fits, source_ord_fits.
    assert (0 <= Z.land (Machine.uint8 idx) 1 < 2).
    { change 1 with (Z.ones 1). rewrite Z.land_ones by lia. apply Z.mod_pos_bound. lia. }
    destruct src, ty; simpl; lia.
  - lia.
Qed.

Lemma run_app s1 s2 st : run (s1 ++ s2) st = run s2 (run s1 st).
Proof. apply fold_left_app. Qed.

Lemma run_cons o steps st : run (o :: steps) st = run steps (apply st o).
Proof. reflexivity. Qed.

Lemma run_raised cs st :
  run (map raised cs) st = raise_all cs st.
Proof.
  revert st. induction cs as [|c cs IH]; intros st; [reflexivity |].
  cbn [map ErrorHandling.run fold_left ErrorState.raise_all]. apply IH.
Qed.

Lemma raise_all_assert cs st :
  cs <> [] -> assert (err (raise_all cs st)) = true /\ error (err (raise_all cs st)) = true.
Proof.
  intros Hne. destruct (exists_last Hne) as (cs' & c & ->).
  unfold ErrorState.raise_all. rewrite fold_left_app. cbn [fold_left].
  split; [apply raise_assert | apply raise_error].
Qed.

(** X15.  With an error latched, one pass of [temp_mgr_isr] followed by one
    pass of [manage_heater] leaves the error word at zero exactly
    when no check has raised an error in that pass and the latched
    error is one of the thermal model. *)
Theorem error_cleared_only_for_model (cs : list call) (st : state world) :
  well_formed (err st) -> error (err st) = true ->
  err (run (cycle cs) st) = cleared <-> cs = [] /\ type (err st) = 4.
Proof.
  intros Hw He. unfold cycle.
  rewrite run_cons, run_app, run_raised.
  set (st0 := apply st assertion_cleared).
  assert (H0 : well_formed (err st0) /\ error (err st0) = true /\ assert (err st0) = false /\
               type (err st0) = type (err st)).
  { subst st0. cbn. auto. }
  destruct H0 as (Hw0 & He0 & Ha0 & Ht0).
  rewrite run_cons. cbn [ErrorHandling.run fold_left]. rewrite apply_handled.
  destruct cs as [|c cs].
  - cbn [ErrorState.raise_all fold_left].
    destruct (Z.eqb_spec (v (err st0)) 0) as [Hv | _].
    { exfalso. now apply (ManagerFacts.error_word_nonzero (err st0)). }
    rewrite Ha0, Ht0. cbn [negb]. rewrite andb_true_r.
    destruct (Z.eqb_spec (type (err st)) 4) as [E | E].
    + tauto.
    + split; [| tauto]. intros Hc. rewrite Hc in He0. discriminate.
  - destruct (raise_all_assert (c :: cs) st0 ltac:(discriminate)) as [Ha1 He1].
    rewrite Ha1. cbn [negb]. rewrite andb_false_r.
    split; [| intros [? _]; discriminate].
    intros Hc. exfalso.
    destruct (v _ =? 0); rewrite Hc in He1; discriminate.
Qed.

End Cycle.

Section Interleaving.

Variable world : Type.
Variable save_recovery_values : Z -> world -> world.
Variable disable_heater : world -> world.
Variable hotendFanSetFullSpeed : world -> world.

Local Abbreviation access_step :=
  (access_step world save_recovery_values disable_heater hotendFanSetFullSpeed).
Local Abbreviation interleaved :=
  (interleaved world save_recovery_values disable_heater hotendFanSetFullSpeed).

(** One access keeps a latched error other than a model error, the
    foreground being clear of the model case. *)
Lemma access_latched m a :
  well_formed (err (memory m)) -> error (err (memory m)) = true ->
  type (err (memory m)) < 4 -> clear_of_model (standing m) ->
  well_formed (err (memory (access_step m a))) /\
  error (err (memory (access_step m a))) = true /\
  type (err (memory (access_step m a))) <= type (err (memory m)) /\
  clear_of_model (standing (access_step m a)).
Proof.
  intros Hw He Ht [Hp1 Hp2]. destruct a as [c | | | f]; cbn [ErrorHandling.access_step memory standing].
  - split; [now apply raise_well_formed |]. split; [apply raise_error |].
    split; [rewrite raise_type, He; lia | split; assumption].
  - cbn. split; [exact Hw |]. split; [exact He |]. split; [lia | split; assumption].
  - unfold foreground_access.
    destruct (standing m); cbn [memory standing]; try contradiction.
    + split; [exact Hw |]. split; [exact He |]. split; [lia |].
      destruct (v _ =? 0); split; discriminate.
    + split; [exact Hw |]. split; [exact He |]. split; [lia |].
      destruct (type (err (memory m))) as [|p|p]; [split; discriminate | | split; discriminate].
      destruct p as [[p|p|]|[p|[p|p|]|]|]; split; discriminate.
    + split; [exact Hw |]. split; [exact He |]. split; [lia |]. split; discriminate.
  - cbn. split; [exact Hw |]. split; [exact He |]. split; [lia | split; assumption].
Qed.

(** X14.  Once a max-temp, min-temp, preheat or runaway error is latched
    and the foreground is not in the model case of
    [handle_temp_error], nothing clears it or lowers its priority:
    however the calls of [set_temp_error] and the clearings of
    [assert] by the ISR fall between the accesses of the foreground in
    [manage_heater] and [handle_temp_error], the [error] flag is still
    set, the recorded type has the same or a higher priority, and the
    whole word is not zero. *)
Theorem serious_error_stays_latched (accesses : list (access world)) (m : machine world) :
  well_formed (err (memory m)) -> error (err (memory m)) = true ->
  type (err (memory m)) < 4 -> clear_of_model (standing m) ->
  error (err (memory (interleaved accesses m))) = true /\
  type (err (memory (interleaved accesses m))) <= type (err (memory m)) /\
  v (err (memory (interleaved accesses m))) <> 0.
Proof.
  revert m. induction accesses as [|a accesses IH]; intros m Hw He Ht Hp;
    cbn [ErrorHandling.interleaved fold_left].
  - split; [exact He |]. split; [lia |]. now apply ManagerFacts.error_word_nonzero.
  - destruct (access_latched m a Hw He Ht Hp) as (Hw1 & He1 & Ht1 & Hp1).
    destruct (IH (access_step m a) Hw1 He1 ltac:(lia) Hp1) as (He2 & Ht2 & Hv2).
    unfold ErrorHandling.interleaved in *. split; [exact He2 |]. split; [lia | exact Hv2].
Qed.

Lemma interleaved_app a1 a2 m : interleaved (a1 ++ a2) m = interleaved a2 (interleaved a1 m).
Proof. apply fold_left_app. Qed.

Lemma isr_raises_standing cs : forall m,
  standing (interleaved (map isr_raises cs) m) = standing m.
Proof.
  induction cs as [|c cs IH]; intros m; [reflexivity |].
  cbn [map ErrorHandling.interleaved fold_left].
  fold (interleaved (map isr_raises cs) (access_step m (isr_raises c))).
  now rewrite IH.
Qed.

(** The store [temp_error_state.v = 0]. *)
Lemma store_clears m :
  standing m = clearing -> err (memory (interleaved [foreground] m)) = cleared.
Proof.
  intros Hs. cbn [ErrorHandling.interleaved fold_left ErrorHandling.access_step].
  unfold foreground_access. now rewrite Hs.
Qed.

(** X26.  A model error that is no longer asserted takes the foreground,
    in three accesses, to the store [temp_error_state.v = 0]; a pass of
    [temp_mgr_isr] that falls between the read of [assert] and that
    store loses every error it raises: the word is zero afterwards. *)
Theorem model_clear_wipes_new_errors (cs : list call) (m : machine world) :
  well_formed (err (memory m)) -> error (err (memory m)) = true ->
  type (err (memory m)) = 4 -> assert (err (memory m)) = false ->
  standing m = outside ->
  standing (interleaved [foreground; foreground; foreground] m) = clearing /\
  err (memory (interleaved ([foreground; foreground; foreground] ++ isr_pass cs
                              ++ [foreground]) m)) = cleared.
Proof.
  intros Hw He Ht Ha Hs.
  assert (H3 : interleaved [foreground; foreground; foreground] m
               = {| memory := memory m; standing := clearing |}).
  { cbn [ErrorHandling.interleaved fold_left ErrorHandling.access_step].
    unfold foreground_access at 3. rewrite Hs.
    destruct (Z.eqb_spec (v (err (memory m))) 0) as [Hv | _].
    { exfalso. now apply (ManagerFacts.error_word_nonzero (err (memory m))). }
    unfold foreground_access at 2. cbn [standing memory]. rewrite Ht.
    unfold foreground_access. cbn [standing memory]. now rewrite Ha. }
  split; [now rewrite H3 |].
  rewrite interleaved_app, H3, interleaved_app.
  apply store_clears. unfold isr_pass.
  change (isr_clears_assertion :: map isr_raises cs)
    with ([isr_clears_assertion] ++ map (@isr_raises world) cs).
  rewrite interleaved_app, isr_raises_standing. reflexivity.
Qed.

End Interleaving.

Lemma serious_error_stays_latched_witness :
  let m := interleaved unit (fun _ w => w) (fun w => w) (fun w => w)
             [foreground; foreground; isr_clears_assertion; foreground;
              isr_raises (TempErrorSource.bed, 0, TempErrorType.model); foreground]
             {| memory := {| err := mintemp_latched; rest := () |}; standing := outside |} in
  error (err (memory m)) = true /\ type (err (memory m)) <= 1 /\ v (err (memory m)) <> 0.
Proof.
  intros m. subst m.
  apply (serious_error_stays_latched unit (fun _ w => w) (fun w => w) (fun w => w)).
  - unfold well_formed. simpl. lia.
  - reflexivity.
  - simpl. lia.
  - split; discriminate.
Defined.

Lemma error_cleared_only_for_model_witness :
  err (run unit (fun _ w => w) (fun w => w) (fun w => w) (fun _ w => w)
         (cycle []) {| err := model_latched; rest := () |}) = cleared.
Proof.
  apply (proj2 (error_cleared_only_for_model unit (fun _ w => w) (fun w => w) (fun w => w)
                  (fun _ w => w) [] {| err := model_latched; rest := () |}
                  ltac:(unfold well_formed; simpl; lia) eq_refl)).
  split; reflexivity.
Defined.

Lemma model_clear_wipes_new_errors_witness :
  err (memory (interleaved unit (fun _ w => w) (fun w => w) (fun w => w)
                 ([foreground; foreground; foreground]
                  ++ isr_pass [(TempErrorSource.hotend, 0, TempErrorType.max)]
                  ++ [foreground])
                 {| memory := {| err := model_unasserted; rest := () |};
                    standing := outside |})) = cleared.
Proof.
  apply (model_clear_wipes_new_errors unit (fun _ w => w) (fun w => w) (fun w => w)
           [(TempErrorSource.hotend, 0, TempErrorType.max)]
           {| memory := {| err := model_unasserted; rest := () |}; standing := outside |});
    try reflexivity.
  unfold well_formed. simpl. lia.
Defined.

End ErrorHandlingFacts.

(** ** Babystepping *)

Module BabystepFacts.
Import Babystep.

(** One call on the three axes. *)
Lemma apply_three x y z :
  int x -> int y -> int z ->
  applyBabysteps [x; y; z] =
  ([toward_zero x; toward_zero y; toward_zero z],
   moves_of 0 x ++ moves_of 1 y ++ moves_of 2 z).
Proof.
  unfold int. intros Hx Hy Hz. unfold applyBabysteps, apply_axis, toward_zero, moves_of.
  cbn [lookup list_lookup].
  destruct (Z.gtb_spec x 0), (Z.ltb_spec x 0); try lia;
    cbn [insert list_insert lookup list_lookup];
    destruct (Z.gtb_spec y 0), (Z.ltb_spec y 0); try lia;
    cbn [insert list_insert lookup list_lookup];
    destruct (Z.gtb_spec z 0), (Z.ltb_spec z 0); try lia;
    cbn [insert list_insert lookup list_lookup app];
    rewrite ?MachineFacts.int16_id by lia; reflexivity.
Qed.

Lemma toward_zero_int t : int t -> int (toward_zero t).
Proof.
  unfold int, toward_zero. intros H.
  destruct (Z.gtb_spec t 0), (Z.ltb_spec t 0); lia.
Qed.

Lemma left_after_succ n t : left_after (S n) t = left_after n (toward_zero t).
Proof.
  unfold left_after, toward_zero. rewrite Nat2Z.inj_succ.
  destruct (Z.gtb_spec t 0), (Z.ltb_spec t 0); try lia;
    repeat match goal with |- context [?a >? ?b] => destruct (Z.gtb_spec a b) end; lia.
Qed.

Lemma net_app axis m1 m2 : net axis (m1 ++ m2) = net axis m1 + net axis m2.
Proof. unfold net. induction m1 as [|m m1 IH]; cbn [app fold_right]; [lia | rewrite IH; lia]. Qed.

Lemma net_moves_of axis a t :
  net axis (moves_of a t) = if Nat.eqb a axis then t - toward_zero t else 0.
Proof.
  unfold moves_of, toward_zero, net.
  destruct (Z.gtb_spec t 0), (Z.ltb_spec t 0); try lia; cbn [fold_right fst snd];
    destruct (Nat.eqb a axis); lia.
Qed.

(** X16.  Over any number of calls of [applyBabysteps] with nothing else
    writing [babystepsTodo], on every axis the steps made (forward
    less backward) and the steps still to do add up to the steps that
    were asked for; what is left shrinks by one per call and stops at
    zero, so an axis is never stepped past its request. *)
Theorem babysteps_conserved (n : nat) (x y z : Z) :
  -32768 <= x <= 32767 -> -32768 <= y <= 32767 -> -32768 <= z <= 32767 ->
  let todo := fst (calls n [x; y; z]) in
  let moves := snd (calls n [x; y; z]) in
  todo = [left_after n x; left_after n y; left_after n z] /\
  net 0 moves + left_after n x = x /\
  net 1 moves + left_after n y = y /\
  net 2 moves + left_after n z = z.
Proof.
  cbv zeta. revert x y z. induction n as [|n IH]; intros x y z Hx Hy Hz.
  - cbn [calls fst snd]. unfold left_after, net. cbn [fold_right Z.of_nat].
    repeat match goal with |- context [?a >? ?b] => destruct (Z.gtb_spec a b) end;
      repeat split; try reflexivity; try lia; f_equal; try lia; f_equal; try lia;
      f_equal; lia.
  - cbn [calls]. rewrite apply_three by trivial.
    destruct (IH (toward_zero x) (toward_zero y) (toward_zero z)
                (toward_zero_int x Hx) (toward_zero_int y Hy) (toward_zero_int z Hz))
      as (Hl & H0 & H1 & H2).
    destruct (calls n [toward_zero x; toward_zero y; toward_zero z]) as [t2 m2].
    cbn [fst snd] in *. rewrite !left_after_succ, !net_app, !net_moves_of.
    cbn [Nat.eqb]. repeat split; trivial; lia.
Qed.

Lemma babysteps_conserved_witness :
  fst (calls 5 [3; -7; 0]) = [0; -2; 0] /\
  net 0 (snd (calls 5 [3; -7; 0])) = 3 /\
  net 1 (snd (calls 5 [3; -7; 0])) = -5.
Proof.
  destruct (babysteps_conserved 5 3 (-7) 0) as (H & H0 & H1 & _); try lia.
  split; [exact H |]. change (left_after 5 3) with 0 in H0.
  change (left_after 5 (-7)) with (-2) in H1. split; lia.
Defined.

End BabystepFacts.

(** ** Setting the temperature model's parameters *)

Module ModelSettingsFacts.
Import F32 F32Facts TempModel TempModelFacts ModelSettings.

Lemma gt_zero_ge x : gt x (of_Z 0) = true -> ge x (of_Z 0) = true.
Proof. unfold gt, ge. apply lt_le. Qed.

Lemma setup_data m :
  P (data (setup m)) = P (data m) /\ C (data (setup m)) = C (data m) /\
  R (data (setup m)) = R (data m) /\ Ta_corr (data (setup m)) = Ta_corr (data m) /\
  warn (data (setup m)) = warn (data m) /\ err (data (setup m)) = err (data m) /\
  uninitialized (data (setup m)) = true.
Proof. cbn. auto 10. Qed.

Lemma setup_calibrated m : calibrated (data (setup m)) = calibrated (data m).
Proof. reflexivity. Qed.

Lemma setup_enabled m :
  enabled (setup m) = calibrated (data m) && enabled m.
Proof. cbn. destruct (calibrated (data m)); reflexivity. Qed.

(** X17.  [temp_model_set_params] never invalidates a calibration, whatever
    it is given (NaN, zero, negative or infinite values included): a
    calibrated model stays calibrated and keeps its enabled flag.
    Afterwards [warn > err] does not hold, and the model is marked
    for re-initialisation. *)
Theorem set_params_keeps_calibration (C P Ta_corr warn err : float) (m : model) :
  calibrated (data m) = true ->
  let m' := temp_model_set_params C P Ta_corr warn err m in
  calibrated (data m') = true /\ enabled m' = enabled m /\
  gt (TempModel.warn (data m')) (TempModel.err (data m')) = false /\
  uninitialized (data m') = true.
Proof.
  intros Hc m'. subst m'. unfold temp_model_set_params.
  apply calibrated_iff in Hc as (HP & HC & HR).
  set (m1 := {| data := _ |}).
  assert (Hc1 : calibrated (data m1) = true).
  { apply calibrated_iff. cbn [data TempModel.P TempModel.C TempModel.R m1].
    split; [| split; [| exact HR]].
    - destruct (negb (is_nan P) && gt P (of_Z 0)) eqn:E; [| exact HP].
      apply andb_prop in E as [_ E]. now apply gt_zero_ge.
    - destruct (negb (is_nan C) && gt C (of_Z 0)) eqn:E; [| exact HC].
      apply andb_prop in E as [_ E]. now apply gt_zero_ge. }
  rewrite setup_calibrated, setup_enabled, Hc1. cbn [andb].
  split; [reflexivity |]. split; [reflexivity |]. split; [| reflexivity].
  cbn [setup data TempModel.warn TempModel.err m1].
  match goal with |- gt (if gt ?w ?e then _ else _) _ = false => destruct (gt w e) eqn:E end.
  - apply lt_irrefl.
  - exact E.
Qed.

Lemma set_params_keeps_calibration_witness :
  let m' := temp_model_set_params nan (of_Z (-3)) nan (of_Z 5) (of_Z 2) running in
  calibrated (data m') = true /\ enabled m' = true /\
  gt (TempModel.warn (data m')) (TempModel.err (data m')) = false /\
  uninitialized (data m') = true.
Proof.
  intros m'.
  apply (set_params_keeps_calibration nan (of_Z (-3)) nan (of_Z 5) (of_Z 2) running).
  reflexivity.
Defined.

Lemma resistances_ok_iff r :
  resistances_ok r = true <->
  forall i, (i < TEMP_MODEL_R_SIZE)%nat -> exists x, r !! i = Some x /\ ge x (of_Z 0) = true.
Proof.
  unfold resistances_ok. rewrite forallb_forall. split.
  - intros H i Hi. specialize (H i ltac:(apply in_seq; lia)).
    destruct (r !! i) as [x|]; [eauto | discriminate].
  - intros H i Hi. apply in_seq in Hi. destruct (H i ltac:(lia)) as (x & -> & Hx). exact Hx.
Qed.

(** X18.  [temp_model_set_resistance] refuses an index past the table and
    a resistance that compares [<= 0]; a NaN compares so with
    nothing, is stored, and leaves the model uncalibrated and
    disabled.  Any other call keeps a calibrated model calibrated. *)
Theorem set_resistance_calibration (index : Z) (R : float) (m : model) :
  0 <= index < 256 -> length (TempModel.R (data m)) = TEMP_MODEL_R_SIZE ->
  calibrated (data m) = true ->
  let m' := temp_model_set_resistance index R m in
  (calibrated (data m') = false <-> index < 16 /\ is_nan R = true) /\
  (index < 16 -> is_nan R = true ->
     TempModel.R (data m') !! Z.to_nat index = Some nan /\ enabled m' = false) /\
  (calibrated (data m') = true -> enabled m' = enabled m).
Proof.
  intros Hi Hlen Hc m'. subst m'. unfold temp_model_set_resistance.
  change (Z.of_nat TEMP_MODEL_R_SIZE) with 16.
  destruct (Z.geb_spec index 16) as [Hge | Hlt]; cbn [orb].
  { rewrite Hc. split; [split; [discriminate | lia] |]. split; [lia | reflexivity]. }
  destruct (is_nan R) eqn:Hnan.
  - destruct R; try discriminate Hnan. cbn [le SFleb SFcompare].
    set (m1 := {| data := _ |}).
    assert (Hl : TempModel.R (data m1) !! Z.to_nat index = Some nan).
    { cbn. apply list_lookup_insert_eq. rewrite Hlen. unfold TEMP_MODEL_R_SIZE. lia. }
    assert (Hc1 : calibrated (data m1) = false).
    { destruct (calibrated (data m1)) eqn:E; [| reflexivity].
      apply calibrated_iff in E as (_ & _ & E).
      destruct (proj1 (resistances_ok_iff _) E (Z.to_nat index)
                  ltac:(unfold TEMP_MODEL_R_SIZE; lia)) as (x & Hx & Hx0).
      rewrite Hl in Hx. injection Hx as <-. discriminate Hx0. }
    rewrite setup_calibrated, setup_enabled, Hc1.
    split; [tauto |]. split; [| discriminate]. intros _ _. split; [exact Hl | reflexivity].
  - destruct (le R (of_Z 0)) eqn:Hle.
    { rewrite Hc. split; [split; [discriminate | intros [_ ?]; discriminate] |].
      split; [discriminate | reflexivity]. }
    set (m1 := {| data := _ |}).
    assert (HR : ge R (of_Z 0) = true).
    { unfold ge. apply lt_le.
      destruct (lt (of_Z 0) R) eqn:Hgt; [reflexivity |].
      rewrite (not_lt_le (of_Z 0) R eq_refl Hnan Hgt) in Hle. discriminate. }
    assert (Hc1 : calibrated (data m1) = true).
    { apply calibrated_iff in Hc as (HP & HC & Hok). apply calibrated_iff.
      cbn [data TempModel.P TempModel.C TempModel.R m1].
      split; [exact HP |]. split; [exact HC |].
      apply resistances_ok_iff. intros i Hi16.
      destruct (proj1 (resistances_ok_iff _) Hok i Hi16) as (x & Hx & Hx0).
      destruct (decide (i = Z.to_nat index)) as [-> | Hne].
      - exists R. split; [| exact HR]. apply list_lookup_insert_eq.
        rewrite Hlen. exact Hi16.
      - exists x. split; [| exact Hx0]. rewrite list_lookup_insert_ne by congruence.
        exact Hx. }
    rewrite setup_calibrated, setup_enabled, Hc1. cbn [andb].
    split; [split; [discriminate | intros [_ ?]; discriminate] |].
    split; [discriminate | reflexivity].
Qed.

Lemma set_resistance_calibration_witness :
  let m' := temp_model_set_resistance 3 nan running in
  TempModel.R (data m') !! 3%nat = Some nan /\ enabled m' = false.
Proof.
  intros m'.
  apply (set_resistance_calibration 3 nan running); try reflexivity; lia.
Defined.

End ModelSettingsFacts.

(** ** The model's warning *)

Module ModelWarningFacts.
Import F32 ModelWarning.

Lemma handle_warning_first warn interval beep st :
  first st = true ->
  first (fst (handle_warning warn interval beep st)) = true /\
  existsb is_toggle (snd (handle_warning warn interval beep st)) = false.
Proof.
  intros Hf. unfold handle_warning. rewrite Hf.
  destruct (assert (ws st)), beep; cbn; auto.
Qed.

(** X19.  [handle_warning] never toggles the beeper: its flag [first] is
    set when a warning is cleared and never reset, so over any run
    of passes of [manage_heater], whatever [temp_model::check] makes
    of the warning state in between, the flag stays set and no pass
    toggles the beeper. *)
Theorem beeper_never_toggled (interval : float) (ps : list pass) (st : state) :
  first st = true ->
  first (fst (passes interval ps st)) = true /\
  existsb is_toggle (snd (passes interval ps st)) = false.
Proof.
  revert st. induction ps as [|p ps IH]; intros st Hf; cbn [passes].
  - auto.
  - set (st0 := {| ws := checked p (ws st); first := first st |}).
    assert (H1 : first (fst (if warning (ws st0)
                             then handle_warning (warn p) interval (warn_beep p) st0
                             else (st0, []))) = true /\
                 existsb is_toggle (snd (if warning (ws st0)
                             then handle_warning (warn p) interval (warn_beep p) st0
                             else (st0, []))) = false).
    { destruct (warning (ws st0)); [now apply handle_warning_first | auto]. }
    destruct (if warning (ws st0) then _ else _) as [st1 a1]. cbn [fst snd] in H1.
    destruct H1 as [Hf1 Ha1]. specialize (IH st1 Hf1).
    destruct (passes interval ps st1) as [st2 a2]. cbn [fst snd] in *.
    rewrite existsb_app, Ha1. exact IH.
Qed.

Lemma beeper_never_toggled_witness :
  let w := {| dT_err := of_Z 1; warning := false; assert := false |} in
  existsb is_toggle (snd (passes (literal 27 100) persisting (initial w))) = false.
Proof.
  intros w. apply (beeper_never_toggled (literal 27 100) persisting (initial w)). reflexivity.
Defined.

End ModelWarningFacts.

(** ** The temperature model at run time *)

Module ModelStepFacts.
Import F32 ModelStep.

(** *** The lag buffer *)

Lemma next_idx_mod cfg d :
  0 < TEMP_MODEL_LAG_SIZE cfg <= 256 -> 0 <= dT_lag_idx d < TEMP_MODEL_LAG_SIZE cfg ->
  dT_next_idx cfg d = (dT_lag_idx d + 1) mod TEMP_MODEL_LAG_SIZE cfg.
Proof.
  intros HL Hi. unfold dT_next_idx.
  destruct (Z.eqb_spec (dT_lag_idx d) (TEMP_MODEL_LAG_SIZE cfg - 1)) as [E | E].
  - rewrite E. replace (TEMP_MODEL_LAG_SIZE cfg - 1 + 1) with (TEMP_MODEL_LAG_SIZE cfg) by lia.
    now rewrite Z.mod_same by lia.
  - rewrite Z.mod_small by lia. unfold Machine.uint8, Machine.wrap_unsigned.
    change (2 ^ 8) with 256. apply Z.mod_small. lia.
Qed.

Lemma step_lag_ok cfg r d :
  0 < TEMP_MODEL_LAG_SIZE cfg <= 256 -> lag_ok cfg d -> lag_ok cfg (step_on cfg r d).
Proof.
  intros HL [Hlen Hi]. unfold lag_ok, step_on, step. cbn [dT_lag_buf dT_lag_idx].
  rewrite length_insert. split; [exact Hlen |].
  rewrite next_idx_mod by trivial. apply Z.mod_pos_bound. lia.
Qed.

Lemma element_insert_eq a i x :
  0 <= i < Z.of_nat (length a) -> element (<[Z.to_nat i := x]> a) i = x.
Proof.
  intros Hi. unfold element. rewrite list_lookup_insert_eq; [reflexivity | lia].
Qed.

Lemma element_insert_ne a i j x :
  0 <= i -> 0 <= j -> i <> j -> element (<[Z.to_nat i := x]> a) j = element a j.
Proof.
  intros Hi Hj Hne. unfold element. rewrite list_lookup_insert_ne; [reflexivity | lia].
Qed.

Lemma mod_shift_ne L i k :
  0 < L -> 0 <= i < L -> 0 < k < L -> (i + k) mod L <> i.
Proof.
  intros HL Hi Hk E.
  pose proof (Z.div_mod (i + k) L ltac:(lia)) as Hdm. rewrite E in Hdm.
  set (q := (i + k) / L) in Hdm. clearbody q.
  assert (Hq : k = L * q) by lia.
  destruct (Z.lt_trichotomy q 0) as [? | [-> | ?]]; nia.
Qed.

(** The slot written by one step is left alone by the steps that
    follow, as long as they are fewer than the size of the buffer. *)
Lemma steps_keep_slot cfg slot x rs : forall d k,
  0 < TEMP_MODEL_LAG_SIZE cfg <= 256 -> lag_ok cfg d ->
  0 <= slot < TEMP_MODEL_LAG_SIZE cfg -> 0 <= k ->
  k + Z.of_nat (length rs) < TEMP_MODEL_LAG_SIZE cfg ->
  dT_lag_idx d = (slot + k) mod TEMP_MODEL_LAG_SIZE cfg ->
  element (dT_lag_buf d) slot = x ->
  lag_ok cfg (steps cfg rs d) /\
  dT_lag_idx (steps cfg rs d) = (slot + k + Z.of_nat (length rs)) mod TEMP_MODEL_LAG_SIZE cfg /\
  element (dT_lag_buf (steps cfg rs d)) slot = x.
Proof.
  induction rs as [|r rs IH]; intros d k HL Hok Hs Hk Hn Hidx Hx.
  - cbn [steps fold_left length Z.of_nat]. rewrite Z.add_0_r. auto.
  - cbn [steps fold_left]. fold (steps cfg rs (step_on cfg r d)).
    cbn [length] in Hn |- *. rewrite Nat2Z.inj_succ in Hn |- *.
    pose proof (step_lag_ok cfg r d HL Hok) as Hok1.
    assert (Hidx1 : dT_lag_idx (step_on cfg r d)
                    = (slot + (k + 1)) mod TEMP_MODEL_LAG_SIZE cfg).
    { unfold step_on, step. cbn [dT_lag_idx]. rewrite next_idx_mod by (trivial; apply Hok).
      rewrite Hidx, Z.add_mod_idemp_l by lia. f_equal. lia. }
    destruct (IH (step_on cfg r d) (k + 1) HL Hok1 Hs ltac:(lia) ltac:(lia) Hidx1)
      as (H1 & H2 & H3).
    + unfold step_on at 1, step. cbn [dT_lag_buf].
      fold (step_on cfg r d).
      assert (Hnext : dT_next_idx cfg d = (slot + (k + 1)) mod TEMP_MODEL_LAG_SIZE cfg).
      { rewrite <- Hidx1. reflexivity. }
      rewrite element_insert_ne; trivial.
      * rewrite Hnext. apply Z.mod_pos_bound. lia.
      * lia.
      * rewrite Hnext. apply mod_shift_ne; lia.
    + split; [exact H1 |]. split; [| exact H3]. rewrite H2. f_equal. lia.
Qed.

(** X20.  The lag buffer delays by exactly [TEMP_MODEL_LAG_SIZE] steps: the
    index stays within the array, and after [TEMP_MODEL_LAG_SIZE]
    steps the value that the next step reads as [dT_lag] is the
    filtered value [dT_f] that the first of them has written. *)
Theorem lag_buffer_delay (cfg : config) (r0 : reading) (rs : list reading) (d : model_data) :
  0 < TEMP_MODEL_LAG_SIZE cfg <= 256 -> lag_ok cfg d ->
  Z.of_nat (length rs) = TEMP_MODEL_LAG_SIZE cfg - 1 ->
  lag_ok cfg (steps cfg (r0 :: rs) d) /\
  dT_lag cfg (steps cfg (r0 :: rs) d)
  = dT_f cfg (heater_pwm_of r0) (fan_pwm_of r0) (heater_temp_of r0) (ambient_temp_of r0) d.
Proof.
  intros HL Hok Hlen.
  cbn [steps fold_left]. fold (steps cfg rs (step_on cfg r0 d)).
  pose proof (step_lag_ok cfg r0 d HL Hok) as Hok1.
  set (slot := dT_next_idx cfg d).
  assert (Hslot : 0 <= slot < TEMP_MODEL_LAG_SIZE cfg).
  { subst slot. rewrite next_idx_mod by (trivial; apply Hok). apply Z.mod_pos_bound. lia. }
  destruct (steps_keep_slot cfg slot
              (dT_f cfg (heater_pwm_of r0) (fan_pwm_of r0) (heater_temp_of r0)
                    (ambient_temp_of r0) d)
              rs (step_on cfg r0 d) 0 HL Hok1 Hslot ltac:(lia) ltac:(lia))
    as (H1 & H2 & H3).
  - unfold step_on, step. cbn [dT_lag_idx]. fold slot.
    rewrite Z.add_0_r, Z.mod_small by lia. reflexivity.
  - unfold step_on, step. cbn [dT_lag_buf]. fold slot.
    apply element_insert_eq. destruct Hok as [Hl _]. lia.
  - split; [exact H1 |]. unfold dT_lag.
    rewrite next_idx_mod by (trivial; apply H1). rewrite H2, Hlen.
    replace (slot + 0 + (TEMP_MODEL_LAG_SIZE cfg - 1)) with
      (slot - 1 + 1 * TEMP_MODEL_LAG_SIZE cfg) by lia.
    rewrite Z.mod_add by lia.
    rewrite Z.add_mod_idemp_l by lia.
    replace (slot - 1 + 1) with slot by lia.
    rewrite Z.mod_small by lia. exact H3.
Qed.

Lemma lag_buffer_delay_witness :
  let rs := map (reading_at 127) [30; 35; 40; 45; 50; 55; 60; 65] in
  dT_lag example_config (steps example_config rs example_data)
  = dT_f example_config 127 0 (of_Z 30) (of_Z 25) example_data.
Proof.
  intros rs.
  apply (lag_buffer_delay example_config (reading_at 127 30)
           (map (reading_at 127) [35; 40; 45; 50; 55; 60; 65]) example_data).
  - simpl. lia.
  - split; simpl; lia.
  - reflexivity.
Defined.

(** *** A reading that is not a number *)

Lemma mul_nan_l x : mul nan x = nan.
Proof. destruct x; reflexivity. Qed.

Lemma add_nan_l x : add nan x = nan.
Proof. destruct x; reflexivity. Qed.

Lemma add_nan_r x : add x nan = nan.
Proof. destruct x; reflexivity. Qed.

Lemma sub_nan_l x : sub nan x = nan.
Proof. destruct x; reflexivity. Qed.

Lemma is_nan_eq x : is_nan x = true -> x = nan.
Proof. destruct x; try discriminate. reflexivity. Qed.

Lemma gt_abs_nan x : gt (abs nan) x = false.
Proof. destruct x; reflexivity. Qed.

(** The filtered error is a NaN as soon as the temperature or the
    previous filtered error is one. *)
Lemma dT_err_f_nan cfg heater_temp d :
  is_nan heater_temp = true \/ is_nan (dT_err_prev d) = true ->
  dT_err_f cfg heater_temp d = nan.
Proof.
  unfold dT_err_f. intros [H | H]; apply is_nan_eq in H; rewrite H.
  - now rewrite !sub_nan_l, mul_nan_l, add_nan_r.
  - now rewrite mul_nan_l, add_nan_l.
Qed.

Lemma step_nan cfg r d :
  is_nan (heater_temp_of r) = true \/ is_nan (dT_err_prev d) = true ->
  dT_err_prev (step_on cfg r d) = nan /\
  flag_error (step_on cfg r d) = false /\ flag_warning (step_on cfg r d) = false /\
  params (step_on cfg r d) = params d.
Proof.
  intros H. unfold step_on, step. cbn [dT_err_prev flag_error flag_warning params].
  rewrite (dT_err_f_nan cfg _ d H), !gt_abs_nan. auto.
Qed.

Lemma check_nan cfg r d w :
  is_nan (heater_temp_of r) = true \/
  (is_nan (dT_err_prev d) = true /\ TempModel.uninitialized (params d) = false) ->
  let '(d1, w1, calls) := check cfg true r d w in
  calls = [] /\ ModelWarning.assert w1 = false /\
  ModelWarning.warning w1 = ModelWarning.warning w /\
  is_nan (dT_err_prev d1) = true /\ TempModel.uninitialized (params d1) = false.
Proof.
  intros H. cbn [check negb]. unfold check_enabled.
  set (d0 := if TempModel.uninitialized (params d) then _ else d).
  assert (H0 : (is_nan (heater_temp_of r) = true \/ is_nan (dT_err_prev d0) = true) /\
               TempModel.uninitialized (params d0) = false).
  { subst d0. destruct (TempModel.uninitialized (params d)) eqn:Hu.
    - split; [| reflexivity]. destruct H as [H | [_ H]]; [now left | discriminate].
    - split; [| exact Hu]. destruct H as [H | [H _]]; auto. }
  destruct H0 as [Hn Hu].
  fold (step_on cfg r d0).
  destruct (step_nan cfg r d0 Hn) as (Hp & He & Hw & Hpar).
  rewrite He, Hw, Hp, Hpar. cbn. auto.
Qed.

Lemma checks_nan cfg rs : forall d w,
  is_nan (dT_err_prev d) = true -> TempModel.uninitialized (params d) = false ->
  ModelWarning.assert w = false ->
  let '(d1, w1, calls) := checks cfg true rs d w in
  calls = [] /\ ModelWarning.assert w1 = false /\
  ModelWarning.warning w1 = ModelWarning.warning w /\
  is_nan (dT_err_prev d1) = true.
Proof.
  induction rs as [|r rs IH]; intros d w Hn Hu Ha; cbn [checks].
  - auto.
  - pose proof (check_nan cfg r d w (or_intror (conj Hn Hu))) as H1.
    destruct (check cfg true r d w) as [[d1 w1] c1].
    destruct H1 as (-> & Ha1 & Hw1 & Hn1 & Hu1).
    specialize (IH d1 w1 Hn1 Hu1 Ha1).
    destruct (checks cfg true rs d1 w1) as [[d2 w2] c2].
    destruct IH as (-> & Ha2 & Hw2 & Hn2).
    split; [reflexivity |]. split; [exact Ha2 |]. split; [congruence | exact Hn2].
Qed.

(** X21.  A hotend temperature that is not a number blinds the model: on
    the pass of [temp_model::check] that reads it and on every later
    pass (the settings being left alone), whatever is read then, no
    model error is raised and no warning is asserted. *)
Theorem model_blind_after_nan
    (cfg : config) (r0 : reading) (rs : list reading) (d : model_data)
    (w : ModelWarning.warning_state_t) :
  is_nan (heater_temp_of r0) = true ->
  let '(d1, w1, calls) := checks cfg true (r0 :: rs) d w in
  calls = [] /\ ModelWarning.assert w1 = false /\
  ModelWarning.warning w1 = ModelWarning.warning w /\
  is_nan (dT_err_prev d1) = true.
Proof.
  intros Hn. cbn [checks].
  pose proof (check_nan cfg r0 d w (or_introl Hn)) as H1.
  destruct (check cfg true r0 d w) as [[d1 w1] c1].
  destruct H1 as (-> & Ha1 & Hw1 & Hn1 & Hu1).
  pose proof (checks_nan cfg rs d1 w1 Hn1 Hu1 Ha1) as H2.
  destruct (checks cfg true rs d1 w1) as [[d2 w2] c2].
  destruct H2 as (-> & Ha2 & Hw2 & Hn2).
  split; [reflexivity |]. split; [exact Ha2 |]. split; [congruence | exact Hn2].
Qed.

Lemma model_blind_after_nan_witness :
  let w := {| ModelWarning.dT_err := of_Z 0; ModelWarning.warning := false;
              ModelWarning.assert := false |} in
  let glitch := {| heater_pwm_of := 127; fan_pwm_of := 0; heater_temp_of := nan;
                   ambient_temp_of := of_Z 25 |} in
  let '(d1, w1, calls) :=
    checks example_config true [glitch; reading_at 127 25; reading_at 127 250]
           example_data w in
  calls = [] /\ ModelWarning.assert w1 = false /\
  ModelWarning.warning w1 = ModelWarning.warning w /\
  is_nan (dT_err_prev d1) = true.
Proof.
  intros w glitch.
  apply (model_blind_after_nan example_config glitch
           [reading_at 127 25; reading_at 127 250] example_data w).
  reflexivity.
Defined.

End ModelStepFacts.

(** ** The alert after a min-temp error *)

Module MintempAlertFacts.
Import F32 MintempAlert.

Lemma substep_cases next a :
  0 <= repeat a <= 5 ->
  (repeat a = 0 /\ substep next a = {| state := next; repeat := 5 |}) \/
  (0 < repeat a /\ substep next a = {| state := state a; repeat := repeat a - 1 |}).
Proof.
  intros Hr. unfold substep. destruct (Z.eqb_spec (repeat a) 0) as [E | E].
  - left. auto.
  - right. split; [lia |]. f_equal. unfold Machine.uint8, Machine.wrap_unsigned.
    change (2 ^ 8) with 256. apply Z.mod_small. lia.
Qed.

(** One call of an alerting automaton shows a message, and either it
    is "Please restart" or that message is one call nearer. *)
Lemma step_alerting current mintemp a :
  alerting a ->
  alerting (fst (step current mintemp a)) /\
  (snd (step current mintemp a) = Some m1 \/
   snd (step current mintemp a) = Some m2 /\
   calls_to_restart (fst (step current mintemp a)) = calls_to_restart a - 1).
Proof.
  unfold alerting, ALERT_AUTOMATON_SPEED_DIV. intros [Hs Hr].
  unfold step, calls_to_restart. destruct (state a) eqn:Es; [congruence | | |].
  - destruct (substep_cases ShowMintemp a Hr) as [[H0 ->] | [H0 ->]]; rewrite ?Es; cbn.
    + split; [split; [discriminate | lia] |]. right. split; [reflexivity | lia].
    + split; [split; [discriminate | lia] |]. right. split; [reflexivity | lia].
  - destruct (substep_cases ShowMintemp a Hr) as [[H0 ->] | [H0 ->]]; rewrite ?Es; cbn.
    + split; [split; [discriminate | lia] |]. left. reflexivity.
    + split; [split; [discriminate | lia] |]. left. reflexivity.
  - destruct (substep_cases ShowPleaseRestart a Hr) as [[H0 ->] | [H0 ->]]; rewrite ?Es; cbn.
    + split; [split; [discriminate | lia] |]. right. split; [reflexivity | lia].
    + split; [split; [discriminate | lia] |]. right. split; [reflexivity | lia].
Qed.

Lemma calls_to_restart_pos a : alerting a -> 1 <= calls_to_restart a <= 13.
Proof.
  unfold alerting, calls_to_restart, ALERT_AUTOMATON_SPEED_DIV. intros [Hs Hr].
  destruct (state a); [congruence | lia | lia | lia].
Qed.

Lemma steps_alerting temps : forall a,
  alerting a ->
  alerting (fst (steps temps a)) /\
  Forall (fun shown => shown <> None) (snd (steps temps a)) /\
  (calls_to_restart a <= Z.of_nat (length temps) -> In (Some m1) (snd (steps temps a))).
Proof.
  induction temps as [|t temps IH]; intros a Ha; cbn [steps].
  - cbn [fst snd length]. split; [exact Ha |]. split; [constructor |].
    pose proof (calls_to_restart_pos a Ha). cbn. lia.
  - destruct (step_alerting (fst t) (snd t) a Ha) as [Ha1 Hshown].
    destruct (step (fst t) (snd t) a) as [a1 shown]. cbn [fst snd] in *.
    destruct (IH a1 Ha1) as (Ha2 & Hall & Hlive).
    destruct (steps temps a1) as [a2 shown']. cbn [fst snd length] in *.
    split; [exact Ha2 |]. split.
    + constructor; [| exact Hall]. destruct Hshown as [-> | [-> _]]; discriminate.
    + intros Hn. destruct Hshown as [-> | [_ Hc]]; [now left | right].
      apply Hlive. lia.
Qed.

(** X22.  Once the automaton has left [Init] there is no way back and no
    recovery: whatever the temperatures, it never returns to [Init],
    every call shows a message, and "Please restart" is shown within
    13 calls. *)
Theorem alert_asks_for_restart
    (temps : list (float * float)) (a : alert_automaton_mintemp) :
  alerting a -> (13 <= length temps)%nat ->
  state (fst (steps temps a)) <> Init /\
  Forall (fun shown => shown <> None) (snd (steps temps a)) /\
  In (Some m1) (snd (steps temps a)).
Proof.
  intros Ha Hn. destruct (steps_alerting temps a Ha) as (Ha1 & Hall & Hlive).
  split; [apply Ha1 |]. split; [exact Hall |]. apply Hlive.
  pose proof (calls_to_restart_pos a Ha). lia.
Qed.

Lemma alert_asks_for_restart_witness :
  In (Some m1)
     (snd (steps (List.repeat (of_Z 20, of_Z 15) 14) initial)).
Proof.
  change (steps (List.repeat (of_Z 20, of_Z 15) 14) initial)
    with (let '(a2, shown') :=
            steps (List.repeat (of_Z 20, of_Z 15) 13)
                  {| state := TempAboveMintemp; repeat := 5 |} in
          (a2, None :: shown')).
  destruct (alert_asks_for_restart (List.repeat (of_Z 20, of_Z 15) 13)
              {| state := TempAboveMintemp; repeat := 5 |}) as (_ & _ & H).
  - split; [discriminate | unfold ALERT_AUTOMATON_SPEED_DIV; simpl; lia].
  - simpl. lia.
  - destruct (steps _ _) as [a2 shown']. right. exact H.
Defined.

(** X23.  While the temperature has not risen above the limit (a NaN never
    has), the automaton stays in [Init] and shows nothing. *)
Theorem alert_waits_for_temperature (temps : list (float * float)) :
  Forall (fun t => gt (fst t) (snd t) = false) temps ->
  steps temps initial = (initial, List.repeat None (length temps)).
Proof.
  induction temps as [|t temps IH]; intros Hall; [reflexivity |].
  inversion Hall as [|? ? Ht Hts]; subst. cbn [steps step initial state].
  rewrite Ht. fold initial. rewrite (IH Hts). reflexivity.
Qed.

Lemma alert_waits_for_temperature_witness :
  steps [(of_Z 10, of_Z 15); (nan, of_Z 15)] initial = (initial, [None; None]).
Proof.
  apply (alert_waits_for_temperature [(of_Z 10, of_Z 15); (nan, of_Z 15)]).
  repeat constructor.
Defined.

End MintempAlertFacts.

(** ** The estimation of a model parameter *)

Module ModelCalFacts.
Import F32 ModelStep ModelCal.

Lemma read_write var v d : within var d -> read var (write var v d) = v.
Proof.
  destruct var as [|i]; cbn; [reflexivity |]. intros Hi.
  unfold element. rewrite Nat2Z.id, list_lookup_insert_eq; [reflexivity | exact Hi].
Qed.

Lemma write_within var var' v d : within var' d -> within var' (write var v d).
Proof.
  destruct var' as [|j]; cbn; [trivial |].
  destruct var as [|i]; [trivial |]. now rewrite length_insert.
Qed.

Section Estimate.

Variable cfg : config.
Variable rec_buffer : list rec_entry.
Variable samples : Z.
Variable var : variable.
Variable fan_pwm : Z.
Variable ambient : float.

Local Abbreviation cost_fn := (cost_fn cfg rec_buffer samples var fan_pwm ambient).
Local Abbreviation accumulate := (accumulate cfg rec_buffer samples fan_pwm ambient).

Lemma accumulate_params d : params (fst (accumulate d)) = params d.
Proof.
  unfold ModelCal.accumulate.
  generalize (of_Z 0). revert d.
  induction (seq 1 (Z.to_nat samples - 1)) as [|i l IH]; intros d acc; cbn [fold_left fst snd].
  - reflexivity.
  - rewrite IH. reflexivity.
Qed.

(** [cost_fn] leaves the parameters as it has set them, but for the
    flag [uninitialized]. *)
Lemma cost_fn_within var' v d : within var' d -> within var' (fst (cost_fn v d)).
Proof.
  intros Hw. unfold ModelCal.cost_fn.
  set (d0 := reset _ _ _ _ _ _).
  assert (H0 : TempModel.R (params d0) = TempModel.R (params (write var v d))) by reflexivity.
  pose proof (accumulate_params d0) as Hp.
  destruct (accumulate d0) as [d1 err]. cbn [fst] in *.
  apply (write_within var var' v) in Hw.
  destruct var' as [|j]; cbn [within] in *; [trivial |]. now rewrite Hp, H0.
Qed.

Variables min max thr : float.
Variable max_itr : Z.

Local Abbreviation iterate :=
  (iterate cfg rec_buffer samples var fan_pwm ambient min max thr max_itr).
Local Abbreviation estimate :=
  (estimate cfg rec_buffer samples var fan_pwm ambient min max thr max_itr).

Local Abbreviation returned := (returned var min max thr).

Lemma lt_not_nan e : lt e thr = true -> is_nan e = false.
Proof. destruct e, thr; try discriminate; reflexivity. Qed.

Lemma iterate_returns (n : nat) : forall orig it bounds points d said,
  max_itr <= 255 -> 0 <= it -> it + Z.of_nat n = max_itr -> within var d ->
  exists result,
    iterate (S n) orig it bounds points d said = Some result /\
    returned orig result /\
    (length (snd result) <= length said + n)%nat.
Proof.
  induction n as [|n IH]; intros orig it bounds points d said Hmax Hit Hn Hw.
  - cbn [ModelCal.iterate]. destruct (Z.eqb_spec it max_itr); [| lia].
    eexists. split; [reflexivity |]. split; [| cbn; lia].
    cbn. split; [intros _; now apply read_write | discriminate].
  - change (iterate (S (S n)) orig it bounds points d said)
      with (if it =? max_itr then Some (write var orig d, nan, said)
            else
              let '(d1, c1) := cost_fn (fst points) d in
              let '(d2, c2) := cost_fn (snd points) d1 in
              let dir := lt c2 c1 in
              let bounds1 := if dir then (fst bounds, fst points)
                             else (snd points, snd bounds) in
              let points1 := update_section bounds1 in
              let x := if dir then fst points1 else snd points1 in
              let e := mul (sub (of_Z 1) GOLDEN_RATIO)
                           (abs (div (sub (fst bounds1) (snd bounds1)) x)) in
              let said1 := said ++ [(it, x, e)] in
              if lt e thr then
                if SFeqb x min || SFeqb x max then Some (write var orig d2, nan, said1)
                else Some (write var x d2, e, said1)
              else iterate (S n) orig (Machine.uint8 (it + 1)) bounds1 points1 d2 said1).
    destruct (Z.eqb_spec it max_itr); [lia |].
    pose proof (cost_fn_within var (fst points) d Hw) as Hw1.
    destruct (cost_fn (fst points) d) as [d1 c1]. cbn [fst] in Hw1.
    pose proof (cost_fn_within var (snd points) d1 Hw1) as Hw2.
    destruct (cost_fn (snd points) d1) as [d2 c2]. cbn [fst] in Hw2.
    cbv zeta.
    set (bounds1 := if lt c2 c1 then _ else _).
    set (x := if lt c2 c1 then _ else _).
    set (e := mul _ _).
    destruct (lt e thr) eqn:He.
    + destruct (SFeqb x min || SFeqb x max) eqn:Hx.
      * eexists. split; [reflexivity |]. split; [| cbn; rewrite length_app; cbn; lia].
        cbn. split; [intros _; now apply read_write | discriminate].
      * apply orb_false_elim in Hx as [Hx1 Hx2].
        eexists. split; [reflexivity |]. split; [| cbn; rewrite length_app; cbn; lia].
        cbn [returned]. split.
        { intros Hnan. rewrite (lt_not_nan e He) in Hnan. discriminate. }
        intros _. split; [exact He |].
        exists said, it, x. split; [reflexivity |]. split; [now apply read_write | auto].
    + assert (Hu : Machine.uint8 (it + 1) = it + 1).
      { unfold Machine.uint8, Machine.wrap_unsigned. change (2 ^ 8) with 256.
        apply Z.mod_small. lia. }
      rewrite Hu.
      destruct (IH orig (it + 1) bounds1 (update_section bounds1) d2 (said ++ [(it, x, e)])
                  Hmax ltac:(lia) ltac:(lia) Hw2) as (result & Hres & Hret & Hlen).
      exists result. split; [exact Hres |]. split; [exact Hret |].
      rewrite length_app in Hlen. cbn [length] in Hlen. lia.
Qed.

(** X24.  [estimate] with [max_itr <= 255] returns after at most [max_itr]
    iterations.  When it returns a NaN, the parameter [*var] is what
    it was before the call; when it returns another value [e], then
    [e < thr], [*var] is the point [x] reported last, and [x] is
    neither [min] nor [max]. *)
Theorem estimate_returns (d : model_data) :
  0 <= max_itr <= 255 -> within var d ->
  exists result,
    estimate (S (Z.to_nat max_itr)) d = Some result /\
    returned (read var d) result /\
    (length (snd result) <= Z.to_nat max_itr)%nat.
Proof.
  intros Hmax Hw. unfold ModelCal.estimate.
  destruct (iterate_returns (Z.to_nat max_itr) (read var d) 0 (min, max)
              (update_section (min, max)) d [] ltac:(lia) ltac:(lia) ltac:(lia) Hw)
    as (result & Hres & Hret & Hlen).
  exists result. split; [exact Hres |]. split; [exact Hret |]. exact Hlen.
Qed.

Lemma iterate_goes_on (fuel : nat) : forall orig it bounds points d said,
  255 < max_itr -> 0 <= it <= 255 ->
  (forall result,
     iterate fuel orig it bounds points d said = Some result ->
     exists before it' x e, snd result = before ++ [(it', x, e)] /\ lt e thr = true) /\
  (is_nan thr = true -> iterate fuel orig it bounds points d said = None).
Proof.
  induction fuel as [|fuel IH]; intros orig it bounds points d said Hmax Hit.
  - cbn [ModelCal.iterate]. split; [discriminate | reflexivity].
  - cbn [ModelCal.iterate]. destruct (Z.eqb_spec it max_itr); [lia |].
    destruct (cost_fn (fst points) d) as [d1 c1].
    destruct (cost_fn (snd points) d1) as [d2 c2]. cbv zeta.
    set (bounds1 := if lt c2 c1 then _ else _).
    set (x := if lt c2 c1 then _ else _).
    set (e := mul _ _).
    assert (Hu : 0 <= Machine.uint8 (it + 1) <= 255).
    { unfold Machine.uint8, Machine.wrap_unsigned. change (2 ^ 8) with 256.
      pose proof (Z.mod_pos_bound (it + 1) 256 ltac:(lia)). lia. }
    destruct (IH orig (Machine.uint8 (it + 1)) bounds1 (update_section bounds1) d2
                (said ++ [(it, x, e)]) Hmax Hu) as [IH1 IH2].
    destruct (lt e thr) eqn:He.
    + split.
      * intros result Hres. exists said, it, x, e.
        destruct (SFeqb x min || SFeqb x max); injection Hres as <-; auto.
      * intros Hnan. destruct thr; try discriminate Hnan. destruct e; discriminate He.
    + split; [exact IH1 | exact IH2].
Qed.

(** X25.  The counter [it] is a [uint8_t] and wraps at 256: with
    [max_itr > 255] the test [it != max_itr] never ends the loop, so
    [estimate] returns only from an iteration that has found
    [e < thr].  With [thr] a NaN it never returns. *)
Theorem estimate_never_gives_up (fuel : nat) (d : model_data) :
  255 < max_itr ->
  (forall result,
     estimate fuel d = Some result ->
     exists before it x e, snd result = before ++ [(it, x, e)] /\ lt e thr = true) /\
  (is_nan thr = true -> estimate fuel d = None).
Proof.
  intros Hmax. unfold ModelCal.estimate. apply iterate_goes_on; [exact Hmax | lia].
Qed.

End Estimate.

Lemma estimate_returns_witness :
  exists result,
    ModelCal.estimate example_config example_recording 4 data_C 0 (of_Z 25)
      (of_Z 5) (of_Z 20) (literal 1 100) 30 31 example_data = Some result /\
    (length (snd result) <= 30)%nat.
Proof.
  destruct (estimate_returns example_config example_recording 4 data_C 0 (of_Z 25)
              (of_Z 5) (of_Z 20) (literal 1 100) 30 example_data)
    as (result & Hres & _ & Hlen).
  - lia.
  - exact I.
  - exists result. split; [exact Hres | exact Hlen].
Defined.

Lemma estimate_never_gives_up_witness :
  ModelCal.estimate example_config example_recording 4 data_C 0 (of_Z 25)
    (of_Z 5) (of_Z 20) nan 300 1000 example_data = None.
Proof.
  apply (estimate_never_gives_up example_config example_recording 4 data_C 0 (of_Z 25)
           (of_Z 5) (of_Z 20) nan 300 1000 example_data).
  - lia.
  - reflexivity.
Defined.

End ModelCalFacts.
